(* ===== verification/_CoqProject ===== *)
-Q . S2P
Prelude.v
MachInt.v
Scalar.v
ScalarLaws.v
Complex.v
Escape.v
Color.v
CString.v
Atoi.v
Output.v
Image.v
Render.v
Exact.v
Symmetry.v
RealAxis.v
Undefined.v
Hook.v
Trees.v
Hoare.v
Exec.v
Main.v
Calls.v
Display.v
Library.v
TreeRender.v
TreeLoop.v
Interaction.v
Order.v
Pixels.v
Protocol.v
Session.v
