(* ===== verification/Prelude.v ===== *)
(** * Fract-ol (MLX42): a verification development for src/main.c

    ** The program

    [src/main.c] renders one of three escape-time fractals (the
    Mandelbrot set, a Julia set with the constant (-0.7, 0.27015), the
    Burning Ship) into a 512 by 512 image of the MLX42 windowing
    library and redraws it when the arrow keys change the zoom.  Its
    parts, leaves first:

    - [Complex], [square], [add]: complex arithmetic on [double];
    - [julia_iterator], [burning_ship_iterator], [mandelbrot_iterator]:
      the escape-time loops, with an [int] counter and the escape test
      [re^2 + im^2 > 4.0];
    - [ft_pixel], [get_color]: the colour of a count, packed in 32 bits;
    - [ft_strncmp], [ft_strlen]: the string routines of the command line;
    - [ft_fractal]: two nested loops over the pixels of the image, which
      read the globals [g_fractal_type], [g_max_iter], [zoom], [image];
    - [ft_hook]: the handler of a tick of the event loop (escape, up,
      down);
    - [main]: the checks of the two arguments, the set-up of the window
      and the image, the first frame, the event loop, the exit status.

    ** The files

    - [Prelude] (this file): the result type with its faults and its
      bind, [while] and [loop] with fuel and their proof rules, the
      tactics shared by the development.
    - [MachInt]: [int], [int32_t], [uint32_t], [size_t] and bytes as
      integers with the wrap-around written out ([wrap_int], ...), the
      faulting division [int_div], bit-field lemmas.
    - [Scalar]: the interface [Scalar] of the floating-point operations
      that the source uses, and its two implementations: [binary64],
      the IEEE 754 doubles of the kernel (a [float] is a double rounded
      to binary32, [float_to_single]), and [exact], the rationals.
    - [ScalarLaws]: the interface [ScalarLaws], an equivalence on the
      values (equality of fractions; equality up to the sign of zero)
      with the sign laws of products, sums and quotients, and its two
      implementations, the binary64 one being derived from the
      specification of the primitive floats.
    - [Complex]: [Complex], [square], [add], [escaped].
    - [Escape]: the three evaluators as [while] loops on the state
      [(z, i)], the reference [escape_count] (first index of the orbit
      that passes the escape test, or the cap), the refinement
      theorems, the contract of the evaluators, the origin.
    - [Color]: [ft_pixel] and [get_color], the ramp and its bounds, the
      sentinel grey, the overflows.
    - [CString]: C strings as the bytes before the terminator,
      [char_at] with checked reads, [ft_strlen], [ft_strncmp] and
      their references [cstrlen] and [strncmp_spec].
    - [Atoi]: [ft_atoi] (modelled from its contract: its file is
      included by [main.c] but is not among the sources) and the
      decimal numeral [decimal] of a number, its reference.
    - [Output]: the format strings of [main], [printf] with the
      directive [%s], [puts].
    - [Image]: the image of the library ([mlx_image], [mlx_put_pixel],
      [mlx_new_image]), which is not part of the sources and is
      modelled from its interface.
    - [Render]: the globals as the record [globals], the coordinate
      mapping, the dispatch [select_iter], [ft_fractal] as two [loop]s
      over [frame_state]; the invariants [column_inv] and [frame_inv];
      the frame theorem, idempotence, the centre pixel.
    - [Exact]: the theorems that hold in exact arithmetic (points
      outside the square of side 4 escape at once; a larger zoom
      narrows the view).
    - [Symmetry]: complex numbers up to the sign of zero, related
      orbits, the symmetry of the Mandelbrot and Julia evaluators for
      every arithmetic with the laws, and of the rendered frames on
      binary64.
    - [RealAxis]: the relation between the orbits of the Mandelbrot
      and Burning Ship evaluators at a point of the real axis, their
      equal counts on binary64, the row 256 of the two frames.
    - [Undefined]: NaN coordinates on binary64: they stay in the orbit
      and fail every escape test.
    - [Hook]: the state [world] of the running program (globals, close
      request, number of frames rendered), [ft_hook], the event loop
      [mlx_loop] on a list of key states and as the step relation
      [tick]; the invariant [loop_inv]; the zoom on binary64.
    - [Trees]: interaction trees of programs that can fault: the bind
      [rbind], the loop [while_tree] (an [ITree.iter], without fuel),
      the predicate [runs] of a tree against a handler with one rule
      per construct, the rule [runs_loop] that turns a run of a
      [loop] with fuel into a run of the loop of trees, and the
      predicate [diverges] (the tree has no run) with the rules of a
      sequence and of a loop that keeps an invariant.
    - [Hoare]: a logic of partial correctness for the trees: [wp t Q
      l] (every value that [t] returns from [l] satisfies [Q]), one
      rule per construct, the rule of a loop with an invariant.
    - [Exec]: the runs of a tree as derivations that collect the calls
      with their answers ([exec]), equivalent to [runs]; the calls
      made so far by a run that need not end ([reach]); induction on
      derivations (invariants, simulation of one environment by
      another); the environment that records the calls ([recorder]);
      a record read without its tree ([answered]: its answers are
      those of the environment from a state on).
    - [Main]: the events of a run (calls to the library with their
      arguments, bytes written to standard output), the answers of
      the library as a [collaborator], [main].
    - [Calls]: the calls of the program as the events [mlxE];
      [ft_fractal], [ft_hook], the loop of the library and [main] as
      interaction trees that make these calls in the order of the
      source.
    - [Display]: the interface [Display] of a library as the program
      observes it (its answers, the size of the image, the request to
      close) and its laws [DisplayLaws].
    - [Library]: the library as the handler [handle] on the state
      [library] (image, session, close request, text written, number
      of pixels put).  A [session] gives the keys of each tick by its
      number; it ends at the first number without keys (the user has
      closed the window), or has no end.  The library is a lawful
      [Display].
    - [TreeRender], [TreeLoop], [Interaction]: the runs of the trees
      of [ft_fractal], of [ft_hook] and the event loop, and of [main]
      against the library.
    - [Order]: the record of the calls of a frame, of a tick and of
      the loop as functions of the configuration and of the keys of
      the ticks ([frame_calls], [tick_calls], [loop_calls],
      [success_calls]), the records of [main] as the relation
      [main_calls], and the proof that the trees make these calls, in
      this order, against every lawful display.
    - [Pixels]: the pixels that a record puts ([puts]) and the grid of
      an image in the order of the loops ([grid]); a frame puts the
      pixels of the grid in this order, each once.
    - [Protocol]: the protocol of the handles of the library as an
      automaton on records ([phase], [protocol_step]); the records of
      [main] follow it, for runs that end and for runs that do not.
    - [Session]: against the library the keys of the record are those
      of the session, so the record of a run that succeeds is
      [success_calls] at the ticks of the session.

    ** Correspondence with the code

    A C function is a function of the same name, and in [Calls] a
    tree of the same name with the suffix [_tree].  The functions
    pass the state explicitly and take the answers of the library as
    arguments; the trees ask the library call by call, hold the
    globals but the image ([config]) and leave the image to the
    library.  The theorems of [TreeRender], [TreeLoop] and
    [Interaction] show that a run of a function is a run of its
    tree.  Globals are passed and returned explicitly in [globals];
    the local variables of a
    loop are the state of [while] or [loop].  A function that can stop
    abnormally returns a [result]: [Fault DivByZero] and [Fault
    DivOverflow] for the integer division, [Fault OutOfBounds] for a
    read outside a string and a write outside the image, [Fault
    NullPointer] for a null argument of [%s].  Integers
    keep their width: an arithmetic operation on [int] is followed by
    [wrap_int], which is the identity when the C operation is defined;
    the theorems state when it is.  Floating-point expressions are
    evaluated in double precision, operation by operation, in the
    order of the source, without fused products; [zoom] is rounded to
    [float] when it is assigned.

    ** The theorems

    - Refinement: each evaluator returns [escape_count] of its map
      ([Escape]); [ft_strlen] and [ft_strncmp] return [cstrlen] and
      [strncmp_spec] without reading outside the strings ([CString]);
      the tree of [main] run against the library returns what the
      function [main] returns on every command line, the fault of an
      empty argument vector included, and leaves the library with
      the output, the image, the close request and the pixel count
      of the run ([main_tree_refines]).
    - Functional behaviour: the channels of [get_color] and its
      sentinel ([Color]); the frame of [ft_fractal] pixel by pixel, its
      idempotence and its independence of the previous contents of the
      image ([Render]); the effect of a tick on the close request, the
      zoom and the frames ([Hook]); which arguments [main] accepts and
      what a run does on each path ([Main]).
    - Invariants: the loops of [ft_fractal] ([column_inv],
      [frame_inv]); every state that the event loop reaches is
      well-formed and shows the frame of its zoom ([reachable_inv]).
    - Totality: with the fuel given below no loop runs out of fuel and,
      for a positive cap that fits an [int], nothing faults
      ([ft_fractal_paints], [mlx_loop_ok], [main_total]); from a
      world that [renders] (a positive cap that fits an [int] and a
      well-formed image) every tick and every list of ticks runs
      ([ft_hook_renders_Ok], [mlx_loop_total]), so [main] faults
      before the set-up or not at all ([main_fault]); the trees,
      which have no fuel, end against the collaborator
      ([ft_fractal_tree_paints], [main_tree_total],
      [main_tree_success]) in every session that has an end
      ([has_end]: at some tick escape is down or the session is
      over).
    - Cost: the tree of [ft_fractal] calls [mlx_put_pixel] once for
      each pixel of the grid ([ft_fractal_tree_paints]); a run of
      [main] that succeeds has put 512 by 512 pixels for the first
      frame and for each arrow key that was down in a tick run, and a
      run that fails has put none ([main_tree_success],
      [main_tree_total]).
    - Order of the calls: the record of every run of [main] is one of
      [main_calls]: the messages only for a refused command line, the
      calls of the set-up up to its failure, or the set-up, the first
      frame, the hook, the ticks one after the other (keys in the
      order escape, up, down; the close right after escape; a whole
      frame with the new zoom after an arrow key; no tick after
      escape) and [mlx_terminate] last ([main_tree_calls]).  It holds
      against every lawful display.  The record of a frame is exact:
      the sizes of the image are read before every test of a loop,
      and the pixels are put column by column and from the top down,
      every position once, with the colour of its point
      ([ft_fractal_tree_record]).  Against the library the record of
      a run that succeeds is a function of the command line and of the
      ticks of the session ([main_tree_session]).
    - Safety: at every point of every run, which may have no end, the
      calls made so far follow the protocol of the library: nothing
      before [mlx_init] or after [mlx_terminate], the image only once
      it exists, every pixel inside it; the library is terminated at
      the end exactly when [main] succeeds ([main_tree_conforms]).
    - Liveness and divergence: when escape is down in a tick to come,
      or the session ends, the loop of the library ends after exactly
      the ticks up to that one ([mlx_loop_tree_ends]); against a
      session without an end [main] does not return
      ([main_tree_diverges]).  A session is [endless] exactly when
      it does not have an end ([endless_no_end]), so the two
      theorems on [main] cover every session.
    - Types: every word of a frame is a [uint32_t] with the alpha byte
      255 ([ft_fractal_typed]); [ft_atoi] returns an [int].
    - Round trip: [ft_atoi] reads the decimal numeral of every number
      from 0 to [INT_MAX] back ([ft_atoi_decimal], [main_decimal_cap]).
    - Output: the bytes that each path of [main] writes
      ([main_stdout]); the usage message of an empty argument vector
      faults, and nothing else does ([main_null_program_name]).
    - Floating point: on binary64 the centre pixel never escapes for
      any zoom; a point with a NaN coordinate never escapes; the
      frames of the Mandelbrot and Julia sets are symmetric; the
      Burning Ship and the Mandelbrot set have the same counts on
      the real axis, for every real part; the zoom changes
      sign without passing zero, drifts under opposite steps and
      saturates.
    - Machine integers: [iterations * 255] overflows above the cap
      8421505 and [r << 24] leaves [int32_t] from the red value 128.

    ** Fuel

    [while] and [loop] take their fuel as a number of turns.  Each
    loop of the program is given the number of turns that its bound
    allows: the cap [maxIter] for the evaluators, the length of the
    string for [ft_strlen] and [ft_strncmp], the height and the width
    of the image for [ft_fractal].  [while_total] and [loop_total] show
    that a loop whose measure decreases ends within that many turns;
    the refinement and frame theorems are stated as equalities with
    [Ok], so they include that the fuel is enough.  The event loop
    as a function ([mlx_loop]) runs on a finite list of ticks; as a
    step relation and as a tree it is not bounded.  The trees have no
    fuel: a run of a tree ([runs]) is an equivalence up to silent
    steps with a returned value, so it states that the tree ends, and
    [diverges] that it does not.  [wp] is partial: it speaks of the
    runs that end, and [reach] of what a run has done so far; a
    property of every point of a run that does not end is proved
    through the session that the user ends later ([cut]), in which
    the run ends and starts with the same calls
    ([main_tree_so_far]).  A list of ticks [covers] a session
    when the session starts with these ticks and the loop ends within
    or right after them; every session with an end has such a list
    ([has_end_covers]), and the run lemmas hold for the function on
    that list ([with_ticks]) and the tree on the session.

    ** Not modelled

    The MLX42 library itself (window, OpenGL presentation, key
    polling, timing): it is present as the interface of its calls and
    a handler that answers them from the parameters of the model,
    whether each step of the set-up succeeds, the text of its error
    and which keys are down at each tick.  The protocol of its
    handles is an assumption on the library, read from its interface:
    the theorems say that the program keeps it, not that the library
    is safe when it is kept.  A pixel put outside the image is an
    error value of the handler; the theorems show that the program
    puts none.  [printf] has the directive [%s] only.  Undefined
    behaviour of C is not modelled as such: signed overflow and
    shifts wrap, and the theorems say for which inputs they do not
    occur.  The equality of NaN values is that of the kernel, which
    has one NaN. *)

From Stdlib Require Export ZArith Lia ZifyBool Bool.
From stdpp Require Export base tactics option list.

#[global] Open Scope Z_scope.

(** ** Tactics *)

(** Linear arithmetic with [/], [mod], [Z.quot] and [Z.rem] by constants
    or by variables whose sign is known. *)
Ltac lia_div := Z.to_euclidean_division_equations; lia.
Ltac nia_div := Z.to_euclidean_division_equations; nia.

(** ** Faults and results

    The C program can stop abnormally in a few ways (an integer division
    by zero, an access outside an object); the model adds one way of its
    own, a bounded loop that runs out of fuel, which the termination
    theorems show never happens. *)

Inductive fault : Set :=
| OutOfFuel
| DivByZero
| DivOverflow
| OutOfBounds
| NullPointer.

Inductive result (A : Type) : Type :=
| Ok (a : A)
| Fault (f : fault).

Arguments Ok {A} a.
Arguments Fault {A} f.

#[export] Instance fault_eq_dec : EqDecision fault.
Proof. solve_decision. Defined.

#[export] Instance result_eq_dec {A} `{EqDecision A} : EqDecision (result A).
Proof. solve_decision. Defined.

Definition bind {A B} (e : result A) (k : A -> result B) : result B :=
  match e with
  | Ok a => k a
  | Fault f => Fault f
  end.

Definition is_Ok {A} (e : result A) : bool :=
  match e with Ok _ => true | Fault _ => false end.

Declare Scope result_scope.
Delimit Scope result_scope with result.
Notation "x <- e ;; k" := (bind e (fun x => k))
  (at level 100, e at next level, right associativity) : result_scope.
#[global] Open Scope result_scope.

(** C's [a && b]: [b] is evaluated only when [a] holds. *)
Definition and_then (a b : result bool) : result bool :=
  x <- a ;; if x then b else Ok false.

(** ** Loops

    A C loop [while (cond) body].  The condition reads the state and may
    fault (it may read memory); the body either goes on with a new
    state or executes [return r].  [while] runs the loop for at most
    [fuel] turns: [Next s] is the state in which the condition failed,
    [Return r] the value returned from inside the body. *)

Inductive flow (St Rt : Type) : Type :=
| Next (s : St)
| Return (r : Rt).

Arguments Next {St Rt} s.
Arguments Return {St Rt} r.

Section While.
Context {St Rt : Type}.
Variable cond : St -> result bool.
Variable body : St -> result (flow St Rt).

Fixpoint while (fuel : nat) (s : St) : result (flow St Rt) :=
  match cond s with
  | Ok true =>
      match fuel with
      | O => Fault OutOfFuel
      | S fuel' =>
          match body s with
          | Ok (Next s') => while fuel' s'
          | Ok (Return r) => Ok (Return r)
          | Fault f => Fault f
          end
      end
  | Ok false => Ok (Next s)
  | Fault f => Fault f
  end.

Lemma while_exit fuel s : cond s = Ok false -> while fuel s = Ok (Next s).
Proof. intros Hc. destruct fuel; simpl; rewrite Hc; reflexivity. Qed.

Lemma while_cond_fault fuel s f : cond s = Fault f -> while fuel s = Fault f.
Proof. intros Hc. destruct fuel; simpl; rewrite Hc; reflexivity. Qed.

Lemma while_step fuel s :
  cond s = Ok true ->
  while (S fuel) s =
    match body s with
    | Ok (Next s') => while fuel s'
    | Ok (Return r) => Ok (Return r)
    | Fault f => Fault f
    end.
Proof. intros Hc. simpl. rewrite Hc. reflexivity. Qed.

(** More fuel never changes a result that was reached. *)
Lemma while_fuel_mono fuel fuel' s v :
  while fuel s = Ok v -> (fuel <= fuel')%nat -> while fuel' s = Ok v.
Proof.
  revert fuel' s. induction fuel as [|n IH]; intros fuel' s Hw Hle.
  - simpl in Hw. destruct (cond s) as [[]|] eqn:Hc; try discriminate.
    rewrite while_exit; assumption.
  - destruct fuel' as [|n']; [lia|]. simpl in *.
    destruct (cond s) as [[]|]; try assumption.
    destruct (body s) as [[s'|r]|f]; try assumption.
    apply IH; [assumption|lia].
Qed.

(** Partial correctness: an invariant kept by the body holds when the
    condition fails, and a value returned from the body satisfies the
    postcondition of the [return]. *)
Lemma while_invariant (Inv : St -> Prop) (Post : Rt -> Prop) :
  (forall s, Inv s -> cond s = Ok true ->
     match body s with
     | Ok (Next s') => Inv s'
     | Ok (Return r) => Post r
     | Fault _ => True
     end) ->
  forall fuel s, Inv s ->
    match while fuel s with
    | Ok (Next s') => Inv s' /\ cond s' = Ok false
    | Ok (Return r) => Post r
    | Fault _ => True
    end.
Proof.
  intros Hbody. induction fuel as [|n IH]; intros s HI;
    (destruct (cond s) as [[]|f] eqn:Hc;
     [|rewrite while_exit; auto|by rewrite (while_cond_fault _ _ f)]).
  - simpl. rewrite Hc. exact I.
  - rewrite while_step by assumption. specialize (Hbody s HI Hc).
    destruct (body s) as [[s'|r]|f]; auto. apply IH, Hbody.
Qed.

(** Total correctness: when under the invariant the condition does not
    fault, the body does not fault, keeps the invariant and decreases a
    measure that is positive while the condition holds and that the
    fuel covers, the loop neither faults nor runs out of fuel. *)
Lemma while_total (Inv : St -> Prop) (Post : Rt -> Prop) (m : St -> nat) :
  (forall s, Inv s ->
     match cond s with
     | Ok true =>
         match body s with
         | Ok (Next s') => Inv s' /\ (m s' < m s)%nat
         | Ok (Return r) => Post r /\ (0 < m s)%nat
         | Fault _ => False
         end
     | Ok false => True
     | Fault _ => False
     end) ->
  forall fuel s, Inv s -> (m s <= fuel)%nat ->
    match while fuel s with
    | Ok (Next s') => Inv s' /\ cond s' = Ok false
    | Ok (Return r) => Post r
    | Fault _ => False
    end.
Proof.
  intros Hbody. induction fuel as [|n IH]; intros s HI Hm;
    specialize (Hbody s HI);
    (destruct (cond s) as [[]|f] eqn:Hc;
     [|rewrite while_exit; auto|contradiction]).
  - destruct (body s) as [[s'|r]|f]; [lia|lia|contradiction].
  - rewrite while_step by assumption.
    destruct (body s) as [[s'|r]|f]; [|tauto|assumption].
    destruct Hbody as [HI' Hlt]. apply IH; [assumption|lia].
Qed.

End While.

Arguments while {St Rt} cond body fuel s.

(** ** Loops without [return]

    [loop] is a [while] whose body always goes on; it ends in the state
    in which the condition failed. *)

Section Loop.
Context {St : Type}.
Variable cond : St -> result bool.
Variable body : St -> result St.

Definition loop_body (s : St) : result (flow St Empty_set) :=
  s' <- body s ;; Ok (Next s').

Definition loop (fuel : nat) (s : St) : result St :=
  r <- while cond loop_body fuel s ;;
  match r with
  | Next s' => Ok s'
  | Return v => match v with end
  end.

Lemma loop_exit fuel s : cond s = Ok false -> loop fuel s = Ok s.
Proof. intros Hc. unfold loop. by rewrite while_exit. Qed.

Lemma loop_step fuel s :
  cond s = Ok true -> loop (S fuel) s = (s' <- body s ;; loop fuel s').
Proof.
  intros Hc. unfold loop. rewrite while_step by done. unfold loop_body.
  by destruct (body s).
Qed.

Lemma loop_cond_fault fuel s f : cond s = Fault f -> loop fuel s = Fault f.
Proof. intros Hc. unfold loop. by rewrite (while_cond_fault _ _ _ _ f). Qed.

(** A loop that ends left at once, or took a turn. *)
Lemma loop_Ok_inv fuel s s' :
  loop fuel s = Ok s' ->
  (cond s = Ok false /\ s' = s) \/
  exists fuel' s1, fuel = S fuel' /\ cond s = Ok true /\ body s = Ok s1 /\
    loop fuel' s1 = Ok s'.
Proof.
  destruct (cond s) as [[]|f] eqn:Hc.
  - destruct fuel as [|fuel']; [unfold loop; simpl; by rewrite Hc|].
    rewrite loop_step by done. destruct (body s) as [s1|] eqn:Hb; [|done].
    intros Hl. right. by exists fuel', s1.
  - rewrite loop_exit by done. intros [= <-]. by left.
  - by rewrite (loop_cond_fault _ _ f Hc).
Qed.

(** A loop that ends leaves a state in which its condition fails. *)
Lemma loop_Ok_exit fuel : forall s s', loop fuel s = Ok s' -> cond s' = Ok false.
Proof.
  induction fuel as [|fuel IH]; intros s s' Hl;
    apply loop_Ok_inv in Hl as [[Hc ->]|(fuel' & s1 & Hf & _ & _ & Hl)]; try done.
  injection Hf as <-. by eapply IH.
Qed.

(** Total correctness of a loop under an invariant and a measure. *)
Lemma loop_total (Inv : St -> Prop) (m : St -> nat) :
  (forall s, Inv s ->
     match cond s with
     | Ok true =>
         match body s with
         | Ok s' => Inv s' /\ (m s' < m s)%nat
         | Fault _ => False
         end
     | Ok false => True
     | Fault _ => False
     end) ->
  forall fuel s, Inv s -> (m s <= fuel)%nat ->
    exists s', loop fuel s = Ok s' /\ Inv s' /\ cond s' = Ok false.
Proof.
  intros Hbody fuel s HI Hm. unfold loop.
  unshelve epose proof
    (while_total cond loop_body Inv (fun _ => False) m _ fuel s HI Hm) as Hw.
  { intros s0 HI0. specialize (Hbody s0 HI0). unfold loop_body.
    destruct (cond s0) as [[]|]; try done. by destruct (body s0). }
  destruct (while cond loop_body fuel s) as [[s'|[]]|]; [|done]. by exists s'.
Qed.

End Loop.

Arguments loop {St} cond body fuel s.
