(* ===== verification/MachInt.v ===== *)
(** * MachInt: the machine integers of the C program

    [int] and [int32_t] are 32-bit two's complement integers,
    [uint32_t] is a 32-bit unsigned integer.  A value of either type is
    a [Z] in the type's range; every operator writes its wrap-around
    out.  Where ISO C leaves a signed result undefined (overflow of [*],
    [+] and [<<]) the model takes the two's complement result that the
    compilers used for this project produce, and [in_int] states the
    range in which the C operator and the mathematical one agree.
    Division faults as the hardware does. *)

From S2P Require Import Prelude.

Definition INT_MIN : Z := -2147483648.
Definition INT_MAX : Z := 2147483647.
Definition UINT32_MAX : Z := 4294967295.

Definition in_int (z : Z) : Prop := INT_MIN <= z <= INT_MAX.
Definition in_uint32 (z : Z) : Prop := 0 <= z <= UINT32_MAX.
Definition in_byte (z : Z) : Prop := 0 <= z <= 255.

#[export] Instance in_int_dec z : Decision (in_int z).
Proof. unfold in_int. apply _. Defined.
#[export] Instance in_uint32_dec z : Decision (in_uint32 z).
Proof. unfold in_uint32. apply _. Defined.
#[export] Instance in_byte_dec z : Decision (in_byte z).
Proof. unfold in_byte. apply _. Defined.

(** Reduction of a mathematical integer to the representable one. *)
Definition wrap_int (z : Z) : Z := (z + 2147483648) mod 4294967296 - 2147483648.
Definition wrap_uint32 (z : Z) : Z := z mod 4294967296.
Definition wrap_byte (z : Z) : Z := z mod 256.

(** The operators of [int]. *)
Definition int_add (a b : Z) : Z := wrap_int (a + b).
Definition int_sub (a b : Z) : Z := wrap_int (a - b).
Definition int_mul (a b : Z) : Z := wrap_int (a * b).
Definition int_shl (a n : Z) : Z := wrap_int (Z.shiftl a n).
Definition int_or (a b : Z) : Z := Z.lor a b.

Definition int_div (a b : Z) : result Z :=
  if b =? 0 then Fault DivByZero
  else if (a =? INT_MIN) && (b =? -1) then Fault DivOverflow
  else Ok (Z.quot a b).

(** [size_t] is a 64-bit unsigned integer. *)
Definition SIZE_MAX : Z := 18446744073709551615.
Definition in_size (z : Z) : Prop := 0 <= z <= SIZE_MAX.
Definition wrap_size (z : Z) : Z := z mod 18446744073709551616.
Definition size_add (a b : Z) : Z := wrap_size (a + b).

(** The operators of [uint32_t] that the program and its collaborator use. *)
Definition uint32_add (a b : Z) : Z := wrap_uint32 (a + b).
Definition uint32_shr (a n : Z) : Z := Z.shiftr a n.
Definition uint32_and (a b : Z) : Z := Z.land a b.

(** Goals on the ranges of the integer types. *)
Ltac int_range :=
  unfold in_int, in_uint32, in_byte, in_size, INT_MIN, INT_MAX, UINT32_MAX,
    SIZE_MAX in *; lia.

Create HintDb mach discriminated.
Create Rewrite HintDb mach.

Lemma wrap_int_range z : in_int (wrap_int z).
Proof. unfold in_int, wrap_int, INT_MIN, INT_MAX. lia_div. Qed.

Lemma wrap_int_id z : in_int z -> wrap_int z = z.
Proof. unfold in_int, wrap_int, INT_MIN, INT_MAX. lia_div. Qed.

Lemma wrap_uint32_range z : in_uint32 (wrap_uint32 z).
Proof. unfold in_uint32, wrap_uint32, UINT32_MAX. lia_div. Qed.

Lemma wrap_uint32_id z : in_uint32 z -> wrap_uint32 z = z.
Proof. unfold in_uint32, wrap_uint32, UINT32_MAX. lia_div. Qed.

Lemma wrap_uint32_int z : wrap_uint32 (wrap_int z) = wrap_uint32 z.
Proof. unfold wrap_uint32, wrap_int. lia_div. Qed.

Lemma wrap_int_uint32 z : wrap_int (wrap_uint32 z) = wrap_int z.
Proof. unfold wrap_uint32, wrap_int. lia_div. Qed.

Lemma wrap_byte_range z : in_byte (wrap_byte z).
Proof. unfold in_byte, wrap_byte. lia_div. Qed.

Lemma wrap_byte_id z : in_byte z -> wrap_byte z = z.
Proof. unfold in_byte, wrap_byte. lia_div. Qed.

Lemma in_byte_in_int z : in_byte z -> in_int z.
Proof. unfold in_byte, in_int, INT_MIN, INT_MAX. lia. Qed.

#[export] Hint Resolve wrap_int_range wrap_uint32_range wrap_byte_range
  in_byte_in_int : mach.
#[export] Hint Rewrite wrap_uint32_int wrap_int_uint32 : mach.
#[export] Hint Rewrite wrap_int_id wrap_uint32_id wrap_byte_id
  using (solve [auto with mach]) : mach.

(** ** Bit fields *)

Lemma land_mul_pow2_small a b n :
  0 <= n -> 0 <= b < 2 ^ n -> Z.land (a * 2 ^ n) b = 0.
Proof.
  intros Hn Hb. apply Z.bits_inj'. intros i Hi.
  rewrite Z.land_spec, Z.bits_0, <- Z.shiftl_mul_pow2 by lia.
  destruct (Z.lt_ge_cases i n).
  - by rewrite Z.shiftl_spec_low.
  - rewrite <- (Z.mod_small b (2 ^ n)), Z.mod_pow2_bits_high by lia.
    apply andb_false_r.
Qed.

(** A field below bit [n] is added to a value shifted by [n] bits. *)
Lemma lor_mul_pow2 a b n :
  0 <= n -> 0 <= b < 2 ^ n -> Z.lor (a * 2 ^ n) b = a * 2 ^ n + b.
Proof.
  intros Hn Hb. pose proof (Z.add_lor_land (a * 2 ^ n) b) as Hadd.
  rewrite land_mul_pow2_small in Hadd by done. lia.
Qed.

(** Three bytes below a value shifted by 24 bits. *)
Lemma lor_pack4 r g b a :
  in_byte g -> in_byte b -> in_byte a ->
  Z.lor (Z.lor (Z.lor (r * 2 ^ 24) (g * 2 ^ 16)) (b * 2 ^ 8)) a =
  r * 2 ^ 24 + g * 2 ^ 16 + b * 2 ^ 8 + a.
Proof.
  unfold in_byte. intros Hg Hb Ha.
  rewrite (lor_mul_pow2 r) by lia.
  replace (r * 2 ^ 24 + g * 2 ^ 16) with ((r * 2 ^ 8 + g) * 2 ^ 16) by lia.
  rewrite lor_mul_pow2 by lia.
  replace ((r * 2 ^ 8 + g) * 2 ^ 16 + b * 2 ^ 8)
    with (((r * 2 ^ 8 + g) * 2 ^ 8 + b) * 2 ^ 8) by lia.
  rewrite lor_mul_pow2 by lia. lia.
Qed.

Lemma wrap_uint32_lor a b :
  wrap_uint32 (Z.lor a b) = Z.lor (wrap_uint32 a) (wrap_uint32 b).
Proof.
  unfold wrap_uint32. change 4294967296 with (2 ^ 32).
  rewrite <- !Z.land_ones by lia. apply Z.land_lor_distr_l.
Qed.

Lemma wrap_uint32_shl a n :
  0 <= n -> in_uint32 (a * 2 ^ n) -> wrap_uint32 (int_shl a n) = a * 2 ^ n.
Proof.
  intros Hn Hr. unfold int_shl.
  by rewrite wrap_uint32_int, Z.shiftl_mul_pow2, wrap_uint32_id.
Qed.

(** The low byte of a word with the byte 255 or-ed in. *)
Lemma lor_low_byte y : Z.land (Z.lor y 255) 255 = 255.
Proof.
  apply Z.bits_inj'. intros n Hn. rewrite Z.land_spec, Z.lor_spec.
  destruct (Z.testbit 255 n); by rewrite ?orb_true_r, ?andb_false_r.
Qed.

(** The byte [k] bytes above the least significant one. *)
Lemma byte_of_word w k :
  0 <= k -> Z.land (Z.shiftr w (8 * k)) 255 = w / 2 ^ (8 * k) mod 256.
Proof.
  intros Hk. change 255 with (Z.ones 8).
  by rewrite Z.land_ones, Z.shiftr_div_pow2 by lia.
Qed.

(** ** Division *)

Lemma int_div_nonneg a b :
  0 <= a -> 0 < b -> int_div a b = Ok (a / b).
Proof.
  intros Ha Hb. unfold int_div, INT_MIN.
  rewrite (proj2 (Z.eqb_neq b 0)), (proj2 (Z.eqb_neq b (-1))), andb_false_r by lia.
  by rewrite Z.quot_div_nonneg.
Qed.

Lemma int_div_zero a : int_div a 0 = Fault DivByZero.
Proof. reflexivity. Qed.

Lemma int_sub_id a b : in_int (a - b) -> int_sub a b = a - b.
Proof. apply wrap_int_id. Qed.

Lemma size_add_id a b : in_size (a + b) -> size_add a b = a + b.
Proof. unfold size_add, wrap_size, in_size, SIZE_MAX. lia_div. Qed.

Lemma uint32_add_id a b : in_uint32 (a + b) -> uint32_add a b = a + b.
Proof. apply wrap_uint32_id. Qed.

Lemma int_mul_id a b : in_int (a * b) -> int_mul a b = a * b.
Proof. apply wrap_int_id. Qed.

Lemma int_add_id a b : in_int (a + b) -> int_add a b = a + b.
Proof. apply wrap_int_id. Qed.
