(* ===== verification/Scalar.v ===== *)
(** * Scalar: the arithmetic of [double] and [float] as an interface

    The program computes on C [double] values (and keeps its zoom in a
    [float]).  The components that compute on them are written against
    the interface [Scalar], which names exactly the operations the
    source uses.  Two implementations are given: [binary64], IEEE 754
    double precision as the kernel's primitive floats implement it,
    which is what the program runs on; and [exact], the rationals,
    which is the arithmetic the escape-time algorithm is specified in. *)

From Stdlib Require Import Floats QArith Qabs.
From S2P Require Import Prelude.

(** The operations of the source on floating-point values: conversion
    of an integer ([of_int]), a decimal constant [n/d] ([lit]), the four
    operators, unary minus, [fabs], the comparison [>], and the rounding
    of a [double] to [float] that an assignment to a [float] performs. *)
Class Scalar (F : Type) : Type := {
  of_int : Z -> F;
  lit : Z -> positive -> F;
  fadd : F -> F -> F;
  fsub : F -> F -> F;
  fmul : F -> F -> F;
  fdiv : F -> F -> F;
  fneg : F -> F;
  fabs : F -> F;
  fgt : F -> F -> bool;
  to_float : F -> F;
}.

Declare Scope scalar_scope.
Delimit Scope scalar_scope with sc.
Infix "+" := fadd : scalar_scope.
Infix "-" := fsub : scalar_scope.
Infix "*" := fmul : scalar_scope.
Infix "/" := fdiv : scalar_scope.
Notation "- x" := (fneg x) : scalar_scope.
Infix ">?" := fgt (at level 70, no associativity) : scalar_scope.

(** ** IEEE 754 binary64 *)

(** The double nearest to an integer (round to nearest, ties to even). *)
Definition float_of_Z (z : Z) : float :=
  SF2Prim (binary_normalize prec emax z 0 false).

(** The value of a [double] rounded to binary32 (24 bits of precision,
    exponents up to 128), kept as the double it converts back to. *)
Definition float_to_single (x : float) : float :=
  match Prim2SF x with
  | S754_finite s m e =>
      SF2Prim (binary_normalize 24 128 (cond_Zopp s (Zpos m)) e s)
  | _ => x
  end.

#[export] Instance binary64 : Scalar float := {|
  of_int := float_of_Z;
  lit n d := PrimFloat.div (float_of_Z n) (float_of_Z (Zpos d));
  fadd := PrimFloat.add;
  fsub := PrimFloat.sub;
  fmul := PrimFloat.mul;
  fdiv := PrimFloat.div;
  fneg := PrimFloat.opp;
  fabs := PrimFloat.abs;
  fgt x y := PrimFloat.ltb y x;
  to_float := float_to_single;
|}.

(** *** Zeros and NaN

    What the renderer computes at the centre of the image, whatever the
    range of the plane: a product of zero is a zero or, for an infinite
    or undefined factor, NaN. *)

Definition zero_or_nan (x : float) : Prop :=
  x = 0%float \/ x = (-0)%float \/ x = nan.

(** A float is determined by its specification value. *)
Lemma float_of_spec (x : float) (s : spec_float) : Prim2SF x = s -> x = SF2Prim s.
Proof. intros <-. symmetry. apply SF2Prim_Prim2SF. Qed.

Lemma mul_zero_l (r : float) : zero_or_nan (PrimFloat.mul 0 r).
Proof.
  pose proof (mul_spec 0 r) as Hm. unfold zero_or_nan.
  change (Prim2SF 0) with (S754_zero false) in Hm.
  destruct (Prim2SF r) as [[]| | |[] m e]; apply float_of_spec in Hm;
    rewrite Hm; vm_compute; auto.
Qed.

Lemma div_zero_or_nan (x : float) :
  zero_or_nan x -> zero_or_nan (PrimFloat.div x 512).
Proof. intros [-> | [-> | ->]]; vm_compute; auto. Qed.

(** ** Exact rational arithmetic *)

#[export] Instance exact : Scalar Q := {|
  of_int := inject_Z;
  lit n d := Qmake n d;
  fadd := Qplus;
  fsub := Qminus;
  fmul := Qmult;
  fdiv := Qdiv;
  fneg := Qopp;
  fabs := Qabs;
  fgt x y := negb (Qle_bool x y);
  to_float x := x;
|}.
