(* ===== verification/ScalarLaws.v ===== *)
(** * ScalarLaws: the laws of the arithmetic that the symmetries rest on

    The theorems on the symmetries of the rendered fractals are proved
    against the interface [ScalarLaws]: an equivalence [feq] on the
    values, which the operations respect, and the behaviour of the
    products, sums and quotients under a change of sign.  The
    rationals satisfy it with their equality of fractions.  IEEE 754
    binary64 satisfies it with the equality that identifies the two
    zeros: a sum of opposite numbers is [+0] whatever their order, so
    the laws of sums hold up to the sign of zero, and no further. *)

From Stdlib Require Import Floats QArith.
From S2P Require Import Prelude Scalar.

#[local] Open Scope scalar_scope.

Class ScalarLaws (F : Type) `{Scalar F} : Type := {
  feq : relation F;
  feq_equivalence :: Equivalence feq;
  fadd_proper :: Proper (feq ==> feq ==> feq) fadd;
  fsub_proper :: Proper (feq ==> feq ==> feq) fsub;
  fmul_proper :: Proper (feq ==> feq ==> feq) fmul;
  fdiv_proper :: Proper (feq ==> eq ==> feq) fdiv;
  fneg_proper :: Proper (feq ==> feq) fneg;
  fgt_proper :: Proper (feq ==> feq ==> eq) fgt;
  fneg_zero : feq (- lit 0 1) (lit 0 1);
  fmul_neg_neg a b : feq (- a * - b) (a * b);
  fmul_neg_l a b : feq (- a * b) (- (a * b));
  fmul_neg_r a b : feq (a * - b) (- (a * b));
  fadd_neg_neg a b : feq (- a + - b) (- (a + b));
  fdiv_neg_l a b : feq (- a / b) (- (a / b));
}.

Infix "~=" := feq (at level 70, no associativity) : scalar_scope.

(** ** The rationals *)

#[export] Instance exact_laws : ScalarLaws Q.
Proof.
  refine {| feq := Qeq |}; try apply _; simpl.
  - intros a a' Ha b ? <-. by rewrite Ha.
  - intros a a' Ha b b' Hb. by rewrite Ha, Hb.
  - reflexivity.
  - intros. ring.
  - intros. ring.
  - intros. ring.
  - intros. ring.
  - intros. unfold Qdiv. ring.
Defined.

(** ** IEEE 754 binary64 *)

Section Spec.
Implicit Types (a b : spec_float).

(** Equality of specification values up to the sign of zero. *)
Definition sf_zero a : Prop := a = S754_zero false \/ a = S754_zero true.
Definition sf_eq a b : Prop := a = b \/ (sf_zero a /\ sf_zero b).

#[export] Instance spec_float_eq_dec : EqDecision spec_float.
Proof. solve_decision. Defined.

#[export] Instance sf_eq_dec a b : Decision (sf_eq a b).
Proof. unfold sf_eq, sf_zero. apply _. Defined.

#[export] Instance sf_eq_equivalence : Equivalence sf_eq.
Proof.
  unfold sf_eq, sf_zero. split.
  - by left.
  - intros a b [->|[? ?]]; [by left|by right].
  - intros a b c [->|[Ha Hb]] [->|[Hb' Hc]]; auto.
Qed.

End Spec.

(** Closes a goal [sf_eq a b] on values that are equal or two zeros. *)
Ltac sf_auto :=
  first [ left; reflexivity
        | right; split; (left; reflexivity) || (right; reflexivity) ].

(** Splits a hypothesis [sf_eq a b] into its cases: equal values, or
    two zeros with their signs. *)
Ltac sf_cases H :=
  destruct H as [<-|[[-> | ->] [-> | ->]]].

Ltac sf_destruct a := destruct a as [[]|[]| |[] ? ?].

Section SpecLaws.
Implicit Types (a b : spec_float).

Lemma SFopp_proper : Proper (sf_eq ==> sf_eq) SFopp.
Proof. intros a a' Ha. sf_cases Ha; [reflexivity|cbn; sf_auto..]. Qed.

Lemma SFmul_proper : Proper (sf_eq ==> sf_eq ==> sf_eq) SF64mul.
Proof.
  intros a a' Ha b b' Hb. unfold SF64mul.
  sf_cases Ha; sf_cases Hb; try reflexivity;
    try sf_destruct a; try sf_destruct b; cbn; sf_auto.
Qed.

Lemma SFadd_proper : Proper (sf_eq ==> sf_eq ==> sf_eq) SF64add.
Proof.
  intros a a' Ha b b' Hb. unfold SF64add.
  sf_cases Ha; sf_cases Hb; try reflexivity;
    try sf_destruct a; try sf_destruct b; cbn; sf_auto.
Qed.

Lemma SFsub_proper : Proper (sf_eq ==> sf_eq ==> sf_eq) SF64sub.
Proof.
  intros a a' Ha b b' Hb. unfold SF64sub.
  sf_cases Ha; sf_cases Hb; try reflexivity;
    try sf_destruct a; try sf_destruct b; cbn; sf_auto.
Qed.

Lemma SFdiv_proper : Proper (sf_eq ==> eq ==> sf_eq) SF64div.
Proof.
  intros a a' Ha b ? <-. unfold SF64div.
  sf_cases Ha; try reflexivity; sf_destruct b; cbn; sf_auto.
Qed.

Lemma SFltb_proper : Proper (sf_eq ==> sf_eq ==> eq) SFltb.
Proof.
  intros a a' Ha b b' Hb. unfold SFltb.
  sf_cases Ha; sf_cases Hb; try reflexivity;
    try sf_destruct a; try sf_destruct b; reflexivity.
Qed.

(** A rounding commutes with a change of sign. *)
Lemma binary_round_aux_opp s m e l :
  binary_round_aux prec emax (negb s) m e l =
  SFopp (binary_round_aux prec emax s m e l).
Proof.
  unfold binary_round_aux.
  destruct (shr_fexp prec emax m e l) as [mrs' e'].
  destruct (shr_fexp prec emax _ e' loc_Exact) as [mrs'' e''].
  destruct (shr_m mrs''); try reflexivity.
  by destruct (e'' <=? emax - prec)%Z.
Qed.

Lemma binary_normalize_opp m e :
  sf_eq (binary_normalize prec emax (- m)%Z e false)
        (SFopp (binary_normalize prec emax m e false)).
Proof.
  destruct m as [|p|p]; unfold binary_normalize, Z.opp; [sf_auto|..];
    unfold binary_round; destruct (shl_align _ _ _) as [mz ez];
    left; by rewrite <- binary_round_aux_opp.
Qed.

Lemma cond_Zopp_negb s m : cond_Zopp (negb s) m = (- cond_Zopp s m)%Z.
Proof. destruct s; simpl; lia. Qed.

Lemma SFmul_opp_opp a b : SF64mul (SFopp a) (SFopp b) = SF64mul a b.
Proof. sf_destruct a; sf_destruct b; reflexivity. Qed.

Lemma SFmul_opp_l a b : SF64mul (SFopp a) b = SFopp (SF64mul a b).
Proof.
  destruct a as [[]|[]| |sa ma ea], b as [[]|[]| |sb mb eb];
    try reflexivity; try (by destruct sa); try (by destruct sb).
  unfold SF64mul. cbn [SFmul SFopp]. rewrite <- binary_round_aux_opp.
  by destruct sa, sb.
Qed.

Lemma SFmul_opp_r a b : SF64mul a (SFopp b) = SFopp (SF64mul a b).
Proof.
  destruct a as [[]|[]| |sa ma ea], b as [[]|[]| |sb mb eb];
    try reflexivity; try (by destruct sa); try (by destruct sb).
  unfold SF64mul. cbn [SFmul SFopp]. rewrite <- binary_round_aux_opp.
  by destruct sa, sb.
Qed.

Lemma SFdiv_opp_l a b : SF64div (SFopp a) b = SFopp (SF64div a b).
Proof.
  destruct a as [[]|[]| |sa ma ea], b as [[]|[]| |sb mb eb];
    try reflexivity; try (by destruct sa); try (by destruct sb).
  unfold SF64div. cbn [SFdiv SFopp].
  destruct (SFdiv_core_binary _ _ _ _ _ _) as [[mz ez] lz].
  rewrite <- binary_round_aux_opp. by destruct sa, sb.
Qed.

Lemma SFadd_opp_opp a b :
  sf_eq (SF64add (SFopp a) (SFopp b)) (SFopp (SF64add a b)).
Proof.
  destruct a as [[]|[]| |sa ma ea], b as [[]|[]| |sb mb eb];
    try (cbn; sf_auto).
  unfold SF64add. cbn [SFadd SFopp].
  rewrite !cond_Zopp_negb, <- Z.opp_add_distr. apply binary_normalize_opp.
Qed.

End SpecLaws.

(** The equality of binary64 values up to the sign of zero. *)
Definition float_eq (x y : float) : Prop := sf_eq (Prim2SF x) (Prim2SF y).

#[export] Instance float_eq_dec x y : Decision (float_eq x y).
Proof. unfold float_eq. apply _. Defined.

#[export] Instance float_eq_equivalence : Equivalence float_eq.
Proof.
  unfold float_eq. split.
  - intros x. reflexivity.
  - intros x y Hxy. by symmetry.
  - intros x y z Hxy Hyz. by etransitivity.
Qed.

Lemma float_eq_refl_eq (x y : float) : x = y -> float_eq x y.
Proof. by intros ->. Qed.

#[export] Instance binary64_laws : ScalarLaws float.
Proof.
  refine {| feq := float_eq |}; unfold float_eq; simpl.
  - intros x x' Hx y y' Hy. rewrite !add_spec. by apply SFadd_proper.
  - intros x x' Hx y y' Hy. rewrite !sub_spec. by apply SFsub_proper.
  - intros x x' Hx y y' Hy. rewrite !mul_spec. by apply SFmul_proper.
  - intros x x' Hx y ? <-. rewrite !div_spec. by apply SFdiv_proper.
  - intros x x' Hx. rewrite !opp_spec. by apply SFopp_proper.
  - intros x x' Hx y y' Hy. rewrite !ltb_spec. by apply SFltb_proper.
  - vm_compute. sf_auto.
  - intros. rewrite !mul_spec, !opp_spec, SFmul_opp_opp. reflexivity.
  - intros. rewrite opp_spec, !mul_spec, opp_spec, SFmul_opp_l. reflexivity.
  - intros. rewrite opp_spec, !mul_spec, opp_spec, SFmul_opp_r. reflexivity.
  - intros. rewrite opp_spec, !add_spec, !opp_spec. apply SFadd_opp_opp.
  - intros. rewrite opp_spec, !div_spec, opp_spec, SFdiv_opp_l. reflexivity.
Defined.
