(* ===== verification/Complex.v ===== *)
(** * Complex: the complex arithmetic primitives of src/main.c

    [Complex], [square] and [add] as the source defines them, over any
    implementation of the [Scalar] interface, and the escape test
    [|z|^2 > 4.0] that the three evaluators share. *)

From S2P Require Import Prelude Scalar.

#[local] Open Scope scalar_scope.

(** [typedef struct { double real; double imag; } Complex;] *)
Record Complex (F : Type) : Type := mkComplex {
  real : F;
  imag : F;
}.

Arguments mkComplex {F} real imag.
Arguments real {F} c.
Arguments imag {F} c.

Section Ops.
Context {F : Type} `{Scalar F}.

(** (re^2 - im^2, 2 re im): the complex square, with the products and
    the conversion of the constant [2] in the order C evaluates them. *)
Definition square (z : Complex F) : Complex F :=
  {| real := real z * real z - imag z * imag z;
     imag := of_int 2 * real z * imag z |}.

Definition add (a b : Complex F) : Complex F :=
  {| real := real a + real b;
     imag := imag a + imag b |}.

(** The escape test of the evaluators:
    [z.real * z.real + z.imag * z.imag > 4.0]. *)
Definition escaped (z : Complex F) : bool :=
  real z * real z + imag z * imag z >? lit 4 1.

End Ops.
