(* ===== verification/Escape.v ===== *)
(** * Escape: the three escape-time evaluators of src/main.c

    [julia_iterator], [burning_ship_iterator] and [mandelbrot_iterator]
    as loops over the state [(z, i)], the reference definition of the
    escape time as the first index of the orbit that passes the escape
    test, the theorems that relate them, the contract of the
    evaluators (range of the count, independence of the cap), and the
    points that never escape on binary64. *)

From Stdlib Require Import Floats.
From S2P Require Import Prelude MachInt Scalar Complex.

(** ** The evaluators *)

Section Evaluators.
Context {F : Type} `{Scalar F}.

(** The state of an evaluator's loop: the current point and the counter. *)
Definition iter_state : Type := Complex F * Z.

(** What a loop that was left returns: the value of the [return] inside
    it, or [maxIter] after it. *)
Definition iterator_result (maxIter : Z) (r : flow iter_state Z) : Z :=
  match r with
  | Return i => i
  | Next _ => maxIter
  end.

(** One turn of [julia_iterator]'s loop:
    [z = add(square(z), c); if (|z|^2 > 4.0) return i; i++;]. *)
Definition julia_body (c : Complex F) (s : iter_state)
  : result (flow iter_state Z) :=
  let z := add (square (fst s)) c in
  if escaped z then Ok (Return (snd s))
  else Ok (Next (z, int_add (snd s) 1)).

Definition julia_iterator (z c : Complex F) (maxIter : Z) : result Z :=
  r <- while (fun s => Ok (snd s <? maxIter)) (julia_body c)
         (Z.to_nat maxIter) (z, 0) ;;
  Ok (iterator_result maxIter r).

(** One turn of [burning_ship_iterator]'s loop: the components of [z]
    are replaced by their absolute values first. *)
Definition burning_ship_body (c : Complex F) (s : iter_state)
  : result (flow iter_state Z) :=
  let z := {| real := fabs (real (fst s)); imag := imag (fst s) |} in
  let z := {| real := real z; imag := fabs (imag z) |} in
  let z := add (square z) c in
  if escaped z then Ok (Return (snd s))
  else Ok (Next (z, int_add (snd s) 1)).

Definition burning_ship_iterator (c : Complex F) (maxIter : Z) : result Z :=
  r <- while (fun s => Ok (snd s <? maxIter)) (burning_ship_body c)
         (Z.to_nat maxIter) ({| real := of_int 0; imag := of_int 0 |}, 0) ;;
  Ok (iterator_result maxIter r).

(** One turn of [mandelbrot_iterator]'s loop, which the source writes
    out again. *)
Definition mandelbrot_body (c : Complex F) (s : iter_state)
  : result (flow iter_state Z) :=
  let z := add (square (fst s)) c in
  if escaped z then Ok (Return (snd s))
  else Ok (Next (z, int_add (snd s) 1)).

Definition mandelbrot_iterator (c : Complex F) (maxIter : Z) : result Z :=
  r <- while (fun s => Ok (snd s <? maxIter)) (mandelbrot_body c)
         (Z.to_nat maxIter) ({| real := lit 0 1; imag := lit 0 1 |}, 0) ;;
  Ok (iterator_result maxIter r).

(** ** The reference definition

    The maps that the evaluators iterate, the orbit of a point, and its
    escape time: the first index [i] below the cap for which the
    [i+1]-th point of the orbit passes the escape test. *)

Definition julia_step (c z : Complex F) : Complex F := add (square z) c.

Definition burning_ship_step (c z : Complex F) : Complex F :=
  add (square {| real := fabs (real z); imag := fabs (imag z) |}) c.

Definition orbit (step : Complex F -> Complex F) (z : Complex F) (n : nat)
  : Complex F :=
  Nat.iter n step z.

Definition escape_time (step : Complex F -> Complex F) (z : Complex F)
    (cap : nat) : option nat :=
  fst <$> list_find (fun i => escaped (orbit step z (S i)) = true) (seq 0 cap).

(** The count an evaluator reports for a cap [maxIter]. *)
Definition escape_count (step : Complex F -> Complex F) (z : Complex F)
    (maxIter : Z) : Z :=
  match escape_time step z (Z.to_nat maxIter) with
  | Some i => Z.of_nat i
  | None => maxIter
  end.

End Evaluators.

Arguments iter_state F : clear implicits.

(** ** The loops compute the escape time *)

Section Loop.
Context {F : Type} `{Scalar F}.
Variable step : Complex F -> Complex F.
Variable body : iter_state F -> result (flow (iter_state F) Z).
Hypothesis body_step : forall s,
  body s = if escaped (step (fst s)) then Ok (Return (snd s))
           else Ok (Next (step (fst s), int_add (snd s) 1)).

Lemma orbit_step z n : orbit step (step z) n = orbit step z (S n).
Proof. unfold orbit. symmetry. apply Nat.iter_succ_r. Qed.

Lemma escape_time_S z n :
  escape_time step z (S n) =
    if escaped (step z) then Some 0%nat else S <$> escape_time step (step z) n.
Proof.
  unfold escape_time. cbn [seq list_find]. rewrite <- fmap_S_seq, list_find_fmap.
  change (orbit step z 1) with (step z).
  case_decide as Hd; destruct (escaped (step z)); try done.
  rewrite (list_find_ext _ (fun i => escaped (orbit step (step z) (S i)) = true))
    by (intros i; unfold compose; rewrite orbit_step; reflexivity).
  by destruct (list_find _ _) as [[i x]|].
Qed.

(** The loop entered with counter [k] and [n] turns to go. *)
Lemma while_escape_time n : forall z k maxIter,
  maxIter = k + Z.of_nat n -> INT_MIN <= k -> maxIter <= INT_MAX ->
  while (fun s => Ok (snd s <? maxIter)) body n (z, k) =
    Ok (match escape_time step z n with
        | Some i => Return (k + Z.of_nat i)
        | None => Next (orbit step z n, maxIter)
        end).
Proof.
  induction n as [|n IH]; intros z k maxIter -> Hk Hmax.
  - rewrite while_exit by (cbn [snd]; f_equal; lia). do 3 f_equal. lia.
  - rewrite while_step by (cbn [snd]; f_equal; lia). rewrite body_step, escape_time_S. simpl.
    destruct (escaped (step z)); [do 2 f_equal; lia|].
    assert (Hk1 : int_add k 1 = k + 1)
      by (apply wrap_int_id; unfold in_int; lia).
    rewrite Hk1, (IH (step z) (k + 1)) by lia.
    rewrite orbit_step. destruct (escape_time step (step z) n); simpl;
      do 2 f_equal; lia.
Qed.

(** The whole evaluator, from the counter [0] with [maxIter] turns of fuel. *)
Lemma run_escape_count z maxIter :
  maxIter <= INT_MAX ->
  (r <- while (fun s => Ok (snd s <? maxIter)) body (Z.to_nat maxIter) (z, 0) ;;
   Ok (iterator_result maxIter r)) = Ok (escape_count step z maxIter).
Proof.
  intros Hmax. unfold escape_count. destruct (Z.le_gt_cases 0 maxIter) as [Hpos|Hneg].
  - rewrite (while_escape_time _ z 0 maxIter) by (unfold INT_MIN; lia).
    destruct (escape_time step z (Z.to_nat maxIter)); reflexivity.
  - rewrite while_exit by (cbn [snd]; f_equal; lia).
    replace (Z.to_nat maxIter) with 0%nat by lia. reflexivity.
Qed.

End Loop.

(** ** The escape time, declaratively *)

Section EscapeTime.
Context {F : Type} `{Scalar F}.
Variable step : Complex F -> Complex F.
Implicit Types (z : Complex F) (cap i j : nat).

Lemma escape_time_Some z cap i :
  escape_time step z cap = Some i <->
  (i < cap)%nat /\ escaped (orbit step z (S i)) = true /\
  forall j, (j < i)%nat -> escaped (orbit step z (S j)) = false.
Proof.
  unfold escape_time. rewrite fmap_Some. split.
  - intros [[i' x] [Hf ->]]. apply list_find_Some in Hf as (Hl & Hx & Hmin).
    apply lookup_seq in Hl as [-> Hlt]. cbn [fst Nat.add] in *. split_and!; [done..|].
    intros j Hj. apply not_true_is_false, (Hmin j j); [|done].
    apply lookup_seq. lia.
  - intros (Hlt & Hi & Hmin). exists (i, i). split; [|done].
    apply list_find_Some. split_and!; [by apply lookup_seq|done|].
    intros j y [-> _]%lookup_seq Hj. cbn [Nat.add]. rewrite Hmin by done. discriminate.
Qed.

Lemma escape_time_None z cap :
  escape_time step z cap = None <->
  forall j, (j < cap)%nat -> escaped (orbit step z (S j)) = false.
Proof.
  unfold escape_time. rewrite fmap_None, list_find_None, Forall_forall. split.
  - intros Hall j Hj. apply not_true_is_false, Hall, elem_of_seq. lia.
  - intros Hall j [_ Hj]%elem_of_seq. rewrite Hall by lia. discriminate.
Qed.

(** Once a point has escaped, a larger cap reports the same count. *)
Lemma escape_time_mono z cap cap' i :
  escape_time step z cap = Some i -> (cap <= cap')%nat ->
  escape_time step z cap' = Some i.
Proof.
  rewrite !escape_time_Some. intros (? & ? & ?) ?. split_and!; [lia|done..].
Qed.

Lemma escape_count_range z maxIter :
  0 <= maxIter -> 0 <= escape_count step z maxIter <= maxIter.
Proof.
  intros Hpos. unfold escape_count.
  destruct (escape_time step z (Z.to_nat maxIter)) as [i|] eqn:Hi; [|lia].
  apply escape_time_Some in Hi. lia.
Qed.

(** A cap that is not positive is reported as it is: the loop is not
    entered. *)
Lemma escape_count_nonpositive z maxIter :
  maxIter <= 0 -> escape_count step z maxIter = maxIter.
Proof.
  intros Hle. unfold escape_count.
  replace (Z.to_nat maxIter) with 0%nat by lia. reflexivity.
Qed.

(** A count below the cap is the index of the first escape. *)
Lemma escape_count_escaped z maxIter r :
  escape_count step z maxIter = r -> 0 <= r < maxIter ->
  escaped (orbit step z (S (Z.to_nat r))) = true /\
  forall j, (j < Z.to_nat r)%nat -> escaped (orbit step z (S j)) = false.
Proof.
  unfold escape_count. intros Hr Hlt.
  destruct (escape_time step z (Z.to_nat maxIter)) as [i|] eqn:Hi; [|lia].
  apply escape_time_Some in Hi as (_ & Hesc & Hmin).
  subst r. rewrite Nat2Z.id. done.
Qed.

(** A count equal to a positive cap means that no point of the orbit
    escaped within the cap. *)
Lemma escape_count_bounded z maxIter :
  0 <= maxIter -> escape_count step z maxIter = maxIter ->
  forall j, (j < Z.to_nat maxIter)%nat -> escaped (orbit step z (S j)) = false.
Proof.
  unfold escape_count. intros Hpos Hr.
  destruct (escape_time step z (Z.to_nat maxIter)) as [i|] eqn:Hi.
  - apply escape_time_Some in Hi. lia.
  - by apply escape_time_None.
Qed.

(** The count of a point that escaped does not depend on the cap. *)
Lemma escape_count_stable z maxIter maxIter' :
  escape_count step z maxIter < maxIter -> maxIter <= maxIter' ->
  escape_count step z maxIter' = escape_count step z maxIter.
Proof.
  unfold escape_count. intros Hlt Hle.
  destruct (escape_time step z (Z.to_nat maxIter)) as [i|] eqn:Hi; [|lia].
  erewrite escape_time_mono; [done..|lia].
Qed.

(** An orbit that reaches a fixed point within [k] steps without
    passing the escape test never escapes. *)
Lemma orbit_fixed z (k n : nat) :
  step (orbit step z k) = orbit step z k -> (k <= n)%nat ->
  orbit step z n = orbit step z k.
Proof.
  intros Hfix. induction 1 as [|n _ IH]; [done|].
  unfold orbit in *. simpl. by rewrite IH.
Qed.

Lemma escape_time_settles z (k : nat) cap :
  forallb (fun j => negb (escaped (orbit step z (S j)))) (seq 0 (S k)) = true ->
  step (orbit step z (S k)) = orbit step z (S k) ->
  escape_time step z cap = None.
Proof.
  rewrite forallb_forall. intros Hall Hfix. apply escape_time_None. intros j _.
  destruct (decide (j <= k)%nat) as [Hj|Hj].
  - apply negb_true_iff, Hall, in_seq. lia.
  - rewrite (orbit_fixed z (S k)) by (done || lia).
    apply negb_true_iff, (Hall k), in_seq. lia.
Qed.

(** A point on which the map is constant and that does not pass the
    escape test never escapes. *)
Lemma escape_time_fixpoint z cap :
  step z = z -> escaped z = false -> escape_time step z cap = None.
Proof.
  intros Hfix Hz. apply escape_time_None. intros j _.
  replace (orbit step z (S j)) with z; [done|].
  unfold orbit. induction (S j) as [|n IH]; simpl; congruence.
Qed.

End EscapeTime.

(** ** The evaluators meet the reference definition *)

Section Correctness.
Context {F : Type} `{Scalar F}.
Implicit Types (z c : Complex F) (maxIter : Z).

(** The point in which [mandelbrot_iterator] starts, and the one in
    which [burning_ship_iterator] does. *)
Definition mandelbrot_start : Complex F := {| real := lit 0 1; imag := lit 0 1 |}.
Definition burning_ship_start : Complex F := {| real := of_int 0; imag := of_int 0 |}.

(** C2: for every cap that is an [int], [julia_iterator] returns the
    escape count of the orbit of [z] under [z -> z^2 + c]: the index of
    the first point that passes the escape test, or the cap. *)
Theorem julia_iterator_escape_count z c maxIter :
  maxIter <= INT_MAX ->
  julia_iterator z c maxIter = Ok (escape_count (julia_step c) z maxIter).
Proof. intros Hmax. unfold julia_iterator. by apply run_escape_count. Qed.

(** C1: [mandelbrot_iterator] returns the escape count of the orbit of
    the origin under [z -> z^2 + c]. *)
Theorem mandelbrot_iterator_escape_count c maxIter :
  maxIter <= INT_MAX ->
  mandelbrot_iterator c maxIter =
    Ok (escape_count (julia_step c) mandelbrot_start maxIter).
Proof. intros Hmax. unfold mandelbrot_iterator. by apply run_escape_count. Qed.

(** C3: [burning_ship_iterator] returns the escape count of the orbit
    of the origin under [z -> (|re z| + i |im z|)^2 + c]. *)
Theorem burning_ship_iterator_escape_count c maxIter :
  maxIter <= INT_MAX ->
  burning_ship_iterator c maxIter =
    Ok (escape_count (burning_ship_step c) burning_ship_start maxIter).
Proof.
  intros Hmax. unfold burning_ship_iterator. by apply run_escape_count.
Qed.

(** C36: for a cap from 0 to [INT_MAX] the three evaluators return a
    count from 0 to the cap. *)
Theorem iterators_range z c maxIter :
  0 <= maxIter <= INT_MAX ->
  exists i j k,
    mandelbrot_iterator c maxIter = Ok i /\ julia_iterator z c maxIter = Ok j /\
    burning_ship_iterator c maxIter = Ok k /\
    0 <= i <= maxIter /\ 0 <= j <= maxIter /\ 0 <= k <= maxIter.
Proof.
  intros [Hpos Hmax]. unfold mandelbrot_iterator, julia_iterator, burning_ship_iterator.
  rewrite (run_escape_count (julia_step c)), (run_escape_count (julia_step c)),
    (run_escape_count (burning_ship_step c)) by done.
  do 3 eexists. split_and!; try done; by apply escape_count_range.
Qed.

(** The count of a point that escapes does not depend on the cap:
    a count below the cap is the count for every larger cap. *)
Theorem iterators_cap_independent z c maxIter maxIter' n :
  maxIter <= maxIter' <= INT_MAX -> n < maxIter ->
  (mandelbrot_iterator c maxIter = Ok n -> mandelbrot_iterator c maxIter' = Ok n) /\
  (julia_iterator z c maxIter = Ok n -> julia_iterator z c maxIter' = Ok n) /\
  (burning_ship_iterator c maxIter = Ok n ->
   burning_ship_iterator c maxIter' = Ok n).
Proof.
  intros [Hle Hmax] Hn.
  unfold mandelbrot_iterator, julia_iterator, burning_ship_iterator.
  rewrite !(run_escape_count (julia_step c)),
    !(run_escape_count (burning_ship_step c)) by (done || lia).
  split_and!; intros [= <-]; f_equal; by apply escape_count_stable.
Qed.

(** With a cap that is not positive the loops are not entered and
    the evaluators return the cap itself, a negative count for a
    negative cap. *)
Theorem iterators_nonpositive_cap z c maxIter :
  maxIter <= 0 ->
  mandelbrot_iterator c maxIter = Ok maxIter /\
  julia_iterator z c maxIter = Ok maxIter /\
  burning_ship_iterator c maxIter = Ok maxIter.
Proof.
  intros Hle. unfold mandelbrot_iterator, julia_iterator, burning_ship_iterator.
  rewrite !while_exit by (cbn [snd]; f_equal; lia). done.
Qed.

End Correctness.

(** ** The evaluators on binary64 *)

Section Binary64.
Implicit Types (maxIter : Z).

(** The origin of the plane as the renderer computes it. *)
Definition origin : Complex float := {| real := 0%float; imag := 0%float |}.

(** A point whose coordinates are zeros or NaN never escapes, from the
    origin, under either map. *)
Lemma zero_or_nan_bounded (c : Complex float) cap :
  zero_or_nan (real c) -> zero_or_nan (imag c) ->
  escape_time (julia_step c) mandelbrot_start cap = None /\
  escape_time (burning_ship_step c) burning_ship_start cap = None.
Proof.
  destruct c as [a b]. simpl.
  intros [-> | [-> | ->]] [-> | [-> | ->]];
    split; by apply (escape_time_settles _ _ 2).
Qed.

Lemma origin_fixpoint :
  julia_step origin mandelbrot_start = mandelbrot_start /\
  burning_ship_step origin burning_ship_start = burning_ship_start /\
  escaped (F := float) mandelbrot_start = false /\
  escaped (F := float) burning_ship_start = false.
Proof. by vm_compute. Qed.

(** On binary64 the origin never escapes: [mandelbrot_iterator]
    returns the cap, whatever the cap. *)
Theorem mandelbrot_origin_bounded maxIter :
  0 <= maxIter <= INT_MAX -> mandelbrot_iterator origin maxIter = Ok maxIter.
Proof.
  intros [Hpos Hmax]. unfold mandelbrot_iterator.
  rewrite (run_escape_count (julia_step origin)) by done.
  unfold escape_count. by rewrite escape_time_fixpoint by apply origin_fixpoint.
Qed.

(** On binary64 [burning_ship_iterator] returns the cap for the
    origin, whatever the cap. *)
Theorem burning_ship_origin_bounded maxIter :
  0 <= maxIter <= INT_MAX -> burning_ship_iterator origin maxIter = Ok maxIter.
Proof.
  intros [Hpos Hmax]. unfold burning_ship_iterator.
  rewrite (run_escape_count (burning_ship_step origin)) by done.
  unfold escape_count. by rewrite escape_time_fixpoint by apply origin_fixpoint.
Qed.

(** The two evaluators agree at [c = (-1, 0)] with the cap 50 and
    differ at [c = (0, 1)], a point off the real axis. *)
Theorem burning_ship_differs :
  mandelbrot_iterator (F := float) {| real := (-1)%float; imag := 0%float |} 50 = Ok 50 /\
  burning_ship_iterator (F := float) {| real := (-1)%float; imag := 0%float |} 50 = Ok 50 /\
  mandelbrot_iterator (F := float) {| real := 0%float; imag := 1%float |} 50 = Ok 50 /\
  burning_ship_iterator (F := float) {| real := 0%float; imag := 1%float |} 50 = Ok 2.
Proof. by vm_compute. Qed.

End Binary64.

(** ** Witnesses at binary64 *)

Lemma julia_iterator_escape_count_witness :
  100 <= INT_MAX /\
  julia_iterator (F := float) {| real := 0.5%float; imag := 0.5%float |}
      {| real := lit (-7) 10; imag := lit 27015 100000 |} 100 =
    Ok (escape_count (julia_step {| real := lit (-7) 10; imag := lit 27015 100000 |})
          {| real := 0.5%float; imag := 0.5%float |} 100).
Proof.
  split; [int_range|]. apply julia_iterator_escape_count. int_range.
Defined.

Lemma mandelbrot_iterator_escape_count_witness :
  50 <= INT_MAX /\
  mandelbrot_iterator (F := float) {| real := (-1)%float; imag := 0%float |} 50 =
    Ok (escape_count (julia_step {| real := (-1)%float; imag := 0%float |})
          mandelbrot_start 50).
Proof.
  split; [int_range|]. apply mandelbrot_iterator_escape_count. int_range.
Defined.

Lemma burning_ship_iterator_escape_count_witness :
  50 <= INT_MAX /\
  burning_ship_iterator (F := float) {| real := 0%float; imag := 1%float |} 50 =
    Ok (escape_count (burning_ship_step {| real := 0%float; imag := 1%float |})
          burning_ship_start 50).
Proof.
  split; [int_range|]. apply burning_ship_iterator_escape_count. int_range.
Defined.

Lemma mandelbrot_origin_bounded_witness :
  0 <= 50 <= INT_MAX /\ mandelbrot_iterator origin 50 = Ok 50.
Proof. split; [int_range|]. apply mandelbrot_origin_bounded. int_range. Defined.

Lemma burning_ship_origin_bounded_witness :
  0 <= 50 <= INT_MAX /\ burning_ship_iterator origin 50 = Ok 50.
Proof. split; [int_range|]. apply burning_ship_origin_bounded. int_range. Defined.

Lemma iterators_range_witness :
  exists i j k,
    mandelbrot_iterator (F := float) origin 50 = Ok i /\
    julia_iterator origin origin 50 = Ok j /\
    burning_ship_iterator origin 50 = Ok k /\
    0 <= i <= 50 /\ 0 <= j <= 50 /\ 0 <= k <= 50.
Proof. apply iterators_range. int_range. Defined.

Lemma iterators_cap_independent_witness :
  burning_ship_iterator (F := float) {| real := 0%float; imag := 1%float |} 50 = Ok 2 /\
  burning_ship_iterator (F := float) {| real := 0%float; imag := 1%float |} 100 = Ok 2.
Proof.
  split; [by vm_compute|].
  apply (iterators_cap_independent origin {| real := 0%float; imag := 1%float |} 50 100 2);
    [int_range|lia|by vm_compute].
Defined.

Lemma iterators_nonpositive_cap_witness :
  mandelbrot_iterator (F := float) origin (-5) = Ok (-5) /\
  julia_iterator origin origin (-5) = Ok (-5) /\
  burning_ship_iterator origin (-5) = Ok (-5).
Proof. by apply iterators_nonpositive_cap. Defined.
