(* ===== verification/Color.v ===== *)
(** * Color: the colorizer of src/main.c

    [ft_pixel] packs four channels into a 32-bit word and [get_color]
    maps an iteration count and the cap to a colour: a dark grey for a
    count equal to the cap, a ramp of integer quotients otherwise.  The
    theorems give the bytes of the colour, the range of caps in which
    the products fit an [int], and what happens outside it. *)

From S2P Require Import Prelude MachInt.

(** [return (r << 24 | g << 16 | b << 8 | a);] on [int32_t]. *)
Definition ft_pixel (r g b a : Z) : Z :=
  int_or (int_or (int_or (int_shl r 24) (int_shl g 16)) (int_shl b 8)) a.

(** The [uint32_t] that [get_color] returns; it faults where the
    division by [maxIter] does. *)
Definition get_color (iterations maxIter : Z) : result Z :=
  if iterations =? maxIter then
    Ok (wrap_uint32 (ft_pixel 20 20 20 255))
  else
    r <- int_div (int_mul iterations 255) maxIter ;;
    g <- int_div (int_mul iterations 128) maxIter ;;
    b <- int_div (int_mul iterations 64) maxIter ;;
    Ok (wrap_uint32 (ft_pixel r g b 255)).

(** ** Reference definitions *)

(** The word with the bytes [r], [g], [b], [a], most significant first. *)
Definition rgba (r g b a : Z) : Z := r * 2 ^ 24 + g * 2 ^ 16 + b * 2 ^ 8 + a.

(** The colour of a point that did not escape: 0x141414FF. *)
Definition sentinel_gray : Z := rgba 20 20 20 255.

(** The largest cap for which [iterations * 255] fits an [int] for every
    [iterations] below the cap. *)
Definition MAX_SAFE_ITER : Z := 8421505.

(** The byte of a colour word that the display stores for a channel:
    [(uint8_t)(color >> shift)]. *)
Definition channel (color shift : Z) : Z := Z.land (Z.shiftr color shift) 255.

(** The channels of the ramp. *)
Definition ramp_red (iterations maxIter : Z) : Z := iterations * 255 / maxIter.
Definition ramp_green (iterations maxIter : Z) : Z := iterations * 128 / maxIter.
Definition ramp_blue (iterations maxIter : Z) : Z := iterations * 64 / maxIter.

(** ** [ft_pixel] *)

Lemma ft_pixel_bytes r g b a :
  in_byte r -> in_byte g -> in_byte b -> in_byte a ->
  wrap_uint32 (ft_pixel r g b a) = rgba r g b a.
Proof.
  intros Hr Hg Hb Ha. unfold ft_pixel, int_or, rgba.
  rewrite !wrap_uint32_lor, !wrap_uint32_shl, wrap_uint32_id;
    unfold in_byte, in_uint32, UINT32_MAX in *; try lia.
  by apply lor_pack4.
Qed.

(** C38: For a red channel of 128 or more, [r << 24] does not fit an [int]:
    the [int32_t] that [ft_pixel] returns is negative. *)
Theorem ft_pixel_negative r g b a :
  128 <= r <= 255 -> in_byte g -> in_byte b -> in_byte a ->
  ft_pixel r g b a = rgba r g b a - 2 ^ 32.
Proof.
  intros Hr Hg Hb Ha.
  unfold ft_pixel, int_or, int_shl. rewrite !Z.shiftl_mul_pow2 by lia.
  rewrite (wrap_int_id (g * _)), (wrap_int_id (b * _))
    by (unfold in_byte, in_int, INT_MIN, INT_MAX in *; lia).
  replace (wrap_int (r * 2 ^ 24)) with ((r - 256) * 2 ^ 24)
    by (unfold wrap_int; lia_div).
  rewrite lor_pack4 by done.
  unfold rgba. lia.
Qed.

(** ** [get_color] *)

Section GetColor.
Implicit Types iterations maxIter : Z.

Lemma sentinel_gray_value : wrap_uint32 (ft_pixel 20 20 20 255) = sentinel_gray.
Proof. reflexivity. Qed.

(** Below [MAX_SAFE_ITER] a product of the ramp fits an [int], and its
    quotient by the cap is below the multiplier. *)
Lemma ramp_channel k iterations maxIter :
  0 < k <= 255 -> 0 <= iterations < maxIter -> maxIter <= MAX_SAFE_ITER ->
  int_div (int_mul iterations k) maxIter = Ok (iterations * k / maxIter) /\
  0 <= iterations * k / maxIter < k.
Proof.
  unfold MAX_SAFE_ITER. intros Hk Hit Hmax. split.
  - rewrite int_mul_id by (unfold in_int, INT_MIN, INT_MAX; nia).
    apply int_div_nonneg; nia.
  - split; [apply Z.div_pos; nia|apply Z.div_lt_upper_bound; nia].
Qed.

Lemma rgba_inj r g b a r' g' b' a' :
  in_byte r -> in_byte g -> in_byte b -> in_byte a ->
  in_byte r' -> in_byte g' -> in_byte b' -> in_byte a' ->
  rgba r g b a = rgba r' g' b' a' -> r = r' /\ g = g' /\ b = b' /\ a = a'.
Proof. unfold in_byte, rgba. lia. Qed.

Lemma rgba_range r g b a :
  in_byte r -> in_byte g -> in_byte b -> in_byte a -> in_uint32 (rgba r g b a).
Proof. unfold in_byte, in_uint32, UINT32_MAX, rgba. lia. Qed.

Lemma channel_div c shift :
  0 <= shift -> channel c shift = c / 2 ^ shift mod 256.
Proof.
  intros Hs. unfold channel. change 255 with (Z.ones 8).
  by rewrite Z.land_ones, Z.shiftr_div_pow2 by lia.
Qed.

(** The bytes of a word are its channels. *)
Lemma channel_rgba r g b a :
  in_byte r -> in_byte g -> in_byte b -> in_byte a ->
  channel (rgba r g b a) 24 = r /\ channel (rgba r g b a) 16 = g /\
  channel (rgba r g b a) 8 = b /\ channel (rgba r g b a) 0 = a.
Proof.
  unfold in_byte. intros Hr Hg Hb Ha.
  rewrite !channel_div by lia. unfold rgba. split_and!; lia_div.
Qed.

(** The alpha byte of a word that [get_color] returns, whatever the
    other channels, in their bytes or not. *)
Lemma channel_wrap_uint32 c : channel (wrap_uint32 c) 0 = Z.land c 255.
Proof.
  unfold channel, wrap_uint32. rewrite Z.shiftr_0_r.
  change 4294967296 with (2 ^ 32). rewrite <- Z.land_ones by lia.
  by rewrite <- Z.land_assoc.
Qed.

Lemma ft_pixel_alpha r g b : channel (wrap_uint32 (ft_pixel r g b 255)) 0 = 255.
Proof. rewrite channel_wrap_uint32. unfold ft_pixel, int_or. apply lor_low_byte. Qed.

(** The word of the ramp: the three quotients and full opacity, each
    channel within its byte. *)
Lemma ramp_word iterations maxIter :
  0 <= iterations < maxIter -> maxIter <= MAX_SAFE_ITER ->
  (r <- int_div (int_mul iterations 255) maxIter ;;
   g <- int_div (int_mul iterations 128) maxIter ;;
   b <- int_div (int_mul iterations 64) maxIter ;;
   Ok (wrap_uint32 (ft_pixel r g b 255))) =
    Ok (rgba (ramp_red iterations maxIter) (ramp_green iterations maxIter)
          (ramp_blue iterations maxIter) 255) /\
  0 <= ramp_red iterations maxIter <= 254 /\
  0 <= ramp_green iterations maxIter <= 127 /\
  0 <= ramp_blue iterations maxIter <= 63.
Proof.
  intros Hit Hmax. unfold ramp_red, ramp_green, ramp_blue.
  destruct (ramp_channel 255 iterations maxIter) as [Hr ?]; [lia..|].
  destruct (ramp_channel 128 iterations maxIter) as [Hg ?]; [lia..|].
  destruct (ramp_channel 64 iterations maxIter) as [Hb ?]; [lia..|].
  split; [|lia]. rewrite Hr, Hg, Hb. simpl.
  f_equal. apply ft_pixel_bytes; unfold in_byte; lia.
Qed.

(** C5: For a count below a cap of at most [MAX_SAFE_ITER], [get_color]
    returns a word whose red, green and blue bytes are the quotients
    [iterations * 255 / maxIter], [iterations * 128 / maxIter] and
    [iterations * 64 / maxIter], and whose alpha byte is 255. *)
Theorem get_color_ramp iterations maxIter :
  0 <= iterations < maxIter -> maxIter <= MAX_SAFE_ITER ->
  exists c, get_color iterations maxIter = Ok c /\ in_uint32 c /\
    channel c 24 = iterations * 255 / maxIter /\
    channel c 16 = iterations * 128 / maxIter /\
    channel c 8 = iterations * 64 / maxIter /\
    channel c 0 = 255.
Proof.
  intros Hit Hmax.
  destruct (ramp_word iterations maxIter) as (Hw & Hr & Hg & Hb); [done..|].
  unfold get_color. rewrite (proj2 (Z.eqb_neq iterations maxIter)), Hw by lia.
  eexists. split; [done|].
  split; [apply rgba_range; unfold in_byte; lia|].
  apply channel_rgba; unfold in_byte; lia.
Qed.

(** Whatever the count and the cap, overflowing products
    included, a colour that [get_color] returns is a [uint32_t] whose
    alpha byte is 255. *)
Theorem get_color_typed iterations maxIter c :
  get_color iterations maxIter = Ok c -> in_uint32 c /\ channel c 0 = 255.
Proof.
  unfold get_color. case_match.
  - intros [= <-]. split; [apply wrap_uint32_range|apply ft_pixel_alpha].
  - destruct (int_div (int_mul iterations 255) maxIter) as [r|]; [|done].
    destruct (int_div (int_mul iterations 128) maxIter) as [g|]; [|done].
    destruct (int_div (int_mul iterations 64) maxIter) as [b|]; [|done].
    intros [= <-]. split; [apply wrap_uint32_range|apply ft_pixel_alpha].
Qed.

Lemma get_color_cap maxIter : get_color maxIter maxIter = Ok sentinel_gray.
Proof. unfold get_color. by rewrite Z.eqb_refl. Qed.

Lemma get_color_ramp_eq iterations maxIter :
  iterations <> maxIter ->
  get_color iterations maxIter =
    (r <- int_div (int_mul iterations 255) maxIter ;;
     g <- int_div (int_mul iterations 128) maxIter ;;
     b <- int_div (int_mul iterations 64) maxIter ;;
     Ok (wrap_uint32 (ft_pixel r g b 255))).
Proof. intros Hne. unfold get_color. by rewrite (proj2 (Z.eqb_neq _ _) Hne). Qed.

(** The colour of a count below the cap. *)
Lemma get_color_below iterations maxIter :
  0 <= iterations < maxIter -> maxIter <= MAX_SAFE_ITER ->
  get_color iterations maxIter =
    Ok (rgba (ramp_red iterations maxIter) (ramp_green iterations maxIter)
          (ramp_blue iterations maxIter) 255) /\
  0 <= ramp_red iterations maxIter <= 254 /\
  0 <= ramp_green iterations maxIter <= 127 /\
  0 <= ramp_blue iterations maxIter <= 63.
Proof.
  intros Hit Hmax. rewrite get_color_ramp_eq by lia. by apply ramp_word.
Qed.

(** A count of zero is black, fully opaque, for every cap but zero. *)
Theorem get_color_zero maxIter :
  maxIter <> 0 -> get_color 0 maxIter = Ok (rgba 0 0 0 255).
Proof.
  intros Hne. rewrite get_color_ramp_eq by lia. unfold int_div.
  by rewrite (proj2 (Z.eqb_neq _ _) Hne).
Qed.

(** Up to a cap of [MAX_SAFE_ITER], the grey 0x141414FF is the colour
    of the count equal to the cap and of no count below it. *)
Theorem get_color_sentinel iterations maxIter :
  0 <= iterations <= maxIter -> maxIter <= MAX_SAFE_ITER ->
  get_color iterations maxIter = Ok sentinel_gray <-> iterations = maxIter.
Proof.
  intros Hit Hmax. split; [|intros ->; apply get_color_cap].
  destruct (decide (iterations = maxIter)) as [|Hne]; [done|].
  destruct (get_color_below iterations maxIter) as (-> & Hr & Hg & Hb); [lia..|].
  intros [= Heq]. apply rgba_inj in Heq as (Hr20 & Hg20 & _);
    unfold in_byte; try lia.
  unfold ramp_red, ramp_green in *. lia_div.
Qed.

(** The ramp does not decrease with the count. *)
Theorem get_color_monotone iterations iterations' maxIter c c' :
  0 <= iterations <= iterations' -> iterations' < maxIter ->
  maxIter <= MAX_SAFE_ITER ->
  get_color iterations maxIter = Ok c -> get_color iterations' maxIter = Ok c' ->
  c <= c'.
Proof.
  intros Hit Hit' Hmax.
  destruct (get_color_below iterations maxIter) as (-> & ? & ? & ?); [lia..|].
  destruct (get_color_below iterations' maxIter) as (-> & ? & ? & ?); [lia..|].
  intros [= <-] [= <-]. unfold rgba, ramp_red, ramp_green, ramp_blue in *.
  assert (iterations * 255 / maxIter <= iterations' * 255 / maxIter)
    by (apply Z.div_le_mono; lia).
  assert (iterations * 128 / maxIter <= iterations' * 128 / maxIter)
    by (apply Z.div_le_mono; lia).
  assert (iterations * 64 / maxIter <= iterations' * 64 / maxIter)
    by (apply Z.div_le_mono; lia).
  lia.
Qed.

(** With a cap of zero every other count divides by zero. *)
Theorem get_color_div_by_zero iterations :
  iterations <> 0 -> get_color iterations 0 = Fault DivByZero.
Proof. intros Hne. by rewrite get_color_ramp_eq. Qed.


End GetColor.

(** ** Witnesses *)

Lemma ft_pixel_negative_witness :
  ft_pixel 200 100 50 255 = rgba 200 100 50 255 - 2 ^ 32.
Proof. apply ft_pixel_negative; unfold in_byte; lia. Defined.

Lemma get_color_ramp_witness :
  exists c, get_color 25 50 = Ok c /\ in_uint32 c /\
    channel c 24 = 25 * 255 / 50 /\ channel c 16 = 25 * 128 / 50 /\
    channel c 8 = 25 * 64 / 50 /\ channel c 0 = 255.
Proof. apply get_color_ramp; [lia|by vm_compute]. Defined.

Lemma get_color_typed_witness :
  in_uint32 (rgba 2 127 63 255) /\ channel (rgba 2 127 63 255) 0 = 255.
Proof. by apply (get_color_typed 8421505 8421506). Defined.

Lemma get_color_zero_witness : get_color 0 50 = Ok (rgba 0 0 0 255).
Proof. by apply get_color_zero. Defined.

Lemma get_color_sentinel_witness :
  get_color 49 50 = Ok sentinel_gray <-> 49 = 50.
Proof. apply get_color_sentinel; [lia|by vm_compute]. Defined.

Lemma get_color_monotone_witness :
  get_color 10 50 = Ok 857279743 /\ get_color 20 50 = Ok 1714625023 /\
  857279743 <= 1714625023.
Proof.
  split_and!; [done..|].
  apply (get_color_monotone 10 20 50); (lia || by vm_compute).
Defined.

Lemma get_color_div_by_zero_witness : get_color 7 0 = Fault DivByZero.
Proof. by apply get_color_div_by_zero. Defined.
