(* ===== verification/CString.v ===== *)
(** * CString: the string routines of src/main.c

    [ft_strlen] and [ft_strncmp] over NUL-terminated byte strings, with
    every read of [s[i]] checked against the object that holds the
    string; their references [cstrlen] and [strncmp_spec]; the theorems
    that the routines return the references without a read outside the
    strings, and that a comparison over the length of the first string
    is a test of prefix. *)

From Stdlib Require Import Ascii String.
From S2P Require Import Prelude MachInt.

(** ** Strings in memory *)

(** A C string is given by the bytes that precede its terminating NUL;
    the object that holds it has one more byte, the terminator. *)
Abbreviation cstring := (list Z).

Definition cstring_of (s : string) : cstring :=
  (fun c => Z.of_N (N_of_ascii c)) <$> list_ascii_of_string s.

(** Every element is a byte, and none of them is the terminator. *)
Definition is_bytes (s : cstring) : Prop := Forall in_byte s.
Definition no_nul (s : cstring) : Prop := Forall (fun c => c <> 0) s.

(** [s[i]]: a byte of the string, its terminator, or a read outside the
    object. *)
Definition char_at (s : cstring) (i : Z) : result Z :=
  if 0 <=? i then
    match s !! Z.to_nat i with
    | Some c => Ok c
    | None => if i =? Z.of_nat (length s) then Ok 0 else Fault OutOfBounds
    end
  else Fault OutOfBounds.

(** ** [ft_strlen] *)

Definition ft_strlen (s : cstring) : result Z :=
  r <- while (fun i => c <- char_at s i ;; Ok (negb (c =? 0)))
         (fun i => Ok (Next (int_add i 1)))
         (length s) 0 ;;
  match r with
  | Next i => Ok i
  | Return v => Ok v
  end.

(** ** [ft_strncmp] *)

(** [i < n && s1[i] == s2[i] && s1[i] && s2[i]] *)
Definition strncmp_cond (s1 s2 : cstring) (n i : Z) : result bool :=
  and_then (Ok (i <? n))
    (and_then (c1 <- char_at s1 i ;; c2 <- char_at s2 i ;; Ok (c1 =? c2))
       (and_then (c1 <- char_at s1 i ;; Ok (negb (c1 =? 0)))
          (c2 <- char_at s2 i ;; Ok (negb (c2 =? 0))))).

(** After the loop: [if (i == n) return (0);
    return ((unsigned char)s1[i] - (unsigned char)s2[i]);] *)
Definition strncmp_result (s1 s2 : cstring) (n : Z) (r : flow Z Z) : result Z :=
  match r with
  | Next i =>
      if i =? n then Ok 0
      else c1 <- char_at s1 i ;; c2 <- char_at s2 i ;; Ok (int_sub c1 c2)
  | Return v => Ok v
  end.

Definition ft_strncmp (s1 s2 : cstring) (n : Z) : result Z :=
  if n =? 0 then Ok 0
  else
    r <- while (strncmp_cond s1 s2 n) (fun i => Ok (Next (size_add i 1)))
           (length s1) 0 ;;
    strncmp_result s1 s2 n r.

(** ** Reference definitions *)

(** The number of bytes before the first NUL. *)
Fixpoint cstrlen (s : cstring) : nat :=
  match s with
  | [] => 0
  | c :: s' => if c =? 0 then 0 else S (cstrlen s')
  end.

(** The string that an object holds: its bytes before the first NUL. *)
Definition cstr (s : cstring) : cstring := take (cstrlen s) s.

(** The comparison of at most [n] bytes, stopping after a NUL: zero, or
    the difference of the first bytes that differ. *)
Fixpoint strncmp_spec (s1 s2 : cstring) (n : nat) : Z :=
  match n with
  | O => 0
  | S n' =>
      let c1 := hd 0 s1 in
      let c2 := hd 0 s2 in
      if c1 =? c2 then (if c1 =? 0 then 0 else strncmp_spec (tl s1) (tl s2) n')
      else c1 - c2
  end.

(** ** Reads *)

Section Reads.
Implicit Types (s p t : cstring) (i n : Z).

(** The byte after a prefix [p] is the head of the rest, or the NUL. *)
Lemma char_at_app p t : char_at (p ++ t) (Z.of_nat (length p)) = Ok (hd 0 t).
Proof.
  unfold char_at. rewrite (proj2 (Z.leb_le _ _)), Nat2Z.id by lia.
  destruct t as [|c t]; [|by rewrite list_lookup_middle].
  rewrite app_nil_r, lookup_ge_None_2, Z.eqb_refl; done.
Qed.

Lemma char_at_in_range s i :
  0 <= i <= Z.of_nat (length s) -> exists c, char_at s i = Ok c.
Proof.
  intros Hi. unfold char_at. rewrite (proj2 (Z.leb_le _ _)) by lia.
  destruct (s !! Z.to_nat i) as [c|] eqn:Hl; [by eexists|].
  apply lookup_ge_None in Hl. rewrite (proj2 (Z.eqb_eq _ _)) by lia. by eexists.
Qed.

Lemma char_at_out_of_range s i :
  i < 0 \/ Z.of_nat (length s) < i -> char_at s i = Fault OutOfBounds.
Proof.
  intros Hi. unfold char_at. destruct (Z.leb_spec 0 i); [|done].
  rewrite lookup_ge_None_2, (proj2 (Z.eqb_neq _ _)) by lia. done.
Qed.

Lemma cstrlen_le s : (cstrlen s <= length s)%nat.
Proof. induction s as [|c s IH]; simpl; [lia|]. destruct (c =? 0); lia. Qed.

Lemma cstrlen_no_nul s : no_nul s -> cstrlen s = length s.
Proof.
  induction 1 as [|c s Hc _ IH]; simpl; [done|].
  by rewrite (proj2 (Z.eqb_neq _ _)), IH.
Qed.

Lemma cstring_of_is_bytes (name : string) : is_bytes (cstring_of name).
Proof.
  unfold cstring_of, is_bytes. apply Forall_fmap, Forall_forall. intros c _. simpl.
  pose proof (Ascii.N_ascii_bounded c). unfold in_byte. lia.
Qed.

(** The bytes before the first NUL are not NUL, and a NUL follows them. *)
Lemma cstrlen_lookup s (j : nat) :
  (j < cstrlen s)%nat -> exists c, s !! j = Some c /\ c <> 0.
Proof.
  revert j. induction s as [|c s IH]; intros j; simpl; [lia|].
  destruct (Z.eqb_spec c 0); [lia|]. destruct j as [|j]; [by exists c|].
  intros Hj. apply IH. lia.
Qed.

Lemma hd_drop_cstrlen s : hd 0 (drop (cstrlen s) s) = 0.
Proof.
  induction s as [|c s IH]; simpl; [done|]. by destruct (Z.eqb_spec c 0).
Qed.

Lemma char_at_cstrlen s : char_at s (Z.of_nat (cstrlen s)) = Ok 0.
Proof.
  pose proof (char_at_app (take (cstrlen s) s) (drop (cstrlen s) s)) as Hc.
  by rewrite take_drop, length_take_le, hd_drop_cstrlen in Hc by apply cstrlen_le.
Qed.

End Reads.

(** ** [ft_strlen] returns the length *)

Section Strlen.
Implicit Types (s p t : cstring).

(** The loop entered at the end of a prefix [p] stops at the first NUL
    of the rest. *)
Lemma strlen_loop t : forall p k,
  k = Z.of_nat (length p) -> Z.of_nat (length (p ++ t)) <= INT_MAX ->
  while (fun i => c <- char_at (p ++ t) i ;; Ok (negb (c =? 0)))
    (fun i => Ok (Next (int_add i 1)) : result (flow Z Z))
    (length t) k =
  Ok (Next (k + Z.of_nat (cstrlen t))).
Proof.
  induction t as [|c t IH]; intros p k -> Hlen.
  - rewrite while_exit by (by rewrite char_at_app). do 2 f_equal. simpl. lia.
  - simpl length. simpl cstrlen. destruct (Z.eqb_spec c 0) as [->|Hc].
    + rewrite while_exit by (by rewrite char_at_app). do 2 f_equal. lia.
    + rewrite while_step by
        (rewrite char_at_app; simpl; by rewrite (proj2 (Z.eqb_neq _ _))).
      rewrite length_app in Hlen. simpl in Hlen.
      rewrite int_add_id by int_range.
      rewrite cons_middle, app_assoc.
      rewrite (IH (p ++ [c])) by (rewrite ?length_app; simpl; lia).
      do 2 f_equal. lia.
Qed.

(** C10: On a string whose length an [int] holds, [ft_strlen] reads no byte
    outside the object and returns the index of the first NUL: every
    byte before it is not NUL, and the byte at it is. *)
Theorem ft_strlen_cstrlen s :
  Z.of_nat (length s) <= INT_MAX ->
  exists n, ft_strlen s = Ok n /\ n = Z.of_nat (cstrlen s) /\
    0 <= n <= Z.of_nat (length s) /\
    (forall i, 0 <= i < n -> exists c, char_at s i = Ok c /\ c <> 0) /\
    char_at s n = Ok 0.
Proof.
  intros Hlen. exists (Z.of_nat (cstrlen s)). pose proof (cstrlen_le s).
  pose proof (strlen_loop s [] 0 eq_refl Hlen) as Hloop. cbn [app] in Hloop.
  unfold ft_strlen. rewrite Hloop.
  split_and!; [done|done|lia..| |apply char_at_cstrlen].
  intros i Hi. destruct (cstrlen_lookup s (Z.to_nat i)) as (c & Hc & ?); [lia|].
  exists c. unfold char_at. by rewrite (proj2 (Z.leb_le _ _)), Hc by lia.
Qed.

Lemma ft_strlen_run s :
  Z.of_nat (length s) <= INT_MAX -> ft_strlen s = Ok (Z.of_nat (cstrlen s)).
Proof.
  intros Hlen. unfold ft_strlen.
  pose proof (strlen_loop s [] 0 eq_refl Hlen) as Hloop.
  cbn [app] in Hloop. by rewrite Hloop.
Qed.

Corollary ft_strlen_length s :
  no_nul s -> Z.of_nat (length s) <= INT_MAX ->
  ft_strlen s = Ok (Z.of_nat (length s)).
Proof. intros Hs Hlen. by rewrite ft_strlen_run, cstrlen_no_nul. Qed.

End Strlen.

(** ** [ft_strncmp] compares at most [n] bytes *)

Section Strncmp.
Implicit Types (s p t : cstring) (n k : Z).

Lemma hd_in_byte t : is_bytes t -> in_byte (hd 0 t).
Proof. destruct 1; simpl; [int_range|done]. Qed.

(** The condition of the loop at the end of two prefixes of one length. *)
Lemma strncmp_cond_app p1 p2 t1 t2 n k :
  k = Z.of_nat (length p1) -> length p1 = length p2 ->
  strncmp_cond (p1 ++ t1) (p2 ++ t2) n k =
    Ok ((k <? n) && ((hd 0 t1 =? hd 0 t2) && (negb (hd 0 t1 =? 0) && negb (hd 0 t2 =? 0)))).
Proof.
  intros -> Hlen. unfold strncmp_cond, and_then. rewrite char_at_app.
  rewrite Hlen, char_at_app. simpl.
  by destruct (_ <? n), (hd 0 t1 =? hd 0 t2), (hd 0 t1 =? 0).
Qed.

(** Where the loop stops, the result is that of the reference. *)
Lemma strncmp_stop p1 p2 t1 t2 n k fuel :
  k = Z.of_nat (length p1) -> length p1 = length p2 ->
  is_bytes t1 -> is_bytes t2 -> k <= n ->
  (k <? n) && ((hd 0 t1 =? hd 0 t2) && (negb (hd 0 t1 =? 0) && negb (hd 0 t2 =? 0))) = false ->
  (r <- while (strncmp_cond (p1 ++ t1) (p2 ++ t2) n)
          (fun i => Ok (Next (size_add i 1))) fuel k ;;
   strncmp_result (p1 ++ t1) (p2 ++ t2) n r) =
  Ok (strncmp_spec t1 t2 (Z.to_nat (n - k))).
Proof.
  intros Hk Hlen Hb1%hd_in_byte Hb2%hd_in_byte Hle Hstop.
  rewrite while_exit by (by rewrite strncmp_cond_app, Hstop). simpl.
  destruct (Z.eqb_spec k n) as [->|Hne]; [by rewrite Z.sub_diag|].
  replace (Z.to_nat (n - k)) with (S (Z.to_nat (n - k - 1))) by lia.
  subst k. rewrite char_at_app, Hlen, char_at_app. simpl.
  rewrite int_sub_id by int_range.
  destruct (Z.eqb_spec (hd 0 t1) (hd 0 t2)) as [Heq|?]; [|done].
  destruct (Z.eqb_spec (hd 0 t1) 0); [f_equal; lia|].
  rewrite <- Heq in Hstop. exfalso. lia.
Qed.

Lemma strncmp_loop t1 : forall p1 p2 t2 n k,
  k = Z.of_nat (length p1) -> length p1 = length p2 ->
  is_bytes t1 -> is_bytes t2 -> k <= n ->
  Z.of_nat (length (p1 ++ t1)) <= SIZE_MAX ->
  (r <- while (strncmp_cond (p1 ++ t1) (p2 ++ t2) n)
          (fun i => Ok (Next (size_add i 1))) (length t1) k ;;
   strncmp_result (p1 ++ t1) (p2 ++ t2) n r) =
  Ok (strncmp_spec t1 t2 (Z.to_nat (n - k))).
Proof.
  induction t1 as [|c t1 IH]; intros p1 p2 t2 n k Hk Hlen Hb1 Hb2 Hle Hmax.
  { apply strncmp_stop; try done. simpl. by rewrite !andb_false_r. }
  destruct ((k <? n) && ((hd 0 (c :: t1) =? hd 0 t2) &&
    (negb (hd 0 (c :: t1) =? 0) && negb (hd 0 t2 =? 0)))) eqn:Hgo;
    [|by apply strncmp_stop].
  destruct t2 as [|c2 t2]; simpl in Hgo; [lia|].
  assert (c2 = c /\ c <> 0 /\ k < n) as (-> & Hc & Hlt) by lia.
  change (length (c :: t1)) with (S (length t1)).
  rewrite while_step by (by rewrite strncmp_cond_app, <- Hgo).
  rewrite length_app in Hmax. simpl in Hmax. rewrite size_add_id by int_range.
  rewrite (cons_middle c p1), (cons_middle c p2), !app_assoc.
  apply Forall_inv_tail in Hb1, Hb2.
  rewrite IH by (rewrite ?length_app; simpl; done || lia).
  replace (Z.to_nat (n - k)) with (S (Z.to_nat (n - (k + 1)))) by lia.
  simpl. by rewrite Z.eqb_refl, (proj2 (Z.eqb_neq _ _)).
Qed.

(** The reference comparison is zero exactly when the two strings
    agree on their first [n] bytes. *)
Lemma strncmp_spec_zero (m : nat) : forall s1 s2,
  is_bytes s1 -> is_bytes s2 ->
  strncmp_spec s1 s2 m = 0 <-> take m (cstr s1) = take m (cstr s2).
Proof.
  unfold cstr. induction m as [|m IH]; intros s1 s2 Hb1 Hb2; [done|].
  destruct Hb1 as [|c1 s1 _ Hb1], Hb2 as [|c2 s2 _ Hb2]; simpl;
    repeat case_match; simpl; try (split; (done || lia)).
  - rewrite IH by done. split; [intros ->; f_equal; lia|by intros [= _ ->]].
  - split; [lia|intros [= ? _]; lia].
Qed.

Lemma strncmp_spec_range (m : nat) : forall s1 s2,
  is_bytes s1 -> is_bytes s2 -> -255 <= strncmp_spec s1 s2 m <= 255.
Proof.
  induction m as [|m IH]; intros s1 s2 Hb1 Hb2; simpl; [lia|].
  pose proof (hd_in_byte _ Hb1). pose proof (hd_in_byte _ Hb2).
  repeat case_match; try (unfold in_byte in *; lia).
  apply IH; destruct s1, s2; simpl; try done; by eapply Forall_inv_tail.
Qed.

(** C9: On byte strings, [ft_strncmp] reads no byte outside the two
    objects; it returns the comparison of the reference, a difference
    of two bytes, which is zero exactly when the strings agree on
    their first [n] bytes. *)
Theorem ft_strncmp_spec s1 s2 n :
  is_bytes s1 -> is_bytes s2 -> 0 <= n ->
  Z.of_nat (length s1) <= SIZE_MAX ->
  exists r, ft_strncmp s1 s2 n = Ok r /\
    r = strncmp_spec s1 s2 (Z.to_nat n) /\ -255 <= r <= 255 /\
    (r = 0 <-> take (Z.to_nat n) (cstr s1) = take (Z.to_nat n) (cstr s2)).
Proof.
  intros Hb1 Hb2 Hn Hmax. exists (strncmp_spec s1 s2 (Z.to_nat n)).
  split; [|split; [done|split; [by apply strncmp_spec_range|by apply strncmp_spec_zero]]].
  unfold ft_strncmp. destruct (Z.eqb_spec n 0) as [->|Hne]; [done|].
  pose proof (strncmp_loop s1 [] [] s2 n 0 eq_refl eq_refl Hb1 Hb2 Hn Hmax) as Hloop.
  cbn [app] in Hloop. by rewrite Hloop, Z.sub_0_r.
Qed.

Lemma ft_strncmp_run s1 s2 n :
  is_bytes s1 -> is_bytes s2 -> 0 <= n ->
  Z.of_nat (length s1) <= SIZE_MAX ->
  ft_strncmp s1 s2 n = Ok (strncmp_spec s1 s2 (Z.to_nat n)).
Proof.
  intros Hb1 Hb2 Hn Hmax. unfold ft_strncmp.
  destruct (Z.eqb_spec n 0) as [->|Hne]; [done|].
  pose proof (strncmp_loop s1 [] [] s2 n 0 eq_refl eq_refl Hb1 Hb2 Hn Hmax) as Hloop.
  cbn [app] in Hloop. by rewrite Hloop, Z.sub_0_r.
Qed.

End Strncmp.

(** ** Comparing over the length of the first string *)

Section Prefix.
Implicit Types (s : cstring).

(** Over the length of a first string without NUL, the reference
    comparison is zero exactly when that string is a prefix of the
    second. *)
Lemma strncmp_spec_prefix s1 : forall s2,
  no_nul s1 -> strncmp_spec s1 s2 (length s1) = 0 <-> s1 `prefix_of` s2.
Proof.
  induction s1 as [|c s1 IH]; intros s2 Hnn; [split; [intros; apply prefix_nil|done]|].
  apply Forall_cons in Hnn as [Hc Hnn]. simpl.
  destruct s2 as [|c2 s2]; simpl.
  - rewrite (proj2 (Z.eqb_neq _ _)) by done. split; [lia|].
    by intros ?%prefix_nil_inv.
  - destruct (Z.eqb_spec c c2) as [<-|Hne].
    + rewrite (proj2 (Z.eqb_neq _ _)), IH by done.
      split; [apply prefix_cons|apply prefix_cons_inv_2].
    + split; [lia|]. by intros ?%prefix_cons_inv_1.
Qed.

(** [ft_strncmp(s1, s2, ft_strlen(s1))] is zero exactly when [s1] is a
    prefix of [s2]: the empty string and every proper prefix compare
    equal to [s2]. *)
Theorem ft_strncmp_strlen_prefix s1 s2 :
  is_bytes s1 -> is_bytes s2 -> no_nul s1 ->
  Z.of_nat (length s1) <= INT_MAX ->
  exists r, (n <- ft_strlen s1 ;; ft_strncmp s1 s2 n) = Ok r /\
            (r = 0 <-> s1 `prefix_of` s2).
Proof.
  intros Hb1 Hb2 Hnn Hlen. exists (strncmp_spec s1 s2 (length s1)).
  rewrite ft_strlen_length by done. simpl.
  rewrite ft_strncmp_run, Nat2Z.id by (done || int_range).
  split; [done|by apply strncmp_spec_prefix].
Qed.

End Prefix.

(** ** Witnesses *)

Lemma ft_strlen_cstrlen_witness :
  exists n, ft_strlen (cstring_of "julia") = Ok n /\
    n = Z.of_nat (cstrlen (cstring_of "julia")) /\
    0 <= n <= Z.of_nat (length (cstring_of "julia")) /\
    (forall i, 0 <= i < n ->
       exists c, char_at (cstring_of "julia") i = Ok c /\ c <> 0) /\
    char_at (cstring_of "julia") n = Ok 0.
Proof. apply ft_strlen_cstrlen. by vm_compute. Defined.

Lemma ft_strncmp_spec_witness :
  exists r, ft_strncmp (cstring_of "jul") (cstring_of "julia") 3 = Ok r /\
    r = strncmp_spec (cstring_of "jul") (cstring_of "julia") (Z.to_nat 3) /\
    -255 <= r <= 255 /\
    (r = 0 <-> take (Z.to_nat 3) (cstr (cstring_of "jul")) =
               take (Z.to_nat 3) (cstr (cstring_of "julia"))).
Proof.
  apply ft_strncmp_spec; [apply cstring_of_is_bytes..|lia|by vm_compute].
Defined.

Lemma ft_strncmp_strlen_prefix_witness :
  exists r, (n <- ft_strlen (cstring_of "m") ;;
             ft_strncmp (cstring_of "m") (cstring_of "mandelbrot") n) = Ok r /\
            (r = 0 <-> cstring_of "m" `prefix_of` cstring_of "mandelbrot").
Proof.
  apply ft_strncmp_strlen_prefix; [apply cstring_of_is_bytes..| |by vm_compute].
  by repeat constructor.
Defined.
