(* ===== verification/Atoi.v ===== *)
(** * Atoi: the conversion [ft_atoi] of the iteration cap

    [main.c] includes [ft_atoi.c], which is not among the sources; the
    conversion is modelled from its contract: white space, an optional
    sign, decimal digits accumulated in an [int].  The reference is the
    decimal numeral of a number, defined by recursion on its quotient
    by ten; the conversion reads the numeral of every [int] back, with
    white space before it and any text that is not a digit after it. *)

From Stdlib Require Import String.
From Equations Require Import Equations.
From S2P Require Import Prelude MachInt CString.

(** ** [ft_atoi] *)

Definition is_space (c : Z) : bool := (c =? 32) || ((9 <=? c) && (c <=? 13)).
Definition is_digit (c : Z) : bool := (48 <=? c) && (c <=? 57).

Fixpoint skip_spaces (s : cstring) : cstring :=
  match s with
  | c :: s' => if is_space c then skip_spaces s' else s
  | [] => []
  end.

Fixpoint atoi_digits (s : cstring) (acc : Z) : Z :=
  match s with
  | c :: s' =>
      if is_digit c then atoi_digits s' (int_add (int_mul acc 10) (c - 48))
      else acc
  | [] => acc
  end.

Definition ft_atoi (s : cstring) : Z :=
  match skip_spaces s with
  | c :: s' =>
      if c =? 45 then int_mul (atoi_digits s' 0) (-1)
      else if c =? 43 then atoi_digits s' 0
      else atoi_digits (c :: s') 0
  | [] => 0
  end.

(** ** Reference definitions *)

(** The decimal numeral of a number that is not negative, most
    significant digit first. *)
Equations? decimal (n : Z) : cstring by wf (Z.to_nat n) lt :=
  decimal n with Z_lt_dec n 10 => {
    | left _ := [48 + n];
    | right _ := decimal (n / 10) ++ [48 + n mod 10] }.
Proof. lia_div. Qed.

(** The text after a numeral does not continue it. *)
Definition ends_number (rest : cstring) : Prop :=
  match rest with
  | c :: _ => is_digit c = false
  | [] => True
  end.

Section Conversion.
Implicit Types (s rest sp : cstring) (acc c n : Z).

Lemma atoi_digits_in_int s acc : in_int acc -> in_int (atoi_digits s acc).
Proof.
  revert acc. induction s as [|c s IH]; intros acc Hacc; simpl; [done|].
  case_match; [|done]. apply IH, wrap_int_range.
Qed.

Lemma ft_atoi_in_int s : in_int (ft_atoi s).
Proof.
  unfold ft_atoi. destruct (skip_spaces s) as [|c s']; [int_range|].
  repeat case_match; try apply wrap_int_range;
    apply atoi_digits_in_int; int_range.
Qed.

Lemma atoi_digits_ends rest acc : ends_number rest -> atoi_digits rest acc = acc.
Proof. destruct rest as [|c rest]; [done|]. simpl. by intros ->. Qed.

(** One more digit: the accumulator times ten plus the digit. *)
Lemma atoi_digits_step (d : Z) rest acc :
  0 <= d <= 9 -> 0 <= acc -> acc * 10 + d <= INT_MAX ->
  atoi_digits ((48 + d) :: rest) acc = atoi_digits rest (acc * 10 + d).
Proof.
  intros Hd Hacc Hmax. simpl.
  replace (is_digit (48 + d)) with true by (unfold is_digit; lia).
  rewrite int_mul_id, int_add_id by (unfold in_int, INT_MIN, INT_MAX in *; lia).
  f_equal. lia.
Qed.

(** The digits of a numeral that an [int] holds are accumulated
    without overflow. *)
Lemma atoi_digits_decimal (n : Z) rest :
  0 <= n <= INT_MAX ->
  atoi_digits (decimal n ++ rest) 0 = atoi_digits rest n.
Proof.
  revert rest. funelim (decimal n); intros rest Hn; clear Heqcall.
  - cbn [app]. rewrite atoi_digits_step by lia. f_equal.
  - rewrite <- app_assoc. cbn [app].
    rewrite H, atoi_digits_step by lia_div. f_equal. lia_div.
Qed.

(** A numeral is made of digits, at least one and no more than its
    number has units. *)
Lemma decimal_digits n : 0 <= n -> Forall (fun c => is_digit c = true) (decimal n).
Proof.
  funelim (decimal n); intros Hn; clear Heqcall.
  - apply Forall_singleton. unfold is_digit. lia.
  - apply Forall_app. split; [apply H; lia_div|].
    apply Forall_singleton. unfold is_digit. lia_div.
Qed.

Lemma decimal_length n :
  0 <= n -> 1 <= Z.of_nat (length (decimal n)) <= Z.max 1 n.
Proof.
  funelim (decimal n); intros Hn; clear Heqcall; [simpl; lia|].
  rewrite length_app. simpl. specialize (H ltac:(lia_div)).
  assert (1 <= n / 10 < n) by lia_div. lia.
Qed.

Lemma decimal_head n rest :
  0 <= n -> exists d s, decimal n ++ rest = d :: s /\ is_digit d = true.
Proof.
  intros Hn. pose proof (decimal_digits n Hn) as Hd.
  pose proof (decimal_length n Hn) as Hl.
  destruct (decimal n) as [|d s]; [simpl in Hl; lia|].
  exists d, (s ++ rest). split; [done|]. by apply Forall_cons in Hd as [? _].
Qed.

Lemma skip_spaces_app sp s :
  Forall (fun c => is_space c = true) sp -> skip_spaces (sp ++ s) = skip_spaces s.
Proof. induction 1 as [|c sp Hc _ IH]; [done|]. simpl. by rewrite Hc. Qed.

(** A digit is not white space nor a sign. *)
Lemma is_digit_plain d :
  is_digit d = true -> is_space d = false /\ (d =? 45) = false /\ (d =? 43) = false.
Proof. unfold is_digit, is_space. lia. Qed.

(** The conversion of white space followed by a text. *)
Lemma ft_atoi_spaces sp s :
  Forall (fun c => is_space c = true) sp -> ft_atoi (sp ++ s) = ft_atoi s.
Proof. intros Hsp. unfold ft_atoi. by rewrite skip_spaces_app. Qed.

Lemma ft_atoi_digits d s :
  is_digit d = true -> ft_atoi (d :: s) = atoi_digits (d :: s) 0.
Proof.
  intros Hd. destruct (is_digit_plain d Hd) as (Hs & Hm & Hp).
  unfold ft_atoi. cbn [skip_spaces]. by rewrite Hs, Hm, Hp.
Qed.

(** [ft_atoi] reads back the decimal numeral of every number from
    0 to [INT_MAX], after any white space and before any text that
    does not start with a digit. *)
Theorem ft_atoi_decimal sp n rest :
  Forall (fun c => is_space c = true) sp -> 0 <= n <= INT_MAX ->
  ends_number rest -> ft_atoi (sp ++ decimal n ++ rest) = n.
Proof.
  intros Hsp Hn Hrest. rewrite ft_atoi_spaces by done.
  destruct (decimal_head n rest) as (d & s & Heq & Hd); [lia|].
  rewrite Heq, ft_atoi_digits, <- Heq, atoi_digits_decimal by done.
  by apply atoi_digits_ends.
Qed.

(** The numeral after a minus sign is read as the opposite number,
    after a plus sign as the number. *)
Theorem ft_atoi_signed sp n rest :
  Forall (fun c => is_space c = true) sp -> 0 <= n <= INT_MAX ->
  ends_number rest ->
  ft_atoi (sp ++ 45 :: decimal n ++ rest) = - n /\
  ft_atoi (sp ++ 43 :: decimal n ++ rest) = n.
Proof.
  intros Hsp Hn Hrest. rewrite !ft_atoi_spaces by done. unfold ft_atoi.
  cbn [skip_spaces is_space Z.eqb Z.leb Z.compare Pos.eqb Pos.compare
       Pos.compare_cont orb andb].
  rewrite atoi_digits_decimal, atoi_digits_ends by done.
  split; [|done]. rewrite int_mul_id by (unfold in_int, INT_MIN, INT_MAX in *; lia).
  lia.
Qed.

(** A text that starts with no white space, sign or digit converts
    to zero. *)
Theorem ft_atoi_no_number c s :
  is_space c = false -> is_digit c = false -> c <> 45 -> c <> 43 ->
  ft_atoi (c :: s) = 0.
Proof.
  intros Hs Hd Hm Hp. unfold ft_atoi. cbn [skip_spaces]. rewrite Hs.
  rewrite (proj2 (Z.eqb_neq _ _) Hm), (proj2 (Z.eqb_neq _ _) Hp). simpl.
  by rewrite Hd.
Qed.

End Conversion.

(** ** Witnesses *)

Lemma ft_atoi_decimal_witness :
  ft_atoi ([32; 9] ++ decimal 2147483647 ++ cstring_of "px") = 2147483647.
Proof. apply ft_atoi_decimal; [by repeat constructor|int_range|done]. Defined.
