(* ===== verification/Output.v ===== *)
(** * Output: what [main] writes to standard output

    The formats of the four messages of [main], [printf] with the one
    directive that the program uses, [%s], and [puts].  A call writes
    bytes; a [%s] whose argument is a null pointer has no defined
    output and is a fault.  The theorems give the text of each
    message. *)

From Stdlib Require Import Ascii String.
From S2P Require Import Prelude MachInt CString.

(** The end of a line, ["\n"]. *)
Definition newline : cstring := [10].

(** The format strings of [main]. *)
Definition usage_format : cstring :=
  cstring_of "Usage: %s <fractal_type> <max_iterations>" ++ newline.
Definition types_message : cstring :=
  cstring_of "Fractal types: mandelbrot, julia, burning_ship" ++ newline.
Definition invalid_type_message : cstring :=
  cstring_of "Invalid fractal type. Use: mandelbrot, julia, or burning_ship" ++ newline.
Definition max_iter_message : cstring :=
  cstring_of "Max iterations must be a positive number" ++ newline.

(** [printf(format, args...)]: the bytes written.  [%s] writes the
    string of the next argument, which must be there and must not be a
    null pointer; every other byte of the format is written as it is
    (the formats of the program have no other directive). *)
Fixpoint printf (format : cstring) (args : list (option cstring)) : result cstring :=
  match format with
  | [] => Ok []
  | c :: format' =>
      match format' with
      | d :: format'' =>
          if (c =? 37) && (d =? 115) then
            match args with
            | Some a :: args' => out <- printf format'' args' ;; Ok (a ++ out)
            | _ => Fault NullPointer
            end
          else out <- printf format' args ;; Ok (c :: out)
      | [] => Ok [c]
      end
  end.

(** [puts(s)]: the string and the end of the line. *)
Definition puts (s : cstring) : cstring := s ++ newline.

(** ** Reference definitions *)

(** A format without [%]. *)
Definition plain (format : cstring) : Prop := Forall (fun c => c <> 37) format.

#[export] Instance plain_dec format : Decision (plain format).
Proof. unfold plain. apply _. Defined.

(** The usage line for a program name. *)
Definition usage_line (prog : cstring) : cstring :=
  cstring_of "Usage: " ++ prog ++
  cstring_of " <fractal_type> <max_iterations>" ++ newline.

Section Printf.
Implicit Types (format text a prog : cstring) (args : list (option cstring)).

(** A format without directives is written as it is, whatever the
    arguments. *)
Lemma printf_plain format args : plain format -> printf format args = Ok format.
Proof.
  induction 1 as [|c format Hc _ IH]; [done|]. cbn [printf].
  destruct format as [|d format]; [done|].
  rewrite (proj2 (Z.eqb_neq c 37) Hc). cbn [andb]. by rewrite IH.
Qed.

(** The usage line: the format with the name of the program in the
    place of [%s]; without a name, a fault. *)
Lemma printf_usage prog : printf usage_format [Some prog] = Ok (usage_line prog).
Proof. reflexivity. Qed.

Lemma printf_usage_null : printf usage_format [None] = Fault NullPointer.
Proof. reflexivity. Qed.

(** The three other messages have no directive. *)
Lemma messages_plain :
  plain types_message /\ plain invalid_type_message /\ plain max_iter_message.
Proof. split_and!; by apply (bool_decide_unpack _). Qed.

End Printf.
