(* ===== verification/Image.v ===== *)
(** * Image: the pixel buffer of the display collaborator

    The program writes its frame into an image that the windowing
    library owns.  The library's sources are not part of the program;
    the buffer is modelled from its contract: a grid of [width] by
    [height] RGBA words that [mlx_put_pixel] sets one at a time, a write
    outside the grid being an error. *)

From S2P Require Import Prelude MachInt.

(** The image: its size and its pixels, row after row. *)
Record mlx_image : Type := mkImage {
  img_width : Z;
  img_height : Z;
  img_pixels : list Z;
}.

#[export] Instance mlx_image_eq_dec : EqDecision mlx_image.
Proof. solve_decision. Defined.

(** The position of the pixel [(x, y)] in the buffer. *)
Definition pixel_index (img : mlx_image) (x y : Z) : nat :=
  Z.to_nat (y * img_width img + x).

(** [mlx_put_pixel(image, x, y, color)] *)
Definition mlx_put_pixel (img : mlx_image) (x y color : Z) : result mlx_image :=
  if (0 <=? x) && (x <? img_width img) && (0 <=? y) && (y <? img_height img) then
    Ok {| img_width := img_width img;
          img_height := img_height img;
          img_pixels := <[pixel_index img x y := color]> (img_pixels img) |}
  else Fault OutOfBounds.

(** The colour of the pixel [(x, y)], if the grid has one. *)
Definition pixel_at (img : mlx_image) (x y : Z) : option Z :=
  if (0 <=? x) && (x <? img_width img) && (0 <=? y) && (y <? img_height img) then
    img_pixels img !! pixel_index img x y
  else None.

(** [mlx_new_image(mlx, width, height)]: a grid of transparent black. *)
Definition mlx_new_image (width height : Z) : mlx_image :=
  {| img_width := width;
     img_height := height;
     img_pixels := replicate (Z.to_nat (width * height)) 0 |}.

(** The buffer has one word per pixel of the grid, and the sizes are
    those of a [uint32_t]. *)
Record image_wf (img : mlx_image) : Prop := {
  wf_width : in_uint32 (img_width img);
  wf_height : in_uint32 (img_height img);
  wf_length : Z.of_nat (length (img_pixels img)) = img_width img * img_height img;
}.

(** The number of pixels of the grid. *)
Definition area (img : mlx_image) : Z := img_width img * img_height img.

Definition in_grid (img : mlx_image) (x y : Z) : Prop :=
  0 <= x < img_width img /\ 0 <= y < img_height img.

#[export] Instance in_grid_dec img x y : Decision (in_grid img x y).
Proof. unfold in_grid. apply _. Defined.

Section Image.
Implicit Types (img : mlx_image) (x y c : Z).

Lemma in_grid_test img x y :
  in_grid img x y ->
  (0 <=? x) && (x <? img_width img) && (0 <=? y) && (y <? img_height img) = true.
Proof. unfold in_grid. lia. Qed.

Lemma not_in_grid_test img x y :
  ~ in_grid img x y ->
  (0 <=? x) && (x <? img_width img) && (0 <=? y) && (y <? img_height img) = false.
Proof. unfold in_grid. lia. Qed.

(** Two pixels of the grid with one position are one pixel. *)
Lemma pixel_index_inj img x y x' y' :
  in_grid img x y -> in_grid img x' y' ->
  pixel_index img x y = pixel_index img x' y' -> x = x' /\ y = y'.
Proof.
  unfold in_grid, pixel_index. intros Hg Hg' Heq.
  apply Z2Nat.inj in Heq; [|nia..].
  assert (y = y') by nia. lia.
Qed.

Lemma pixel_index_lt img x y :
  image_wf img -> in_grid img x y ->
  (pixel_index img x y < length (img_pixels img))%nat.
Proof. intros [_ _ Hlen] Hg. unfold in_grid, pixel_index in *. nia. Qed.

Lemma mlx_new_image_wf width height :
  in_uint32 width -> in_uint32 height -> image_wf (mlx_new_image width height).
Proof.
  intros Hw Hh. split; simpl; [done..|].
  rewrite length_replicate. unfold in_uint32 in *. nia.
Qed.

Lemma mlx_put_pixel_in_grid img x y c :
  in_grid img x y ->
  mlx_put_pixel img x y c =
    Ok {| img_width := img_width img;
          img_height := img_height img;
          img_pixels := <[pixel_index img x y := c]> (img_pixels img) |}.
Proof. intros Hg. unfold mlx_put_pixel. by rewrite in_grid_test. Qed.

Lemma mlx_put_pixel_outside img x y c :
  ~ in_grid img x y -> mlx_put_pixel img x y c = Fault OutOfBounds.
Proof. intros Hg. unfold mlx_put_pixel. by rewrite not_in_grid_test. Qed.

(** A write keeps the size of the image and its well-formedness. *)
Lemma mlx_put_pixel_wf img img' x y c :
  image_wf img -> mlx_put_pixel img x y c = Ok img' ->
  image_wf img' /\ img_width img' = img_width img /\
  img_height img' = img_height img.
Proof.
  intros [Hw Hh Hlen]. unfold mlx_put_pixel. case_match; [|done].
  intros [= <-]. split_and!; [split|..]; simpl; try done.
  by rewrite length_insert.
Qed.

(** The pixel written holds the colour, every other pixel what it held. *)
Lemma pixel_at_put_pixel img img' x y c x' y' :
  image_wf img -> mlx_put_pixel img x y c = Ok img' ->
  pixel_at img' x' y' =
    if decide (x' = x /\ y' = y) then Some c else pixel_at img x' y'.
Proof.
  intros Hwf. unfold mlx_put_pixel. case_match eqn:Hin; [|done].
  intros [= <-]. unfold pixel_at. simpl.
  assert (in_grid img x y) by (unfold in_grid; lia).
  case_decide as Heq.
  - destruct Heq as [-> ->]. rewrite Hin.
    by apply list_lookup_insert_eq, pixel_index_lt.
  - case_match eqn:Hin'; [|done]. apply list_lookup_insert_ne.
    intros [? ?]%pixel_index_inj; [by apply Heq|done|].
    unfold in_grid. lia.
Qed.

(** Every position of the buffer is that of a pixel of the grid. *)
Lemma pixel_index_surj img (i : nat) :
  image_wf img -> (i < length (img_pixels img))%nat ->
  exists x y, in_grid img x y /\ pixel_index img x y = i.
Proof.
  intros [Hw Hh Hlen] Hi. unfold in_uint32 in *.
  exists (Z.of_nat i mod img_width img), (Z.of_nat i / img_width img).
  assert (0 < img_width img) by nia.
  unfold in_grid, pixel_index. split; [|lia_div].
  split; [lia_div|]. split; [apply Z.div_pos|apply Z.div_lt_upper_bound]; lia.
Qed.

(** What holds of every pixel of the grid holds of every word of the
    buffer. *)
Lemma pixels_Forall img (P : Z -> Prop) :
  image_wf img ->
  (forall x y, in_grid img x y -> exists c, pixel_at img x y = Some c /\ P c) ->
  Forall P (img_pixels img).
Proof.
  intros Hwf Hall. apply Forall_lookup. intros i c Hi.
  destruct (pixel_index_surj img i Hwf) as (x & y & Hg & <-);
    [by eapply lookup_lt_Some|].
  destruct (Hall x y Hg) as (c' & Hat & Hc). unfold pixel_at in Hat.
  rewrite in_grid_test in Hat by done. congruence.
Qed.

(** Two images of one size with the same pixels are one image. *)
Lemma image_ext img img' :
  image_wf img -> image_wf img' ->
  img_width img' = img_width img -> img_height img' = img_height img ->
  (forall x y, in_grid img x y -> pixel_at img' x y = pixel_at img x y) ->
  img' = img.
Proof.
  intros Hwf Hwf' Hw Hh Hat.
  assert (Hlen : length (img_pixels img') = length (img_pixels img))
    by (destruct Hwf, Hwf'; lia).
  destruct img as [w h p], img' as [w' h' p']; simpl in *. subst w' h'. f_equal.
  apply list_eq. intros i. destruct (decide (i < length p)%nat) as [Hi|Hi];
    [|by rewrite !lookup_ge_None_2 by lia].
  destruct (pixel_index_surj _ i Hwf Hi) as (x & y & Hg & <-).
  specialize (Hat x y Hg). unfold pixel_at in Hat.
  by rewrite !in_grid_test in Hat.
Qed.

End Image.
