(* ===== verification/Render.v ===== *)
(** * Render: the frame renderer [ft_fractal] of src/main.c

    The globals of the program as a record, the mapping of a pixel to a
    point of the plane, the dispatch on the fractal type, and the two
    nested loops that colour every pixel of the image; then the
    invariants of the two loops, the theorem that the frame holds, at
    every pixel, the colour of the escape count of its point, that
    rendering is idempotent, and that on binary64 the centre pixel is
    grey at every zoom. *)

From Stdlib Require Import Floats.
From S2P Require Import Prelude MachInt Scalar Complex Escape Color Image.

Definition WIDTH : Z := 512.
Definition HEIGHT : Z := 512.

(** The globals [g_fractal_type], [g_max_iter], [zoom] and [image]. *)
Record globals (F : Type) : Type := mkGlobals {
  g_fractal_type : Z;
  g_max_iter : Z;
  zoom : F;
  image : mlx_image;
}.

Arguments mkGlobals {F} _ _ _ _.
Arguments g_fractal_type {F} g.
Arguments g_max_iter {F} g.
Arguments zoom {F} g.
Arguments image {F} g.

(** The variables of a loop of [ft_fractal]: the coordinate that the
    loop advances, [iter], and the image written so far. *)
Record frame_state : Type := mkFrame {
  fs_pos : Z;
  fs_iter : Z;
  fs_image : mlx_image;
}.

Section Render.
Context {F : Type} `{Scalar F}.
Implicit Types (g : globals F) (range : F) (x y iter : Z).

(** [Complex julia_c = {-0.7, 0.27015};] *)
Definition julia_c : Complex F :=
  {| real := fneg (lit 7 10); imag := lit 27015 100000 |}.

(** [double range = 4.0 / zoom;] *)
Definition plane_range g : F := (lit 4 1 / zoom g)%sc.

(** [(x - WIDTH / 2.0) * range / WIDTH] and the same for [y]. *)
Definition pixel_real range x : F :=
  ((of_int x - of_int WIDTH / lit 2 1) * range / of_int WIDTH)%sc.

Definition pixel_imag range y : F :=
  ((of_int y - of_int HEIGHT / lit 2 1) * range / of_int HEIGHT)%sc.

Definition pixel_point range x y : Complex F :=
  {| real := pixel_real range x; imag := pixel_imag range y |}.

(** The dispatch on the fractal type; [iter] keeps its value when the
    type is none of the three. *)
Definition dispatch (fractal_type max_iter iter : Z) (point : Complex F)
  : result Z :=
  if fractal_type =? 0 then mandelbrot_iterator point max_iter
  else if fractal_type =? 1 then julia_iterator point julia_c max_iter
  else if fractal_type =? 2 then burning_ship_iterator point max_iter
  else Ok iter.

(** The dispatch on the globals [g_fractal_type] and [g_max_iter]. *)
Definition select_iter g iter (point : Complex F) : result Z :=
  dispatch (g_fractal_type g) (g_max_iter g) iter point.

(** The body of the loop on [y]: one pixel. *)
Definition pixel_body g range x (st : frame_state) : result frame_state :=
  let y := fs_pos st in
  iter <- select_iter g (fs_iter st) (pixel_point range x y) ;;
  color <- get_color iter (g_max_iter g) ;;
  img <- mlx_put_pixel (fs_image st) x y color ;;
  Ok {| fs_pos := uint32_add y 1; fs_iter := iter; fs_image := img |}.

(** The body of the loop on [x]: the loop on [y], one column. *)
Definition column_body g range (st : frame_state) : result frame_state :=
  let x := fs_pos st in
  st' <- loop (fun s => Ok (fs_pos s <? img_height (fs_image s)))
           (pixel_body g range x)
           (Z.to_nat (img_height (fs_image st)))
           {| fs_pos := 0; fs_iter := fs_iter st; fs_image := fs_image st |} ;;
  Ok {| fs_pos := uint32_add x 1; fs_iter := fs_iter st'; fs_image := fs_image st' |}.

Definition ft_fractal g : result (globals F) :=
  let range := plane_range g in
  st <- loop (fun s => Ok (fs_pos s <? img_width (fs_image s)))
          (column_body g range)
          (Z.to_nat (img_width (image g)))
          {| fs_pos := 0; fs_iter := 0; fs_image := image g |} ;;
  Ok {| g_fractal_type := g_fractal_type g;
        g_max_iter := g_max_iter g;
        zoom := zoom g;
        image := fs_image st |}.

(** ** Reference definitions *)

(** The colour the frame is to hold at [(x, y)]. *)
Definition pixel_color g x y : result Z :=
  iter <- select_iter g 0 (pixel_point (plane_range g) x y) ;;
  get_color iter (g_max_iter g).

(** The escape count of a point for the fractal type of [g]; [iter] for
    a type that is none of the three. *)
Definition point_count g iter (point : Complex F) : Z :=
  if g_fractal_type g =? 0 then
    escape_count (julia_step point) mandelbrot_start (g_max_iter g)
  else if g_fractal_type g =? 1 then
    escape_count (julia_step julia_c) point (g_max_iter g)
  else if g_fractal_type g =? 2 then
    escape_count (burning_ship_step point) burning_ship_start (g_max_iter g)
  else iter.

(** The escape count of the point of the pixel [(x, y)]. *)
Definition pixel_count g x y : Z :=
  point_count g 0 (pixel_point (plane_range g) x y).

(** The globals with another image. *)
Definition with_image g (img : mlx_image) : globals F :=
  {| g_fractal_type := g_fractal_type g; g_max_iter := g_max_iter g;
     zoom := zoom g; image := img |}.

End Render.

(** ** One pixel *)

Section Pixel.
Context {F : Type} `{Scalar F}.
Implicit Types (g : globals F) (range : F) (x y iter : Z) (img : mlx_image).

(** [iter] does not matter to the dispatch: the type is one of the
    three, or [iter] still has its initial value. *)
Definition iter_free g iter : Prop :=
  forall p, select_iter g iter p = select_iter g 0 p.

(** The pixel [(x, y)] of [img] holds the colour of its point. *)
Definition painted g img x y : Prop :=
  exists c, pixel_color g x y = Ok c /\ pixel_at img x y = Some c.

(** The dispatch returns the escape count of the selected fractal. *)
Lemma select_iter_count g iter p :
  g_max_iter g <= INT_MAX -> select_iter g iter p = Ok (point_count g iter p).
Proof.
  intros Hmax.
  unfold select_iter, dispatch, point_count, mandelbrot_iterator, julia_iterator,
    burning_ship_iterator.
  repeat case_match; try done; by apply run_escape_count.
Qed.

Lemma select_iter_ok g iter p :
  g_max_iter g <= INT_MAX -> exists r, select_iter g iter p = Ok r.
Proof. intros Hmax. rewrite select_iter_count by done. by eexists. Qed.

Lemma select_iter_free g iter p r :
  iter_free g iter -> select_iter g iter p = Ok r -> iter_free g r.
Proof.
  unfold iter_free, select_iter, dispatch. intros Hfree Hr q. specialize (Hfree q).
  repeat case_match; try done. by injection Hr as <-.
Qed.

Lemma get_color_ok iterations maxIter :
  0 < maxIter -> exists c, get_color iterations maxIter = Ok c.
Proof.
  intros Hpos. unfold get_color, int_div.
  rewrite (proj2 (Z.eqb_neq maxIter 0)), (proj2 (Z.eqb_neq maxIter (-1))),
    !andb_false_r by lia.
  case_match; by eexists.
Qed.

Lemma pixel_color_ok g x y :
  0 < g_max_iter g <= INT_MAX -> exists c, pixel_color g x y = Ok c.
Proof.
  intros [Hpos Hmax]. unfold pixel_color.
  destruct (select_iter_ok g 0 (pixel_point (plane_range g) x y) Hmax) as [r ->].
  by apply get_color_ok.
Qed.

(** The colour of a pixel depends on the configuration, not on the
    image. *)
Lemma pixel_color_image g img x y :
  pixel_color (with_image g img) x y = pixel_color g x y.
Proof. reflexivity. Qed.

Lemma pixel_color_count g x y :
  g_max_iter g <= INT_MAX ->
  pixel_color g x y = get_color (pixel_count g x y) (g_max_iter g).
Proof. intros Hmax. unfold pixel_color. by rewrite select_iter_count. Qed.

End Pixel.

(** ** One column *)

Section Column.
Context {F : Type} `{Scalar F}.
Variable g : globals F.
Variable img0 : mlx_image.
Variable x : Z.
Hypothesis Hmax : 0 < g_max_iter g <= INT_MAX.
Hypothesis Hwf : image_wf img0.
Hypothesis Hx : 0 <= x < img_width img0.

(** The invariant of the loop on [y] in column [x], entered with the
    image [img0]: the pixels of the column above [y] are painted, the
    other columns are as they were. *)
Record column_inv (st : frame_state) : Prop := {
  ci_pos : 0 <= fs_pos st <= img_height img0;
  ci_free : iter_free g (fs_iter st);
  ci_wf : image_wf (fs_image st);
  ci_width : img_width (fs_image st) = img_width img0;
  ci_height : img_height (fs_image st) = img_height img0;
  ci_done : forall y, 0 <= y < fs_pos st -> painted g (fs_image st) x y;
  ci_other : forall x' y', x' <> x ->
    pixel_at (fs_image st) x' y' = pixel_at img0 x' y';
}.

Lemma column_inv_init iter :
  iter_free g iter ->
  column_inv {| fs_pos := 0; fs_iter := iter; fs_image := img0 |}.
Proof. intros Hfree. split; simpl; try done; [by destruct Hwf as [_ [] _]|lia]. Qed.

Lemma pixel_body_inv st :
  column_inv st -> fs_pos st < img_height img0 ->
  exists st', pixel_body g (plane_range g) x st = Ok st' /\
    column_inv st' /\ fs_pos st' = fs_pos st + 1.
Proof.
  intros [Hpos Hfree Hwf' Hw Hh Hdone Hother] Hlt. unfold pixel_body.
  destruct (pixel_color_ok g x (fs_pos st) Hmax) as [c Hc].
  unfold pixel_color in Hc. rewrite Hfree.
  destruct (select_iter g 0 _) as [r|] eqn:Hsel; [simpl in *|done]. rewrite Hc. simpl.
  assert (Hg : in_grid (fs_image st) x (fs_pos st)) by (unfold in_grid; lia).
  rewrite mlx_put_pixel_in_grid by done. simpl.
  set (img' := {| img_width := _ |}).
  assert (Hput : mlx_put_pixel (fs_image st) x (fs_pos st) c = Ok img')
    by by apply mlx_put_pixel_in_grid.
  assert (Hy1 : uint32_add (fs_pos st) 1 = fs_pos st + 1).
  { apply uint32_add_id. destruct Hwf as [_ ? _]. int_range. }
  eexists. split; [done|]. rewrite Hy1. split; [|done].
  destruct (mlx_put_pixel_wf _ _ _ _ _ Hwf' Hput) as (? & ? & ?).
  split; simpl; try (done || lia || congruence).
  - eapply select_iter_free; [done|]. by rewrite Hfree.
  - intros y Hy. unfold painted.
    rewrite (pixel_at_put_pixel _ _ _ _ _ _ _ Hwf' Hput).
    case_decide as Hd; [|apply Hdone; lia]. destruct Hd as [_ ->].
    exists c. unfold pixel_color. by rewrite Hsel.
  - intros x' y' Hne. rewrite (pixel_at_put_pixel _ _ _ _ _ _ _ Hwf' Hput).
    case_decide; [lia|by apply Hother].
Qed.

(** The loop on [y] paints the column and nothing else. *)
Lemma column_loop_spec iter :
  iter_free g iter ->
  exists st', loop (fun s => Ok (fs_pos s <? img_height (fs_image s)))
      (pixel_body g (plane_range g) x) (Z.to_nat (img_height img0))
      {| fs_pos := 0; fs_iter := iter; fs_image := img0 |} = Ok st' /\
    column_inv st' /\ fs_pos st' = img_height img0.
Proof.
  intros Hfree.
  unshelve epose proof (loop_total
    (fun s => Ok (fs_pos s <? img_height (fs_image s)))
    (pixel_body g (plane_range g) x) column_inv
    (fun s => Z.to_nat (img_height img0 - fs_pos s)) _
    (Z.to_nat (img_height img0)) _ (column_inv_init iter Hfree) _)
    as (st' & Hl & HI & Hc).
  - intros s HI. cbv beta. rewrite (ci_height _ HI). case_match eqn:Hlt; [|done].
    destruct (pixel_body_inv s HI) as (s' & -> & HI' & Hpos); [lia|].
    split; [done|]. destruct HI. lia.
  - simpl. lia.
  - exists st'. split_and!; [done..|].
    cbv beta in Hc. rewrite (ci_height _ HI) in Hc. destruct HI. injection Hc. lia.
Qed.

End Column.
(** ** The frame *)

Section Frame.
Context {F : Type} `{Scalar F}.
Variable g : globals F.
Hypothesis Hmax : 0 < g_max_iter g <= INT_MAX.
Hypothesis Hwf : image_wf (image g).

(** The invariant of the loop on [x]: the columns left of [x] are
    painted. *)
Record frame_inv (st : frame_state) : Prop := {
  fi_pos : 0 <= fs_pos st <= img_width (image g);
  fi_free : iter_free g (fs_iter st);
  fi_wf : image_wf (fs_image st);
  fi_width : img_width (fs_image st) = img_width (image g);
  fi_height : img_height (fs_image st) = img_height (image g);
  fi_done : forall x y, 0 <= x < fs_pos st -> 0 <= y < img_height (image g) ->
    painted g (fs_image st) x y;
}.

Lemma frame_inv_init :
  frame_inv {| fs_pos := 0; fs_iter := 0; fs_image := image g |}.
Proof. split; simpl; try done; [by destruct Hwf as [[] _ _]|lia]. Qed.

Lemma column_body_inv st :
  frame_inv st -> fs_pos st < img_width (image g) ->
  exists st', column_body g (plane_range g) st = Ok st' /\
    frame_inv st' /\ fs_pos st' = fs_pos st + 1.
Proof.
  intros [Hpos Hfree Hwf' Hw Hh Hdone] Hlt. unfold column_body.
  destruct (column_loop_spec g (fs_image st) (fs_pos st) Hmax Hwf'
    ltac:(lia) (fs_iter st) Hfree) as (st' & -> & [? ? ? ? ? Hcol Hother] & Hend).
  assert (Hx1 : uint32_add (fs_pos st) 1 = fs_pos st + 1).
  { apply uint32_add_id. destruct Hwf as [? _ _]. int_range. }
  simpl. eexists. split; [done|]. rewrite Hx1. split; [|done].
  split; simpl; try (done || lia || congruence).
  intros x y Hx Hy. destruct (decide (x = fs_pos st)) as [->|Hne].
  - apply Hcol. lia.
  - destruct (Hdone x y) as (c & Hc & Hat); [lia..|].
    exists c. by rewrite Hother.
Qed.

(** The loop on [x] paints every pixel of the image. *)
Lemma frame_loop_spec :
  exists st, loop (fun s => Ok (fs_pos s <? img_width (fs_image s)))
      (column_body g (plane_range g)) (Z.to_nat (img_width (image g)))
      {| fs_pos := 0; fs_iter := 0; fs_image := image g |} = Ok st /\
    image_wf (fs_image st) /\ img_width (fs_image st) = img_width (image g) /\
    img_height (fs_image st) = img_height (image g) /\
    forall x y, in_grid (fs_image st) x y -> painted g (fs_image st) x y.
Proof.
  unshelve epose proof (loop_total
    (fun s => Ok (fs_pos s <? img_width (fs_image s)))
    (column_body g (plane_range g)) frame_inv
    (fun s => Z.to_nat (img_width (image g) - fs_pos s)) _
    (Z.to_nat (img_width (image g))) _ frame_inv_init _)
    as (st' & Hl & HI & Hc).
  - intros s HI. cbv beta. rewrite (fi_width _ HI). case_match eqn:Hlt; [|done].
    destruct (column_body_inv s HI) as (s' & -> & HI' & Hpos); [lia|].
    split; [done|]. destruct HI. lia.
  - simpl. lia.
  - exists st'. cbv beta in Hc. rewrite (fi_width _ HI) in Hc.
    destruct HI as [? ? ? Hw Hh Hdone]. split_and!; try done.
    intros x y [Hx Hy]. apply Hdone; [injection Hc|]; lia.
Qed.

End Frame.

(** ** The frame that [ft_fractal] renders *)

Section Frames.
Context {F : Type} `{Scalar F}.
Implicit Types (g : globals F) (img : mlx_image) (x y : Z).

(** C4: for a positive cap that is an [int], [ft_fractal] does not
    fault and leaves the globals but the image unchanged; the image
    keeps its size and holds, at every pixel, the colour [get_color]
    gives to the escape count of the pixel's point under the selected
    fractal. *)
Theorem ft_fractal_paints g :
  0 < g_max_iter g <= INT_MAX -> image_wf (image g) ->
  exists img, ft_fractal g = Ok (with_image g img) /\
    image_wf img /\ img_width img = img_width (image g) /\
    img_height img = img_height (image g) /\
    forall x y, in_grid img x y ->
      exists c, get_color (pixel_count g x y) (g_max_iter g) = Ok c /\
                pixel_at img x y = Some c.
Proof.
  intros Hmax Hwf.
  destruct (frame_loop_spec g Hmax Hwf) as (st & Hl & ? & ? & ? & Hp).
  exists (fs_image st). unfold ft_fractal. rewrite Hl.
  split_and!; [done..|]. intros x y Hg.
  destruct (Hp x y Hg) as (c & Hc & Hat). exists c.
  by rewrite <- pixel_color_count by lia.
Qed.

(** C28: for a positive cap that is an [int], overflowing products of
    the colour ramp included, the image that [ft_fractal] leaves is
    well-formed and each of its words is a [uint32_t] with the alpha
    byte 255: the frame is opaque. *)
Theorem ft_fractal_typed g :
  0 < g_max_iter g <= INT_MAX -> image_wf (image g) ->
  exists img, ft_fractal g = Ok (with_image g img) /\ image_wf img /\
    Forall (fun c => in_uint32 c /\ channel c 0 = 255) (img_pixels img).
Proof.
  intros Hmax Hwf.
  destruct (frame_loop_spec g Hmax Hwf) as (st & Hl & Hwf' & _ & _ & Hp).
  exists (fs_image st). unfold ft_fractal. rewrite Hl. split_and!; [done..|].
  apply pixels_Forall; [done|]. intros x y Hg.
  destruct (Hp x y Hg) as (c & Hc & Hat). exists c. split; [done|].
  unfold pixel_color in Hc. destruct (select_iter _ _ _); [|done].
  by apply get_color_typed in Hc.
Qed.

(** [ft_fractal] does not fault and paints every pixel of the image. *)
Lemma ft_fractal_spec g :
  0 < g_max_iter g <= INT_MAX -> image_wf (image g) ->
  exists img, ft_fractal g = Ok (with_image g img) /\
    image_wf img /\ img_width img = img_width (image g) /\
    img_height img = img_height (image g) /\
    forall x y, in_grid img x y -> painted g img x y.
Proof.
  intros Hmax Hwf.
  destruct (frame_loop_spec g Hmax Hwf) as (st & Hl & ?).
  exists (fs_image st). unfold ft_fractal. by rewrite Hl.
Qed.

(** The globals with which a frame can be rendered: a positive cap
    that is an [int] and a well-formed image. *)
Definition renders g : Prop :=
  0 < g_max_iter g <= INT_MAX /\ image_wf (image g).

Lemma ft_fractal_renders g g' :
  renders g -> ft_fractal g = Ok g' ->
  renders g' /\ area (image g') = area (image g).
Proof.
  intros [Hm Hwf] Hf.
  destruct (ft_fractal_spec g Hm Hwf) as (img & Hr & ? & Hw & Hh & _).
  rewrite Hr in Hf. injection Hf as <-. unfold area. simpl. by rewrite Hw, Hh.
Qed.

(** The frame does not depend on what the image held before. *)
Lemma ft_fractal_image_free g img0 g1 :
  0 < g_max_iter g <= INT_MAX -> image_wf (image g) -> image_wf img0 ->
  img_width img0 = img_width (image g) ->
  img_height img0 = img_height (image g) ->
  ft_fractal g = Ok g1 -> ft_fractal (with_image g img0) = Ok g1.
Proof.
  intros Hmax Hwf Hwf0 Hw0 Hh0.
  destruct (ft_fractal_spec g Hmax Hwf) as (img & -> & Hwf1 & Hw & Hh & Hp).
  destruct (ft_fractal_spec (with_image g img0) Hmax Hwf0)
    as (img' & -> & Hwf' & Hw' & Hh' & Hp').
  intros [= <-]. unfold with_image. simpl in *. do 2 f_equal.
  apply image_ext; [done|done|congruence..|]. intros x y Hg.
  destruct (Hp x y Hg) as (c & Hc & ->).
  destruct (Hp' x y) as (c' & Hc' & ->); [unfold in_grid in *; lia|].
  rewrite pixel_color_image in Hc'. congruence.
Qed.

(** C24: rendering again with no change of the configuration leaves
    the image as it is. *)
Theorem ft_fractal_idempotent g g1 :
  0 < g_max_iter g <= INT_MAX -> image_wf (image g) ->
  ft_fractal g = Ok g1 -> ft_fractal g1 = Ok g1.
Proof.
  intros Hmax Hwf Hg1.
  destruct (ft_fractal_spec g Hmax Hwf) as (img & Hr & ? & ? & ? & _).
  rewrite Hr in Hg1. injection Hg1 as <-.
  by apply (ft_fractal_image_free g img).
Qed.

End Frames.

(** ** The centre of the image on binary64 *)

Section Centre.
Implicit Types (g : globals float) (img : mlx_image).

(** The fractal is the Mandelbrot set or the Burning Ship. *)
Definition from_origin g : Prop := g_fractal_type g = 0 \/ g_fractal_type g = 2.

(** Whatever the range, finite or not, the pixel (256, 256) maps to a
    point whose coordinates are zeros or NaN. *)
Lemma centre_point (r : float) :
  zero_or_nan (real (pixel_point r 256 256)) /\
  zero_or_nan (imag (pixel_point r 256 256)).
Proof.
  unfold pixel_point, pixel_real, pixel_imag. cbn [real imag].
  change (of_int 256 - of_int WIDTH / lit 2 1)%sc with 0%float.
  change (of_int 256 - of_int HEIGHT / lit 2 1)%sc with 0%float.
  split; apply div_zero_or_nan, mul_zero_l.
Qed.

Lemma centre_count g :
  from_origin g -> pixel_count g 256 256 = g_max_iter g.
Proof.
  unfold pixel_count, point_count, escape_count.
  destruct (centre_point (plane_range g)) as [Hr Hi].
  destruct (zero_or_nan_bounded _ (Z.to_nat (g_max_iter g)) Hr Hi) as [Hm Hb].
  intros [Ht | Ht]; rewrite Ht; cbv beta iota delta [Z.eqb Pos.eqb];
    by rewrite ?Hm, ?Hb.
Qed.

Lemma painted_centre g img :
  from_origin g -> g_max_iter g <= INT_MAX -> painted g img 256 256 ->
  pixel_at img 256 256 = Some sentinel_gray.
Proof.
  intros Ht Hm (c & Hc & ->).
  rewrite pixel_color_count, centre_count, get_color_cap in Hc by done.
  by injection Hc as <-.
Qed.

(** For the Mandelbrot set and the Burning Ship, [ft_fractal]
    paints the pixel (256, 256) in the grey of the points that do not
    escape, for every cap and every value of the zoom: zero, negative,
    infinite and NaN included. *)
Theorem ft_fractal_centre g :
  from_origin g -> 0 < g_max_iter g <= INT_MAX -> image_wf (image g) ->
  in_grid (image g) 256 256 ->
  exists img, ft_fractal g = Ok (with_image g img) /\
    pixel_at img 256 256 = Some sentinel_gray.
Proof.
  intros Ht Hm Hwf Hg.
  destruct (frame_loop_spec g Hm Hwf) as (st & Hl & _ & Hw & Hh & Hp).
  exists (fs_image st). unfold ft_fractal. rewrite Hl. split; [done|].
  apply (painted_centre g); [done|lia|]. apply Hp.
  unfold in_grid in *. by rewrite Hw, Hh.
Qed.

End Centre.

(** ** Witnesses at binary64 *)

(** A Mandelbrot configuration with a cap of 50 and an image of two by
    two pixels. *)
Definition small_globals : globals float :=
  mkGlobals 0 50 1%float (mlx_new_image 2 2).

Lemma ft_fractal_paints_witness :
  exists img, ft_fractal small_globals = Ok (with_image small_globals img) /\
    image_wf img /\ img_width img = 2 /\ img_height img = 2 /\
    forall x y, in_grid img x y ->
      exists c, get_color (pixel_count small_globals x y) 50 = Ok c /\
                pixel_at img x y = Some c.
Proof.
  apply (ft_fractal_paints small_globals);
    [simpl; int_range|apply mlx_new_image_wf; int_range].
Defined.

Lemma ft_fractal_typed_witness :
  exists img, ft_fractal small_globals = Ok (with_image small_globals img) /\
    image_wf img /\
    Forall (fun c => in_uint32 c /\ channel c 0 = 255) (img_pixels img).
Proof.
  apply ft_fractal_typed; [simpl; int_range|apply mlx_new_image_wf; int_range].
Defined.

Lemma ft_fractal_idempotent_witness :
  exists g1, ft_fractal small_globals = Ok g1 /\ ft_fractal g1 = Ok g1.
Proof.
  assert (Hr : exists g1, ft_fractal small_globals = Ok g1)
    by (vm_compute; by eexists).
  destruct Hr as [g1 Hr]. exists g1. split; [done|].
  apply (ft_fractal_idempotent small_globals);
    [simpl; int_range|apply mlx_new_image_wf; int_range|done].
Defined.

Lemma ft_fractal_centre_witness :
  exists img,
    ft_fractal (mkGlobals 2 50 0%float (mlx_new_image 512 512)) =
      Ok (with_image (mkGlobals 2 50 0%float (mlx_new_image 512 512)) img) /\
    pixel_at img 256 256 = Some sentinel_gray.
Proof.
  apply ft_fractal_centre;
    [by right|simpl; int_range|apply mlx_new_image_wf; int_range|].
  unfold in_grid. simpl. lia.
Defined.
