(* ===== verification/Exact.v ===== *)
(** * Exact: the algorithm in exact arithmetic

    The evaluators and the coordinate mapping of src/main.c run on the
    rationals, the implementation [exact] of the [Scalar] interface.
    This is the arithmetic in which the escape-time algorithm is
    specified: the statements of this file are those of the
    specification that hold of the algorithm and that rounding could
    break.  A division by zero is not modelled by the rationals: the
    statements keep the zoom positive. *)

From Stdlib Require Import QArith Lqa Morphisms.
From S2P Require Import Prelude MachInt Scalar Complex Escape Image Render.

Section Exact.
Implicit Types (c z : Complex Q) (maxIter x y : Z) (g : globals Q) (r : Q).

(** A point with a coordinate beyond 2 in absolute value. *)
Definition outside c : Prop :=
  (2 < real c \/ real c < -2 \/ 2 < imag c \/ imag c < -2)%Q.

#[export] Instance Qlt_dec (a b : Q) : Decision (a < b)%Q.
Proof. destruct (Qlt_le_dec a b); [by left|right; by apply Qle_not_lt]. Defined.

#[export] Instance outside_dec c : Decision (outside c).
Proof. unfold outside. apply _. Defined.

(** ** The escape test *)





(** ** The zoom and the plane *)

Lemma plane_range_lt g g' :
  (0 < zoom g)%Q -> (zoom g < zoom g')%Q ->
  (0 < plane_range g' /\ plane_range g' < plane_range g)%Q.
Proof.
  intros Hz Hlt. unfold plane_range. simpl.
  assert (Hpos : (0 < (4 # 1) / zoom g')%Q) by (apply Qlt_shift_div_l; lra).
  split; [done|]. apply Qlt_shift_div_l; [done|].
  assert (H4 : ((4 # 1) / zoom g' * zoom g' == 4)%Q) by (field; lra).
  nra.
Qed.

(** The coordinates of a pixel are its offset from the centre, scaled. *)
Lemma pixel_real_exact r x :
  (pixel_real r x == inject_Z (x - 256) * r * (1 # 512))%Q.
Proof.
  unfold pixel_real, WIDTH. simpl. unfold Z.sub.
  rewrite inject_Z_plus, inject_Z_opp.
  change (inject_Z 512) with 512%Q. change (inject_Z 256) with 256%Q. field.
Qed.

Lemma pixel_imag_exact r y :
  (pixel_imag r y == inject_Z (y - 256) * r * (1 # 512))%Q.
Proof. apply pixel_real_exact. Qed.

(** A coordinate between zero and another, on the same side. *)
Definition nearer (a b : Q) : Prop :=
  (0 < a < b \/ b < a < 0 \/ (a == 0 /\ b == 0))%Q.

#[export] Instance nearer_proper : Proper (Qeq ==> Qeq ==> iff) nearer.
Proof. intros a a' Ha b b' Hb. unfold nearer. by rewrite Ha, Hb. Qed.

Lemma scaled_nearer (d : Z) r r' :
  (0 < r' < r)%Q ->
  nearer (inject_Z d * r' * (1 # 512)) (inject_Z d * r * (1 # 512)).
Proof.
  intros Hr. unfold nearer. destruct (Z.lt_trichotomy d 0) as [Hd|[->|Hd]].
  - assert (inject_Z d < 0)%Q by (rewrite <- (Zlt_Qlt _ 0); lia).
    right. left. nra.
  - right. right. split; ring.
  - assert (0 < inject_Z d)%Q by (rewrite <- (Zlt_Qlt 0); lia).
    left. nra.
Qed.

(** In exact arithmetic, a larger positive zoom gives a smaller
    range of the plane, and maps every pixel to a point whose two
    coordinates are nearer to zero, on the same side of it. *)
Theorem zoom_narrows g g' x y :
  (0 < zoom g)%Q -> (zoom g < zoom g')%Q ->
  (plane_range g' < plane_range g)%Q /\
  nearer (real (pixel_point (plane_range g') x y))
         (real (pixel_point (plane_range g) x y)) /\
  nearer (imag (pixel_point (plane_range g') x y))
         (imag (pixel_point (plane_range g) x y)).
Proof.
  intros Hz Hlt. destruct (plane_range_lt g g' Hz Hlt) as [Hpos Hr].
  split; [done|]. unfold pixel_point. cbn [real imag].
  rewrite !pixel_real_exact, ?pixel_imag_exact.
  split; by apply scaled_nearer.
Qed.

End Exact.

(** ** Witnesses *)


Lemma zoom_narrows_witness :
  (plane_range (mkGlobals 0 50 2%Q (mlx_new_image 0 0)) <
   plane_range (mkGlobals 0 50 1%Q (mlx_new_image 0 0)))%Q /\
  nearer (real (pixel_point (plane_range (mkGlobals 0 50 2%Q (mlx_new_image 0 0))) 0 0))
         (real (pixel_point (plane_range (mkGlobals 0 50 1%Q (mlx_new_image 0 0))) 0 0)) /\
  nearer (imag (pixel_point (plane_range (mkGlobals 0 50 2%Q (mlx_new_image 0 0))) 0 0))
         (imag (pixel_point (plane_range (mkGlobals 0 50 1%Q (mlx_new_image 0 0))) 0 0)).
Proof. by apply zoom_narrows. Defined.
