(* ===== verification/Symmetry.v ===== *)
(** * Symmetry: the symmetries of the rendered fractals

    The complex square commutes with conjugation and is even; so the
    escape count of the Mandelbrot set is the same at a point and at
    its conjugate, and that of a Julia set the same at a point and at
    its opposite.  The orbits are equal up to the sign of zero only,
    which is why the statements are proved against [ScalarLaws].  On
    binary64 the coordinate mapping of [ft_fractal] sends mirrored
    pixels to conjugate points, so the Mandelbrot frame is symmetric
    about the row 256 and the Julia frame about the pixel (256, 256).
    The Burning Ship has neither symmetry. *)

From Stdlib Require Import Floats.
From S2P Require Import Prelude MachInt Scalar ScalarLaws Complex Escape.
From S2P Require Import Color Image Render.

(** ** Complex numbers up to the sign of zero *)

Section Complex.
Context {F : Type} `{ScalarLaws F}.
Implicit Types (z w c : Complex F).

Definition ceq z w : Prop := feq (real z) (real w) /\ feq (imag z) (imag w).

Definition cneg z : Complex F := {| real := fneg (real z); imag := fneg (imag z) |}.
Definition conj z : Complex F := {| real := real z; imag := fneg (imag z) |}.

#[export] Instance ceq_equivalence : Equivalence ceq.
Proof.
  unfold ceq. split.
  - by intros z.
  - intros z w [Hr Hi]. by split.
  - intros z w v [Hr Hi] [Hr' Hi']. split; by etransitivity.
Qed.

#[export] Instance square_proper : Proper (ceq ==> ceq) square.
Proof. intros z w [Hr Hi]. split; simpl; by rewrite Hr, Hi. Qed.

#[export] Instance add_proper : Proper (ceq ==> ceq ==> ceq) add.
Proof. intros z w [Hr Hi] z' w' [Hr' Hi']. split; simpl; by rewrite ?Hr, ?Hi, ?Hr', ?Hi'. Qed.

#[export] Instance escaped_proper : Proper (ceq ==> eq) escaped.
Proof. intros z w [Hr Hi]. unfold escaped. by rewrite Hr, Hi. Qed.

#[export] Instance conj_proper : Proper (ceq ==> ceq) conj.
Proof. intros z w [Hr Hi]. split; simpl; by rewrite ?Hr, ?Hi. Qed.

#[export] Instance cneg_proper : Proper (ceq ==> ceq) cneg.
Proof. intros z w [Hr Hi]. split; simpl; by rewrite ?Hr, ?Hi. Qed.

#[export] Instance julia_step_proper : Proper (ceq ==> ceq ==> ceq) julia_step.
Proof. intros c c' Hc z z' Hz. unfold julia_step. by rewrite Hc, Hz. Qed.

(** The square is even, and commutes with conjugation. *)
Lemma square_cneg z : ceq (square (cneg z)) (square z).
Proof.
  split; simpl; [by rewrite !fmul_neg_neg|].
  by rewrite (fmul_neg_r (of_int 2)), fmul_neg_neg.
Qed.

Lemma square_conj z : ceq (square (conj z)) (conj (square z)).
Proof. split; simpl; [by rewrite fmul_neg_neg|by rewrite fmul_neg_r]. Qed.

Lemma add_conj z w : ceq (add (conj z) (conj w)) (conj (add z w)).
Proof. split; simpl; [reflexivity|apply fadd_neg_neg]. Qed.

Lemma escaped_conj z : escaped (conj z) = escaped z.
Proof. unfold escaped. simpl. by rewrite fmul_neg_neg. Qed.

Lemma escaped_cneg z : escaped (cneg z) = escaped z.
Proof. unfold escaped. simpl. by rewrite !fmul_neg_neg. Qed.

Lemma conj_start : ceq mandelbrot_start (conj mandelbrot_start).
Proof. split; simpl; [reflexivity|symmetry; apply fneg_zero]. Qed.

Lemma julia_step_cneg c z : ceq (julia_step c (cneg z)) (julia_step c z).
Proof. unfold julia_step. by rewrite square_cneg. Qed.

Lemma julia_step_conj c z :
  ceq (julia_step (conj c) (conj z)) (conj (julia_step c z)).
Proof. unfold julia_step. by rewrite square_conj, add_conj. Qed.

End Complex.

(** ** Escape counts of related orbits *)

Section Orbits.
Context {F : Type} `{ScalarLaws F}.
Implicit Types (z w c : Complex F) (step : Complex F -> Complex F).
Variable R : relation (Complex F).
Variables step step' : Complex F -> Complex F.
Hypothesis R_escaped : forall z w, R z w -> escaped z = escaped w.
Hypothesis R_step : forall z w, R z w -> R (step z) (step' w).

Lemma orbit_rel z w (n : nat) : R z w -> R (orbit step z n) (orbit step' w n).
Proof. intros Hzw. induction n as [|n IH]; [done|]. by apply R_step. Qed.

(** Two orbits that stay related escape at the same time. *)
Lemma escape_count_rel z w maxIter :
  R z w -> escape_count step z maxIter = escape_count step' w maxIter.
Proof.
  intros Hzw. unfold escape_count, escape_time.
  rewrite (list_find_ext _ (fun i => escaped (orbit step' w (S i)) = true)); [done|].
  intros i. by rewrite (R_escaped _ _ (orbit_rel z w (S i) Hzw)).
Qed.

End Orbits.

Section Counts.
Context {F : Type} `{ScalarLaws F}.
Implicit Types (z w c : Complex F) (maxIter : Z).

(** The escape count respects the equality up to the sign of zero. *)
Lemma escape_count_proper c c' z z' maxIter :
  ceq c c' -> ceq z z' ->
  escape_count (julia_step c) z maxIter = escape_count (julia_step c') z' maxIter.
Proof.
  intros Hc Hz. apply (escape_count_rel ceq); [|by intros; apply julia_step_proper|done].
  by intros ? ? ->.
Qed.

(** The Julia set is symmetric about the origin. *)
Lemma julia_count_cneg c z maxIter :
  escape_count (julia_step c) (cneg z) maxIter =
  escape_count (julia_step c) z maxIter.
Proof.
  apply (escape_count_rel (fun a b => ceq a b \/ ceq a (cneg b))); [| |by right].
  - intros a b [->| ->]; [done|apply escaped_cneg].
  - intros a b [->| ->]; left; [done|apply julia_step_cneg].
Qed.

(** The Mandelbrot set is symmetric about the real axis. *)
Lemma mandelbrot_count_conj c maxIter :
  escape_count (julia_step (conj c)) mandelbrot_start maxIter =
  escape_count (julia_step c) mandelbrot_start maxIter.
Proof.
  apply (escape_count_rel (fun a b => ceq a (conj b))); [| |apply conj_start].
  - intros a b ->. apply escaped_conj.
  - intros a b ->. apply julia_step_conj.
Qed.

(** For every arithmetic that satisfies the laws, [julia_iterator]
    returns the same count at a point and at its opposite. *)
Theorem julia_iterator_symmetric z c maxIter :
  maxIter <= INT_MAX ->
  julia_iterator (cneg z) c maxIter = julia_iterator z c maxIter.
Proof.
  intros Hmax. unfold julia_iterator.
  rewrite !(run_escape_count (julia_step c)) by done.
  by rewrite julia_count_cneg.
Qed.

(** For every arithmetic that satisfies the laws,
    [mandelbrot_iterator] returns the same count at a point and at its
    conjugate. *)
Theorem mandelbrot_iterator_conj c maxIter :
  maxIter <= INT_MAX ->
  mandelbrot_iterator (conj c) maxIter = mandelbrot_iterator c maxIter.
Proof.
  intros Hmax. unfold mandelbrot_iterator.
  rewrite (run_escape_count (julia_step (conj c))),
    (run_escape_count (julia_step c)) by done.
  by rewrite mandelbrot_count_conj.
Qed.

End Counts.

(** ** The frames on binary64 *)

Section Frames.
Implicit Types (g : globals float) (x y : Z) (r : float) (img : mlx_image).

(** The offset of a pixel from the centre: [x - WIDTH / 2.0]. *)
Definition offset x : float := (of_int x - of_int WIDTH / lit 2 1)%sc.

(** The offsets of mirrored pixels are opposite, up to the sign of the
    zero offset of the pixel 256: checked on the 513 coordinates. *)
Lemma offset_mirror_all :
  Forall (fun i : nat =>
    float_eq (offset (512 - Z.of_nat i)) (fneg (offset (Z.of_nat i)))) (seq 0 513).
Proof. refine (bool_decide_unpack _ _). vm_compute. exact I. Qed.

Lemma offset_mirror x :
  0 <= x <= 512 -> feq (offset (512 - x)) (fneg (offset x)).
Proof.
  intros Hx. pose proof offset_mirror_all as Hall. rewrite Forall_forall in Hall.
  specialize (Hall (Z.to_nat x)). rewrite Z2Nat.id in Hall by lia.
  apply Hall, elem_of_seq. lia.
Qed.

Lemma pixel_real_mirror r x :
  0 <= x <= 512 -> feq (pixel_real r (512 - x)) (fneg (pixel_real r x)).
Proof.
  intros Hx. unfold pixel_real. fold (offset (512 - x)) (offset x).
  by rewrite (offset_mirror x Hx), fmul_neg_l, fdiv_neg_l.
Qed.

Lemma pixel_imag_mirror r y :
  0 <= y <= 512 -> feq (pixel_imag r (512 - y)) (fneg (pixel_imag r y)).
Proof. apply pixel_real_mirror. Qed.

(** Mirrored pixels map to conjugate points, opposite pixels to
    opposite points. *)
Lemma pixel_point_mirror r x y :
  0 <= y <= 512 -> ceq (pixel_point r x (512 - y)) (conj (pixel_point r x y)).
Proof. intros Hy. split; simpl; [reflexivity|by apply pixel_imag_mirror]. Qed.

Lemma pixel_point_opposite r x y :
  0 <= x <= 512 -> 0 <= y <= 512 ->
  ceq (pixel_point r (512 - x) (512 - y)) (cneg (pixel_point r x y)).
Proof.
  intros Hx Hy. split; simpl; [by apply pixel_real_mirror|by apply pixel_imag_mirror].
Qed.

Lemma mandelbrot_count_mirror g x y :
  g_fractal_type g = 0 -> 0 <= y <= 512 ->
  pixel_count g x (512 - y) = pixel_count g x y.
Proof.
  intros Ht Hy. unfold pixel_count, point_count. rewrite Ht. cbv beta iota delta [Z.eqb].
  rewrite <- (mandelbrot_count_conj (pixel_point (plane_range g) x y)).
  apply escape_count_proper; [by apply pixel_point_mirror|reflexivity].
Qed.

Lemma julia_count_opposite g x y :
  g_fractal_type g = 1 -> 0 <= x <= 512 -> 0 <= y <= 512 ->
  pixel_count g (512 - x) (512 - y) = pixel_count g x y.
Proof.
  intros Ht Hx Hy. unfold pixel_count, point_count. rewrite Ht.
  cbv beta iota delta [Z.eqb Pos.eqb].
  rewrite <- (julia_count_cneg julia_c (pixel_point (plane_range g) x y)).
  apply escape_count_proper; [reflexivity|by apply pixel_point_opposite].
Qed.

(** Two painted pixels with one escape count have one colour. *)
Lemma painted_same_count g img x y x' y' :
  g_max_iter g <= INT_MAX -> painted g img x y -> painted g img x' y' ->
  pixel_count g x' y' = pixel_count g x y ->
  pixel_at img x' y' = pixel_at img x y.
Proof.
  intros Hm (c & Hc & ->) (c' & Hc' & ->) Hcount.
  rewrite pixel_color_count in Hc, Hc' by done. congruence.
Qed.

(** The image has the size that [main] gives it. *)
Definition full_size img : Prop := img_width img = WIDTH /\ img_height img = HEIGHT.

(** C25: the frame that [ft_fractal] renders of the Mandelbrot set is
    symmetric about the row 256: the pixels (x, 512 - y) and (x, y)
    have the same colour, at every zoom. *)
Theorem mandelbrot_frame_mirror g :
  g_fractal_type g = 0 -> 0 < g_max_iter g <= INT_MAX ->
  image_wf (image g) -> full_size (image g) ->
  exists img, ft_fractal g = Ok (with_image g img) /\
    forall x y, 0 <= x < 512 -> 1 <= y <= 511 ->
      pixel_at img x (512 - y) = pixel_at img x y.
Proof.
  intros Ht Hm Hwf [Hw Hh].
  destruct (frame_loop_spec g Hm Hwf) as (st & Hl & _ & Hw' & Hh' & Hp).
  exists (fs_image st). unfold ft_fractal. rewrite Hl. split; [done|].
  intros x y Hx Hy. unfold in_grid, WIDTH, HEIGHT in *.
  apply (painted_same_count g); [lia|apply Hp; lia..|].
  apply mandelbrot_count_mirror; [done|lia].
Qed.

(** C26: the frame that [ft_fractal] renders of the Julia set is
    symmetric about the pixel (256, 256): the pixels (512 - x, 512 - y)
    and (x, y) have the same colour, at every zoom. *)
Theorem julia_frame_symmetric g :
  g_fractal_type g = 1 -> 0 < g_max_iter g <= INT_MAX ->
  image_wf (image g) -> full_size (image g) ->
  exists img, ft_fractal g = Ok (with_image g img) /\
    forall x y, 1 <= x <= 511 -> 1 <= y <= 511 ->
      pixel_at img (512 - x) (512 - y) = pixel_at img x y.
Proof.
  intros Ht Hm Hwf [Hw Hh].
  destruct (frame_loop_spec g Hm Hwf) as (st & Hl & _ & Hw' & Hh' & Hp).
  exists (fs_image st). unfold ft_fractal. rewrite Hl. split; [done|].
  intros x y Hx Hy. unfold in_grid, WIDTH, HEIGHT in *.
  apply (painted_same_count g); [lia|apply Hp; lia..|].
  apply julia_count_opposite; [done|lia..].
Qed.

(** The Burning Ship has no such symmetry: with the cap 50 the
    evaluator returns 3 at the point (-0.5, 0.5) and the cap at its
    conjugate. *)
Theorem burning_ship_not_symmetric :
  burning_ship_iterator (F := float)
    {| real := (-0.5)%float; imag := 0.5%float |} 50 = Ok 3 /\
  burning_ship_iterator (F := float)
    (conj {| real := (-0.5)%float; imag := 0.5%float |}) 50 = Ok 50.
Proof. by vm_compute. Qed.

End Frames.

(** ** Witnesses *)

Lemma julia_iterator_symmetric_witness :
  julia_iterator (F := float) (cneg {| real := 0.5%float; imag := 0.25%float |})
    julia_c 100 =
  julia_iterator {| real := 0.5%float; imag := 0.25%float |} julia_c 100.
Proof. apply julia_iterator_symmetric. int_range. Defined.

Lemma mandelbrot_iterator_conj_witness :
  mandelbrot_iterator (F := float) (conj {| real := (-0.5)%float; imag := 0.75%float |}) 100 =
  mandelbrot_iterator {| real := (-0.5)%float; imag := 0.75%float |} 100.
Proof. apply mandelbrot_iterator_conj. int_range. Defined.

Lemma mandelbrot_frame_mirror_witness :
  exists img,
    ft_fractal (mkGlobals 0 50 1%float (mlx_new_image 512 512)) =
      Ok (with_image (mkGlobals 0 50 1%float (mlx_new_image 512 512)) img) /\
    forall x y, 0 <= x < 512 -> 1 <= y <= 511 ->
      pixel_at img x (512 - y) = pixel_at img x y.
Proof.
  apply mandelbrot_frame_mirror;
    [done|simpl; int_range|apply mlx_new_image_wf; int_range|done].
Defined.

Lemma julia_frame_symmetric_witness :
  exists img,
    ft_fractal (mkGlobals 1 50 1%float (mlx_new_image 512 512)) =
      Ok (with_image (mkGlobals 1 50 1%float (mlx_new_image 512 512)) img) /\
    forall x y, 1 <= x <= 511 -> 1 <= y <= 511 ->
      pixel_at img (512 - x) (512 - y) = pixel_at img x y.
Proof.
  apply julia_frame_symmetric;
    [done|simpl; int_range|apply mlx_new_image_wf; int_range|done].
Defined.
