(* ===== verification/RealAxis.v ===== *)
(** * RealAxis: the Burning Ship and the Mandelbrot set on the real axis

    [burning_ship_iterator] squares the absolute values of the
    coordinates, [mandelbrot_iterator] the coordinates.  For a point
    whose imaginary part is a zero the two orbits have the same real
    parts, and imaginary parts that are zeros (of either sign) or, once
    a real part has overflowed, both NaN; the escape test does not
    tell them apart, so the two evaluators return the same count.  The
    statement holds for every binary64 real part, infinite and NaN
    included, and is proved on the specification of the operations.
    The row 256 of the image maps to such points at every zoom, so the
    two frames have the same row 256. *)

From Stdlib Require Import Floats.
From S2P Require Import Prelude MachInt Scalar ScalarLaws Complex Escape.
From S2P Require Import Color Image Render Symmetry.

(** ** Specification values *)

(** Two imaginary parts that are both zeros or both NaN. *)
Definition sf_flat (a b : spec_float) : Prop :=
  (sf_zero a /\ sf_zero b) \/ (a = S754_nan /\ b = S754_nan).

(** Splits a hypothesis [sf_flat a b] into its cases. *)
Ltac flat_cases H := destruct H as [[[-> | ->] [-> | ->]]|[-> ->]].

(** Closes a goal [sf_flat a b] on two zeros or two NaN. *)
Ltac flat_auto :=
  first [ right; split; reflexivity
        | left; split; (left; reflexivity) || (right; reflexivity) ].

Section Spec.
Implicit Types (a b t k : spec_float).

(** The absolute value of a rounding is the rounding of the absolute
    value. *)
Lemma binary_round_aux_abs s m e l :
  SFabs (binary_round_aux prec emax s m e l) = binary_round_aux prec emax false m e l.
Proof.
  unfold binary_round_aux.
  destruct (shr_fexp prec emax m e l) as [mrs' e'].
  destruct (shr_fexp prec emax _ e' loc_Exact) as [mrs'' e''].
  destruct (shr_m mrs''); try reflexivity.
  by destruct (e'' <=? emax - prec)%Z.
Qed.

Lemma SFmul_abs_abs a : SF64mul (SFabs a) (SFabs a) = SF64mul a a.
Proof. by sf_destruct a. Qed.

(** The product by a positive number commutes with the absolute value. *)
Lemma SFmul_abs_r m e a :
  SF64mul (S754_finite false m e) (SFabs a) =
  SFabs (SF64mul (S754_finite false m e) a).
Proof.
  destruct a as [[]|[]| |s ma ea]; try reflexivity.
  unfold SF64mul. cbn [SFmul SFabs xorb]. by rewrite binary_round_aux_abs.
Qed.

Lemma SFmul_flat_sq a b : sf_flat a b -> SF64mul a a = SF64mul b b.
Proof. intros Hab. by flat_cases Hab. Qed.

Lemma SFmul_flat_abs a b :
  sf_flat a b -> SF64mul a a = SF64mul (SFabs b) (SFabs b).
Proof. intros Hab. by flat_cases Hab. Qed.

(** The imaginary parts after a step: [t * a + k] and [|t| * |b| + k]
    for a constant [k] that is a zero or NaN.  A product with a zero is
    a zero unless the other factor is infinite or NaN, which [t] and
    [|t|] are together. *)
Lemma SFimag_flat t a b k :
  sf_flat a b -> sf_zero k \/ k = S754_nan ->
  sf_flat (SF64add (SF64mul t a) k) (SF64add (SF64mul (SFabs t) (SFabs b)) k).
Proof.
  intros Hab Hk.
  flat_cases Hab; destruct Hk as [[-> | ->] | ->]; sf_destruct t; cbn; flat_auto.
Qed.

End Spec.

(** ** The orbits *)

Section Orbits.
Implicit Types (x y : float) (z w c : Complex float) (maxIter : Z).

Lemma zero_or_nan_spec x :
  zero_or_nan x -> sf_zero (Prim2SF x) \/ Prim2SF x = S754_nan.
Proof. intros [-> | [-> | ->]]; vm_compute; auto. Qed.

(** A point of the real axis: its imaginary part is a zero, or NaN. *)
Definition on_real_axis c : Prop := zero_or_nan (imag c).

(** The relation between the points of the two orbits: one real part,
    and imaginary parts that are both zeros or both NaN. *)
Definition flat z w : Prop :=
  real z = real w /\ sf_flat (Prim2SF (imag z)) (Prim2SF (imag w)).

Lemma flat_start : flat mandelbrot_start burning_ship_start.
Proof. split; [reflexivity|]. vm_compute. flat_auto. Qed.

Lemma flat_escaped z w : flat z w -> escaped z = escaped w.
Proof.
  intros [Hr Hi]. unfold escaped. rewrite Hr. do 2 f_equal.
  apply Prim2SF_inj. simpl. rewrite !mul_spec. by apply SFmul_flat_sq.
Qed.

Lemma flat_step c z w :
  zero_or_nan (imag c) -> flat z w ->
  flat (julia_step c z) (burning_ship_step c w).
Proof.
  intros Hc [Hr Hi]. split; simpl.
  - rewrite Hr. do 2 f_equal; apply Prim2SF_inj; rewrite !mul_spec, !abs_spec.
    + by rewrite SFmul_abs_abs.
    + by apply SFmul_flat_abs.
  - rewrite Hr, !add_spec, !mul_spec, abs_spec, abs_spec.
    change (Prim2SF (float_of_Z 2)) with (S754_finite false 4503599627370496 (-51)).
    rewrite SFmul_abs_r. by apply SFimag_flat, zero_or_nan_spec.
Qed.

(** The two orbits of a point of the real axis escape at the same
    time. *)
Lemma real_axis_count c maxIter :
  zero_or_nan (imag c) ->
  escape_count (burning_ship_step c) burning_ship_start maxIter =
  escape_count (julia_step c) mandelbrot_start maxIter.
Proof.
  intros Hc. symmetry.
  apply (escape_count_rel flat); [apply flat_escaped| |apply flat_start].
  intros z w. by apply flat_step.
Qed.

(** C27: on binary64, for every point whose imaginary part is a zero or
    NaN and every real part, [burning_ship_iterator] and
    [mandelbrot_iterator] return the same count. *)
Theorem burning_ship_real_axis c maxIter :
  on_real_axis c -> maxIter <= INT_MAX ->
  burning_ship_iterator c maxIter = mandelbrot_iterator c maxIter.
Proof.
  intros Hc Hmax. unfold burning_ship_iterator, mandelbrot_iterator.
  rewrite (run_escape_count (burning_ship_step c)),
    (run_escape_count (julia_step c)) by done.
  by rewrite real_axis_count.
Qed.

End Orbits.

(** ** The row 256 of the frames *)

Section Frames.
Implicit Types (g : globals float) (x y : Z) (img : mlx_image).

(** Two configurations that differ in the fractal only: the
    Mandelbrot set for the first, the Burning Ship for the second. *)
Definition ship_of g g' : Prop :=
  g_fractal_type g = 0 /\ g_fractal_type g' = 2 /\
  g_max_iter g' = g_max_iter g /\ zoom g' = zoom g.

Lemma real_axis_pixel g g' x :
  ship_of g g' -> pixel_count g' x 256 = pixel_count g x 256.
Proof.
  intros (Ht & Ht' & Hm & Hz). unfold pixel_count, point_count, plane_range.
  rewrite Ht, Ht', Hm, Hz. cbv beta iota delta [Z.eqb Pos.eqb].
  apply real_axis_count, (centre_point (lit 4 1 / zoom g)%sc).
Qed.

(** Two pixels painted with one cap from one escape count have one
    colour. *)
Lemma painted_same_cap g g' img img' x y :
  g_max_iter g' = g_max_iter g -> g_max_iter g <= INT_MAX ->
  painted g img x y -> painted g' img' x y ->
  pixel_count g' x y = pixel_count g x y ->
  pixel_at img' x y = pixel_at img x y.
Proof.
  intros Hm Hmax (c & Hc & ->) (c' & Hc' & ->) Hcount.
  rewrite pixel_color_count in Hc, Hc' by lia. congruence.
Qed.

(** The frames that [ft_fractal] renders of the Mandelbrot set and
    of the Burning Ship with one cap and one zoom have the same row
    256, at every zoom. *)
Theorem real_axis_frames g g' :
  ship_of g g' -> 0 < g_max_iter g <= INT_MAX ->
  image_wf (image g) -> full_size (image g) ->
  image_wf (image g') -> full_size (image g') ->
  exists img img',
    ft_fractal g = Ok (with_image g img) /\
    ft_fractal g' = Ok (with_image g' img') /\
    forall x, 0 <= x < 512 -> pixel_at img' x 256 = pixel_at img x 256.
Proof.
  intros Hs Hm Hwf [Hw Hh] Hwf' [Hw' Hh'].
  pose proof Hs as (_ & _ & Hcap & _).
  destruct (frame_loop_spec g Hm Hwf) as (st & Hl & _ & Hsw & Hsh & Hp).
  destruct (frame_loop_spec g') as (st' & Hl' & _ & Hsw' & Hsh' & Hp');
    [lia|done|].
  exists (fs_image st), (fs_image st'). unfold ft_fractal. rewrite Hl, Hl'.
  split_and!; [done..|]. intros x Hx. unfold in_grid, WIDTH, HEIGHT in *.
  apply (painted_same_cap g g'); [done|lia|apply Hp; lia|apply Hp'; lia|].
  by apply real_axis_pixel.
Qed.

End Frames.

(** ** Witnesses *)

Lemma burning_ship_real_axis_witness :
  burning_ship_iterator (F := float) {| real := (-1.75)%float; imag := 0%float |} 100 =
  mandelbrot_iterator {| real := (-1.75)%float; imag := 0%float |} 100.
Proof. apply burning_ship_real_axis; [by left|int_range]. Defined.

Lemma real_axis_frames_witness :
  exists img img',
    ft_fractal (mkGlobals 0 50 1%float (mlx_new_image 512 512)) =
      Ok (with_image (mkGlobals 0 50 1%float (mlx_new_image 512 512)) img) /\
    ft_fractal (mkGlobals 2 50 1%float (mlx_new_image 512 512)) =
      Ok (with_image (mkGlobals 2 50 1%float (mlx_new_image 512 512)) img') /\
    forall x, 0 <= x < 512 -> pixel_at img' x 256 = pixel_at img x 256.
Proof.
  apply real_axis_frames;
    [done|simpl; int_range|apply mlx_new_image_wf; int_range|done
    |apply mlx_new_image_wf; int_range|done].
Defined.
