(* ===== verification/Undefined.v ===== *)
(** * Undefined: points with a NaN coordinate

    A coordinate of a point is NaN when the range of the plane is NaN,
    or infinite at the centre column and row.  On binary64 a NaN
    coordinate stays in the orbit and fails every escape test, so the
    three evaluators return the cap: such a point is painted as a
    member of the set. *)

From Stdlib Require Import Floats.
From S2P Require Import Prelude MachInt Scalar ScalarLaws Complex Escape.
From S2P Require Import Color Image Render.

Section NaN.
Implicit Types (x y : float) (z c : Complex float) (maxIter : Z).

Lemma nan_spec x : x = nan <-> Prim2SF x = S754_nan.
Proof. split; [by intros ->|]. by intros ->%float_of_spec. Qed.

Ltac nan_by spec :=
  apply nan_spec; rewrite spec; rewrite ?(proj1 (nan_spec _)) by done;
  first [reflexivity | by destruct (Prim2SF _) as [[]|[]| |[] ? ?]].

Lemma mul_nan_l y : PrimFloat.mul nan y = nan.
Proof. nan_by mul_spec. Qed.
Lemma mul_nan_r x : PrimFloat.mul x nan = nan.
Proof. nan_by mul_spec. Qed.
Lemma add_nan_l y : PrimFloat.add nan y = nan.
Proof. nan_by add_spec. Qed.
Lemma add_nan_r x : PrimFloat.add x nan = nan.
Proof. nan_by add_spec. Qed.
Lemma sub_nan_l y : PrimFloat.sub nan y = nan.
Proof. nan_by sub_spec. Qed.
Lemma sub_nan_r x : PrimFloat.sub x nan = nan.
Proof. nan_by sub_spec. Qed.
Lemma div_nan_l y : PrimFloat.div nan y = nan.
Proof. nan_by div_spec. Qed.
Lemma div_nan_r x : PrimFloat.div x nan = nan.
Proof. nan_by div_spec. Qed.

Lemma ltb_nan_r x : PrimFloat.ltb x nan = false.
Proof.
  rewrite ltb_spec. change (Prim2SF nan) with S754_nan.
  by destruct (Prim2SF x) as [[]|[]| |[] ? ?].
Qed.

End NaN.

Create HintDb nan.
Create Rewrite HintDb nan.
#[export] Hint Rewrite mul_nan_l mul_nan_r add_nan_l add_nan_r sub_nan_l sub_nan_r
  div_nan_l div_nan_r ltb_nan_r : nan.

(** ** Orbits through NaN *)

Section Orbits.
Implicit Types (x y : float) (z c : Complex float) (maxIter : Z) (n : nat).

(** A coordinate of the point is NaN. *)
Definition has_nan z : Prop := real z = nan \/ imag z = nan.

#[export] Instance float_eq_decision : EqDecision float.
Proof.
  intros x y. destruct (decide (Prim2SF x = Prim2SF y)) as [Heq|Hne];
    [left; by apply Prim2SF_inj|right; congruence].
Defined.

#[export] Instance has_nan_dec z : Decision (has_nan z).
Proof. unfold has_nan. apply _. Defined.

Lemma escaped_nan z : has_nan z -> escaped z = false.
Proof.
  unfold escaped. simpl. intros [-> | ->]; by autorewrite with nan.
Qed.

(** The real part of a square is NaN as soon as a coordinate is. *)
Lemma square_nan z : has_nan z -> real (square z) = nan.
Proof. simpl. intros [-> | ->]; by autorewrite with nan. Qed.

Lemma add_nan z c : has_nan z \/ has_nan c -> has_nan (add z c).
Proof.
  unfold has_nan. simpl.
  intros [[-> | ->] | [-> | ->]]; autorewrite with nan; auto.
Qed.

Lemma julia_step_nan c z : has_nan z \/ has_nan c -> has_nan (julia_step c z).
Proof.
  intros [Hz | Hc]; apply add_nan; [left; left; by apply square_nan|by right].
Qed.

Lemma burning_ship_step_nan c z :
  has_nan z \/ has_nan c -> has_nan (burning_ship_step c z).
Proof.
  intros [Hz | Hc]; apply add_nan; [left; left|by right].
  apply square_nan. destruct Hz as [Hz | Hz]; [left | right]; simpl; by rewrite Hz.
Qed.

(** An orbit whose map keeps a NaN never passes the escape test. *)
Lemma nan_orbit (step : Complex float -> Complex float) z cap :
  (forall w, has_nan (step w)) -> escape_time step z cap = None.
Proof.
  intros Hstep. apply escape_time_None. intros j _. apply escaped_nan.
  unfold orbit. simpl. apply Hstep.
Qed.

Lemma nan_orbit_from (step : Complex float -> Complex float) z cap :
  (forall w, has_nan w -> has_nan (step w)) -> has_nan z ->
  escape_time step z cap = None.
Proof.
  intros Hstep Hz. apply escape_time_None. intros j _. apply escaped_nan.
  unfold orbit. induction (S j) as [|n IH]; simpl; auto.
Qed.

(** The counts of a point with a NaN coordinate: as the constant of
    either map, and as the start of the Julia orbit. *)
Lemma nan_count_mandelbrot c z maxIter :
  has_nan c -> escape_count (julia_step c) z maxIter = maxIter.
Proof.
  intros Hc. unfold escape_count.
  by rewrite nan_orbit by (intros w; apply julia_step_nan; auto).
Qed.

Lemma nan_count_burning_ship c z maxIter :
  has_nan c -> escape_count (burning_ship_step c) z maxIter = maxIter.
Proof.
  intros Hc. unfold escape_count.
  by rewrite nan_orbit by (intros w; apply burning_ship_step_nan; auto).
Qed.

Lemma nan_count_julia c z maxIter :
  has_nan z -> escape_count (julia_step c) z maxIter = maxIter.
Proof.
  intros Hz. unfold escape_count.
  by rewrite nan_orbit_from by (done || intros w Hw; apply julia_step_nan; auto).
Qed.

(** C31: on binary64 a point with a NaN coordinate never escapes: the
    three evaluators return the cap, whatever the other coordinate,
    the constant of the Julia set and the cap. *)
Theorem nan_never_escapes c z maxIter :
  has_nan c -> maxIter <= INT_MAX ->
  mandelbrot_iterator c maxIter = Ok maxIter /\
  burning_ship_iterator c maxIter = Ok maxIter /\
  julia_iterator c z maxIter = Ok maxIter.
Proof.
  intros Hc Hmax. unfold mandelbrot_iterator, burning_ship_iterator, julia_iterator.
  rewrite (run_escape_count (julia_step c)), (run_escape_count (burning_ship_step c)),
    (run_escape_count (julia_step z)) by done.
  by rewrite nan_count_mandelbrot, nan_count_burning_ship, nan_count_julia.
Qed.

End Orbits.

(** ** Frames of an undefined zoom *)

Section Frames.
Implicit Types (g : globals float) (x y : Z) (img : mlx_image).

Lemma pixel_point_nan x y : has_nan (pixel_point nan x y).
Proof. left. simpl. unfold pixel_real. simpl. by autorewrite with nan. Qed.

Lemma nan_pixel_count g x y :
  zoom g = nan -> 0 <= g_fractal_type g <= 2 -> pixel_count g x y = g_max_iter g.
Proof.
  intros Hz Ht. unfold pixel_count, point_count, plane_range. rewrite Hz.
  change (lit 4 1 / nan)%sc with nan.
  rewrite nan_count_mandelbrot, nan_count_burning_ship, nan_count_julia
    by apply pixel_point_nan.
  repeat case_match; lia.
Qed.

(** With a NaN zoom [ft_fractal] paints the whole image in the grey
    of the points that do not escape, for each of the three fractals. *)
Theorem ft_fractal_nan_zoom g :
  zoom g = nan -> 0 <= g_fractal_type g <= 2 -> 0 < g_max_iter g <= INT_MAX ->
  image_wf (image g) ->
  exists img, ft_fractal g = Ok (with_image g img) /\
    forall x y, in_grid (image g) x y -> pixel_at img x y = Some sentinel_gray.
Proof.
  intros Hz Ht Hm Hwf.
  destruct (frame_loop_spec g Hm Hwf) as (st & Hl & _ & Hw & Hh & Hp).
  exists (fs_image st). unfold ft_fractal. rewrite Hl. split; [done|].
  intros x y Hg. destruct (Hp x y) as (c & Hc & ->);
    [unfold in_grid in *; by rewrite Hw, Hh|].
  rewrite pixel_color_count, nan_pixel_count, get_color_cap in Hc by (done || lia).
  by injection Hc as <-.
Qed.

End Frames.

(** ** Witnesses *)

Lemma nan_never_escapes_witness :
  mandelbrot_iterator {| real := 3%float; imag := nan |} 50 = Ok 50 /\
  burning_ship_iterator {| real := 3%float; imag := nan |} 50 = Ok 50 /\
  julia_iterator {| real := 3%float; imag := nan |} julia_c 50 = Ok 50.
Proof. apply nan_never_escapes; [by right|int_range]. Defined.

Lemma ft_fractal_nan_zoom_witness :
  exists img,
    ft_fractal (mkGlobals 1 50 nan (mlx_new_image 512 512)) =
      Ok (with_image (mkGlobals 1 50 nan (mlx_new_image 512 512)) img) /\
    forall x y, in_grid (mlx_new_image 512 512) x y ->
      pixel_at img x y = Some sentinel_gray.
Proof.
  apply ft_fractal_nan_zoom;
    [done|simpl; lia|simpl; int_range|apply mlx_new_image_wf; int_range].
Defined.
