(* ===== verification/Hook.v ===== *)
(** * Hook: the input and zoom controller [ft_hook] of src/main.c

    The state of the running program (the globals, whether the window
    was asked to close, how many frames were rendered), the keys that
    the collaborator reports as down during one tick, the handler
    [ft_hook], and the transition system that the event loop runs:
    one tick after the other until the window is closed.  The theorems
    give the effect of a tick, the invariant of the reachable states,
    the run of the loop on a list of ticks, and the behaviour of the
    [float] zoom on binary64. *)

From Stdlib Require Import Floats.
From stdpp Require Import relations.
From S2P Require Import Prelude MachInt Scalar Complex Escape Color Image Render.

(** What [mlx_is_key_down] answers during one tick. *)
Record keys : Type := mkKeys {
  key_escape : bool;
  key_up : bool;
  key_down : bool;
}.

#[export] Instance keys_eq_dec : EqDecision keys.
Proof. solve_decision. Defined.

(** The running program: its globals, the close request of the window,
    and the number of frames rendered so far. *)
Record world (F : Type) : Type := mkWorld {
  w_globals : globals F;
  w_closed : bool;
  w_frames : nat;
}.

Arguments mkWorld {F} _ _ _.
Arguments w_globals {F} w.
Arguments w_closed {F} w.
Arguments w_frames {F} w.

Section Hook.
Context {F : Type} `{Scalar F}.
Implicit Types (w : world F) (g : globals F) (k : keys).

(** [mlx_close_window(mlx)] *)
Definition mlx_close_window w : world F :=
  {| w_globals := w_globals w; w_closed := true; w_frames := w_frames w |}.

(** [zoom += 0.1] and [zoom -= 0.1] on the [float] zoom: the sum is
    computed in [double] and rounded when it is stored. *)
Definition zoom_in (z : F) : F := to_float (z + lit 1 10)%sc.
Definition zoom_out (z : F) : F := to_float (z - lit 1 10)%sc.

Definition set_zoom g (z : F) : globals F :=
  {| g_fractal_type := g_fractal_type g; g_max_iter := g_max_iter g;
     zoom := z; image := image g |}.

(** A change of the zoom followed by [ft_fractal(NULL)]. *)
Definition rezoom (f : F -> F) w : result (world F) :=
  g <- ft_fractal (set_zoom (w_globals w) (f (zoom (w_globals w)))) ;;
  Ok {| w_globals := g; w_closed := w_closed w; w_frames := S (w_frames w) |}.

(** The handler: the three keys are tested one after the other, and a
    close request does not end the tick. *)
Definition ft_hook k w : result (world F) :=
  let w := if key_escape k then mlx_close_window w else w in
  w <- (if key_up k then rezoom zoom_in w else Ok w) ;;
  w <- (if key_down k then rezoom zoom_out w else Ok w) ;;
  Ok w.

(** [mlx_loop(mlx)]: the handler runs once per tick until the window is
    asked to close; the ticks are the key states of the input. *)
Fixpoint mlx_loop (input : list keys) w : result (world F) :=
  match input with
  | [] => Ok w
  | k :: input' =>
      if w_closed w then Ok w
      else w' <- ft_hook k w ;; mlx_loop input' w'
  end.

(** ** Reference definitions *)

(** The zoom after a tick, and the number of frames it renders. *)
Definition tick_zoom k (z : F) : F :=
  (if key_down k then zoom_out else id) ((if key_up k then zoom_in else id) z).

Definition tick_frames k : nat := (Nat.b2n (key_up k) + Nat.b2n (key_down k))%nat.

(** The ticks that the loop runs: those up to the first with escape
    down, that one included. *)
Fixpoint ticks_run (input : list keys) : list keys :=
  match input with
  | [] => []
  | k :: input' => if key_escape k then [k] else k :: ticks_run input'
  end.

(** ** The transition system *)

(** One tick of the event loop. *)
Inductive tick : world F -> world F -> Prop :=
| tick_hook k w w' :
    w_closed w = false -> ft_hook k w = Ok w' -> tick w w'.

(** The worlds that the event loop can reach. *)
Definition reachable (w0 w : world F) : Prop := rtc tick w0 w.

(** The invariant of the running program: the configuration that
    [main] set up. *)
Record world_ok w : Prop := {
  wo_type : 0 <= g_fractal_type (w_globals w) <= 2;
  wo_max_iter : 0 < g_max_iter (w_globals w) <= INT_MAX;
  wo_image : image_wf (image (w_globals w));
  wo_width : img_width (image (w_globals w)) = WIDTH;
  wo_height : img_height (image (w_globals w)) = HEIGHT;
}.

End Hook.

(** ** The handler keeps the program well-formed *)

Section HookProps.
Context {F : Type} `{Scalar F}.
Implicit Types (w : world F) (g : globals F) (k : keys).

(** The image shows the frame of the current configuration. *)
Definition frame_current w : Prop :=
  forall x y, in_grid (image (w_globals w)) x y ->
    painted (w_globals w) (image (w_globals w)) x y.

(** What a tick may change of the configuration: nothing but the zoom
    and the image. *)
Definition same_config w w' : Prop :=
  g_fractal_type (w_globals w') = g_fractal_type (w_globals w) /\
  g_max_iter (w_globals w') = g_max_iter (w_globals w).

Lemma mlx_close_window_ok w : world_ok w -> world_ok (mlx_close_window w).
Proof. by intros []. Qed.

(** A change of zoom renders one frame for the new zoom. *)
Lemma rezoom_ok (f : F -> F) w :
  world_ok w ->
  exists w', rezoom f w = Ok w' /\ world_ok w' /\ frame_current w' /\
    same_config w w' /\ zoom (w_globals w') = f (zoom (w_globals w)) /\
    w_closed w' = w_closed w /\ w_frames w' = S (w_frames w).
Proof.
  intros [Ht Hm Hwf Hw Hh]. unfold rezoom.
  destruct (ft_fractal_spec (set_zoom (w_globals w) (f (zoom (w_globals w)))))
    as (img & -> & Hwf' & Hw' & Hh' & Hp); [done..|].
  simpl in *. eexists. split; [done|].
  split_and!; [split; simpl; (done || congruence)| |done..].
  intros x y Hg. by apply Hp.
Qed.

(** The three steps of a tick, for any two changes of the zoom: from a
    well-formed world they do not fault and leave a well-formed world
    whose image shows the frame of the final zoom. *)
Definition steps_zoom (f_up f_down : F -> F) k (z : F) : F :=
  (if key_down k then f_down else id) ((if key_up k then f_up else id) z).

Lemma hook_steps (f_up f_down : F -> F) k w :
  world_ok w -> frame_current w ->
  exists w',
    (let w := if key_escape k then mlx_close_window w else w in
     w <- (if key_up k then rezoom f_up w else Ok w) ;;
     w <- (if key_down k then rezoom f_down w else Ok w) ;;
     Ok w) = Ok w' /\
    world_ok w' /\ frame_current w' /\ same_config w w' /\
    w_closed w' = key_escape k || w_closed w /\
    zoom (w_globals w') = steps_zoom f_up f_down k (zoom (w_globals w)) /\
    w_frames w' = (w_frames w + tick_frames k)%nat.
Proof.
  intros Hok Hcur. unfold same_config, steps_zoom, tick_frames.
  set (w1 := if key_escape k then mlx_close_window w else w).
  assert (H1 : world_ok w1 /\ frame_current w1 /\ w_globals w1 = w_globals w /\
    w_closed w1 = key_escape k || w_closed w /\ w_frames w1 = w_frames w).
  { subst w1. destruct (key_escape k); [|done].
    split_and!; try done. by apply mlx_close_window_ok. }
  clearbody w1. destruct H1 as (Hok1 & Hcur1 & Hg1 & Hc1 & Hf1).
  destruct (key_up k), (key_down k); simpl.
  - destruct (rezoom_ok f_up w1 Hok1) as (w2 & -> & Hok2 & _ & [? ?] & ? & ? & ?).
    cbn [bind].
    destruct (rezoom_ok f_down w2 Hok2) as (w3 & -> & ? & ? & [? ?] & ? & ? & ?).
    exists w3. simpl. split_and!; try done; try congruence; lia.
  - destruct (rezoom_ok f_up w1 Hok1) as (w2 & -> & ? & ? & [? ?] & ? & ? & ?).
    exists w2. simpl. split_and!; try done; try congruence; lia.
  - destruct (rezoom_ok f_down w1 Hok1) as (w2 & -> & ? & ? & [? ?] & ? & ? & ?).
    exists w2. simpl. split_and!; try done; try congruence; lia.
  - exists w1. split_and!; try done; try congruence; lia.
Qed.

(** What the image of a well-formed world shows, in terms of escape
    counts. *)
Lemma frame_current_count w x y :
  world_ok w -> frame_current w -> in_grid (image (w_globals w)) x y ->
  exists c,
    get_color (pixel_count (w_globals w) x y) (g_max_iter (w_globals w)) = Ok c /\
    pixel_at (image (w_globals w)) x y = Some c.
Proof.
  intros [_ Hm _ _ _] Hcur Hg. destruct (Hcur x y Hg) as (c & Hc & Hat).
  exists c. by rewrite <- pixel_color_count by lia.
Qed.

(** C8: from a well-formed world a tick does not fault.  It sets the
    close request when escape is down, applies [zoom_in] when up is
    down and then [zoom_out] when down is down, and renders one frame
    for each of the two; the fractal type and the cap are unchanged,
    and every pixel of the image holds the colour of the escape count
    of its point at the final zoom. *)
Theorem ft_hook_ok k w :
  world_ok w -> frame_current w ->
  exists w', ft_hook k w = Ok w' /\
    w_closed w' = key_escape k || w_closed w /\
    w_globals w' =
      with_image (set_zoom (w_globals w) (tick_zoom k (zoom (w_globals w))))
        (image (w_globals w')) /\
    w_frames w' = (w_frames w + tick_frames k)%nat /\
    forall x y, 0 <= x < WIDTH -> 0 <= y < HEIGHT ->
      exists c,
        get_color (pixel_count (w_globals w') x y) (g_max_iter (w_globals w')) = Ok c /\
        pixel_at (image (w_globals w')) x y = Some c.
Proof.
  intros Hok Hcur.
  destruct (hook_steps zoom_in zoom_out k w Hok Hcur)
    as (w' & Hw' & Hok' & Hcur' & [Ht Hm] & Hc & Hz & Hf).
  exists w'. split_and!; [done..| |done|].
  - destruct w' as [[] ? ?]. unfold with_image, set_zoom, steps_zoom, tick_zoom in *.
    simpl in *. congruence.
  - intros x y Hx Hy. apply frame_current_count; [done..|].
    destruct Hok'. unfold in_grid. lia.
Qed.

End HookProps.

(** ** The event loop *)

Section EventLoop.
Context {F : Type} `{Scalar F}.
Implicit Types (w : world F) (k : keys) (input : list keys).

(** What holds of every world the loop reaches from [w0]. *)
Definition loop_inv (w0 w : world F) : Prop :=
  world_ok w /\ frame_current w /\ same_config w0 w /\
  (w_frames w0 <= w_frames w)%nat.

Lemma loop_inv_refl w : world_ok w -> frame_current w -> loop_inv w w.
Proof. by intros; split_and!. Qed.

(** C6: every world that the event loop reaches from a well-formed
    world is well-formed, has the fractal type and the cap of the
    first, and shows in its image the frame of its current zoom. *)
Theorem reachable_inv w0 w :
  world_ok w0 -> frame_current w0 -> reachable w0 w -> loop_inv w0 w.
Proof.
  intros Hok0 Hcur0 Hreach.
  refine (rtc_ind_r (loop_inv w0) w0 _ _ w Hreach); [by apply loop_inv_refl|].
  intros w1 w2 _ Htick (Hok & Hcur & [Ht Hm] & Hfr).
  inversion Htick as [k ? ? Hopen Hhook]; subst.
  destruct (hook_steps zoom_in zoom_out k w1 Hok Hcur)
    as (w' & Hw' & ? & ? & [? ?] & _ & _ & ?).
  change (ft_hook k w1 = Ok w') in Hw'. rewrite Hhook in Hw'. injection Hw' as <-.
  split_and!; try done; [split; congruence|lia].
Qed.

(** The close request after a tick, whatever the world: a tick sets it
    when escape is down, and nothing clears it. *)
Lemma ft_hook_closed k w w' :
  ft_hook k w = Ok w' -> w_closed w' = key_escape k || w_closed w.
Proof.
  unfold ft_hook, rezoom.
  destruct (key_escape k), (key_up k), (key_down k); simpl;
    repeat (destruct (ft_fractal _); simpl; [|done]); by intros [= <-].
Qed.

(** A tick does not fault from a well-formed world, whatever its image
    shows. *)
Lemma ft_hook_total k w :
  world_ok w -> exists w', ft_hook k w = Ok w' /\ world_ok w'.
Proof.
  intros Hok. unfold ft_hook.
  set (w1 := if key_escape k then mlx_close_window w else w).
  assert (Hok1 : world_ok w1)
    by (subst w1; destruct (key_escape k); [by apply mlx_close_window_ok|done]).
  clearbody w1. destruct (key_up k), (key_down k); simpl; [| | |by eauto].
  - destruct (rezoom_ok zoom_in w1 Hok1) as (w2 & -> & Hok2 & _). simpl.
    destruct (rezoom_ok zoom_out w2 Hok2) as (w3 & -> & ? & _). by eauto.
  - destruct (rezoom_ok zoom_in w1 Hok1) as (w2 & -> & ? & _). by eauto.
  - destruct (rezoom_ok zoom_out w1 Hok1) as (w2 & -> & ? & _). by eauto.
Qed.

(** A change of zoom and a tick keep the globals fit for rendering and
    the size of the image. *)
Lemma rezoom_renders (f : F -> F) w w' :
  renders (w_globals w) -> rezoom f w = Ok w' ->
  renders (w_globals w') /\
  area (image (w_globals w')) = area (image (w_globals w)).
Proof.
  intros Hr. unfold rezoom.
  set (g0 := set_zoom (w_globals w) (f (zoom (w_globals w)))).
  assert (Hr0 : renders g0) by exact Hr.
  destruct (ft_fractal g0) as [g|] eqn:Hf; [|done]. intros [= <-].
  exact (ft_fractal_renders g0 g Hr0 Hf).
Qed.

Lemma guarded_rezoom_renders (b : bool) (f : F -> F) w w' :
  renders (w_globals w) -> (if b then rezoom f w else Ok w) = Ok w' ->
  renders (w_globals w') /\
  area (image (w_globals w')) = area (image (w_globals w)).
Proof. destruct b; [apply rezoom_renders|]. by intros ? [= <-]. Qed.

Lemma ft_hook_renders k w w' :
  renders (w_globals w) -> ft_hook k w = Ok w' ->
  renders (w_globals w') /\
  area (image (w_globals w')) = area (image (w_globals w)).
Proof.
  intros Hr. unfold ft_hook.
  set (w1 := if key_escape k then mlx_close_window w else w).
  assert (Hg : w_globals w1 = w_globals w) by (subst w1; by destruct (key_escape k)).
  clearbody w1. rewrite <- Hg in Hr |- *.
  destruct (if key_up k then _ else _) as [w2|] eqn:Hup; [|done]. cbn [bind].
  destruct (if key_down k then _ else _) as [w3|] eqn:Hdown; [|done].
  intros [= <-].
  apply (guarded_rezoom_renders _ _ _ _ Hr) in Hup as [Hr2 Ha2].
  apply (guarded_rezoom_renders _ _ _ _ Hr2) in Hdown as [Hr3 Ha3].
  split; [done|congruence].
Qed.

(** With globals fit for rendering a change of zoom, a tick and the
    event loop do not fault, whatever the fractal type. *)
Lemma guarded_rezoom_total (b : bool) (f : F -> F) w :
  renders (w_globals w) -> exists w', (if b then rezoom f w else Ok w) = Ok w'.
Proof.
  intros [Hm Hwf]. destruct b; [|by eexists]. unfold rezoom.
  set (g0 := set_zoom (w_globals w) (f (zoom (w_globals w)))).
  destruct (ft_fractal_spec g0 Hm Hwf) as (img & -> & _). by eexists.
Qed.

Lemma ft_hook_renders_Ok k w :
  renders (w_globals w) -> exists w', ft_hook k w = Ok w'.
Proof.
  intros Hr. unfold ft_hook.
  set (w1 := if key_escape k then mlx_close_window w else w).
  assert (Hr1 : renders (w_globals w1)) by (subst w1; by destruct (key_escape k)).
  clearbody w1.
  destruct (guarded_rezoom_total (key_up k) zoom_in w1 Hr1) as [w2 Hup].
  destruct (guarded_rezoom_renders _ _ _ _ Hr1 Hup) as [Hr2 _]. rewrite Hup. cbn [bind].
  destruct (guarded_rezoom_total (key_down k) zoom_out w2 Hr2) as [w3 ->].
  by eexists.
Qed.

Lemma mlx_loop_total input : forall w,
  renders (w_globals w) -> exists w', mlx_loop input w = Ok w'.
Proof.
  induction input as [|k input IH]; intros w Hr; simpl; [by eexists|].
  destruct (w_closed w); [by eexists|].
  destruct (ft_hook_renders_Ok k w Hr) as [w1 Hh]. rewrite Hh. simpl.
  apply IH. by apply (ft_hook_renders _ _ _ Hr Hh).
Qed.

(** What a tick does, from a well-formed world. *)
Lemma ft_hook_spec k w :
  world_ok w -> frame_current w ->
  exists w', ft_hook k w = Ok w' /\ world_ok w' /\ frame_current w' /\
    same_config w w' /\
    w_closed w' = key_escape k || w_closed w /\
    zoom (w_globals w') = tick_zoom k (zoom (w_globals w)) /\
    w_frames w' = (w_frames w + tick_frames k)%nat.
Proof. apply (hook_steps zoom_in zoom_out). Qed.

Lemma tick_inv w0 w w' : loop_inv w0 w -> tick w w' -> loop_inv w0 w'.
Proof.
  intros (Hok & Hcur & [Ht Hm] & Hfr) Htick.
  inversion Htick as [k ? ? Hopen Hhook]; subst.
  destruct (ft_hook_spec k _ Hok Hcur) as (w'' & Hw'' & ? & ? & [? ?] & _ & _ & ?).
  rewrite Hhook in Hw''. injection Hw'' as <-.
  split_and!; try done; [split; congruence|lia].
Qed.

(** The globals when [main] renders the first frame, and the world in
    which the event loop starts. *)
Definition initial_globals (t m : Z) : globals F :=
  {| g_fractal_type := t; g_max_iter := m; zoom := lit 1 1;
     image := mlx_new_image WIDTH HEIGHT |}.

Lemma first_world t m :
  0 <= t <= 2 -> 0 < m <= INT_MAX ->
  exists g, ft_fractal (initial_globals t m) = Ok g /\
    world_ok (mkWorld g false 1) /\ frame_current (mkWorld g false 1) /\
    g_fractal_type g = t /\ g_max_iter g = m /\ zoom g = lit 1 1.
Proof.
  intros Ht Hm.
  assert (Hwf : image_wf (mlx_new_image WIDTH HEIGHT))
    by (apply mlx_new_image_wf; unfold WIDTH, HEIGHT; int_range).
  destruct (ft_fractal_spec (initial_globals t m))
    as (img & -> & Hwf' & Hw & Hh & Hp); [done..|].
  eexists. split; [done|]. split_and!; [by split| |done..].
  intros x y Hg. by apply Hp.
Qed.

(** A closed window is final: no tick follows, and the loop returns. *)
Lemma closed_final w w' : w_closed w = true -> ~ tick w w'.
Proof. intros Hc Htick. inversion Htick; congruence. Qed.

Lemma mlx_loop_closed input w : w_closed w = true -> mlx_loop input w = Ok w.
Proof. intros Hc. destruct input; simpl; by rewrite ?Hc. Qed.

(** The loop does not fault, and keeps the invariant. *)
Lemma mlx_loop_inv input w0 : forall w,
  loop_inv w0 w -> exists w', mlx_loop input w = Ok w' /\ loop_inv w0 w'.
Proof.
  induction input as [|k input IH]; intros w Hinv; simpl; [by exists w|].
  destruct (w_closed w) eqn:Hopen; [by exists w|].
  pose proof Hinv as (Hok & Hcur & _).
  destruct (ft_hook_spec k w Hok Hcur) as (w1 & Hh & _). rewrite Hh. simpl.
  apply IH, (tick_inv w0 w); [done|by econstructor].
Qed.

(** The event loop does not fault on any input.  It runs the ticks
    up to the first with escape down and ends in a world that these
    ticks reach: the window is asked to close exactly when escape was
    down in a tick of the input, the zoom is the one that the ticks run
    compute in turn, and each frame they rendered is counted. *)
Theorem mlx_loop_ok input : forall w,
  world_ok w -> frame_current w -> w_closed w = false ->
  exists w', mlx_loop input w = Ok w' /\ reachable w w' /\
    w_closed w' = existsb key_escape input /\
    zoom (w_globals w') =
      foldl (fun z k => tick_zoom k z) (zoom (w_globals w)) (ticks_run input) /\
    w_frames w' = (w_frames w + sum_list (tick_frames <$> ticks_run input))%nat.
Proof.
  induction input as [|k input IH]; intros w Hok Hcur Hopen; simpl.
  { exists w. split_and!; [done|apply rtc_refl|done..|lia]. }
  rewrite Hopen.
  destruct (ft_hook_spec k w Hok Hcur) as (w1 & Hh & Hok1 & Hcur1 & _ & Hc & Hz & Hf).
  rewrite Hh, Hopen, orb_false_r in *. simpl.
  assert (Htick : tick w w1) by by econstructor.
  destruct (key_escape k) eqn:Hesc; simpl.
  - rewrite mlx_loop_closed by done. exists w1.
    split_and!; [done|by apply rtc_once|done..|csimpl; lia].
  - destruct (IH w1 Hok1 Hcur1 Hc) as (w' & -> & Hr & Hc' & Hz' & Hf').
    exists w'. split_and!; [done|by eapply rtc_l|done|by rewrite <- Hz|].
    by rewrite Hf', Hf, <- Nat.add_assoc.
Qed.

(** A tick with escape down is the last one: the loop returns the
    world that the handler leaves, whatever input follows. *)
Theorem escape_ends_loop k input w :
  key_escape k = true -> w_closed w = false ->
  world_ok w -> frame_current w ->
  exists w', ft_hook k w = Ok w' /\ w_closed w' = true /\
    mlx_loop (k :: input) w = Ok w'.
Proof.
  intros Hesc Hopen Hok Hcur. simpl. rewrite Hopen.
  destruct (ft_hook_spec k w Hok Hcur) as (w' & Hh & _ & _ & _ & Hc & _).
  rewrite Hesc in Hc. exists w'. rewrite Hh. simpl.
  split_and!; [done..|]. by apply mlx_loop_closed.
Qed.

End EventLoop.

(** ** The zoom on binary64 *)

Section ZoomBinary64.

(** The zooms of [n] successive ticks with one key held, the first
    being [z]. *)
Fixpoint zoom_path (f : float -> float) (n : nat) (z : float) : list float :=
  match n with
  | O => []
  | S n' => z :: zoom_path f n' (f z)
  end.


Lemma zoom_path_lookup f n z i :
  (i < n)%nat -> zoom_path f n z !! i = Some (Nat.iter i f z).
Proof.
  revert z i. induction n as [|n IH]; intros z [|i] Hi; try lia; [done|].
  cbn [zoom_path lookup list_lookup]. rewrite IH by lia. by rewrite Nat.iter_succ_r.
Qed.




End ZoomBinary64.

(** ** Witnesses at binary64 *)

Lemma ft_hook_ok_witness :
  exists w w' : world float,
    ft_hook (mkKeys true true false) w = Ok w' /\ w_closed w' = true /\
    w_frames w' = 2%nat.
Proof.
  destruct (first_world (F := float) 0 50) as (g & _ & Hok & Hcur & _);
    [lia|int_range|].
  destruct (ft_hook_ok (mkKeys true true false) _ Hok Hcur)
    as (w' & Hh & Hc & _ & Hf & _).
  by exists (mkWorld g false 1), w'.
Defined.

Lemma reachable_inv_witness :
  exists w0 w : world float, tick w0 w /\ loop_inv w0 w.
Proof.
  destruct (first_world (F := float) 0 50) as (g & _ & Hok & Hcur & _);
    [lia|int_range|].
  destruct (ft_hook_spec (mkKeys false false true) _ Hok Hcur) as (w & Hh & _).
  assert (Htick : tick (mkWorld g false 1) w) by by econstructor.
  exists (mkWorld g false 1), w. split; [done|].
  apply reachable_inv; [done..|by apply rtc_once].
Defined.

Lemma mlx_loop_ok_witness :
  exists w w' : world float,
    mlx_loop [mkKeys false true false; mkKeys true false true;
              mkKeys false true false] w = Ok w' /\
    w_closed w' = true /\ w_frames w' = 3%nat.
Proof.
  destruct (first_world (F := float) 0 50) as (g & _ & Hok & Hcur & _);
    [lia|int_range|].
  destruct (mlx_loop_ok [mkKeys false true false; mkKeys true false true;
    mkKeys false true false] (mkWorld g false 1) Hok Hcur eq_refl)
    as (w' & Hl & _ & Hc & _ & Hf).
  by exists (mkWorld g false 1), w'.
Defined.

Lemma escape_ends_loop_witness :
  exists w w' : world float,
    ft_hook (mkKeys true false false) w = Ok w' /\ w_closed w' = true /\
    mlx_loop [mkKeys true false false; mkKeys false true false] w = Ok w'.
Proof.
  destruct (first_world (F := float) 0 50) as (g & _ & Hok & Hcur & _);
    [lia|int_range|].
  destruct (escape_ends_loop (mkKeys true false false)
    [mkKeys false true false] (mkWorld g false 1) eq_refl eq_refl Hok Hcur)
    as (w' & ? & ? & ?).
  by exists (mkWorld g false 1), w'.
Defined.
