(* ===== verification/Trees.v ===== *)
(** * Trees: interaction trees of programs that can fault

    The program talks to its collaborator through calls whose answers
    it cannot compute.  Such a program is an interaction tree over the
    events of the calls; its loops are [ITree.iter], without fuel.  The
    environment is a handler into a state monad.  This file holds what
    is independent of the program: the bind of trees that return a
    [result], the [while] loop of trees, the predicate [runs] (a tree
    run from a state of the environment ends in a state with a value)
    with one rule per construct, and the rule that transfers a run of
    a [loop] with fuel to the loop of trees. *)

From ITree Require Import ITree ITreeFacts Events.State Events.StateFacts.
From ITree Require Import Props.Leaf.
From S2P Require Import Prelude.

Declare Scope tree_scope.
Delimit Scope tree_scope with tree.

(** ** Trees that return a result *)

Section Result.
Context {E : Type -> Type}.

(** The bind of the result monad, in trees: a fault ends the program. *)
Definition rbind {A B} (t : itree E (result A)) (k : A -> itree E (result B))
  : itree E (result B) :=
  ITree.bind t (fun r =>
    match r with
    | Ok a => k a
    | Fault f => Ret (Fault f)
    end).

(** A call whose answer is a value. *)
Definition call {A} (e : E A) : itree E (result A) :=
  ITree.bind (ITree.trigger e) (fun a => Ret (Ok a)).

(** A call that can fault. *)
Definition call_result {A} (e : E (result A)) : itree E (result A) :=
  ITree.trigger e.

(** A computation without calls. *)
Definition pure {A} (r : result A) : itree E (result A) := Ret r.

(** [while (cond) body]: the loop goes on while the condition holds,
    and a fault of the condition or of the body ends it. *)
Definition while_tree {T} (cond : T -> itree E (result bool))
    (body : T -> itree E (result T)) : T -> itree E (result T) :=
  ITree.iter (fun t =>
    ITree.bind (cond t) (fun c =>
      match c with
      | Ok true =>
          ITree.bind (body t) (fun r =>
            match r with
            | Ok t' => Ret (inl t')
            | Fault f => Ret (inr (Fault f))
            end)
      | Ok false => Ret (inr (Ok t))
      | Fault f => Ret (inr (Fault f))
      end)).

End Result.

Notation "x <~ t ;; k" := (rbind t (fun x => k))
  (at level 100, t at next level, right associativity) : tree_scope.

(** ** Runs *)

Section Runs.
Context {E : Type -> Type} {L : Type}.
Variable h : forall T, E T -> Monads.stateT L (itree void1) T.

(** The tree [t], run from the state [l] of the environment, ends in
    the state [l'] with the value [r]. *)
Definition runs {R} (t : itree E R) (l l' : L) (r : R) : Prop :=
  eutt eq (interp_state h t l) (Ret (l', r)).

Lemma runs_ret {R} (r : R) l : runs (Ret r) l l r.
Proof. unfold runs. rewrite interp_state_ret. reflexivity. Qed.

Lemma runs_bind {A B} (t : itree E A) (k : A -> itree E B) l l1 l2 a b :
  runs t l l1 a -> runs (k a) l1 l2 b -> runs (ITree.bind t k) l l2 b.
Proof.
  unfold runs. intros Ht Hk. rewrite interp_state_bind, Ht, bind_ret_l. exact Hk.
Qed.

Lemma runs_trigger {A} (e : E A) l l' a :
  h _ e l = Ret (l', a) -> runs (ITree.trigger e) l l' a.
Proof. unfold runs. intros He. rewrite interp_state_trigger, He. reflexivity. Qed.

Lemma runs_iter_exit {I R} (body : I -> itree E (I + R)) i l l' r :
  runs (body i) l l' (inr r) -> runs (ITree.iter body i) l l' r.
Proof.
  unfold runs. intros Hb. rewrite unfold_iter, interp_state_bind, Hb, bind_ret_l.
  cbn. rewrite interp_state_ret. reflexivity.
Qed.

Lemma runs_iter_step {I R} (body : I -> itree E (I + R)) i i' l l1 l2 r :
  runs (body i) l l1 (inl i') -> runs (ITree.iter body i') l1 l2 r ->
  runs (ITree.iter body i) l l2 r.
Proof.
  unfold runs. intros Hb Hi. rewrite unfold_iter, interp_state_bind, Hb, bind_ret_l.
  cbn. rewrite interp_state_tau, tau_eutt. exact Hi.
Qed.

(** A tree has one run from a state. *)
Lemma runs_det {R} (t : itree E R) l l1 l2 (r1 r2 : R) :
  runs t l l1 r1 -> runs t l l2 r2 -> l1 = l2 /\ r1 = r2.
Proof.
  unfold runs. intros H1 H2. rewrite H1 in H2. apply eutt_inv_Ret in H2.
  by injection H2.
Qed.

(** The rules of the trees that return a result. *)
Lemma runs_pure {A} (r : result A) l : runs (pure r) l l r.
Proof. apply runs_ret. Qed.

Lemma runs_call {A} (e : E A) l l' a :
  h _ e l = Ret (l', a) -> runs (call e) l l' (Ok a).
Proof. intros He. eapply runs_bind; [by apply runs_trigger|apply runs_ret]. Qed.

Lemma runs_call_result {A} (e : E (result A)) l l' r :
  h _ e l = Ret (l', r) -> runs (call_result e) l l' r.
Proof. apply runs_trigger. Qed.

Lemma runs_rbind {A B} (t : itree E (result A)) (k : A -> itree E (result B))
    l l1 l2 a r :
  runs t l l1 (Ok a) -> runs (k a) l1 l2 r -> runs (rbind t k) l l2 r.
Proof. intros Ht Hk. by eapply runs_bind. Qed.

Lemma runs_rbind_fault {A B} (t : itree E (result A))
    (k : A -> itree E (result B)) l l1 f :
  runs t l l1 (Fault f) -> runs (rbind t k) l l1 (Fault f).
Proof. intros Ht. eapply runs_bind; [done|apply runs_ret]. Qed.

Section While.
Context {T : Type}.
Variable cond : T -> itree E (result bool).
Variable body : T -> itree E (result T).

Lemma runs_while_exit t l l1 :
  runs (cond t) l l1 (Ok false) -> runs (while_tree cond body t) l l1 (Ok t).
Proof.
  intros Hc. apply runs_iter_exit. eapply runs_bind; [done|apply runs_ret].
Qed.

Lemma runs_while_step t t' l l1 l2 l3 r :
  runs (cond t) l l1 (Ok true) -> runs (body t) l1 l2 (Ok t') ->
  runs (while_tree cond body t') l2 l3 r ->
  runs (while_tree cond body t) l l3 r.
Proof.
  intros Hc Hb Hw. eapply runs_iter_step; [|done].
  eapply runs_bind; [done|]. eapply runs_bind; [done|apply runs_ret].
Qed.

Lemma runs_while_fault t l l1 l2 f :
  runs (cond t) l l1 (Ok true) -> runs (body t) l1 l2 (Fault f) ->
  runs (while_tree cond body t) l l2 (Fault f).
Proof.
  intros Hc Hb. apply runs_iter_exit. eapply runs_bind; [done|].
  eapply runs_bind; [done|apply runs_ret].
Qed.

End While.

(** ** From a loop with fuel to a loop of trees

    The state [s] of a [loop] is represented by a state [t] of the
    tree and a state [l] of the environment.  When the condition and
    the body of the tree run as those of the loop compute, a [loop]
    that ends with some fuel gives a run of the loop of trees. *)

Section Simulation.
Context {St T : Type}.
Variable Rep : St -> T -> L -> Prop.
Variable cond : St -> result bool.
Variable body : St -> result St.
Variable cond_t : T -> itree E (result bool).
Variable body_t : T -> itree E (result T).
Hypothesis cond_runs : forall s t l b,
  Rep s t l -> cond s = Ok b -> runs (cond_t t) l l (Ok b).
Hypothesis body_runs : forall s t l s',
  Rep s t l -> cond s = Ok true -> body s = Ok s' ->
  exists t' l', runs (body_t t) l l' (Ok t') /\ Rep s' t' l'.

Lemma runs_loop fuel : forall s t l s',
  Rep s t l -> loop cond body fuel s = Ok s' ->
  exists t' l', runs (while_tree cond_t body_t t) l l' (Ok t') /\ Rep s' t' l'.
Proof.
  induction fuel as [|fuel IH]; intros s t l s' Hrep Hloop;
    apply loop_Ok_inv in Hloop as [[Hc ->]|(fuel' & s1 & Hf & Hc & Hb & Hl)].
  - exists t, l. split; [|done]. by eapply runs_while_exit, cond_runs.
  - done.
  - exists t, l. split; [|done]. by eapply runs_while_exit, cond_runs.
  - injection Hf as <-.
    destruct (body_runs s t l s1 Hrep Hc Hb) as (t1 & l1 & Hb1 & Hrep1).
    destruct (IH s1 t1 l1 s' Hrep1 Hl) as (t' & l' & Hw & Hrep').
    exists t', l'. split; [|done].
    eapply runs_while_step; [by eapply cond_runs|done..].
Qed.

End Simulation.

(** ** Trees that do not end

    A tree diverges from a state when it has no run from it.  A
    sequence diverges when its first part does, or when the first part
    runs and the rest diverges; a loop diverges when every iteration
    from a state of an invariant runs, asks for another iteration and
    keeps the invariant. *)

Definition diverges {R} (t : itree E R) (l : L) : Prop :=
  forall l' (r : R), ~ runs t l l' r.

(** The value of a run is the only one that the tree can return. *)
Lemma runs_leaf {R} (t : itree E R) l l' (r : R) x :
  runs t l l' r -> Leaf x (interp_state h t l) -> x = (l', r).
Proof. unfold runs. intros Hr Hx. rewrite Hr in Hx. by apply Leaf_Ret_inv in Hx. Qed.

Lemma runs_bind_inv {A B} (t : itree E A) (k : A -> itree E B) l l2 b :
  runs (ITree.bind t k) l l2 b ->
  exists l1 a, runs t l l1 a /\ runs (k a) l1 l2 b.
Proof.
  unfold runs. rewrite interp_state_bind. intros Hb.
  apply eutt_inv_bind_ret in Hb as ([l1 a] & Ht & Hk). by exists l1, a.
Qed.

Lemma diverges_bind_l {A B} (t : itree E A) (k : A -> itree E B) l :
  diverges t l -> diverges (ITree.bind t k) l.
Proof. intros Hd l' r (l1 & a & Ht & _)%runs_bind_inv. by eapply Hd. Qed.

Lemma diverges_bind_r {A B} (t : itree E A) (k : A -> itree E B) l l1 a :
  runs t l l1 a -> diverges (k a) l1 -> diverges (ITree.bind t k) l.
Proof.
  intros Ht Hd l' r (l2 & a' & Ht' & Hk)%runs_bind_inv.
  destruct (runs_det _ _ _ _ _ _ Ht Ht') as [<- <-]. by eapply Hd.
Qed.

Lemma diverges_iter {I R} (body : I -> itree E (I + R))
    (RS : L -> Prop) (RI : I -> Prop) i l :
  (forall l i, RS l -> RI i ->
     exists l' i', runs (body i) l l' (inl i') /\ RS l' /\ RI i') ->
  RS l -> RI i -> diverges (ITree.iter body i) l.
Proof.
  intros Hbody Hl Hi l' r Hr.
  assert (Hleaf : Leaf (l', r) (interp_state h (ITree.iter body i) l))
    by (unfold runs in Hr; rewrite Hr; apply Leaf_Ret).
  apply (Leaf_interp_state_iter_inv h body RS RI (fun _ => False) l i) in Hleaf;
    [by destruct Hleaf| |done..].
  intros l0 i0 Hl0 Hi0 x Hx.
  destruct (Hbody l0 i0 Hl0 Hi0) as (l1 & i1 & Hb & ? & ?).
  rewrite (runs_leaf _ _ _ _ _ Hb Hx). by split.
Qed.

Lemma diverges_rbind_l {A B} (t : itree E (result A))
    (k : A -> itree E (result B)) l :
  diverges t l -> diverges (rbind t k) l.
Proof. apply diverges_bind_l. Qed.

Lemma diverges_rbind {A B} (t : itree E (result A))
    (k : A -> itree E (result B)) l l1 a :
  runs t l l1 (Ok a) -> diverges (k a) l1 -> diverges (rbind t k) l.
Proof. intros Ht Hk. by eapply diverges_bind_r. Qed.

Lemma diverges_while {T} (cond : T -> itree E (result bool))
    (body : T -> itree E (result T)) (RS : L -> Prop) (RT : T -> Prop) t l :
  (forall l t, RS l -> RT t ->
     exists l1 l2 t', runs (cond t) l l1 (Ok true) /\
       runs (body t) l1 l2 (Ok t') /\ RS l2 /\ RT t') ->
  RS l -> RT t -> diverges (while_tree cond body t) l.
Proof.
  intros Hstep. apply diverges_iter. intros l0 t0 Hl0 Ht0.
  destruct (Hstep l0 t0 Hl0 Ht0) as (l1 & l2 & t' & Hc & Hb & ? & ?).
  exists l2, t'. split; [|done].
  eapply runs_bind; [done|]. eapply runs_bind; [done|apply runs_ret].
Qed.

End Runs.
