(* ===== verification/Hoare.v ===== *)
(** * Hoare: what a tree ensures when it ends

    A logic of partial correctness for trees run against a handler:
    [wp t Q l] says that every value that the tree [t] can return from
    the state [l] of the environment satisfies [Q] with the state it
    returns in.  It says nothing of a run that does not end; [runs] and
    [diverges] of [Trees] say which runs end.  There is one rule per
    construct of the trees, the rule of a loop takes an invariant of
    the state of the loop and of the environment together, and the
    weakening of the postcondition is a [Proper] instance. *)

From Stdlib Require Import Morphisms.
From ITree Require Import ITree ITreeFacts Events.State Events.StateFacts.
From ITree Require Import Props.Leaf.
From S2P Require Import Prelude Trees.

Section Hoare.
Context {E : Type -> Type} {L : Type}.
Variable h : forall T, E T -> Monads.stateT L (itree void1) T.

(** Every value that [t] returns from [l] satisfies [Q]. *)
Definition wp {R} (t : itree E R) (Q : R -> L -> Prop) (l : L) : Prop :=
  forall x, Leaf x (interp_state h t l) -> Q (snd x) (fst x).

(** The triple of Hoare logic. *)
Definition ensures {R} (P : L -> Prop) (t : itree E R) (Q : R -> L -> Prop)
  : Prop :=
  forall l, P l -> wp t Q l.

(** A run that ends satisfies the postcondition. *)
Lemma wp_runs {R} (t : itree E R) Q l l' r :
  wp t Q l -> runs h t l l' r -> Q r l'.
Proof.
  intros Hwp Hr. apply (Hwp (l', r)). unfold runs in Hr. rewrite Hr.
  apply Leaf_Ret.
Qed.

(** A tree that diverges ensures everything. *)
Lemma wp_diverges {R} (t : itree E R) Q l :
  (forall x, ~ Leaf x (interp_state h t l)) -> wp t Q l.
Proof. intros Hd x Hx. by destruct (Hd x). Qed.

#[global] Instance wp_mono {R} (t : itree E R) :
  Proper (pointwise_relation R (pointwise_relation L impl) ==> eq ==> impl)
    (wp t).
Proof. intros Q Q' HQ l ? <- Hwp x Hx. by apply HQ, Hwp. Qed.

Lemma wp_weaken {R} (t : itree E R) (Q Q' : R -> L -> Prop) l :
  wp t Q l -> (forall r l', Q r l' -> Q' r l') -> wp t Q' l.
Proof. intros Hwp HQ x Hx. by apply HQ, Hwp. Qed.

Lemma wp_conj {R} (t : itree E R) (Q Q' : R -> L -> Prop) l :
  wp t Q l -> wp t Q' l -> wp t (fun r l' => Q r l' /\ Q' r l') l.
Proof. intros H1 H2 x Hx. split; [by apply H1|by apply H2]. Qed.

Lemma wp_ret {R} (r : R) (Q : R -> L -> Prop) l : Q r l -> wp (Ret r) Q l.
Proof.
  intros HQ x Hx. rewrite interp_state_ret in Hx.
  by apply Leaf_Ret_inv in Hx as ->.
Qed.

Lemma wp_bind {A B} (t : itree E A) (k : A -> itree E B) Q l :
  wp t (fun a l' => wp (k a) Q l') l -> wp (ITree.bind t k) Q l.
Proof.
  intros Ht x Hx. rewrite interp_state_bind in Hx.
  apply Leaf_bind_inv in Hx as (y & Hy & Hx). by apply (Ht y Hy).
Qed.

Lemma wp_trigger {A} (e : E A) (Q : A -> L -> Prop) l :
  (forall x, Leaf x (h _ e l) -> Q (snd x) (fst x)) -> wp (ITree.trigger e) Q l.
Proof. intros He x Hx. rewrite interp_state_trigger in Hx. by apply He. Qed.

(** The rule of a loop: an invariant [Inv] of the state of the loop
    and the state of the environment that every iteration keeps ensures,
    when the loop ends, what the last iteration ensures. *)
Lemma wp_iter {I R} (body : I -> itree E (I + R)) (Inv : I -> L -> Prop)
    (Q : R -> L -> Prop) i l :
  Inv i l ->
  (forall i l, Inv i l ->
     wp (body i)
        (fun r l' => match r with inl i' => Inv i' l' | inr r => Q r l' end) l) ->
  wp (ITree.iter body i) Q l.
Proof.
  intros Hi Hbody x Hx. rewrite eutt_eq_interp_state_iter in Hx.
  revert x Hx.
  apply (Leaf_iter_inv _ (l, i) (fun li => Inv (snd li) (fst li))
           (fun x => Q (snd x) (fst x))); [|done].
  intros [l0 i0] r Hinv Hr. cbn [fst snd] in *.
  apply Leaf_bind_inv in Hr as ([l1 r1] & Hb & Hr).
  apply Leaf_Ret_inv in Hr as ->. specialize (Hbody i0 l0 Hinv _ Hb).
  by destruct r1.
Qed.

(** ** Trees that return a result *)

Lemma wp_pure {A} (r : result A) (Q : result A -> L -> Prop) l :
  Q r l -> wp (pure r) Q l.
Proof. apply wp_ret. Qed.

Lemma wp_call_result {A} (e : E (result A)) (Q : result A -> L -> Prop) l :
  (forall x, Leaf x (h _ e l) -> Q (snd x) (fst x)) -> wp (call_result e) Q l.
Proof. apply wp_trigger. Qed.

Lemma wp_call {A} (e : E A) (Q : result A -> L -> Prop) l :
  (forall x, Leaf x (h _ e l) -> Q (Ok (snd x)) (fst x)) -> wp (call e) Q l.
Proof. intros He. apply wp_bind, wp_trigger. intros x Hx. by apply wp_ret, He. Qed.

(** A fault of the first tree is the result of the sequence. *)
Lemma wp_rbind {A B} (t : itree E (result A)) (k : A -> itree E (result B))
    (Q : result B -> L -> Prop) l :
  wp t (fun r l' =>
          match r with
          | Ok a => wp (k a) Q l'
          | Fault f => Q (Fault f) l'
          end) l ->
  wp (rbind t k) Q l.
Proof.
  intros Ht. apply wp_bind. eapply wp_weaken; [exact Ht|].
  intros [a|f] l' Hr; [done|by apply wp_ret].
Qed.

(** The rule of [while]: the condition, run from the invariant, ensures
    [B] when it holds and the postcondition when it does not; the body,
    run from [B], ensures the invariant.  A fault of either ends the
    loop and must satisfy the postcondition. *)
Lemma wp_while {T} (cond : T -> itree E (result bool))
    (body : T -> itree E (result T)) (Inv B : T -> L -> Prop)
    (Q : result T -> L -> Prop) t l :
  Inv t l ->
  (forall t l, Inv t l ->
     wp (cond t)
        (fun c l' =>
           match c with
           | Ok true => B t l'
           | Ok false => Q (Ok t) l'
           | Fault f => Q (Fault f) l'
           end) l) ->
  (forall t l, B t l ->
     wp (body t)
        (fun r l' =>
           match r with Ok t' => Inv t' l' | Fault f => Q (Fault f) l' end) l) ->
  wp (while_tree cond body t) Q l.
Proof.
  intros Hinv Hcond Hbody. apply (wp_iter _ Inv); [done|].
  intros t0 l0 H0. apply wp_bind. eapply wp_weaken; [by apply Hcond|].
  intros [[|]|f] l1 Hc; [|by apply wp_ret..].
  apply wp_bind. eapply wp_weaken; [by apply Hbody|].
  intros [t1|f] l2 Hb; by apply wp_ret.
Qed.

(** The rules of the triple. *)
Lemma ensures_consequence {R} (P P' : L -> Prop) (t : itree E R)
    (Q Q' : R -> L -> Prop) :
  ensures P t Q -> (forall l, P' l -> P l) -> (forall r l, Q r l -> Q' r l) ->
  ensures P' t Q'.
Proof. intros Ht HP HQ l Hl. eapply wp_weaken; [by apply Ht, HP|done]. Qed.

Lemma ensures_bind {A B} (P : L -> Prop) (t : itree E A) (S : A -> L -> Prop)
    (k : A -> itree E B) (Q : B -> L -> Prop) :
  ensures P t S -> (forall a, ensures (S a) (k a) Q) ->
  ensures P (ITree.bind t k) Q.
Proof.
  intros Ht Hk l Hl. apply wp_bind. eapply wp_weaken; [by apply Ht|].
  intros a l' Ha. by apply Hk.
Qed.

Lemma ensures_runs {R} (P : L -> Prop) (t : itree E R) Q l l' r :
  ensures P t Q -> P l -> runs h t l l' r -> Q r l'.
Proof. intros Ht Hl. by apply wp_runs, Ht. Qed.

End Hoare.

(** The use of a lemma on a tree whose postcondition is weaker than
    the one at hand: the state and the value after the tree are
    introduced next. *)
Tactic Notation "wp_apply" uconstr(lemma) :=
  eapply wp_weaken; [by apply lemma|].

(** A computation without calls whose result is known. *)
Ltac wp_pure_step := apply wp_rbind, wp_pure.
