(* ===== verification/Exec.v ===== *)
(** * Exec: the runs of a tree as derivations, with their calls

    When the environment answers each call by a function of its state
    ([stepper]), a run of a tree is a finite derivation: the predicate
    [exec] follows the tree node by node and collects the calls with
    their answers, in the order in which they are made.  [exec] and
    [runs] are equivalent, so the theorems on runs give derivations, and
    induction on a derivation gives what [runs] does not: an invariant
    of the answers holds after every run of every tree, two
    environments that answer alike run every tree alike, and the run
    against the environment that records the calls ([recorder]) returns
    the calls of the derivation.  A run that does not end has no
    derivation: [reach] gives the calls that a run has made so far,
    whether it ends or not, and two environments that answer alike for
    as many calls as the run has made reach the same calls.  A record
    can be read without the tree: [answered] says that its answers are
    those of the environment from a state on. *)

From ITree Require Import ITree ITreeFacts Events.State Events.StateFacts.
From ITree Require Import Props.Leaf.
From S2P Require Import Prelude Trees Hoare.

(** An entry of the record of a run: a call with its answer. *)
Record entry (E : Type -> Type) : Type := Entry {
  entry_type : Type;
  entry_call : E entry_type;
  entry_answer : entry_type;
}.

Arguments Entry {E} _ _ _.
Arguments entry_type {E} _.
Arguments entry_call {E} _.
Arguments entry_answer {E} _.

Section Exec.
Context {E : Type -> Type} {L : Type}.
Variable step : forall T, E T -> L -> L * T.
Implicit Types (l : L) (tr : list (entry E)).

(** The handler that answers by [step]. *)
Definition stepper : forall T, E T -> Monads.stateT L (itree void1) T :=
  fun T e l => Ret (step T e l).

(** [exec t l tr l' r]: the tree [t], from the state [l], makes the
    calls [tr] and returns [r] in the state [l']. *)
Inductive exec {R} : itree E R -> L -> list (entry E) -> L -> R -> Prop :=
| exec_ret t l r :
    observe t = RetF r -> exec t l [] l r
| exec_tau t t' l tr l' r :
    observe t = TauF t' -> exec t' l tr l' r -> exec t l tr l' r
| exec_vis {X} (e : E X) k t l tr l' r :
    observe t = VisF e k ->
    exec (k (snd (step X e l))) (fst (step X e l)) tr l' r ->
    exec t l (Entry X e (snd (step X e l)) :: tr) l' r.

(** A derivation depends on the tree through its observation. *)
Lemma exec_observe {R} (t t' : itree E R) l tr l' r :
  observe t = observe t' -> exec t l tr l' r -> exec t' l tr l' r.
Proof.
  intros Ho Ht. destruct Ht; rewrite Ho in *;
    [by apply exec_ret|by eapply exec_tau|by eapply exec_vis].
Qed.

(** ** Derivations and runs *)

Lemma exec_runs {R} (t : itree E R) l tr l' r :
  exec t l tr l' r -> runs stepper t l l' r.
Proof.
  induction 1 as [t l r Ho|t t' l tr l' r Ho _ IH|X e k t l tr l' r Ho _ IH];
    unfold runs in *; rewrite (itree_eta t), Ho.
  - by rewrite interp_state_ret.
  - by rewrite interp_state_tau, tau_eutt.
  - rewrite interp_state_vis. unfold stepper at 1.
    by rewrite bind_ret_l, tau_eutt.
Qed.

(** A value that the interpretation returns is the value of a
    derivation: by induction on the path to the value, which follows
    the nodes of the tree. *)
Lemma leaf_exec {R} (u : itree void1 (L * R)) x :
  Leaf x u ->
  forall (t : itree E R) l, u ≅ interp_state stepper t l ->
  exists tr, exec t l tr (fst x) (snd x).
Proof.
  induction 1 as [u Ho|u u' Ho _ IH|X e u k a Ho _ _]; intros t l Hu;
    [| |destruct e]; rewrite unfold_interp_state in Hu;
    destruct (observe t) as [r|t'|X e k] eqn:Hot; cbn in Hu;
    try (unfold stepper in Hu; rewrite bind_ret_l in Hu).
  - apply eqitree_inv_Ret_r in Hu. rewrite Ho in Hu. injection Hu as ->.
    exists []. by apply exec_ret.
  - apply eqitree_inv_Tau_r in Hu as (? & ? & _). congruence.
  - apply eqitree_inv_Tau_r in Hu as (? & ? & _). congruence.
  - apply eqitree_inv_Ret_r in Hu. congruence.
  - apply eqitree_inv_Tau_r in Hu as (u0 & Ho' & Hu).
    rewrite Ho in Ho'. injection Ho' as <-.
    destruct (IH _ _ Hu) as [tr Ht]. exists tr. by eapply exec_tau.
  - apply eqitree_inv_Tau_r in Hu as (u0 & Ho' & Hu).
    rewrite Ho in Ho'. injection Ho' as <-.
    destruct (IH _ _ Hu) as [tr Ht]. eexists. by eapply exec_vis.
Qed.

Lemma runs_exec {R} (t : itree E R) l l' r :
  runs stepper t l l' r -> exists tr, exec t l tr l' r.
Proof.
  intros Hr. apply (leaf_exec (interp_state stepper t l) (l', r)); [|reflexivity].
  unfold runs in Hr. rewrite Hr. apply Leaf_Ret.
Qed.

(** ** Induction on derivations *)

(** A property of the state that every answer keeps holds after every
    run of every tree. *)
Lemma exec_invariant {R} (Inv : L -> Prop) (t : itree E R) l tr l' r :
  (forall T (e : E T) l, Inv l -> Inv (fst (step T e l))) ->
  exec t l tr l' r -> Inv l -> Inv l'.
Proof. intros Hstep. induction 1; auto. Qed.

(** A relation between two states that is kept by every answer, from
    whichever of the two the call is made, holds between the first and
    the last state of a run. *)
Lemma exec_trans {R} (Rel : L -> L -> Prop) `{!PreOrder Rel}
    (t : itree E R) l tr l' r :
  (forall T (e : E T) l, Rel l (fst (step T e l))) ->
  exec t l tr l' r -> Rel l l'.
Proof.
  intros Hstep. induction 1 as [| |X e k t l tr l' r _ _ IH]; [done..|].
  etrans; [apply Hstep|exact IH].
Qed.

(** ** Records and answers *)

(** The answers of the record [tr] are those that [step] gives from
    the state [l], call by call, and [l'] is the state after them. *)
Fixpoint answered l tr l' : Prop :=
  match tr with
  | [] => l' = l
  | c :: tr =>
      entry_answer c = snd (step _ (entry_call c) l) /\
      answered (fst (step _ (entry_call c) l)) tr l'
  end.

(** The record of a derivation holds the answers of [step]. *)
Lemma exec_answered {R} (t : itree E R) l tr l' r :
  exec t l tr l' r -> answered l tr l'.
Proof. induction 1; by cbn. Qed.

Lemma answered_cons {T} (e : E T) (a : T) l tr l' :
  answered l (Entry T e a :: tr) l' <->
  a = snd (step T e l) /\ answered (fst (step T e l)) tr l'.
Proof. reflexivity. Qed.

Lemma answered_app l tr1 tr2 l' :
  answered l (tr1 ++ tr2) l' <->
  exists l1, answered l tr1 l1 /\ answered l1 tr2 l'.
Proof.
  revert l. induction tr1 as [|c tr1 IH]; intros l; cbn.
  - split; [by exists l|by intros (l1 & -> & ?)].
  - rewrite IH. split; [intros (? & l1 & ? & ?)|intros (l1 & (? & ?) & ?)]; eauto.
Qed.

(** The state after a record is the only one. *)
Lemma answered_det l tr l1 l2 : answered l tr l1 -> answered l tr l2 -> l1 = l2.
Proof.
  revert l. induction tr as [|c tr IH]; intros l; cbn; [congruence|].
  intros [_ H1] [_ H2]. by eapply IH.
Qed.

(** A property of the state that the calls of a record keep holds
    after the record. *)
Lemma answered_kept (P : L -> Prop) l tr l' :
  Forall (fun c => forall l, P l -> P (fst (step _ (entry_call c) l))) tr ->
  answered l tr l' -> P l -> P l'.
Proof.
  intros Htr. revert l. induction Htr as [|c tr Hc _ IH]; intros l; cbn;
    [by intros ->|].
  intros [_ Ha] Hl. by eapply IH, Hc.
Qed.

(** What a call ensures against [stepper]: the postcondition holds of
    the answer and of the next state. *)
Lemma wp_step {A} (e : E A) (Q : A -> L -> Prop) l :
  Q (snd (step A e l)) (fst (step A e l)) -> wp stepper (ITree.trigger e) Q l.
Proof.
  intros HQ. apply wp_trigger. intros x Hx. unfold stepper in Hx.
  by apply Leaf_Ret_inv in Hx as ->.
Qed.

Lemma wp_step_call {A} (e : E A) (Q : result A -> L -> Prop) l :
  Q (Ok (snd (step A e l))) (fst (step A e l)) -> wp stepper (call e) Q l.
Proof. intros HQ. apply wp_bind, wp_step. by apply wp_ret. Qed.

Lemma wp_step_call_result {A} (e : E (result A)) (Q : result A -> L -> Prop) l :
  Q (snd (step _ e l)) (fst (step _ e l)) -> wp stepper (call_result e) Q l.
Proof. apply wp_step. Qed.

(** The sequence of two derivations makes the calls of the first and
    then those of the second. *)
Lemma exec_bind {A B} (t : itree E A) (k : A -> itree E B) l tr1 l1 a tr2 l2 b :
  exec t l tr1 l1 a -> exec (k a) l1 tr2 l2 b ->
  exec (ITree.bind t k) l (tr1 ++ tr2) l2 b.
Proof.
  intros Ht Hk.
  induction Ht as [t l a Ho|t t' l tr l' a Ho _ IH|X e k' t l tr l' a Ho _ IH].
  - eapply exec_observe; [|exact Hk]. by rewrite observe_bind, Ho.
  - eapply exec_tau; [|by apply IH]. by rewrite observe_bind, Ho.
  - eapply (exec_vis e (fun x => ITree.bind (k' x) k)); [|by apply IH].
    by rewrite observe_bind, Ho.
Qed.

(** ** Runs so far

    [reach t l tr l']: the tree [t], from the state [l], has made the
    calls [tr] and reached the state [l'], whether it goes on to
    return or not. *)
Inductive reach {R} : itree E R -> L -> list (entry E) -> L -> Prop :=
| reach_here t l : reach t l [] l
| reach_tau t t' l tr l' :
    observe t = TauF t' -> reach t' l tr l' -> reach t l tr l'
| reach_vis {X} (e : E X) k t l tr l' :
    observe t = VisF e k ->
    reach (k (snd (step X e l))) (fst (step X e l)) tr l' ->
    reach t l (Entry X e (snd (step X e l)) :: tr) l'.

Lemma reach_observe {R} (t t' : itree E R) l tr l' :
  observe t = observe t' -> reach t l tr l' -> reach t' l tr l'.
Proof.
  intros Ho Ht. destruct Ht; [apply reach_here|rewrite Ho in *..];
    [by eapply reach_tau|by eapply reach_vis].
Qed.

(** A run that ends has made its calls. *)
Lemma exec_reach {R} (t : itree E R) l tr l' r :
  exec t l tr l' r -> reach t l tr l'.
Proof.
  induction 1; [apply reach_here|by eapply reach_tau|by eapply reach_vis].
Qed.

(** The calls made so far are the first calls of the run, when the
    run ends. *)
Lemma reach_exec_prefix {R} (t : itree E R) l tr l1 :
  reach t l tr l1 ->
  forall tr' l2 r, exec t l tr' l2 r -> tr `prefix_of` tr'.
Proof.
  induction 1 as [|t t' l tr l1 Ho _ IH|X e k t l tr l1 Ho _ IH];
    intros tr' l2 r Ht; [apply prefix_nil|..];
    destruct Ht as [t l r Ho'|t t0 l tr' l2 r Ho' Ht|X' e' k' t l tr' l2 r Ho' Ht];
    rewrite Ho in Ho'; try discriminate.
  - injection Ho' as <-. by eapply IH.
  - apply eq_inv_VisF_weak in Ho' as (<- & <- & <-). by eapply prefix_cons, IH.
Qed.

(** What a sequence has made after a run of its first part. *)
Lemma reach_bind {A B} (t : itree E A) (k : A -> itree E B) l tr1 l1 a tr2 l2 :
  exec t l tr1 l1 a -> reach (k a) l1 tr2 l2 ->
  reach (ITree.bind t k) l (tr1 ++ tr2) l2.
Proof.
  intros Ht Hk.
  induction Ht as [t l a Ho|t t' l tr l' a Ho _ IH|X e k' t l tr l' a Ho _ IH].
  - eapply reach_observe; [|exact Hk]. by rewrite observe_bind, Ho.
  - eapply reach_tau; [|by apply IH]. by rewrite observe_bind, Ho.
  - eapply (reach_vis e (fun x => ITree.bind (k' x) k)); [|by apply IH].
    by rewrite observe_bind, Ho.
Qed.

(** The derivations of the trees that return a result. *)
Lemma exec_pure {A} (r : result A) l : exec (pure r) l [] l r.
Proof. by apply exec_ret. Qed.

Lemma exec_call {A} (e : E A) l :
  exec (call e) l [Entry A e (snd (step A e l))] (fst (step A e l))
    (Ok (snd (step A e l))).
Proof.
  apply (exec_vis e (fun a => ITree.bind (Ret a) (fun a => Ret (Ok a))));
    [done|]. by apply exec_ret.
Qed.

Lemma reach_rbind {A B} (t : itree E (result A)) (k : A -> itree E (result B))
    l tr1 l1 a tr2 l2 :
  exec t l tr1 l1 (Ok a) -> reach (k a) l1 tr2 l2 ->
  reach (rbind t k) l (tr1 ++ tr2) l2.
Proof. intros Ht Hk. by eapply reach_bind. Qed.

End Exec.

Arguments exec {E L} step {R} t l tr l' r.
Arguments reach {E L} step {R} t l tr l'.
Arguments answered {E L} step l tr l'.

(** ** Two environments *)

Section Simulation.
Context {E : Type -> Type} {L1 L2 : Type}.
Variable step1 : forall T, E T -> L1 -> L1 * T.
Variable step2 : forall T, E T -> L2 -> L2 * T.
Variable Rel : L1 -> L2 -> Prop.
Hypothesis steps_alike : forall T (e : E T) l1 l2,
  Rel l1 l2 ->
  snd (step1 T e l1) = snd (step2 T e l2) /\
  Rel (fst (step1 T e l1)) (fst (step2 T e l2)).

(** Two environments that give the same answers from related states
    run a tree alike: with the same calls, to the same value and to
    related states. *)
Lemma exec_simulation {R} (t : itree E R) l1 tr l1' r :
  exec step1 t l1 tr l1' r ->
  forall l2, Rel l1 l2 -> exists l2', exec step2 t l2 tr l2' r /\ Rel l1' l2'.
Proof.
  induction 1 as [t l r Ho|t t' l tr l' r Ho _ IH|X e k t l tr l' r Ho _ IH];
    intros l2 Hrel.
  - exists l2. split; [by apply exec_ret|done].
  - destruct (IH l2 Hrel) as (l2' & Ht & Hrel'). exists l2'.
    split; [by eapply exec_tau|done].
  - destruct (steps_alike X e l l2 Hrel) as [Hans Hnext].
    destruct (IH _ Hnext) as (l2' & Ht & Hrel'). exists l2'. split; [|done].
    rewrite Hans in *. by eapply exec_vis.
Qed.

End Simulation.

(** Two environments that answer alike for a number of calls: [Within
    k] relates two states from which the next [k] calls have the same
    answers.  What a tree reaches against the first within that number
    of calls, it reaches against the second, with the same calls. *)
Section Within.
Context {E : Type -> Type} {L1 L2 : Type}.
Variable step1 : forall T, E T -> L1 -> L1 * T.
Variable step2 : forall T, E T -> L2 -> L2 * T.
Variable Within : nat -> L1 -> L2 -> Prop.
Hypothesis steps_alike : forall k T (e : E T) l1 l2,
  Within (S k) l1 l2 ->
  snd (step1 T e l1) = snd (step2 T e l2) /\
  Within k (fst (step1 T e l1)) (fst (step2 T e l2)).

Lemma reach_simulation {R} (t : itree E R) l1 tr l1' :
  reach step1 t l1 tr l1' ->
  forall l2, Within (length tr) l1 l2 -> exists l2', reach step2 t l2 tr l2'.
Proof.
  induction 1 as [t l|t t' l tr l' Ho _ IH|X e k t l tr l' Ho _ IH];
    intros l2 Hw.
  - exists l2. apply reach_here.
  - destruct (IH l2 Hw) as [l2' Ht]. exists l2'. by eapply reach_tau.
  - destruct (steps_alike _ X e l l2 Hw) as [Hans Hnext].
    destruct (IH _ Hnext) as [l2' Ht]. exists l2'.
    rewrite Hans in *. by eapply reach_vis.
Qed.

End Within.

(** ** The environment that records the calls *)

Section Recorder.
Context {E : Type -> Type} {L : Type}.
Variable step : forall T, E T -> L -> L * T.
Implicit Types (l : L) (log tr : list (entry E)).

(** The state with the calls made so far, the last one last. *)
Definition record_step T (e : E T) (s : L * list (entry E))
  : L * list (entry E) * T :=
  (fst (step T e (fst s)), snd s ++ [Entry T e (snd (step T e (fst s)))],
   snd (step T e (fst s))).

Definition recorder := stepper record_step.

(** A call against the recorder: the next state of [step], with the
    call and its answer at the end of the record. *)
Lemma wp_record_call {A} (e : E A) (Q : result A -> L * list (entry E) -> Prop)
    l log :
  Q (Ok (snd (step A e l))) (fst (step A e l), log ++ [Entry A e (snd (step A e l))]) ->
  wp recorder (call e) Q (l, log).
Proof. exact (wp_step_call record_step e Q (l, log)). Qed.

Lemma wp_record_call_result {A} (e : E (result A))
    (Q : result A -> L * list (entry E) -> Prop) l log :
  Q (snd (step _ e l)) (fst (step _ e l), log ++ [Entry _ e (snd (step _ e l))]) ->
  wp recorder (call_result e) Q (l, log).
Proof. exact (wp_step_call_result record_step e Q (l, log)). Qed.

(** The recorder adds the calls of the derivation to its record. *)
Lemma exec_record {R} (t : itree E R) l tr l' r :
  exec step t l tr l' r ->
  forall log, exec record_step t (l, log) tr (l', log ++ tr) r.
Proof.
  induction 1 as [t l r Ho|t t' l tr l' r Ho _ IH|X e k t l tr l' r Ho _ IH];
    intros log.
  - rewrite app_nil_r. by apply exec_ret.
  - by eapply exec_tau.
  - rewrite cons_middle, app_assoc. by eapply (exec_vis record_step e k), IH.
Qed.

(** A run of a tree makes one sequence of calls. *)
Lemma exec_det {R} (t : itree E R) l tr1 l1 r1 tr2 l2 r2 :
  exec step t l tr1 l1 r1 -> exec step t l tr2 l2 r2 ->
  tr1 = tr2 /\ l1 = l2 /\ r1 = r2.
Proof.
  intros H1 H2.
  pose proof (exec_runs _ _ _ _ _ _ (exec_record _ _ _ _ _ H1 [])) as R1.
  pose proof (exec_runs _ _ _ _ _ _ (exec_record _ _ _ _ _ H2 [])) as R2.
  by destruct (runs_det _ _ _ _ _ _ _ R1 R2) as [[= -> ->] ->].
Qed.

(** What the tree ensures against the recorder holds of the calls of
    each of its derivations. *)
Lemma wp_exec {R} (t : itree E R) (Q : R -> L * list (entry E) -> Prop) l tr l' r :
  wp recorder t Q (l, []) -> exec step t l tr l' r -> Q r (l', tr).
Proof.
  intros Hwp Ht.
  exact (wp_runs _ _ _ _ _ _ Hwp (exec_runs _ _ _ _ _ _ (exec_record _ _ _ _ _ Ht []))).
Qed.

(** The sequence of two trees makes the calls of a run of the first
    and then those of a run of the second. *)
Lemma exec_bind_inv {A B} (t : itree E A) (k : A -> itree E B) l tr l2 b :
  exec step (ITree.bind t k) l tr l2 b ->
  exists tr1 l1 a tr2,
    exec step t l tr1 l1 a /\ exec step (k a) l1 tr2 l2 b /\ tr = tr1 ++ tr2.
Proof.
  intros Hb. pose proof (exec_runs _ _ _ _ _ _ Hb) as Hr.
  apply runs_bind_inv in Hr as (l1 & a & [tr1 Ht]%runs_exec & [tr2 Hk]%runs_exec).
  exists tr1, l1, a, tr2. split_and!; [done..|].
  by destruct (exec_det _ _ _ _ _ _ _ _ Hb (exec_bind _ _ _ _ _ _ _ _ _ _ Ht Hk)).
Qed.

End Recorder.

(** A call against the recorder, followed by the rest of the tree. *)
Ltac wp_call := apply wp_rbind, wp_record_call.
