(* ===== verification/Main.v ===== *)
(** * Main: the bootstrap [main] of src/main.c

    The command line, the answers of the display collaborator, the
    calls that [main] makes to it and the text it writes as a list of
    events, and [main] itself: the checks of the arguments, the set-up
    of the window and the image with its three failure paths, the
    first frame, the event loop and the exit status.  The theorems say
    which arguments are accepted, what a run does on each of its paths
    and what it writes to standard output. *)

From Stdlib Require Import Floats String.
From stdpp Require Import relations.
From S2P Require Import Prelude MachInt Scalar Complex Escape Color.
From S2P Require Import CString Atoi Output Image Render Hook.

Definition EXIT_SUCCESS : Z := 0.
Definition EXIT_FAILURE : Z := 1.

(** ** Events *)

(** What [main] does to the outside: the bytes that a call of
    [printf] or [puts] writes, or a call to the collaborator with its
    arguments. *)
Inductive event : Set :=
| Stdout (text : cstring)
| MlxInit (width height : Z) (title : cstring) (resize : bool)
| MlxNewImage (width height : Z)
| MlxImageToWindow (x y : Z)
| MlxCloseWindow
| MlxLoopHook
| MlxLoop
| MlxTerminate.

#[export] Instance event_eq_dec : EqDecision event.
Proof. solve_decision. Defined.

(** What the collaborator answers: whether each step of the set-up
    succeeds, the description [mlx_strerror(mlx_errno)] of its error,
    and the keys of each tick of the event loop. *)
Record collaborator : Type := mkCollaborator {
  init_ok : bool;
  new_image_ok : bool;
  to_window_ok : bool;
  error_text : cstring;
  ticks : list keys;
}.

(** The title of the window. *)
Definition title : cstring := cstring_of "Fractol".

(** The bytes that a run writes to standard output. *)
Definition stdout (es : list event) : cstring :=
  es ≫= (fun e => match e with Stdout text => text | _ => [] end).

(** A run of [main]: the exit status, the events in their order, and
    the world the event loop ended in when it was reached. *)
Record run (F : Type) : Type := mkRun {
  exit_status : Z;
  events : list event;
  final : option (world F);
}.

Arguments mkRun {F} _ _ _.
Arguments exit_status {F} r.
Arguments events {F} r.
Arguments final {F} r.

(** ** [main] *)

Section Main.
Context {F : Type} `{Scalar F}.

(** [!ft_strncmp(argv[1], name, ft_strlen(argv[1]))] *)
Definition name_matches (arg : cstring) (name : string) : result bool :=
  n <- ft_strlen arg ;;
  r <- ft_strncmp arg (cstring_of name) n ;;
  Ok (r =? 0).

(** The chain of tests on [argv[1]]: the fractal type, if any. *)
Definition parse_fractal_type (arg : cstring) : result (option Z) :=
  m <- name_matches arg "mandelbrot" ;;
  if m then Ok (Some 0)
  else
    j <- name_matches arg "julia" ;;
    if j then Ok (Some 1)
    else
      b <- name_matches arg "burning_ship" ;;
      if b then Ok (Some 2) else Ok None.

(** The set-up of the window and the image, the first frame and the
    event loop, once the arguments are accepted. *)
Definition start (fractal_type max_iter : Z) (c : collaborator)
  : result (run F) :=
  if negb (init_ok c) then
    Ok (mkRun EXIT_FAILURE
          [MlxInit WIDTH HEIGHT title false; Stdout (puts (error_text c))] None)
  else if negb (new_image_ok c) then
    Ok (mkRun EXIT_FAILURE
          [MlxInit WIDTH HEIGHT title false; MlxNewImage WIDTH HEIGHT;
           MlxCloseWindow; Stdout (puts (error_text c))] None)
  else if negb (to_window_ok c) then
    Ok (mkRun EXIT_FAILURE
          [MlxInit WIDTH HEIGHT title false; MlxNewImage WIDTH HEIGHT;
           MlxImageToWindow 0 0; MlxCloseWindow; Stdout (puts (error_text c))]
          None)
  else
    g <- ft_fractal
           {| g_fractal_type := fractal_type; g_max_iter := max_iter;
              zoom := lit 1 1; image := mlx_new_image WIDTH HEIGHT |} ;;
    w <- mlx_loop (ticks c)
           {| w_globals := g; w_closed := false; w_frames := 1 |} ;;
    Ok (mkRun EXIT_SUCCESS
          [MlxInit WIDTH HEIGHT title false; MlxNewImage WIDTH HEIGHT;
           MlxImageToWindow 0 0; MlxLoopHook; MlxLoop; MlxTerminate] (Some w)).

(** [main(argc, argv)]: [argc] is the length of [argv], and [argv[0]]
    is a null pointer when it is zero. *)
Definition main (argv : list cstring) (c : collaborator) : result (run F) :=
  if Z.of_nat (length argv) <? 3 then
    usage <- printf usage_format [argv !! 0%nat] ;;
    types <- printf types_message [] ;;
    Ok (mkRun EXIT_FAILURE [Stdout usage; Stdout types] None)
  else
    t <- parse_fractal_type (nth 1 argv []) ;;
    match t with
    | None =>
        text <- printf invalid_type_message [] ;;
        Ok (mkRun EXIT_FAILURE [Stdout text] None)
    | Some fractal_type =>
        let max_iter := ft_atoi (nth 2 argv []) in
        if max_iter <=? 0 then
          text <- printf max_iter_message [] ;;
          Ok (mkRun EXIT_FAILURE [Stdout text] None)
        else start fractal_type max_iter c
    end.

End Main.

(** ** The arguments *)

Section Arguments.
Implicit Types (arg : cstring) (name : string).

(** An argument as the system passes it: bytes without NUL, of a
    length that an [int] holds. *)
Record valid_arg arg : Prop := {
  va_bytes : is_bytes arg;
  va_no_nul : no_nul arg;
  va_length : Z.of_nat (length arg) <= INT_MAX;
}.

Lemma name_matches_prefix arg name :
  valid_arg arg ->
  name_matches arg name = Ok (bool_decide (arg `prefix_of` cstring_of name)).
Proof.
  intros [Hb Hnn Hlen]. unfold name_matches.
  rewrite ft_strlen_length by done. simpl.
  rewrite ft_strncmp_run, Nat2Z.id
    by (done || apply cstring_of_is_bytes || int_range). simpl. f_equal.
  destruct (Z.eqb_spec (strncmp_spec arg (cstring_of name) (length arg)) 0) as [Hz|Hz];
    rewrite strncmp_spec_prefix in Hz by done; symmetry;
    [by apply bool_decide_eq_true_2|by apply bool_decide_eq_false_2].
Qed.

(** C7: among well-formed arguments, [argv[1]] selects the Mandelbrot
    set exactly when it is a prefix of "mandelbrot" (the empty string
    and "m" included), else the Julia set when it is a prefix of
    "julia", else the Burning Ship when it is a prefix of
    "burning_ship", and is refused otherwise. *)
Theorem parse_fractal_type_prefix arg :
  valid_arg arg ->
  parse_fractal_type arg =
    Ok (if bool_decide (arg `prefix_of` cstring_of "mandelbrot") then Some 0
        else if bool_decide (arg `prefix_of` cstring_of "julia") then Some 1
        else if bool_decide (arg `prefix_of` cstring_of "burning_ship") then Some 2
        else None).
Proof.
  intros Hv. unfold parse_fractal_type. rewrite !name_matches_prefix by done.
  simpl. by repeat case_bool_decide.
Qed.

(** The program accepts the empty string and abbreviations as
    fractal names, and refuses a name with a letter too many. *)
Theorem parse_accepts_prefixes :
  parse_fractal_type (cstring_of "") = Ok (Some 0) /\
  parse_fractal_type (cstring_of "m") = Ok (Some 0) /\
  parse_fractal_type (cstring_of "jul") = Ok (Some 1) /\
  parse_fractal_type (cstring_of "b") = Ok (Some 2) /\
  parse_fractal_type (cstring_of "mandelbrot") = Ok (Some 0) /\
  parse_fractal_type (cstring_of "mandelbrotx") = Ok None /\
  parse_fractal_type (cstring_of "foo") = Ok None.
Proof. by vm_compute. Qed.

Lemma parse_fractal_type_range arg t :
  valid_arg arg -> parse_fractal_type arg = Ok (Some t) -> 0 <= t <= 2.
Proof.
  intros Hv. unfold parse_fractal_type. rewrite !name_matches_prefix by done.
  simpl. repeat case_bool_decide; intros [= <-]; lia.
Qed.

Lemma parse_fractal_type_total arg :
  valid_arg arg -> exists t, parse_fractal_type arg = Ok t.
Proof.
  intros Hv. unfold parse_fractal_type. rewrite !name_matches_prefix by done.
  simpl. repeat case_bool_decide; by eexists.
Qed.

(** The decimal numeral of a number is a well-formed argument. *)
Lemma decimal_valid_arg n : 0 <= n <= INT_MAX -> valid_arg (decimal n).
Proof.
  intros Hn. pose proof (decimal_digits n (proj1 Hn)) as Hd.
  pose proof (decimal_length n (proj1 Hn)) as Hl. split.
  - eapply Forall_impl; [done|]. unfold is_digit, in_byte. simpl. lia.
  - eapply Forall_impl; [done|]. unfold is_digit. simpl. lia.
  - unfold INT_MAX in *. lia.
Qed.

End Arguments.

(** ** The runs of [main] *)

Section Runs.
Context {F : Type} `{Scalar F}.
Implicit Types (c : collaborator) (r : run F) (w : world F).

Definition is_print (e : event) : bool :=
  match e with
  | Stdout _ => true
  | _ => false
  end.

(** The collaborator sets the window and the image up. *)
Definition setup_ok c : bool := init_ok c && new_image_ok c && to_window_ok c.

(** The events of a run that reaches the event loop and leaves it. *)
Definition success_events : list event :=
  [MlxInit WIDTH HEIGHT title false; MlxNewImage WIDTH HEIGHT;
   MlxImageToWindow 0 0; MlxLoopHook; MlxLoop; MlxTerminate].

(** What holds of the world in which a successful run ends. *)
Record final_ok (t m : Z) w : Prop := {
  fo_world : world_ok w;
  fo_frame : frame_current w;
  fo_type : g_fractal_type (w_globals w) = t;
  fo_max_iter : g_max_iter (w_globals w) = m;
  fo_frames : (1 <= w_frames w)%nat;
}.

(** The run once the arguments are accepted. *)
Lemma start_run t m c :
  0 <= t <= 2 -> 0 < m <= INT_MAX ->
  exists r, start t m c = Ok r /\
    if setup_ok c then
      exit_status r = EXIT_SUCCESS /\ events r = success_events /\
      exists w, final r = Some w /\ final_ok t m w
    else
      exit_status r = EXIT_FAILURE /\ final r = None /\
      (MlxTerminate ∉ events r) /\
      last (events r) = Some (Stdout (puts (error_text c))).
Proof.
  intros Ht Hm. unfold start, setup_ok.
  destruct (init_ok c), (new_image_ok c), (to_window_ok c); simpl;
    try (eexists; split; [done|]; split_and!; [done..| |done];
         by apply (bool_decide_unpack _)).
  destruct (first_world (F := F) t m Ht Hm) as (g & Hg & Hok & Hcur & Hgt & Hgm & _).
  change (ft_fractal _) with (ft_fractal (F := F) (initial_globals t m)).
  rewrite Hg. simpl.
  destruct (mlx_loop_inv (ticks c) _ _ (loop_inv_refl _ Hok Hcur))
    as (w & -> & ? & ? & [? ?] & ?). simpl in *.
  eexists. split; [done|]. split_and!; [done..|]. exists w.
  split; [done|]. split; (done || congruence).
Qed.

(** C21: a run with fewer than two arguments, with a fractal name that
    is refused or with a cap that is not positive exits with failure,
    prints and does nothing else: no call reaches the collaborator and
    no frame is rendered. *)
Theorem main_rejects argv c r :
  main argv c = Ok r ->
  (length argv < 3)%nat \/ parse_fractal_type (nth 1 argv []) = Ok None \/
    ft_atoi (nth 2 argv []) <= 0 ->
  exit_status r = EXIT_FAILURE /\ final r = None /\
  forallb is_print (events r) = true.
Proof.
  unfold main. intros Hmain Hbad.
  destruct (Z.ltb_spec (Z.of_nat (length argv)) 3).
  { destruct (printf usage_format _); [|done]. by injection Hmain as <-. }
  destruct Hbad as [?|[Hp|Ha]]; [lia|rewrite Hp in Hmain; by injection Hmain as <-|].
  destruct (parse_fractal_type _) as [[t|]|]; simpl in Hmain;
    [|by injection Hmain as <-|done].
  rewrite (proj2 (Z.leb_le _ _) Ha) in Hmain. by injection Hmain as <-.
Qed.

(** The world in which a run ends: it has rendered the first frame
    and those of the ticks up to the first with escape down, and the
    window was asked to close exactly when escape was down. *)
Lemma start_final t m c r w :
  0 <= t <= 2 -> 0 < m <= INT_MAX ->
  start t m c = Ok r -> final r = Some w ->
  w_frames w = S (sum_list (tick_frames <$> ticks_run (ticks c))) /\
  w_closed w = existsb key_escape (ticks c).
Proof.
  intros Ht Hm. unfold start.
  destruct (init_ok c), (new_image_ok c), (to_window_ok c); simpl;
    try by intros [= <-].
  destruct (first_world (F := F) t m Ht Hm) as (g & Hg & Hok & Hcur & _).
  change (ft_fractal _) with (ft_fractal (F := F) (initial_globals t m)).
  rewrite Hg. simpl.
  destruct (mlx_loop_ok (ticks c) _ Hok Hcur eq_refl) as (w' & -> & _ & Hc & _ & Hf).
  by intros [= <-] [= <-].
Qed.

(** Once the arguments are accepted nothing faults, whatever the
    fractal type and the answers of the collaborator. *)
Lemma start_Ok t m c : 0 < m <= INT_MAX -> exists r, start t m c = Ok r.
Proof.
  intros Hm. unfold start.
  destruct (init_ok c), (new_image_ok c), (to_window_ok c); simpl;
    try by eexists.
  change (ft_fractal _) with (ft_fractal (F := F) (initial_globals t m)).
  assert (Hwf : image_wf (mlx_new_image WIDTH HEIGHT))
    by (apply mlx_new_image_wf; unfold WIDTH, HEIGHT; int_range).
  destruct (ft_fractal_spec (initial_globals (F := F) t m) Hm Hwf)
    as (img & -> & Hwf' & _). simpl.
  destruct (mlx_loop_total (ticks c)
    (mkWorld (with_image (initial_globals (F := F) t m) img) false 1)) as [w ->];
    [by split|by eexists].
Qed.

(** [main] faults in the arguments or not at all: in the usage message
    or in the comparison of the fractal name. *)
Lemma main_fault argv c f :
  main (F := F) argv c = Fault f ->
  if Z.of_nat (length argv) <? 3
  then printf usage_format [argv !! 0%nat] = Fault f
  else parse_fractal_type (nth 1 argv []) = Fault f.
Proof.
  unfold main. destruct (Z.of_nat (length argv) <? 3).
  { destruct (printf usage_format _); simpl; [done|congruence]. }
  destruct (parse_fractal_type _) as [[t|]|]; simpl; [|done|congruence].
  destruct (Z.leb_spec (ft_atoi (nth 2 argv [])) 0) as [|Hpos]; [done|].
  pose proof (ft_atoi_in_int (nth 2 argv [])) as [_ Hmax].
  by destruct (start_Ok t _ c (conj Hpos Hmax)) as [r ->].
Qed.

(** [main] does not fault on any command line of well-formed
    arguments that starts with the name of the program, and it exits
    with success exactly when there are two arguments or more, the
    fractal name is accepted, the cap is positive and the collaborator
    sets the window and the image up. *)
Theorem main_total argv c :
  argv <> [] -> Forall valid_arg argv ->
  exists r, main argv c = Ok r /\
    (exit_status r = EXIT_SUCCESS <->
     (3 <= length argv)%nat /\
     (exists t, parse_fractal_type (nth 1 argv []) = Ok (Some t)) /\
     0 < ft_atoi (nth 2 argv []) /\ setup_ok c = true).
Proof.
  intros Hne Hargs. unfold main.
  destruct (Z.ltb_spec (Z.of_nat (length argv)) 3) as [Hlt|Hge].
  { destruct argv as [|prog argv]; [done|]. eexists. split; [done|].
    cbn [exit_status]. split; [done|lia]. }
  assert (Hv : valid_arg (nth 1 argv [])).
  { eapply Forall_forall; [done|]. apply list_elem_of_In, nth_In. lia. }
  destruct (parse_fractal_type_total _ Hv) as [ot Hparse]. rewrite Hparse.
  destruct ot as [t|]; simpl;
    [|eexists; split; [done|]; split; [done|]; by intros (_ & [? ?] & _)].
  destruct (Z.leb_spec (ft_atoi (nth 2 argv [])) 0) as [Hle|Hgt].
  { eexists. split; [done|]. simpl. split; [done|lia]. }
  pose proof (ft_atoi_in_int (nth 2 argv [])) as [_ Hmax].
  destruct (start_run t (ft_atoi (nth 2 argv [])) c) as (r & -> & Hr);
    [by eapply parse_fractal_type_range|done|].
  exists r. split; [done|]. destruct (setup_ok c), Hr as (-> & _).
  - split; [|done]. intros _. split_and!; [lia|by eexists|done..].
  - split; [done|]. by intros (_ & _ & _ & ?).
Qed.

(** C37: on well-formed arguments [main] has one fault: with an empty
    argument vector [argv[0]] is a null pointer, and the usage message
    passes it to [%s].  On every other command line [main] returns. *)
Theorem main_null_program_name argv c f :
  Forall valid_arg argv ->
  main (F := F) argv c = Fault f <-> argv = [] /\ f = NullPointer.
Proof.
  intros Hargs. split; [|by intros [-> ->]].
  destruct argv as [|prog argv]; [by intros [= <-]|]. intros Hf.
  destruct (main_total (prog :: argv) c) as (r & Hr & _); [done..|congruence].
Qed.

(** C29: the text that a run writes to standard output: the usage line
    with the name of the program and the list of the fractals for
    fewer than two arguments, one line for a fractal name that is
    refused, one for a cap that is not positive, the description of
    the collaborator's error when the set-up fails, and nothing for a
    run that succeeds. *)
Theorem main_stdout argv c r :
  main argv c = Ok r ->
  stdout (events r) =
    if Z.of_nat (length argv) <? 3 then
      usage_line (nth 0 argv []) ++ types_message
    else if bool_decide (parse_fractal_type (nth 1 argv []) = Ok None) then
      invalid_type_message
    else if ft_atoi (nth 2 argv []) <=? 0 then max_iter_message
    else if setup_ok c then [] else puts (error_text c).
Proof.
  unfold main. destruct (Z.of_nat (length argv) <? 3).
  { destruct argv as [|prog argv]; [done|]. by intros [= <-]. }
  destruct (parse_fractal_type _) as [[t|]|]; [|by intros [= <-]|done].
  rewrite bool_decide_eq_false_2 by done. cbn [bind].
  destruct (ft_atoi _ <=? 0); [by intros [= <-]|].
  unfold start, setup_ok.
  destruct (init_ok c), (new_image_ok c), (to_window_ok c); simpl;
    try (intros [= <-]; unfold stdout; simpl; by rewrite app_nil_r).
  destruct (ft_fractal _); [|done]. simpl.
  destruct (mlx_loop _ _); [|done]. by intros [= <-].
Qed.

(** The exit status of a run is one of the two, and a run that fails
    has reached no event loop. *)
Lemma main_status argv c r :
  main argv c = Ok r ->
  exit_status r = EXIT_SUCCESS \/ exit_status r = EXIT_FAILURE /\ final r = None.
Proof.
  unfold main, start. destruct (Z.of_nat (length argv) <? 3).
  { destruct (printf usage_format _); [|done]. intros [= <-]. by right. }
  destruct (parse_fractal_type _) as [[t|]|]; [|intros [= <-]; by right|done].
  cbn [bind]. destruct (ft_atoi _ <=? 0); [intros [= <-]; by right|].
  destruct (init_ok c), (new_image_ok c), (to_window_ok c); simpl;
    try (intros [= <-]; by right).
  destruct (ft_fractal _); [|done]. simpl.
  destruct (mlx_loop _ _); [|done]. intros [= <-]. by left.
Qed.

(** The arguments are accepted: the fractal type is [t] and the cap [m]. *)
Definition accepted (argv : list cstring) (t m : Z) : Prop :=
  (3 <= length argv)%nat /\ Forall valid_arg argv /\
  parse_fractal_type (nth 1 argv []) = Ok (Some t) /\
  ft_atoi (nth 2 argv []) = m /\ 0 < m.

Lemma main_accepted argv t m c :
  accepted argv t m -> main argv c = start t m c /\ 0 <= t <= 2 /\ m <= INT_MAX.
Proof.
  intros (Hlen & Hargs & Hparse & <- & Hpos). unfold main.
  rewrite (proj2 (Z.ltb_ge _ _)), Hparse by lia. simpl.
  rewrite (proj2 (Z.leb_gt _ _)) by done. split; [done|].
  pose proof (ft_atoi_in_int (nth 2 argv [])) as [_ Hmax]. split; [|done].
  eapply parse_fractal_type_range; [|done].
  eapply Forall_forall; [done|]. apply list_elem_of_In, nth_In. lia.
Qed.

(** C30: the cap of a run is the number whose decimal numeral is
    [argv[2]], for every number from 1 to [INT_MAX]: with a fractal
    name that is accepted, [main] goes on to the set-up with that
    cap. *)
Theorem main_decimal_cap prog name t n c :
  parse_fractal_type name = Ok (Some t) -> 0 < n <= INT_MAX ->
  main [prog; name; decimal n] c = start t n c.
Proof.
  intros Hparse Hn. unfold main. cbn [length nth Z.of_nat Z.ltb Z.compare
    Pos.of_succ_nat Pos.succ Pos.compare Pos.compare_cont].
  rewrite Hparse. cbn [bind].
  replace (decimal n) with ([] ++ decimal n ++ []) by apply app_nil_r.
  rewrite ft_atoi_decimal by (done || lia).
  by rewrite (proj2 (Z.leb_gt _ _)) by lia.
Qed.

(** C18: with accepted arguments and a collaborator that sets the window
    and the image up, [main] renders the first frame, registers the
    hook, runs the event loop, calls [mlx_terminate] and exits with
    success; the world it ends in is well-formed, has the fractal type
    and the cap of the command line, and shows the frame of its
    zoom. *)
Theorem main_success argv t m c :
  accepted argv t m -> setup_ok c = true ->
  exists r w, main argv c = Ok r /\ exit_status r = EXIT_SUCCESS /\
    events r = success_events /\ final r = Some w /\ final_ok t m w.
Proof.
  intros Hacc Hc. pose proof Hacc as (_ & _ & _ & _ & Hpos).
  destruct (main_accepted argv t m c Hacc) as (-> & Ht & Hm).
  destruct (start_run t m c) as (r & Hr & Hs); [done..|].
  rewrite Hc in Hs. destruct Hs as (? & ? & w & ? & ?). by exists r, w.
Qed.

(** C34: when a step of the set-up fails, [main] prints the error of
    the collaborator and exits with failure without rendering; it
    closes the window when the window was created, but it does not
    call [mlx_terminate] on any of these paths. *)
Theorem main_setup_failure argv t m c :
  accepted argv t m -> setup_ok c = false ->
  exists r, main argv c = Ok r /\ exit_status r = EXIT_FAILURE /\
    final r = None /\ last (events r) = Some (Stdout (puts (error_text c))) /\
    (MlxTerminate ∉ events r) /\
    (init_ok c = true -> MlxCloseWindow ∈ events r).
Proof.
  intros Hacc Hc. destruct (main_accepted argv t m c Hacc) as (-> & _ & _).
  unfold setup_ok in Hc. unfold start.
  destruct (init_ok c), (new_image_ok c), (to_window_ok c); try done; simpl;
    eexists; (split; [done|]); split_and!; try done;
    try (by apply (bool_decide_unpack _)); by intros _; apply (bool_decide_unpack _).
Qed.

End Runs.

(** ** Runs on binary64 *)

Section Binary64.
Implicit Types (c : collaborator).

(** The program run without arguments, with the name "foo", with
    the cap "-5" and with a cap that is not a number exits with
    failure after one message, or two, and makes no call to the
    collaborator. *)
Theorem main_invalid_invocations c :
  main (F := float) [cstring_of "fractol"] c =
    Ok (mkRun EXIT_FAILURE
          [Stdout (usage_line (cstring_of "fractol")); Stdout types_message] None) /\
  main (F := float) [cstring_of "fractol"; cstring_of "foo"; cstring_of "50"] c =
    Ok (mkRun EXIT_FAILURE [Stdout invalid_type_message] None) /\
  main (F := float) [cstring_of "fractol"; cstring_of "mandelbrot"; cstring_of "-5"] c =
    Ok (mkRun EXIT_FAILURE [Stdout max_iter_message] None) /\
  main (F := float) [cstring_of "fractol"; cstring_of "julia"; cstring_of "many"] c =
    Ok (mkRun EXIT_FAILURE [Stdout max_iter_message] None).
Proof. by vm_compute. Qed.

(** C19: a run of the Mandelbrot set or of the Burning Ship that
    succeeds ends with the pixel (256, 256) in the grey of the points
    that do not escape, whatever the cap and the keys of the run. *)
Theorem main_centre_pixel argv t m c :
  accepted argv t m -> t <> 1 -> setup_ok c = true ->
  exists r w, main (F := float) argv c = Ok r /\ final r = Some w /\
    pixel_at (image (w_globals w)) 256 256 = Some sentinel_gray.
Proof.
  intros Hacc Ht Hc. pose proof Hacc as (_ & _ & _ & _ & Hpos).
  destruct (main_accepted (F := float) argv t m c Hacc) as (-> & Htr & Hm).
  destruct (start_run (F := float) t m c) as (r & Hr & Hs); [done..|].
  rewrite Hc in Hs. destruct Hs as (_ & _ & w & Hf & [Hok Hcur Hwt Hwm _]).
  exists r, w. split_and!; [done..|]. destruct Hok as [_ _ _ Hw Hh].
  apply (painted_centre (w_globals w)); [unfold from_origin; lia|lia|].
  apply Hcur. unfold in_grid. rewrite Hw, Hh. by vm_compute.
Qed.

End Binary64.

(** ** Witnesses *)

Ltac solve_valid_arg :=
  split; [apply cstring_of_is_bytes|by repeat constructor|by vm_compute].
Ltac solve_valid_args :=
  repeat (apply Forall_cons_2; [solve_valid_arg|]); apply Forall_nil_2.

(** The command line [fractol mandelbrot 50]. *)
Definition mandelbrot_50 : list cstring :=
  [cstring_of "fractol"; cstring_of "mandelbrot"; cstring_of "50"].

Lemma mandelbrot_50_accepted : accepted mandelbrot_50 0 50.
Proof.
  split_and!; [simpl; lia|solve_valid_args|
    by vm_compute|by vm_compute|lia].
Qed.

Lemma parse_fractal_type_prefix_witness :
  parse_fractal_type (cstring_of "jul") =
    Ok (if bool_decide (cstring_of "jul" `prefix_of` cstring_of "mandelbrot")
        then Some 0
        else if bool_decide (cstring_of "jul" `prefix_of` cstring_of "julia")
        then Some 1
        else if bool_decide (cstring_of "jul" `prefix_of` cstring_of "burning_ship")
        then Some 2
        else None).
Proof. apply parse_fractal_type_prefix. solve_valid_arg. Defined.

Lemma main_decimal_cap_witness :
  main (F := float) [cstring_of "fractol"; cstring_of "julia"; decimal 50]
    (mkCollaborator false true true [] []) =
  start 1 50 (mkCollaborator false true true [] []).
Proof. apply main_decimal_cap; [by vm_compute|int_range]. Defined.

Lemma main_null_program_name_witness :
  main (F := float) [] (mkCollaborator true true true [] []) = Fault NullPointer.
Proof. by apply main_null_program_name. Defined.

Lemma main_stdout_witness :
  stdout (events (F := float) (mkRun EXIT_FAILURE [Stdout invalid_type_message] None)) =
    invalid_type_message.
Proof.
  apply (main_stdout (F := float)
    [cstring_of "fractol"; cstring_of "foo"; cstring_of "50"]
    (mkCollaborator true true true [] [])).
  by vm_compute.
Defined.

Lemma main_rejects_witness :
  exit_status (F := float) (mkRun EXIT_FAILURE [Stdout invalid_type_message] None) =
    EXIT_FAILURE /\
  final (F := float) (mkRun EXIT_FAILURE [Stdout invalid_type_message] None) = None /\
  forallb is_print [Stdout invalid_type_message] = true.
Proof.
  apply (main_rejects (F := float)
    [cstring_of "fractol"; cstring_of "foo"; cstring_of "50"]
    (mkCollaborator true true true [] [])); [by vm_compute|].
  right. left. by vm_compute.
Defined.

Lemma main_total_witness :
  exists r, main (F := float) mandelbrot_50 (mkCollaborator true true false [] []) = Ok r /\
    exit_status r <> EXIT_SUCCESS.
Proof.
  destruct (main_total (F := float) mandelbrot_50 (mkCollaborator true true false [] []))
    as (r & Hr & Hiff); [done|solve_valid_args|].
  exists r. split; [done|]. by intros (_ & _ & _ & ?)%Hiff.
Defined.

Lemma main_success_witness :
  exists r w, main (F := float) mandelbrot_50
      (mkCollaborator true true true [] [mkKeys true false false]) = Ok r /\
    exit_status r = EXIT_SUCCESS /\ events r = success_events /\
    final r = Some w /\ final_ok 0 50 w.
Proof. by apply main_success; [apply mandelbrot_50_accepted|]. Defined.

Lemma main_setup_failure_witness :
  exists r, main (F := float) mandelbrot_50 (mkCollaborator true false true [] []) = Ok r /\
    exit_status r = EXIT_FAILURE /\ final r = None /\
    last (events r) = Some (Stdout (puts [])) /\
    (MlxTerminate ∉ events r) /\
    (true = true -> MlxCloseWindow ∈ events r).
Proof.
  by apply (main_setup_failure mandelbrot_50 0 50
    (mkCollaborator true false true [] [])); [apply mandelbrot_50_accepted|].
Defined.

Lemma main_centre_pixel_witness :
  exists r w, main (F := float) mandelbrot_50
      (mkCollaborator true true true [] [mkKeys false false true]) = Ok r /\
    final r = Some w /\
    pixel_at (image (w_globals w)) 256 256 = Some sentinel_gray.
Proof. by apply (main_centre_pixel mandelbrot_50 0 50); [apply mandelbrot_50_accepted|..]. Defined.
