(* ===== verification/Calls.v ===== *)
(** * Calls: the program as interaction trees

    The calls that the program makes, to the MLX42 library (the
    collaborator interface: window, image, pixels, keys, hook, loop,
    termination) and to standard output, as the events [mlxE], and
    the program as interaction trees over them.  The trees follow the
    source call by call: [ft_fractal_tree] reads the size of the image
    and puts one pixel after the other, [ft_hook_tree] asks for the
    three keys in turn, [main_tree] checks the arguments, sets the
    window up and hands the hook to the loop of the library, which
    runs it once per tick for as long as the window is open, without
    a bound. *)

From ITree Require Import ITree ITreeFacts Events.State Events.StateFacts.
From Stdlib Require Import Floats String.
From S2P Require Import Prelude MachInt Scalar Complex Escape Color.
From S2P Require Import CString Atoi Output Image Render Hook Trees Main.

#[local] Open Scope tree_scope.

(** ** The calls *)

(** The keys that the program asks about. *)
Variant key : Set := MLX_KEY_ESCAPE | MLX_KEY_UP | MLX_KEY_DOWN.

(** The calls of the program, each with the type of its answer.
    [Image_width] and [Image_height] are the reads of [image->width]
    and [image->height]; [Mlx_poll] is the test of the library's loop
    for another tick; [Write] is a call of [printf] or [puts] with the
    bytes it writes. *)
Variant mlxE : Type -> Type :=
| Mlx_init (width height : Z) (title : cstring) (resize : bool) : mlxE bool
| Mlx_new_image (width height : Z) : mlxE bool
| Mlx_image_to_window (x y : Z) : mlxE bool
| Image_width : mlxE Z
| Image_height : mlxE Z
| Mlx_put_pixel (x y color : Z) : mlxE (result unit)
| Mlx_is_key_down (k : key) : mlxE bool
| Mlx_close_window : mlxE unit
| Mlx_loop_hook : mlxE unit
| Mlx_poll : mlxE bool
| Mlx_terminate : mlxE unit
| Mlx_strerror : mlxE cstring
| Write (text : cstring) : mlxE unit.

(** ** The program *)

(** The globals of the program without the image, which belongs to
    the library. *)
Record config (F : Type) : Type := mkConfig {
  fractal_type : Z;
  max_iter : Z;
  zoom_level : F;
}.

Arguments mkConfig {F} _ _ _.
Arguments fractal_type {F} _.
Arguments max_iter {F} _.
Arguments zoom_level {F} _.

Section Program.
Context {F : Type} `{Scalar F}.
Implicit Types (p : config F) (range : F) (x y iter : Z).

Definition with_zoom p (z : F) : config F :=
  {| fractal_type := fractal_type p; max_iter := max_iter p; zoom_level := z |}.

(** The globals of a configuration and an image. *)
Definition globals_of p (img : mlx_image) : globals F :=
  mkGlobals (fractal_type p) (max_iter p) (zoom_level p) img.

(** The body of the loop on [y] of [ft_fractal]: the state is [y] and
    [iter]. *)
Definition pixel_tree p range x (st : Z * Z) : itree mlxE (result (Z * Z)) :=
  let y := fst st in
  iter <~ pure (dispatch (fractal_type p) (max_iter p) (snd st)
                  (pixel_point range x y)) ;;
  color <~ pure (get_color iter (max_iter p)) ;;
  _ <~ call_result (Mlx_put_pixel x y color) ;;
  pure (Ok (uint32_add y 1, iter)).

(** The body of the loop on [x]: the state is [x] and [iter]. *)
Definition column_tree p range (st : Z * Z) : itree mlxE (result (Z * Z)) :=
  let x := fst st in
  st' <~ while_tree
           (fun s => height <~ call Image_height ;; pure (Ok (fst s <? height)))
           (pixel_tree p range x) (0, snd st) ;;
  pure (Ok (uint32_add x 1, snd st')).

(** [ft_fractal(NULL)] *)
Definition ft_fractal_tree p : itree mlxE (result unit) :=
  let range := (lit 4 1 / zoom_level p)%sc in
  _ <~ while_tree
         (fun s => width <~ call Image_width ;; pure (Ok (fst s <? width)))
         (column_tree p range) (0, 0) ;;
  pure (Ok tt).

(** A change of the zoom followed by [ft_fractal(NULL)]. *)
Definition rezoom_tree (f : F -> F) p : itree mlxE (result (config F)) :=
  let p' := with_zoom p (f (zoom_level p)) in
  _ <~ ft_fractal_tree p' ;;
  pure (Ok p').

(** [ft_hook(mlx)] *)
Definition ft_hook_tree p : itree mlxE (result (config F)) :=
  escape <~ call (Mlx_is_key_down MLX_KEY_ESCAPE) ;;
  _ <~ (if escape : bool then call Mlx_close_window else pure (Ok tt)) ;;
  up <~ call (Mlx_is_key_down MLX_KEY_UP) ;;
  p <~ (if up : bool then rezoom_tree zoom_in p else pure (Ok p)) ;;
  down <~ call (Mlx_is_key_down MLX_KEY_DOWN) ;;
  p <~ (if down : bool then rezoom_tree zoom_out p else pure (Ok p)) ;;
  pure (Ok p).

(** [mlx_loop(mlx)] with the hook registered: the loop of the library,
    which runs the hook for every tick that finds the window open. *)
Definition mlx_loop_tree (hook : config F -> itree mlxE (result (config F)))
  : config F -> itree mlxE (result (config F)) :=
  while_tree (fun _ => call Mlx_poll) hook.

(** The exit of [main] after a failure of the set-up. *)
Definition setup_failure_tree (close : bool) : itree mlxE (result Z) :=
  _ <~ (if close then call Mlx_close_window else pure (Ok tt)) ;;
  text <~ call Mlx_strerror ;;
  _ <~ call (Write (puts text)) ;;
  pure (Ok EXIT_FAILURE).

(** [main] from the set-up on. *)
Definition start_tree (t m : Z) : itree mlxE (result Z) :=
  mlx <~ call (Mlx_init WIDTH HEIGHT title false) ;;
  if negb mlx then setup_failure_tree false
  else
    image <~ call (Mlx_new_image WIDTH HEIGHT) ;;
    if negb image then setup_failure_tree true
    else
      shown <~ call (Mlx_image_to_window 0 0) ;;
      if negb shown then setup_failure_tree true
      else
        let p := {| fractal_type := t; max_iter := m; zoom_level := lit 1 1 |} in
        _ <~ ft_fractal_tree p ;;
        _ <~ call Mlx_loop_hook ;;
        _ <~ mlx_loop_tree ft_hook_tree p ;;
        _ <~ call Mlx_terminate ;;
        pure (Ok EXIT_SUCCESS).

(** A message and the exit with failure. *)
Definition reject_tree (format : cstring) : itree mlxE (result Z) :=
  text <~ pure (printf format []) ;;
  _ <~ call (Write text) ;;
  pure (Ok EXIT_FAILURE).

(** [main(argc, argv)] *)
Definition main_tree (argv : list cstring) : itree mlxE (result Z) :=
  if Z.of_nat (length argv) <? 3 then
    usage <~ pure (printf usage_format [argv !! 0%nat]) ;;
    _ <~ call (Write usage) ;;
    reject_tree types_message
  else
    t <~ pure (parse_fractal_type (nth 1 argv [])) ;;
    match t with
    | None => reject_tree invalid_type_message
    | Some t =>
        let m := ft_atoi (nth 2 argv []) in
        if m <=? 0 then reject_tree max_iter_message
        else start_tree t m
    end.

End Program.
