(* ===== verification/Display.v ===== *)
(** * Display: what the program needs of the display collaborator

    The program sees the library through the answers of its calls.  The
    order of the calls of the program depends on few of them: the size
    of the image, which bounds the loops of [ft_fractal]; the request
    to close, which ends the loop of the library; and whether a pixel
    is put inside the image.  The class [Display] is a library as a
    function of its state with these two observations, and
    [DisplayLaws] the laws that the calls of the program rely on.  The
    theorems of [Order] hold for every lawful display; the library of
    [Library] is one. *)

From S2P Require Import Prelude MachInt Image Trees Main Calls.

(** A display: what a call does to its state and its answer, the image
    that the program draws in, and whether the window was asked to
    close. *)
Class Display (L : Type) : Type := {
  display_step : forall T, mlxE T -> L -> L * T;
  display_image : L -> mlx_image;
  display_closed : L -> bool;
}.

(** The size of the image. *)
Definition image_size {L} `{Display L} (l : L) : Z * Z :=
  (img_width (display_image l), img_height (display_image l)).

(** The calls that keep the image: all but those that create the
    library or the image, or free them. *)
Definition keeps_image {T} (e : mlxE T) : bool :=
  match e with
  | Mlx_init _ _ _ _ | Mlx_new_image _ _ | Mlx_terminate => false
  | _ => true
  end.

(** The calls that keep the request to close: all but the request. *)
Definition keeps_open {T} (e : mlxE T) : bool :=
  match e with Mlx_close_window => false | _ => true end.

(** The laws of a display: a call that keeps the image keeps its size;
    a call other than the request to close keeps the request, and the
    request is kept once made; the loop gives a tick only while the
    window is open; the reads of the size answer the size of the
    image, and a pixel inside the image is put; an image that
    [mlx_new_image] creates has the size asked for. *)
Class DisplayLaws (L : Type) `{Display L} : Prop := {
  image_kept T (e : mlxE T) l :
    keeps_image e -> image_size (fst (display_step T e l)) = image_size l;
  closed_kept T (e : mlxE T) l :
    keeps_open e -> display_closed (fst (display_step T e l)) = display_closed l;
  close_closes l :
    display_closed (fst (display_step _ Mlx_close_window l)) = true;
  poll_open l :
    snd (display_step _ Mlx_poll l) = true -> display_closed l = false;
  width_answer l :
    snd (display_step _ Image_width l) = img_width (display_image l);
  height_answer l :
    snd (display_step _ Image_height l) = img_height (display_image l);
  put_answer x y color l :
    in_grid (display_image l) x y ->
    snd (display_step _ (Mlx_put_pixel x y color) l) = Ok tt;
  new_image_size width height l :
    snd (display_step _ (Mlx_new_image width height) l) = true ->
    image_size (fst (display_step _ (Mlx_new_image width height) l)) =
      (width, height);
}.
