(* ===== verification/Library.v ===== *)
(** * Library: the display collaborator as a handler

    The MLX42 library and standard output as a handler of the calls of
    the program on a state [library]: the answers of the set-up, the
    session (the keys of each tick of the event loop, with or without
    an end), the image, the close request, the text written and the
    number of pixels put.  The library is not part of the sources; the
    handler is modelled from the interface that the program uses. *)

From ITree Require Import ITree ITreeFacts Events.State Events.StateFacts.
From Stdlib Require Import Floats String.
From S2P Require Import Prelude MachInt Scalar Complex Escape Color.
From S2P Require Import CString Atoi Output Image Render Hook Trees Main.
From S2P Require Import Exec Calls Display.

#[local] Open Scope tree_scope.

(** ** The collaborator *)

(** A session of the event loop: the keys of each tick, by its number.
    The session has no tick from the first number without keys on,
    where the user has closed the window; a session with keys at every
    number has no end. *)
Definition session : Type := nat -> option keys.

(** The session of a list of ticks. *)
Definition finite (input : list keys) : session := fun i => input !! i.

(** The state of the library and of standard output: the answers of
    the set-up, the session and the number of the next tick, the keys
    of the current tick, the image, whether the window exists, was
    asked to close and has a hook, whether the library was terminated,
    the text written, and the number of pixels put so far. *)
Record library : Type := mkLibrary {
  lib_answers : collaborator;
  lib_ticks : session;
  lib_now : nat;
  lib_keys : keys;
  lib_image : mlx_image;
  lib_window : bool;
  lib_closed : bool;
  lib_hooked : bool;
  lib_terminated : bool;
  lib_stdout : cstring;
  lib_puts : Z;
}.

Section Library.
Implicit Types (l : library) (k : keys) (s : session).

Definition set_image l (img : mlx_image) : library :=
  mkLibrary (lib_answers l) (lib_ticks l) (lib_now l) (lib_keys l) img
    (lib_window l) (lib_closed l) (lib_hooked l) (lib_terminated l) (lib_stdout l)
    (lib_puts l).

Definition set_tick l k (now : nat) : library :=
  mkLibrary (lib_answers l) (lib_ticks l) now k (lib_image l) (lib_window l)
    (lib_closed l) (lib_hooked l) (lib_terminated l) (lib_stdout l)
    (lib_puts l).

Definition set_window l (b : bool) : library :=
  mkLibrary (lib_answers l) (lib_ticks l) (lib_now l) (lib_keys l) (lib_image l)
    b (lib_closed l) (lib_hooked l) (lib_terminated l) (lib_stdout l)
    (lib_puts l).

Definition set_closed l (b : bool) : library :=
  mkLibrary (lib_answers l) (lib_ticks l) (lib_now l) (lib_keys l) (lib_image l)
    (lib_window l) b (lib_hooked l) (lib_terminated l) (lib_stdout l)
    (lib_puts l).

Definition set_hooked l : library :=
  mkLibrary (lib_answers l) (lib_ticks l) (lib_now l) (lib_keys l) (lib_image l)
    (lib_window l) (lib_closed l) true (lib_terminated l) (lib_stdout l)
    (lib_puts l).

Definition set_terminated l : library :=
  mkLibrary (lib_answers l) (lib_ticks l) (lib_now l) (lib_keys l) (lib_image l)
    (lib_window l) (lib_closed l) (lib_hooked l) true (lib_stdout l)
    (lib_puts l).

Definition write l (text : cstring) : library :=
  mkLibrary (lib_answers l) (lib_ticks l) (lib_now l) (lib_keys l) (lib_image l)
    (lib_window l) (lib_closed l) (lib_hooked l) (lib_terminated l)
    (lib_stdout l ++ text) (lib_puts l).

Definition set_session l s : library :=
  mkLibrary (lib_answers l) s (lib_now l) (lib_keys l) (lib_image l)
    (lib_window l) (lib_closed l) (lib_hooked l) (lib_terminated l) (lib_stdout l)
    (lib_puts l).

(** The library after [n] pixels were put, with the image [img]. *)
Definition put_pixels l (img : mlx_image) (n : Z) : library :=
  mkLibrary (lib_answers l) (lib_ticks l) (lib_now l) (lib_keys l) img
    (lib_window l) (lib_closed l) (lib_hooked l) (lib_terminated l) (lib_stdout l)
    (lib_puts l + n).

Definition key_state (key : key) k : bool :=
  match key with
  | MLX_KEY_ESCAPE => key_escape k
  | MLX_KEY_UP => key_up k
  | MLX_KEY_DOWN => key_down k
  end.

(** The test of the library's loop: the loop goes on when the window
    is open and the session has a next tick, whose keys become the
    current ones. *)
Definition poll l : library * bool :=
  if lib_closed l then (l, false)
  else
    match lib_ticks l (lib_now l) with
    | None => (l, false)
    | Some k => (set_tick l k (S (lib_now l)), true)
    end.

(** What a call does to the library, and its answer. *)
Definition library_step {T} (e : mlxE T) l : library * T :=
  match e in mlxE T return library * T with
  | Mlx_init _ _ _ _ =>
      (set_window l (init_ok (lib_answers l)), init_ok (lib_answers l))
  | Mlx_new_image width height =>
      if new_image_ok (lib_answers l)
      then (set_image l (mlx_new_image width height), true)
      else (l, false)
  | Mlx_image_to_window _ _ => (l, to_window_ok (lib_answers l))
  | Image_width => (l, img_width (lib_image l))
  | Image_height => (l, img_height (lib_image l))
  | Mlx_put_pixel x y color =>
      match mlx_put_pixel (lib_image l) x y color with
      | Ok img => (put_pixels l img 1, Ok tt)
      | Fault f => (l, Fault f)
      end
  | Mlx_is_key_down key => (l, key_state key (lib_keys l))
  | Mlx_close_window => (set_closed l true, tt)
  | Mlx_loop_hook => (set_hooked l, tt)
  | Mlx_poll => poll l
  | Mlx_terminate => (set_terminated l, tt)
  | Mlx_strerror => (l, error_text (lib_answers l))
  | Write text => (write l text, tt)
  end.

(** The library is a display, and a lawful one. *)
#[export] Instance library_display : Display library := {|
  display_step := @library_step;
  display_image := lib_image;
  display_closed := lib_closed;
|}.

#[export] Instance library_display_laws : DisplayLaws library.
Proof.
  split; unfold image_size; cbn [display_step display_image display_closed
    library_display].
  - intros T [] l; try done; cbn [library_step]; intros _.
    + destruct (mlx_put_pixel _ _ _ _) as [img|] eqn:Hput; [|done].
      unfold mlx_put_pixel in Hput. case_match; [|done]. by injection Hput as <-.
    + unfold poll. by repeat case_match.
  - intros T [] l; try done; cbn [library_step]; intros _;
      [by case_match..|unfold poll; by repeat case_match].
  - done.
  - intros l. cbn [library_step]. unfold poll. by repeat case_match.
  - done.
  - done.
  - intros x y color l Hg. cbn [library_step].
    by rewrite mlx_put_pixel_in_grid.
  - intros width height l. cbn [library_step]. by destruct (new_image_ok _).
Qed.

(** The collaborator as a handler of the calls. *)
Definition handle : forall T, mlxE T -> Monads.stateT library (itree void1) T :=
  fun T e l => Ret (library_step e l).

(** The library before [main] runs, with the answers of [c] and the
    session [s]. *)
Definition boot (c : collaborator) s : library :=
  {| lib_answers := c; lib_ticks := s; lib_now := 0;
     lib_keys := mkKeys false false false; lib_image := mlx_new_image 0 0;
     lib_window := false; lib_closed := false; lib_hooked := false;
     lib_terminated := false; lib_stdout := []; lib_puts := 0 |}.

(** The list [input] is a run of the session [s]: the session starts
    with the ticks of [input], and the loop ends within them, at a tick
    with escape down, or after them, where the session ends. *)
Definition covers s (input : list keys) : Prop :=
  (forall i k, input !! i = Some k -> s i = Some k) /\
  (existsb key_escape input = true \/ s (length input) = None).

(** A session without an end: it has keys at every tick, and escape is
    never down. *)
Definition endless s : Prop :=
  forall i, exists k, s i = Some k /\ key_escape k = false.

(** A session with an end: at some tick escape is down, or the session
    is over. *)
Definition has_end s : Prop :=
  exists n, from_option key_escape true (s n) = true.

(** The collaborator [c] with the ticks [input]. *)
Definition with_ticks (c : collaborator) (input : list keys) : collaborator :=
  mkCollaborator (init_ok c) (new_image_ok c) (to_window_ok c) (error_text c) input.

Lemma with_ticks_id c : with_ticks c (ticks c) = c.
Proof. by destruct c. Qed.

Lemma finite_covers (input : list keys) : covers (finite input) input.
Proof. split; [done|]. right. by apply lookup_ge_None. Qed.

(** The session [s] that the user ends at the tick [n]. *)
Definition cut (n : nat) s : session :=
  fun i => if (i <? n)%nat then s i else None.

Lemma cut_has_end n s : has_end (cut n s).
Proof. exists n. unfold cut. by rewrite Nat.ltb_irrefl. Qed.

Lemma finite_has_end (input : list keys) : has_end (finite input).
Proof. exists (length input). unfold finite. by rewrite lookup_ge_None_2. Qed.

(** The ticks [k] and then those of a run of the rest of the session
    are a run of the session. *)
Lemma covers_cons s k input :
  s 0%nat = Some k -> key_escape k = false -> covers (s ∘ S) input ->
  covers s (k :: input).
Proof.
  intros Hk He [Hpre Hend]. split; [by intros [|i] k'; [intros [= <-]|apply Hpre]|].
  simpl. by rewrite He.
Qed.

(** A session with an end has a run: its ticks up to the first with
    escape down, or to its end. *)
Lemma has_end_covers s : has_end s -> exists input, covers s input.
Proof.
  intros [n Hn]. revert s Hn. induction n as [|n IH]; intros s Hn.
  - destruct (s 0%nat) as [k|] eqn:Hk; [|by exists []; split; [|right]].
    exists [k]. split; [by intros [|i] k'; [intros [= <-]|]|]. left. simpl in *.
    by rewrite Hn.
  - destruct (s 0%nat) as [k|] eqn:Hk; [|by exists []; split; [|right]].
    destruct (key_escape k) eqn:He.
    + exists [k]. split; [by intros [|i] k'; [intros [= <-]|]|]. left. simpl.
      by rewrite He.
    + destruct (IH (s ∘ S) Hn) as [input Hc]. exists (k :: input).
      by apply covers_cons.
Qed.

(** A session has no end exactly when it is endless. *)
Lemma endless_no_end s : endless s <-> ~ has_end s.
Proof.
  split.
  - intros Hs [n Hn]. destruct (Hs n) as (k & Hk & He). rewrite Hk in Hn. simpl in Hn.
    congruence.
  - intros Hs i. destruct (s i) as [k|] eqn:Hk.
    + exists k. split; [done|]. destruct (key_escape k) eqn:He; [|done].
      destruct Hs. exists i. by rewrite Hk.
    + destruct Hs. exists i. by rewrite Hk.
Qed.

End Library.

(** ** Runs of the trees against the collaborator *)

(** A call runs as the library steps. *)
Lemma handle_call {A} (e : mlxE A) (l : library) :
  runs handle (call e) l (fst (library_step e l)) (Ok (snd (library_step e l))).
Proof. apply runs_call. unfold handle. by destruct (library_step e l). Qed.

(** One step of a run: a computation whose result is known, a call. *)
Ltac run_pure H := eapply runs_rbind; [rewrite ?H; apply runs_pure|].
Ltac run_call :=
  first [eapply runs_rbind | eapply diverges_rbind];
    [apply handle_call|]; cbn [fst snd library_step].
Ltac run_done := apply runs_pure.

(** A call of the set-up, whose answer [H] gives. *)
Ltac run_answer H :=
  run_call; cbn [snd fst boot lib_answers set_window set_image];
  rewrite H; cbn [snd fst negb].

(** ** Sessions of the examples *)

(** A collaborator whose set-up succeeds, with two ticks: up, then
    escape.  A session that goes on for ever with these two ticks
    first, and one in which no key is ever down. *)
Definition up_then_escape : collaborator :=
  mkCollaborator true true true []
    [mkKeys false true false; mkKeys true false false].

Definition escape_at_1 : session :=
  fun i => Some (mkKeys (i =? 1)%nat (i =? 0)%nat false).

Definition idle : session := fun _ => Some (mkKeys false false false).

Lemma escape_at_1_covers : covers escape_at_1 (ticks up_then_escape).
Proof. split; [|by left]. intros [|[|i]] k; simpl; by intros [= <-]. Qed.

(** A run against the library is a derivation with its record. *)
Lemma handle_exec {R} (t : itree mlxE R) (l l' : library) (r : R) :
  runs handle t l l' r <-> exists tr, exec (@library_step) t l tr l' r.
Proof.
  split; [apply (runs_exec (@library_step))|].
  intros [tr Ht]. exact (exec_runs _ _ _ _ _ _ Ht).
Qed.
