(* ===== verification/TreeRender.v ===== *)
(** * TreeRender: the frame renderer against the collaborator

    A frame that [ft_fractal] renders is a run of [ft_fractal_tree]
    against the library: the loops of the tree, which have no fuel,
    run as the loops of the function, the library ends with the image
    that the function computes, and [mlx_put_pixel] is called once for
    each pixel of the grid. *)

From ITree Require Import ITree ITreeFacts Events.State Events.StateFacts.
From Stdlib Require Import Floats String.
From S2P Require Import Prelude MachInt Scalar Complex Escape Color.
From S2P Require Import CString Atoi Output Image Render Hook Trees Main.
From S2P Require Import Calls Library.

#[local] Open Scope tree_scope.

Section Frames.
Context {F : Type} `{Scalar F}.
Implicit Types (g : globals F) (l : library) (st : frame_state) (range : F).

(** The configuration of the globals. *)
Definition config_of g : config F :=
  {| fractal_type := g_fractal_type g; max_iter := g_max_iter g;
     zoom_level := zoom g |}.

Lemma put_pixels_id l : put_pixels l (lib_image l) 0 = l.
Proof. destruct l. unfold put_pixels. simpl. by rewrite Z.add_0_r. Qed.

Lemma put_pixels_twice l img n img' m :
  put_pixels (put_pixels l img n) img' m = put_pixels l img' (n + m).
Proof. unfold put_pixels. simpl. by rewrite Z.add_assoc. Qed.

(** One pixel: the tree computes the colour and puts it. *)
Lemma pixel_tree_runs g range x l st st' :
  lib_image l = fs_image st -> pixel_body g range x st = Ok st' ->
  runs handle (pixel_tree (config_of g) range x (fs_pos st, fs_iter st))
    l (put_pixels l (fs_image st') 1) (Ok (fs_pos st', fs_iter st')).
Proof.
  intros Hl. unfold pixel_body, select_iter, pixel_tree.
  cbn [fst snd config_of fractal_type max_iter].
  destruct (dispatch _ _ _ _) as [iter|] eqn:Hd; [|done]. cbn [bind].
  destruct (get_color _ _) as [color|] eqn:Hc; [|done]. cbn [bind].
  destruct (mlx_put_pixel _ _ _ _) as [img|] eqn:Hp; [|done]. intros [= <-].
  run_pure Hd. run_pure Hc.
  eapply runs_rbind; [|run_done].
  apply runs_call_result. unfold handle, library_step. by rewrite Hl, Hp.
Qed.

(** The state of the loop on [y] of the column of [st0], entered with
    the library [l]: the invariant of the loop, the position and
    [iter] in the tree, the image and one pixel put per row in the
    library. *)
Definition column_rep g l (st0 st : frame_state) (t : Z * Z) l' : Prop :=
  column_inv g (fs_image st0) (fs_pos st0) st /\
  t = (fs_pos st, fs_iter st) /\ l' = put_pixels l (fs_image st) (fs_pos st).

(** One column: the tree puts one pixel per row of the image. *)
Lemma column_tree_runs g l st st' :
  0 < g_max_iter g <= INT_MAX -> image_wf (fs_image st) ->
  0 <= fs_pos st < img_width (fs_image st) -> iter_free g (fs_iter st) ->
  lib_image l = fs_image st ->
  column_body g (plane_range g) st = Ok st' ->
  runs handle (column_tree (config_of g) (plane_range g) (fs_pos st, fs_iter st))
    l (put_pixels l (fs_image st') (img_height (fs_image st)))
    (Ok (fs_pos st', fs_iter st')).
Proof.
  intros Hm Hwf Hx Hfree Himg. unfold column_body, column_tree. cbn [fst snd].
  destruct (loop _ _ _ _) as [st1|] eqn:Hl; [|done]. intros [= <-].
  pose proof (loop_Ok_exit _ _ _ _ _ Hl) as [= Hexit].
  eapply (runs_loop handle (column_rep g l st)) in Hl as (t1 & l1 & Hw & Hinv & -> & ->);
    [| | |split_and!; [by apply column_inv_init|done|by rewrite <- Himg, put_pixels_id]].
  - assert (fs_pos st1 = img_height (fs_image st)) as <-
      by (destruct Hinv as [? _ _ _ Hh _ _]; lia).
    eapply runs_rbind; [done|run_done].
  - intros s t l' b (_ & -> & ->) [= <-]. run_call. run_done.
  - intros s t l' s' (Hinv & -> & ->) [= Hc] Hb.
    destruct (pixel_body_inv g _ _ Hm Hwf Hx s Hinv) as (s1 & Hb1 & Hinv1 & Hpos);
      [destruct Hinv as [_ _ _ _ Hh _ _]; lia|].
    rewrite Hb in Hb1. injection Hb1 as <-. eexists _, _.
    split; [by apply pixel_tree_runs|]. split_and!; [done..|].
    by rewrite put_pixels_twice, Hpos.
Qed.

(** The state of the loop on [x]: one column of pixels put per
    position. *)
Definition frame_rep g l (st : frame_state) (t : Z * Z) l' : Prop :=
  frame_inv g st /\ t = (fs_pos st, fs_iter st) /\
  l' = put_pixels l (fs_image st) (fs_pos st * img_height (image g)).

(** A frame that [ft_fractal] renders is a run of its tree against the
    collaborator: the tree reads the size of the image and puts the
    pixels one by one, one for each pixel of the grid, and leaves in
    the library the image that [ft_fractal] computes. *)
Lemma ft_fractal_tree_runs g g' l :
  renders g -> lib_image l = image g -> ft_fractal g = Ok g' ->
  runs handle (ft_fractal_tree (config_of g)) l
    (put_pixels l (image g') (area (image g))) (Ok tt).
Proof.
  intros [Hm Hwf] Himg. unfold ft_fractal, ft_fractal_tree.
  destruct (loop _ _ _ _) as [st1|] eqn:Hl; [|done]. intros [= <-].
  pose proof (loop_Ok_exit _ _ _ _ _ Hl) as [= Hexit].
  eapply (runs_loop handle (frame_rep g l)) in Hl as (t1 & l1 & Hw & Hinv & -> & ->);
    [| | |split_and!; [by apply frame_inv_init|done|by rewrite <- Himg, put_pixels_id]].
  - assert (fs_pos st1 = img_width (image g)) as Hpos
      by (destruct Hinv as [? _ _ Hwd _ _]; lia).
    rewrite Hpos in Hw. eapply runs_rbind; [done|run_done].
  - intros s t l' b (_ & -> & ->) [= <-]. run_call. run_done.
  - intros s t l' s' ([Hpos Hfree Hwf' Hwd Hh Hdone] & -> & ->) [= Hc] Hb.
    destruct (column_body_inv g Hm Hwf s) as (s1 & Hb1 & Hinv1 & Hpos1);
      [done|lia|].
    rewrite Hb in Hb1. injection Hb1 as <-. eexists _, _.
    split; [apply column_tree_runs; (done || lia)|].
    split_and!; [done..|]. rewrite put_pixels_twice, Hpos1, Hh. f_equal. lia.
Qed.

(** C17: for a positive cap that is an [int] and a well-formed image in
    the library, the tree of [ft_fractal] run against the collaborator
    ends without a fault; it leaves in the library an image of the
    same size that holds, at every pixel, the colour [get_color] gives
    to the escape count of the pixel's point. *)
Theorem ft_fractal_tree_paints (p : config F) l :
  0 < max_iter p <= INT_MAX -> image_wf (lib_image l) ->
  exists img,
    runs handle (ft_fractal_tree p) l (put_pixels l img (area (lib_image l))) (Ok tt) /\
    image_wf img /\ img_width img = img_width (lib_image l) /\
    img_height img = img_height (lib_image l) /\
    forall x y, in_grid img x y ->
      exists color,
        get_color (pixel_count (globals_of p img) x y) (max_iter p) = Ok color /\
        pixel_at img x y = Some color.
Proof.
  intros Hm Hwf.
  destruct (ft_fractal_spec (globals_of p (lib_image l)) Hm Hwf)
    as (img & Hf & Hwf' & Hw & Hh & Hp).
  exists img. split_and!; try done.
  - pose proof (ft_fractal_tree_runs (globals_of p (lib_image l)) _ l
      (conj Hm Hwf) eq_refl Hf) as Hr.
    by destruct p.
  - intros x y Hg. destruct (Hp x y Hg) as (color & Hc & Hat).
    exists color. by rewrite pixel_color_count in Hc by (simpl; lia).
Qed.

End Frames.

(** ** Witnesses *)

Lemma ft_fractal_tree_runs_witness :
  exists g', ft_fractal small_globals = Ok g' /\
    runs handle (ft_fractal_tree (config_of small_globals))
      (set_image (boot up_then_escape idle) (image small_globals))
      (put_pixels (set_image (boot up_then_escape idle) (image small_globals))
         (image g') 4) (Ok tt).
Proof.
  destruct (ft_fractal_spec small_globals) as (img & Hf & _);
    [simpl; int_range|apply mlx_new_image_wf; int_range|].
  eexists. split; [done|]. apply (ft_fractal_tree_runs small_globals); [|done..].
  split; [simpl; int_range|apply mlx_new_image_wf; int_range].
Defined.

Lemma ft_fractal_tree_paints_witness :
  exists img,
    runs handle (ft_fractal_tree (config_of small_globals))
      (set_image (boot up_then_escape idle) (mlx_new_image 2 2))
      (put_pixels (set_image (boot up_then_escape idle) (mlx_new_image 2 2)) img 4)
      (Ok tt) /\
    image_wf img.
Proof.
  destruct (ft_fractal_tree_paints (config_of small_globals)
    (set_image (boot up_then_escape idle) (mlx_new_image 2 2)))
    as (img & Hr & Hwf & _); [simpl; int_range|apply mlx_new_image_wf; int_range|].
  by exists img.
Defined.
