(* ===== verification/TreeLoop.v ===== *)
(** * TreeLoop: the hook and the event loop against the collaborator

    A tick of [ft_hook] is a run of [ft_hook_tree] with the keys that
    the library reports; the loop of the library, run against a
    session, ends as [mlx_loop] computes on the ticks up to the first
    with escape down, and does not end against a session without an
    end. *)

From ITree Require Import ITree ITreeFacts Events.State Events.StateFacts.
From Stdlib Require Import Floats String.
From S2P Require Import Prelude MachInt Scalar Complex Escape Color.
From S2P Require Import CString Atoi Output Image Render Hook Trees Main.
From S2P Require Import Calls Library TreeRender.

#[local] Open Scope tree_scope.

Section Ticks.
Context {F : Type} `{Scalar F}.
Implicit Types (g : globals F) (w : world F) (l : library) (k : keys).
Implicit Types (input : list keys) (n i : nat).

(** The library that shows the world [w]: its image and its close
    request are those of [w], and it has put the pixels of the frames
    that [w] has rendered. *)
Definition show l w : library :=
  set_closed
    (put_pixels l (image (w_globals w))
       (area (image (w_globals w)) * Z.of_nat (w_frames w)))
    (w_closed w).

Lemma show_idle l (g : globals F) :
  lib_image l = image g -> show l (mkWorld g (lib_closed l) 0) = l.
Proof.
  intros Hi. destruct l. unfold show, put_pixels, set_closed. simpl in *.
  rewrite <- Hi. f_equal. lia.
Qed.

(** One more frame of the same size. *)
Lemma show_frame l w g :
  area (image g) = area (image (w_globals w)) ->
  put_pixels (show l w) (image g) (area (image (w_globals w))) =
  show l (mkWorld g (w_closed w) (S (w_frames w))).
Proof.
  intros Ha. unfold show, put_pixels, set_closed. cbn -[Z.of_nat area].
  rewrite Ha, Nat2Z.inj_succ. f_equal. lia.
Qed.

Lemma ft_fractal_config g g' : ft_fractal g = Ok g' -> config_of g' = config_of g.
Proof.
  unfold ft_fractal. destruct (loop _ _ _ _); [|done]. by intros [= <-].
Qed.

Lemma rezoom_tree_runs (f : F -> F) w w' l :
  renders (w_globals w) -> rezoom f w = Ok w' ->
  runs handle (rezoom_tree f (config_of (w_globals w))) (show l w) (show l w')
    (Ok (config_of (w_globals w'))).
Proof.
  intros Hr. unfold rezoom, rezoom_tree.
  set (g0 := set_zoom (w_globals w) (f (zoom (w_globals w)))).
  assert (Hr0 : renders g0) by exact Hr.
  destruct (ft_fractal g0) as [g'|] eqn:Hf; [|done]. intros [= <-].
  destruct (ft_fractal_renders g0 g' Hr0 Hf) as [_ Ha].
  cbn [w_globals]. rewrite (ft_fractal_config _ _ Hf), <- (show_frame l w g' Ha).
  eapply runs_rbind; [|run_done].
  exact (ft_fractal_tree_runs g0 g' (show l w) Hr0 eq_refl Hf).
Qed.

(** A step of the hook that a key guards. *)
Lemma guarded_rezoom_runs (b : bool) (f : F -> F) w w' l :
  renders (w_globals w) -> (if b then rezoom f w else Ok w) = Ok w' ->
  runs handle
    (if b then rezoom_tree f (config_of (w_globals w))
     else pure (Ok (config_of (w_globals w))))
    (show l w) (show l w') (Ok (config_of (w_globals w'))).
Proof.
  destruct b; [apply rezoom_tree_runs|]. intros _ [= <-]. run_done.
Qed.

(** A tick of [ft_hook] with the keys that the library reports is a
    run of its tree, which asks for escape, up and down in turn. *)
Lemma ft_hook_tree_runs w w' l :
  renders (w_globals w) -> ft_hook (lib_keys l) w = Ok w' ->
  runs handle (ft_hook_tree (config_of (w_globals w))) (show l w) (show l w')
    (Ok (config_of (w_globals w'))).
Proof.
  intros Hr. unfold ft_hook, ft_hook_tree.
  set (w1 := if key_escape (lib_keys l) then mlx_close_window w else w).
  assert (Hg : w_globals w1 = w_globals w)
    by (subst w1; by destruct (key_escape _)).
  destruct (if key_up _ then _ else _) as [w2|] eqn:Hup; [|done]. cbn [bind].
  destruct (if key_down _ then _ else _) as [w3|] eqn:Hdown; [|done].
  intros [= <-]. rewrite <- Hg in Hr |- *.
  destruct (guarded_rezoom_renders _ _ _ _ Hr Hup) as [Hr2 _].
  run_call. eapply (runs_rbind _ _ _ _ (show l w1)).
  { subst w1. cbn [snd key_state lib_keys show set_closed put_pixels].
    destruct (key_escape (lib_keys l)); [apply runs_call; reflexivity|run_done]. }
  run_call. eapply runs_rbind; [apply (guarded_rezoom_runs _ _ _ _ _ Hr Hup)|].
  run_call. eapply runs_rbind; [apply (guarded_rezoom_runs _ _ _ _ _ Hr2 Hdown)|].
  run_done.
Qed.

(** The library [l'] is [l] after [n] more ticks. *)
Definition ticked l l' (n : nat) : Prop :=
  exists k, l' = set_tick l k (lib_now l + n)%nat.

(** The session of [l] goes on with the ticks of [input]. *)
Definition feeds l input : Prop :=
  forall i k, input !! i = Some k -> lib_ticks l (lib_now l + i)%nat = Some k.

(** The loop ends within [input], at a tick with escape down, or after
    it, where the session ends. *)
Definition stops l input : Prop :=
  existsb key_escape input = true \/
  lib_ticks l (lib_now l + length input)%nat = None.

(** The number of ticks that the loop polls from [w] on [input]. *)
Definition polled w input : nat :=
  if w_closed w then 0%nat else length (ticks_run input).

Lemma ticked_refl l : ticked l l 0.
Proof. exists (lib_keys l). destruct l. unfold set_tick. simpl. by rewrite Nat.add_0_r. Qed.

Lemma covers_feeds l input :
  lib_now l = 0%nat -> covers (lib_ticks l) input -> feeds l input /\ stops l input.
Proof. intros Hnow [Hin Hend]. unfold feeds, stops. by rewrite Hnow. Qed.

Lemma feeds_step l k k' input :
  feeds l (k' :: input) -> feeds (set_tick l k (S (lib_now l))) input.
Proof.
  intros Hfeed i k0 Hi. cbn [lib_ticks lib_now set_tick].
  rewrite Nat.add_succ_comm. by apply (Hfeed (S i)).
Qed.

Lemma stops_step l k input w w' :
  ft_hook k w = Ok w' -> stops l (k :: input) ->
  w_closed w' = true \/ stops (set_tick l k (S (lib_now l))) input.
Proof.
  intros Hh [He|Hend]; unfold stops.
  - simpl in He. apply orb_true_iff in He as [He|He]; [left|by right; left].
    by rewrite (ft_hook_closed _ _ _ Hh), He.
  - right; right. cbn [lib_ticks lib_now set_tick]. by rewrite Nat.add_succ_comm.
Qed.

Lemma polled_step k input w w' :
  w_closed w = false -> ft_hook k w = Ok w' ->
  polled w (k :: input) = S (polled w' input).
Proof.
  intros Hopen Hh. unfold polled.
  rewrite (ft_hook_closed _ _ _ Hh), Hopen, orb_false_r. simpl.
  by destruct (key_escape k).
Qed.

(** The test of the loop on a window that was asked to close or on a
    session that has ended, and on a tick. *)
Lemma poll_exit_runs l w :
  w_closed w = true \/ lib_ticks l (lib_now l) = None ->
  runs handle (call Mlx_poll) (show l w) (show l w) (Ok false).
Proof.
  intros Hend. apply runs_call. unfold handle, library_step, poll.
  cbn [show set_closed put_pixels lib_closed lib_ticks lib_now].
  destruct (w_closed w); [done|]. by destruct Hend as [?| ->].
Qed.

Lemma poll_tick_runs l w k :
  w_closed w = false -> lib_ticks l (lib_now l) = Some k ->
  runs handle (call Mlx_poll) (show l w) (show (set_tick l k (S (lib_now l))) w)
    (Ok true).
Proof.
  intros Hopen Hk. apply runs_call. unfold handle, library_step, poll.
  cbn [show set_closed put_pixels lib_closed lib_ticks lib_now]. by rewrite Hopen, Hk.
Qed.

(** The loop of the library, which has no bound, run against a session
    that goes on with the ticks of [input] and ends with them, ends as
    [mlx_loop] computes on [input]: in the same configuration, image
    and close request, after the ticks up to the first with escape
    down. *)
Lemma mlx_loop_tree_runs input : forall w w' l,
  renders (w_globals w) -> feeds l input -> w_closed w = true \/ stops l input ->
  mlx_loop input w = Ok w' ->
  exists l', ticked l l' (polled w input) /\
    runs handle (mlx_loop_tree ft_hook_tree (config_of (w_globals w)))
      (show l w) (show l' w') (Ok (config_of (w_globals w'))).
Proof.
  induction input as [|k input IH]; intros w w' l Hr Hfeed Hstop Hloop.
  { injection Hloop as <-. exists l.
    split; [unfold polled; destruct (w_closed w); apply ticked_refl|].
    apply runs_while_exit, poll_exit_runs.
    destruct Hstop as [?|[?|Hend]]; [by left|done|right].
    by rewrite Nat.add_0_r in Hend. }
  cbn [mlx_loop] in Hloop. destruct (w_closed w) eqn:Hopen.
  { injection Hloop as <-. exists l.
    split; [unfold polled; rewrite Hopen; apply ticked_refl|].
    apply runs_while_exit, poll_exit_runs. by left. }
  destruct (ft_hook k w) as [w1|] eqn:Hh; [|done]. cbn [bind] in Hloop.
  assert (Hk : lib_ticks l (lib_now l) = Some k)
    by (rewrite <- (Nat.add_0_r (lib_now l)); by apply Hfeed).
  destruct (ft_hook_renders _ _ _ Hr Hh) as [Hr1 _].
  destruct (IH w1 w' (set_tick l k (S (lib_now l)))) as (l' & [k' ->] & Hrun);
    [done|by eapply feeds_step| |done|].
  { destruct Hstop as [?|Hstop]; [congruence|by eapply stops_step]. }
  exists (set_tick l k' (lib_now l + polled w (k :: input))%nat).
  split; [by exists k'|]. rewrite (polled_step _ _ _ _ Hopen Hh), <- Nat.add_succ_comm.
  eapply runs_while_step; [by apply poll_tick_runs|by apply ft_hook_tree_runs|done].
Qed.

(** C22: from a well-formed world with an open window, against a
    session that goes on with the ticks of [input] and has escape down
    in one of them or ends after them, the loop of the library with
    [ft_hook] registered ends without a fault, after the ticks up to
    the first with escape down, in a world that these ticks reach: the
    window is asked to close exactly when escape was down, the zoom is
    the one that the ticks run compute in turn, and the library has
    put the pixels of one frame for each arrow key that was down in a
    tick run. *)
Theorem mlx_loop_tree_ends w l input :
  world_ok w -> frame_current w -> w_closed w = false ->
  feeds l input -> stops l input ->
  exists l' w', ticked l l' (length (ticks_run input)) /\
    runs handle (mlx_loop_tree ft_hook_tree (config_of (w_globals w)))
      (show l w) (show l' w') (Ok (config_of (w_globals w'))) /\
    reachable w w' /\
    w_closed w' = existsb key_escape input /\
    zoom (w_globals w') =
      foldl (fun z k => tick_zoom k z) (zoom (w_globals w)) (ticks_run input) /\
    lib_puts (show l' w') = lib_puts (show l w) +
      WIDTH * HEIGHT * Z.of_nat (sum_list (tick_frames <$> ticks_run input)).
Proof.
  intros Hok Hcur Hopen Hfeed Hstop.
  destruct (mlx_loop_ok input w Hok Hcur Hopen)
    as (w' & Hl & Hreach & Hc & Hz & Hfr).
  assert (Hr : renders (w_globals w)) by (by destruct Hok).
  destruct (mlx_loop_tree_runs _ w w' l Hr Hfeed (or_intror Hstop) Hl)
    as (l' & Ht & Hrun).
  unfold polled in Ht. rewrite Hopen in Ht. exists l', w'. split_and!; try done.
  destruct (mlx_loop_inv input w w (loop_inv_refl _ Hok Hcur)) as (? & Hl' & Hok' & _).
  rewrite Hl in Hl'. injection Hl' as <-.
  destruct Ht as [k ->]. cbn [show set_closed put_pixels lib_puts set_tick].
  unfold area. rewrite (wo_width _ Hok), (wo_height _ Hok), (wo_width _ Hok'),
    (wo_height _ Hok'), Hfr. lia.
Qed.

(** ** A session without an end *)

(** The library serves a session without an end: the window is open,
    the image is the one that [main] set up, and every tick to come
    has keys, escape not among them. *)
Record serving l : Prop := {
  sv_open : lib_closed l = false;
  sv_image : image_wf (lib_image l);
  sv_width : img_width (lib_image l) = WIDTH;
  sv_height : img_height (lib_image l) = HEIGHT;
  sv_endless : forall i, (lib_now l <= i)%nat ->
    exists k, lib_ticks l i = Some k /\ key_escape k = false;
}.

(** A configuration that [main] accepts. *)
Definition config_ok (p : config F) : Prop :=
  0 <= fractal_type p <= 2 /\ 0 < max_iter p <= INT_MAX.

(** A tick of a session without an end: the test of the loop goes on,
    the hook runs, and the library serves the rest of the session. *)
Lemma serving_tick p l :
  serving l -> config_ok p ->
  exists l1 l2 p',
    runs handle (call Mlx_poll) l l1 (Ok true) /\
    runs handle (ft_hook_tree p) l1 l2 (Ok p') /\ serving l2 /\ config_ok p'.
Proof.
  intros [Hopen Hwf Hwidth Hheight Hs] [Ht Hm].
  destruct (Hs (lib_now l)) as (k & Hk & Hesc); [done|].
  set (w := mkWorld (globals_of p (lib_image l)) (lib_closed l) 0).
  destruct (ft_hook_total k w) as (w' & Hh & [Ht' Hm' Hwf' Hwidth' Hheight']);
    [by split|].
  pose proof (ft_hook_closed _ _ _ Hh) as Hc. rewrite Hesc in Hc.
  cbn in Hc. rewrite Hopen in Hc.
  set (l1 := set_tick l k (S (lib_now l))).
  exists (show l1 w), (show l1 w'), (config_of (w_globals w')).
  assert (Hl : show l w = l) by by apply show_idle.
  assert (Hp : config_of (w_globals w) = p) by by destruct p.
  split_and!; [|rewrite <- Hp; by apply ft_hook_tree_runs| |done].
  - rewrite <- Hl at 1. by apply poll_tick_runs.
  - split; try done. intros i Hi. apply Hs. simpl in Hi. lia.
Qed.

(** Against a session without an end the loop of the library does not
    end. *)
Lemma mlx_loop_tree_diverges p l :
  serving l -> config_ok p -> diverges handle (mlx_loop_tree ft_hook_tree p) l.
Proof.
  intros Hl Hp.
  apply (diverges_while handle _ _ serving config_ok); [|done..].
  intros l0 p0. apply serving_tick.
Qed.

End Ticks.

(** ** Witnesses *)

Lemma mlx_loop_tree_ends_witness :
  exists (w w' : world float) l',
    runs handle (mlx_loop_tree ft_hook_tree (config_of (w_globals w)))
      (show (boot up_then_escape escape_at_1) w) (show l' w')
      (Ok (config_of (w_globals w'))) /\
    lib_now l' = 2%nat /\ w_closed w' = true.
Proof.
  destruct (first_world (F := float) 0 50) as (g & _ & Hok & Hcur & _);
    [lia|int_range|].
  destruct (covers_feeds (boot up_then_escape escape_at_1) _ eq_refl
    escape_at_1_covers) as [Hfeed Hstop].
  destruct (mlx_loop_tree_ends (mkWorld g false 1) _ _ Hok Hcur eq_refl Hfeed Hstop)
    as (l' & w' & [k ->] & Hr & _ & Hc & _).
  by eexists _, w', _.
Defined.
