(* ===== verification/Interaction.v ===== *)
(** * Interaction: the whole program against the collaborator

    A run of [main] is a run of [main_tree] against the library, with
    the same exit status, text, image and close request, for every
    session that has an end; against a session without an end the
    tree does not end. *)

From ITree Require Import ITree ITreeFacts Events.State Events.StateFacts.
From Stdlib Require Import Floats String.
From S2P Require Import Prelude MachInt Scalar Complex Escape Color.
From S2P Require Import CString Atoi Output Image Render Hook Trees Main.
From S2P Require Import Calls Library TreeRender TreeLoop.

#[local] Open Scope tree_scope.

Section Runs.
Context {F : Type} `{Scalar F}.
Implicit Types (c : collaborator) (l : library) (r : run F) (w : world F).

(** What the library holds when a run [r] of [main] has ended: the
    text written, whether the library was terminated, the image and
    the close request of the last world and the pixels of the frames
    it rendered; no pixel when the run reached no event loop. *)
Record ends_as (r : run F) l : Prop := {
  ea_stdout : lib_stdout l = stdout (events r);
  ea_terminated : lib_terminated l = bool_decide (exit_status r = EXIT_SUCCESS);
  ea_final : forall w, final r = Some w ->
    lib_image l = image (w_globals w) /\ lib_closed l = w_closed w /\
    lib_puts l = area (image (w_globals w)) * Z.of_nat (w_frames w);
  ea_idle : final r = None -> lib_puts l = 0;
}.

(** The library at the end of a run that reached no event loop. *)
Lemma ends_as_failure (es : list event) l :
  lib_stdout l = stdout es -> lib_terminated l = false -> lib_puts l = 0 ->
  ends_as (mkRun EXIT_FAILURE es None) l.
Proof. by split. Qed.

(** Closes [ends_as] for a run that wrote its messages and failed. *)
Ltac run_failure :=
  apply ends_as_failure; [unfold stdout; simpl; by rewrite ?app_nil_r|done..].

(** Runs the tree of a goal [runs t l ?l' r /\ ends_as r' ?l'] with
    [run], which finds the last state, and closes the rest as a
    failure. *)
Tactic Notation "run_to_failure" tactic3(run) :=
  split; [run|run_failure].

Lemma reject_tree_runs (format : cstring) l :
  plain format ->
  runs (E := mlxE) handle (reject_tree format) l (write l format) (Ok EXIT_FAILURE).
Proof.
  intros Hp. unfold reject_tree. run_pure (printf_plain format [] Hp).
  run_call. run_done.
Qed.

Lemma setup_failure_tree_runs (close : bool) l :
  runs (E := mlxE) handle (setup_failure_tree close)
    l (write (if close then set_closed l true else l) (puts (error_text (lib_answers l))))
    (Ok EXIT_FAILURE).
Proof.
  unfold setup_failure_tree.
  eapply (runs_rbind _ _ _ _ (if close then set_closed l true else l)).
  { destruct close; [apply runs_call; reflexivity|run_done]. }
  eapply runs_rbind; [apply runs_call; reflexivity|].
  eapply runs_rbind; [apply runs_call; reflexivity|].
  cbn [fst snd library_step]. destruct close; run_done.
Qed.

(** The library after the first frame and the registration of the
    hook shows the world in which the event loop starts. *)
Lemma show_first l (g0 g : globals F) :
  lib_closed l = false -> area (image g) = area (image g0) ->
  set_hooked (put_pixels l (image g) (area (image g0))) =
  show (set_hooked l) (mkWorld g false 1).
Proof.
  intros Hc Ha. unfold show, put_pixels, set_closed, set_hooked. simpl.
  rewrite Hc, Ha. f_equal. lia.
Qed.

Lemma start_tree_runs t m c s input r :
  0 < m <= INT_MAX -> covers s input -> start t m (with_ticks c input) = Ok r ->
  exists l, runs handle (start_tree (F := F) t m) (boot c s) l (Ok (exit_status r)) /\
    ends_as r l.
Proof.
  intros Hm Hs. unfold start, start_tree.
  cbn [with_ticks init_ok new_image_ok to_window_ok error_text ticks].
  destruct (init_ok c) eqn:Hi; cbn [negb].
  2:{ intros [= <-]. eexists.
      run_to_failure (run_answer Hi; apply setup_failure_tree_runs). }
  destruct (new_image_ok c) eqn:Hn; cbn [negb].
  2:{ intros [= <-]. eexists.
      run_to_failure (run_answer Hi; run_answer Hn; apply setup_failure_tree_runs). }
  destruct (to_window_ok c) eqn:Hw; cbn [negb].
  2:{ intros [= <-]. eexists.
      run_to_failure (run_answer Hi; run_answer Hn; run_answer Hw;
                      apply setup_failure_tree_runs). }
  set (g0 := mkGlobals t m (lit 1 1) (mlx_new_image WIDTH HEIGHT)).
  assert (Hr0 : renders g0)
    by (split; [done|apply mlx_new_image_wf; unfold WIDTH, HEIGHT; int_range]).
  destruct (ft_fractal g0) as [g|] eqn:Hf; [|done]. cbn [bind].
  destruct (mlx_loop _ _) as [w|] eqn:Hl; [|done]. intros [= <-].
  destruct (ft_fractal_renders g0 g Hr0 Hf) as [Hr Ha].
  set (l0 := set_image (set_window (boot c s) true) (mlx_new_image WIDTH HEIGHT)).
  destruct (covers_feeds (set_hooked l0) input eq_refl Hs) as [Hfeed Hstop].
  destruct (mlx_loop_tree_runs input (mkWorld g false 1) w (set_hooked l0)
    Hr Hfeed (or_intror Hstop) Hl) as (l2 & [k ->] & Hrun).
  cbn [w_globals] in Hrun.
  rewrite (ft_fractal_config _ _ Hf), <- (show_first l0 g0 g eq_refl Ha) in Hrun.
  eexists. split; [run_answer Hi; run_answer Hn; run_answer Hw|].
  - eapply runs_rbind; [exact (ft_fractal_tree_runs g0 g l0 Hr0 eq_refl Hf)|].
    run_call. eapply runs_rbind; [exact Hrun|]. run_call. run_done.
  - split; [done..| |done]. intros ? [= <-]. by split_and!.
Qed.

(** A run of [main] is a run of its tree against the collaborator, for
    every session that the ticks of the run cover: the tree makes the
    calls in the order of the source and returns the exit status of
    the run; the library ends with the text of the run on standard
    output, terminated exactly when the run succeeds, and with the
    image and the close request of the last world. *)
Lemma main_tree_runs argv c s input r :
  covers s input -> main argv (with_ticks c input) = Ok r ->
  exists l, runs handle (main_tree (F := F) argv) (boot c s) l (Ok (exit_status r)) /\
    ends_as r l.
Proof.
  intros Hs. destruct messages_plain as (Hpt & Hpi & Hpm).
  unfold main, main_tree. destruct (Z.of_nat (length argv) <? 3).
  { destruct (printf usage_format _) as [usage|] eqn:Hu; [|done]. intros [= <-].
    eexists. run_to_failure (run_pure Hu; run_call; by apply reject_tree_runs). }
  destruct (parse_fractal_type _) as [[t|]|] eqn:Hp; [|intros [= <-]|done].
  - cbn [bind]. destruct (Z.leb_spec (ft_atoi (nth 2 argv [])) 0) as [|Hpos].
    + intros [= <-]. eexists.
      run_to_failure (run_pure Hp; by apply reject_tree_runs).
    + intros Hr. pose proof (ft_atoi_in_int (nth 2 argv [])) as [_ Hmax].
      destruct (start_tree_runs _ _ _ _ _ _ (conj Hpos Hmax) Hs Hr) as (l & Hruns & He).
      exists l. split; [by run_pure Hp|done].
  - eexists. run_to_failure (run_pure Hp; by apply reject_tree_runs).
Qed.

(** A fault of [main] is a fault of its tree, before any call: the
    library is as it was. *)
(** The run of [main] on the ticks of [c] itself. *)
Lemma main_tree_runs_ticks argv c s r :
  covers s (ticks c) -> main argv c = Ok r ->
  exists l, runs handle (main_tree (F := F) argv) (boot c s) l (Ok (exit_status r)) /\
    ends_as r l.
Proof.
  intros Hs Hr. apply (main_tree_runs argv c s (ticks c)); [done|].
  by rewrite with_ticks_id.
Qed.

Lemma main_tree_faults argv c l f :
  main (F := F) argv c = Fault f ->
  runs handle (main_tree (F := F) argv) l l (Fault f).
Proof.
  intros Hf%main_fault. unfold main_tree.
  destruct (Z.of_nat (length argv) <? 3);
    apply runs_rbind_fault; rewrite Hf; apply runs_pure.
Qed.

(** With a set-up that succeeds and a session without an end, [main]
    from the set-up on does not end. *)
Lemma start_tree_diverges t m c s :
  0 <= t <= 2 -> 0 < m <= INT_MAX -> setup_ok c = true -> endless s ->
  diverges handle (start_tree (F := F) t m) (boot c s).
Proof.
  intros Ht Hm Hc Hs. unfold setup_ok in Hc.
  apply andb_true_iff in Hc as [[Hi Hn]%andb_true_iff Hw].
  destruct (first_world (F := F) t m Ht Hm) as (g & Hf & [_ _ Hwf Hwidth Hheight] & _).
  assert (Hr0 : renders (initial_globals (F := F) t m))
    by (split; [done|apply mlx_new_image_wf; unfold WIDTH, HEIGHT; int_range]).
  unfold start_tree. run_answer Hi. run_answer Hn. run_answer Hw.
  eapply diverges_rbind;
    [exact (ft_fractal_tree_runs _ g
       (set_image (set_window (boot c s) true) (mlx_new_image WIDTH HEIGHT))
       Hr0 eq_refl Hf)|].
  run_call. apply diverges_rbind_l, mlx_loop_tree_diverges; [|done].
  split; [done..|]. intros i _. apply Hs.
Qed.

End Runs.

(** ** The whole program *)

Section Success.
Context {F : Type} `{Scalar F}.
Implicit Types (c : collaborator) (l : library) (s : session).

(** C12: for every command line, well-formed or not, every collaborator
    and every session that its ticks cover, the tree of [main] run
    against the library returns what [main] returns: the exit status
    of the run, with the text of the run on standard output, the
    library terminated exactly when the run succeeds, the image, the
    close request and the pixels put of the last world, and no pixel
    put when no event loop was reached; or the fault of [main], with
    the library as it was. *)
Theorem main_tree_refines argv c s :
  covers s (ticks c) ->
  match main (F := F) argv c with
  | Ok r =>
      exists l, runs handle (main_tree (F := F) argv) (boot c s) l
                  (Ok (exit_status r)) /\ ends_as r l
  | Fault f =>
      runs handle (main_tree (F := F) argv) (boot c s) (boot c s) (Fault f)
  end.
Proof.
  intros Hs. destruct (main argv c) as [r|f] eqn:Hm;
    [by apply main_tree_runs_ticks|by apply (main_tree_faults argv c)].
Qed.

(** C20: the tree of [main] run against the collaborator ends on every
    command line of well-formed arguments that starts with the name of
    the program, whatever the collaborator answers and whatever the
    ticks, in every session that has an end: one in which, at some
    tick, escape is down or the user has closed the window.  It
    returns [EXIT_SUCCESS] or [EXIT_FAILURE]: success exactly when
    there are two arguments or more, the fractal name is accepted, the
    cap is positive and the set-up succeeds; it terminates the library
    exactly then, and puts no pixel otherwise. *)
Theorem main_tree_total argv c s :
  argv <> [] -> Forall valid_arg argv -> has_end s ->
  exists l status,
    runs handle (main_tree (F := F) argv) (boot c s) l (Ok status) /\
    (status = EXIT_SUCCESS \/ status = EXIT_FAILURE) /\
    (status = EXIT_SUCCESS <->
     (3 <= length argv)%nat /\
     (exists t, parse_fractal_type (nth 1 argv []) = Ok (Some t)) /\
     0 < ft_atoi (nth 2 argv []) /\ setup_ok c = true) /\
    lib_terminated l = bool_decide (status = EXIT_SUCCESS) /\
    (status = EXIT_FAILURE -> lib_puts l = 0).
Proof.
  intros Hne Hargs [input Hs]%has_end_covers.
  destruct (main_total (F := F) argv (with_ticks c input) Hne Hargs) as (r & Hr & Hiff).
  destruct (main_tree_runs argv c s input r Hs Hr) as (l & Hruns & [_ Hterm _ Hidle]).
  exists l, (exit_status r). split_and!; try done.
  - destruct (main_status argv _ r Hr) as [?|[? _]]; auto.
  - destruct (main_status argv _ r Hr) as [->|[_ ?]]; [done|auto].
Qed.

(** C11: with accepted arguments, a collaborator that sets the window
    and the image up and a session that the ticks of [c] cover, the
    tree of [main] run against the collaborator returns
    [EXIT_SUCCESS].  It writes nothing and terminates the library; the
    window was asked to close exactly when escape was down in a tick;
    the library has put the pixels of the first frame and of one
    frame for each arrow key that was down in a tick run, 512 by 512
    each; and its image holds, at every pixel, the colour of the
    escape count of its point for the fractal and the cap of the
    command line at some zoom. *)
Theorem main_tree_success argv t m c s :
  accepted argv t m -> setup_ok c = true -> covers s (ticks c) ->
  exists l (z : F),
    runs handle (main_tree (F := F) argv) (boot c s) l (Ok EXIT_SUCCESS) /\
    lib_stdout l = [] /\ lib_terminated l = true /\
    lib_closed l = existsb key_escape (ticks c) /\
    lib_puts l =
      WIDTH * HEIGHT * Z.of_nat (S (sum_list (tick_frames <$> ticks_run (ticks c)))) /\
    image_wf (lib_image l) /\ img_width (lib_image l) = WIDTH /\
    img_height (lib_image l) = HEIGHT /\
    forall x y, 0 <= x < WIDTH -> 0 <= y < HEIGHT ->
      exists color,
        get_color (pixel_count (mkGlobals t m z (lib_image l)) x y) m = Ok color /\
        pixel_at (lib_image l) x y = Some color.
Proof.
  intros Hacc Hc Hcov. pose proof Hacc as (_ & _ & _ & _ & Hpos).
  destruct (main_accepted argv t m c Hacc) as (Hmain & Ht & Hm).
  destruct (start_run t m c) as (r & Hr & Hs); [done..|].
  rewrite Hc in Hs. destruct Hs as (Hst & Hev & w & Hw & [Hok Hcur Hwt Hwm _]).
  destruct (start_final t m c r w) as [Hfr Hcl]; [done..|].
  rewrite <- Hmain in Hr.
  destruct (main_tree_runs_ticks argv c s r Hcov Hr) as (l & Hruns & [Hout Hterm Hfin _]).
  destruct (Hfin w Hw) as (Himg & Hclosed & Hputs).
  destruct Hok as [_ _ Hwf Hwidth Hheight].
  exists l, (zoom (w_globals w)). rewrite Hst in Hruns, Hterm.
  rewrite Hev in Hout. rewrite Himg. split_and!; try done; [congruence| |].
  { rewrite Hputs, Hfr. unfold area. by rewrite Hwidth, Hheight. }
  intros x y Hx Hy.
  destruct (Hcur x y) as (color & Hcolor & Hat); [unfold in_grid; lia|].
  exists color. rewrite pixel_color_count in Hcolor by lia.
  destruct (w_globals w). simpl in *. by subst.
Qed.

(** C23: with accepted arguments and a collaborator that sets the window
    and the image up, the tree of [main] run against a session without
    an end does not end: [main] returns only when escape is down in a
    tick or the user closes the window. *)
Theorem main_tree_diverges argv t m c s :
  accepted argv t m -> setup_ok c = true -> endless s ->
  diverges handle (main_tree (F := F) argv) (boot c s).
Proof.
  intros Hacc Hc Hs. destruct (main_accepted argv t m c Hacc) as (_ & Ht & Hm).
  destruct Hacc as (Hlen & _ & Hp & Hcap & Hpos). unfold main_tree.
  rewrite (proj2 (Z.ltb_ge _ _)) by lia.
  eapply diverges_rbind; [rewrite Hp; apply runs_pure|].
  rewrite Hcap, (proj2 (Z.leb_gt _ _)) by done.
  apply start_tree_diverges; (done || lia).
Qed.

End Success.

(** ** Witnesses *)

Lemma main_tree_refines_witness :
  runs handle (main_tree (F := float) [])
    (boot up_then_escape (finite (ticks up_then_escape)))
    (boot up_then_escape (finite (ticks up_then_escape))) (Fault NullPointer).
Proof.
  exact (main_tree_refines (F := float) [] up_then_escape _ (finite_covers _)).
Defined.

Lemma main_tree_total_witness :
  exists l status,
    runs handle (main_tree (F := float) mandelbrot_50)
      (boot (mkCollaborator true true false [] []) (finite [])) l (Ok status) /\
    status <> EXIT_SUCCESS.
Proof.
  destruct (main_tree_total (F := float) mandelbrot_50
    (mkCollaborator true true false [] []) (finite []))
    as (l & status & Hr & _ & Hiff & _);
    [done|solve_valid_args|apply finite_has_end|].
  exists l, status. split; [done|]. by intros (_ & _ & _ & ?)%Hiff.
Defined.

Lemma main_tree_success_witness :
  exists l (z : float),
    runs handle (main_tree (F := float) mandelbrot_50)
      (boot up_then_escape escape_at_1) l (Ok EXIT_SUCCESS) /\
    lib_stdout l = [] /\ lib_terminated l = true /\
    lib_closed l = true /\ lib_puts l = 524288 /\
    image_wf (lib_image l) /\ img_width (lib_image l) = WIDTH /\
    img_height (lib_image l) = HEIGHT /\
    forall x y, 0 <= x < WIDTH -> 0 <= y < HEIGHT ->
      exists color,
        get_color (pixel_count (mkGlobals 0 50 z (lib_image l)) x y) 50 = Ok color /\
        pixel_at (lib_image l) x y = Some color.
Proof.
  by apply main_tree_success;
    [apply mandelbrot_50_accepted| |apply escape_at_1_covers].
Defined.

Lemma main_tree_diverges_witness :
  diverges handle (main_tree (F := float) mandelbrot_50) (boot up_then_escape idle).
Proof.
  apply (main_tree_diverges mandelbrot_50 0 50);
    [apply mandelbrot_50_accepted|done|]. intros i. by eexists.
Defined.
