(* ===== verification/Order.v ===== *)
(** * Order: the calls of the program, in their order

    The record of a run of [main] against a display: which calls the
    program makes, with which answers, in which order.  The calls of
    one frame ([frame_calls]: the pixels column by column, each with
    the colour of its point, the size of the image read before every
    test of a loop), of one tick of the event loop ([tick_calls]) and
    of the loop ([loop_calls]) are functions of the configuration and
    of the keys that the display answers; the calls of [main] from the
    set-up on ([start_calls]) and of [main] ([main_calls]) are
    relations on the status and the record.  The trees of [Calls], run
    against a lawful display that records the calls, ensure them.  The
    proofs are by the rules of [Hoare], with one invariant for each
    loop, and use of the display the laws of [DisplayLaws] only. *)

From ITree Require Import ITree ITreeFacts Events.State Events.StateFacts.
From Stdlib Require Import Floats String.
From S2P Require Import Prelude MachInt Scalar Complex Escape Color.
From S2P Require Import CString Atoi Output Image Render Hook Trees Hoare Exec.
From S2P Require Import Main Calls Display.

#[local] Open Scope tree_scope.

(** The record of a run. *)
Definition calls : Type := list (entry mlxE).

(** ** The records *)

(** A call of a frame: a read of the size of the image, or a pixel
    that is put. *)
Definition frame_call (c : entry mlxE) : bool :=
  match entry_call c in mlxE T return T -> bool with
  | Image_width | Image_height => fun _ => true
  | Mlx_put_pixel _ _ _ => fun r => if r is Ok _ then true else false
  | _ => fun _ => false
  end (entry_answer c).

(** The calls of a loop that counts up to a bound that it reads before
    every test: [counted_calls e n f] are the calls of the loop whose
    test reads [n] by the call [e] and whose iteration [i] makes the
    calls [f i]. *)
Definition counted_calls (e : mlxE Z) (n : Z) (f : Z -> calls) : calls :=
  (seqZ 0 n ≫= fun i => Entry Z e n :: f i) ++ [Entry Z e n].

(** A pixel that is put. *)
Definition put_call (x y color : Z) : entry mlxE :=
  Entry (result unit) (Mlx_put_pixel x y color) (Ok tt).

Definition key_call (k : key) (b : bool) : entry mlxE :=
  Entry bool (Mlx_is_key_down k) b.

(** The request to close, when it is made. *)
Definition close_calls (close : bool) : calls :=
  if close then [Entry unit Mlx_close_window tt] else [].

(** The calls of the set-up. *)
Definition init_call (ok : bool) : entry mlxE :=
  Entry bool (Mlx_init WIDTH HEIGHT title false) ok.
Definition new_image_call (ok : bool) : entry mlxE :=
  Entry bool (Mlx_new_image WIDTH HEIGHT) ok.
Definition to_window_call (ok : bool) : entry mlxE :=
  Entry bool (Mlx_image_to_window 0 0) ok.

(** The calls that report the error of the library: the text that
    [mlx_strerror] answers is the one written. *)
Definition error_calls (text : cstring) : calls :=
  [Entry cstring Mlx_strerror text; Entry unit (Write (puts text)) tt].

Section Records.
Context {F : Type} `{Scalar F}.
Implicit Types (p : config F) (w h x y : Z) (k : keys) (input : list keys).

(** The colour of the pixel [(x, y)] in a frame of [p]; the colour
    exists for the caps that [main] accepts ([frame_color_ok]). *)
Definition frame_color p x y : Z :=
  match pixel_color (globals_of p (mlx_new_image 0 0)) x y with
  | Ok color => color
  | Fault _ => 0
  end.

(** The calls of the column [x] of a frame on an image of height [h]:
    the pixels from the top down. *)
Definition column_calls p h x : calls :=
  counted_calls Image_height h (fun y => [put_call x y (frame_color p x y)]).

(** The calls of a frame on an image of [w] by [h] pixels: the columns
    from the left to the right. *)
Definition frame_calls p w h : calls :=
  counted_calls Image_width w (column_calls p h).

(** The configuration after an arrow key was asked about, and the
    frame rendered when it is down. *)
Definition arrow_config (down : bool) (f : F -> F) p : config F :=
  if down then with_zoom p (f (zoom_level p)) else p.

Definition arrow_calls w h (down : bool) (f : F -> F) p : calls :=
  if down then frame_calls (arrow_config true f p) w h else [].

(** The configuration after one run of [ft_hook] with the keys [k]. *)
Definition tick_config p k : config F :=
  arrow_config (key_down k) zoom_out (arrow_config (key_up k) zoom_in p).

(** The calls of one run of [ft_hook] with the keys [k]: the three
    keys are asked about in the order escape, up, down; the close is
    requested right after escape was found down, and a frame is
    rendered with the new zoom right after an arrow key was found
    down. *)
Definition tick_calls w h p k : calls :=
  key_call MLX_KEY_ESCAPE (key_escape k) :: close_calls (key_escape k) ++
  key_call MLX_KEY_UP (key_up k) :: arrow_calls w h (key_up k) zoom_in p ++
  key_call MLX_KEY_DOWN (key_down k) ::
  arrow_calls w h (key_down k) zoom_out (arrow_config (key_up k) zoom_in p).

(** The calls of the ticks with the keys [input], one after the other:
    each tick starts with a poll that finds the window open. *)
Fixpoint ticks_calls w h p input : calls :=
  match input with
  | [] => []
  | k :: input =>
      Entry bool Mlx_poll true :: tick_calls w h p k ++
      ticks_calls w h (tick_config p k) input
  end.

(** The calls of the event loop: its ticks, and the poll that ends it. *)
Definition loop_calls w h p input : calls :=
  ticks_calls w h p input ++ [Entry bool Mlx_poll false].

(** The configuration of the first frame. *)
Definition first_config (t m : Z) : config F :=
  {| fractal_type := t; max_iter := m; zoom_level := lit 1 1 |}.

(** The calls of a run that succeeds, for the fractal type [t], the
    cap [m] and the keys [input] of the ticks: the set-up, the first
    frame, the registration of the hook, the loop and the termination
    of the library. *)
Definition success_calls (t m : Z) input : calls :=
  init_call true :: new_image_call true :: to_window_call true ::
  frame_calls (first_config t m) WIDTH HEIGHT ++
  Entry unit Mlx_loop_hook tt ::
  loop_calls WIDTH HEIGHT (first_config t m) input ++
  [Entry unit Mlx_terminate tt].

(** The calls of [main] from the set-up on, for the fractal type [t]
    and the cap [m], with the exit status: the three failures of the
    set-up, and the run that succeeds, whose loop runs the ticks of
    some keys up to the first tick with escape down. *)
Inductive start_calls (t m : Z) : Z -> calls -> Prop :=
| start_no_library text :
    start_calls t m EXIT_FAILURE (init_call false :: error_calls text)
| start_no_image text :
    start_calls t m EXIT_FAILURE
      (init_call true :: new_image_call false ::
       Entry unit Mlx_close_window tt :: error_calls text)
| start_no_window text :
    start_calls t m EXIT_FAILURE
      (init_call true :: new_image_call true :: to_window_call false ::
       Entry unit Mlx_close_window tt :: error_calls text)
| start_success input :
    start_calls t m EXIT_SUCCESS (success_calls t m (ticks_run input)).

(** The calls of [main] with its result: a command line that is
    refused writes its messages and calls nothing else; a fault comes
    before every call. *)
Inductive main_calls (argv : list cstring) : result Z -> calls -> Prop :=
| main_no_name f :
    (length argv < 3)%nat -> printf usage_format [argv !! 0%nat] = Fault f ->
    main_calls argv (Fault f) []
| main_usage usage :
    (length argv < 3)%nat -> printf usage_format [argv !! 0%nat] = Ok usage ->
    main_calls argv (Ok EXIT_FAILURE)
      [Entry unit (Write usage) tt; Entry unit (Write types_message) tt]
| main_type_fault f :
    (3 <= length argv)%nat -> parse_fractal_type (nth 1 argv []) = Fault f ->
    main_calls argv (Fault f) []
| main_type_refused :
    (3 <= length argv)%nat -> parse_fractal_type (nth 1 argv []) = Ok None ->
    main_calls argv (Ok EXIT_FAILURE) [Entry unit (Write invalid_type_message) tt]
| main_cap_refused t :
    (3 <= length argv)%nat ->
    parse_fractal_type (nth 1 argv []) = Ok (Some t) ->
    ft_atoi (nth 2 argv []) <= 0 ->
    main_calls argv (Ok EXIT_FAILURE) [Entry unit (Write max_iter_message) tt]
| main_started t status tr :
    (3 <= length argv)%nat ->
    parse_fractal_type (nth 1 argv []) = Ok (Some t) ->
    0 < ft_atoi (nth 2 argv []) ->
    start_calls t (ft_atoi (nth 2 argv [])) status tr ->
    main_calls argv (Ok status) tr.

(** ** The records as lists *)

Lemma counted_calls_nil (e : mlxE Z) n (f : Z -> calls) :
  n <= 0 -> counted_calls e n f = [Entry Z e n].
Proof. intros Hn. unfold counted_calls. by rewrite seqZ_nil. Qed.

(** The calls of the first [i + 1] iterations are those of the first
    [i] and those of the iteration [i]. *)
Lemma counted_calls_step (e : mlxE Z) n (f : Z -> calls) i :
  0 <= i ->
  (seqZ 0 (i + 1) ≫= fun i => Entry Z e n :: f i) =
  (seqZ 0 i ≫= fun i => Entry Z e n :: f i) ++ Entry Z e n :: f i.
Proof.
  intros Hi. rewrite (seqZ_app 0 i 1), bind_app by lia. f_equal.
  rewrite (seqZ_cons _ 1), seqZ_nil by lia. cbn [mbind list_bind].
  by rewrite app_nil_r.
Qed.

Lemma counted_calls_Forall (P : entry mlxE -> Prop) (e : mlxE Z) n f :
  P (Entry Z e n) -> (forall i, 0 <= i < n -> Forall P (f i)) ->
  Forall P (counted_calls e n f).
Proof.
  intros He Hf. apply Forall_app. split; [|by apply Forall_singleton].
  apply Forall_bind, Forall_forall. intros i Hi%elem_of_seqZ.
  apply Forall_cons. split; [done|apply Hf; lia].
Qed.

(** A frame is made of calls of frames. *)
Lemma frame_calls_Forall (P : entry mlxE -> Prop) p w h :
  (forall e, frame_call e -> P e) -> Forall P (frame_calls p w h).
Proof.
  intros HP. apply counted_calls_Forall; [by apply HP|]. intros x _.
  apply counted_calls_Forall; [by apply HP|]. intros y _.
  apply Forall_singleton. by apply HP.
Qed.

Lemma ticks_calls_app w h p input1 input2 :
  ticks_calls w h p (input1 ++ input2) =
  ticks_calls w h p input1 ++
  ticks_calls w h (foldl tick_config p input1) input2.
Proof.
  revert p. induction input1 as [|k input1 IH]; intros p; [done|].
  cbn [ticks_calls app foldl]. by rewrite IH, <- !app_assoc.
Qed.

(** A record of ticks without escape is a record of ticks that end at
    the first escape, and stays one with one more tick. *)
Lemma ticks_run_snoc input k :
  Forall (fun k => key_escape k = false) input ->
  ticks_run (input ++ [k]) = input ++ [k].
Proof.
  induction 1 as [|k0 input Hk0 _ IH]; cbn; [by case_match|].
  by rewrite Hk0, IH.
Qed.

Lemma arrow_config_cap (down : bool) (f : F -> F) p :
  max_iter (arrow_config down f p) = max_iter p.
Proof. by destruct down. Qed.

Lemma tick_config_cap p k : max_iter (tick_config p k) = max_iter p.
Proof. unfold tick_config. by rewrite !arrow_config_cap. Qed.

(** The colour of a pixel exists for a positive cap that is an [int]. *)
Lemma frame_color_ok p x y :
  0 < max_iter p <= INT_MAX ->
  pixel_color (globals_of p (mlx_new_image 0 0)) x y = Ok (frame_color p x y).
Proof.
  intros Hcap. unfold frame_color.
  by destruct (pixel_color_ok (globals_of p (mlx_new_image 0 0)) x y Hcap) as [c ->].
Qed.

End Records.

(** A frame has some hundred thousands of calls: it is not unfolded
    by simplification. *)
Arguments frame_calls : simpl never.
Arguments loop_calls : simpl never.
Arguments success_calls : simpl never.

(** ** One frame *)

Section Frame.
Context {F : Type} `{Scalar F} {L : Type} `{DisplayLaws L}.
Implicit Types (p : config F) (l : L) (log fr : calls) (s : L * calls).

(** The display that records the calls. *)
Definition record := recorder (@display_step L _).

Section Counted.
Variables (e : mlxE Z) (n : Z) (f : Z -> calls) (log : calls).
Variables (body : Z * Z -> itree mlxE (result (Z * Z))) (P : Z -> L -> Prop).
Hypothesis bound : n <= UINT32_MAX.
Hypothesis read : forall iter l,
  P iter l -> snd (display_step _ e l) = n /\ P iter (fst (display_step _ e l)).
Hypothesis iteration : forall i iter l log,
  0 <= i < n -> P iter l ->
  wp record (body (i, iter))
    (fun r s' =>
       exists iter', r = Ok (uint32_add i 1, iter') /\ P iter' (fst s') /\
         snd s' = log ++ f i)
    (l, log).

(** A loop that counts from 0 up to a bound that keeps the value [n]
    makes the calls of its iterations from 0 to [n - 1] in turn, each
    after a read of the bound, and a last read. *)
Lemma counted_tree_calls iter l :
  P iter l ->
  wp record
    (while_tree (fun st => v <~ call e ;; pure (Ok (fst st <? v))) body (0, iter))
    (fun r s' =>
       exists st, r = Ok st /\ P (snd st) (fst s') /\
         snd s' = log ++ counted_calls e n f)
    (l, log).
Proof.
  intros HP.
  apply (wp_while _ _ _
    (fun st s' => 0 <= fst st /\ (fst st <= n \/ fst st = 0) /\ P (snd st) (fst s') /\
       snd s' = log ++ (seqZ 0 (fst st) ≫= fun i => Entry Z e n :: f i))
    (fun st s' => 0 <= fst st < n /\ P (snd st) (fst s') /\
       snd s' = log ++ (seqZ 0 (fst st) ≫= fun i => Entry Z e n :: f i) ++
                [Entry Z e n])).
  - cbn [fst snd]. split_and!; [lia|lia|done|by rewrite app_nil_r].
  - intros [i it] [l1 log1] (Hi & Hle & HP1 & Hlog). cbn [fst snd] in *.
    wp_call. destruct (read it l1 HP1) as [-> HP2]. apply wp_pure.
    subst log1. rewrite <- app_assoc.
    destruct (Z.ltb_spec i n) as [Hlt|Hge]; [by split_and!|].
    eexists. split_and!; [done..|]. cbn [snd]. unfold counted_calls.
    destruct Hle as [Hle| ->]; [by replace i with n by lia|].
    by rewrite (seqZ_nil 0 n).
  - intros [i it] [l1 log1] (Hi & HP1 & Hlog). cbn [fst snd] in *.
    wp_apply iteration.
    intros r [l2 log2] (it' & -> & HP2 & Hlog2). cbn [fst snd] in *.
    rewrite uint32_add_id by (unfold in_uint32, UINT32_MAX in *; lia).
    cbn [fst snd]. split_and!; [lia|lia|done|].
    rewrite counted_calls_step by lia. subst. by rewrite <- !app_assoc.
Qed.

End Counted.

Section Pixels.
Variables (p : config F) (w h : Z) (closed : bool).
Hypothesis cap : 0 < max_iter p <= INT_MAX.
Hypothesis width_bound : w <= UINT32_MAX.
Hypothesis height_bound : h <= UINT32_MAX.

(** What the loops of a frame keep: the threaded count does not
    matter to the dispatch, and the display has an image of [w] by [h]
    pixels and the close request [closed]. *)
Definition framing (iter : Z) l : Prop :=
  iter_free (globals_of p (mlx_new_image 0 0)) iter /\
  image_size l = (w, h) /\ display_closed l = closed.

Lemma framing_read (e : mlxE Z) (n : Z) iter l :
  keeps_image e -> keeps_open e ->
  (image_size l = (w, h) -> snd (display_step _ e l) = n) ->
  framing iter l -> snd (display_step _ e l) = n /\ framing iter (fst (display_step _ e l)).
Proof.
  intros Hi Ho Hn (Hfree & Hsize & Hclosed). split; [by apply Hn|].
  split_and!; [done|by rewrite image_kept|by rewrite closed_kept].
Qed.

(** One pixel: its colour is that of its point, and it is put. *)
Lemma pixel_tree_calls x y iter l log :
  0 <= x < w -> 0 <= y < h -> framing iter l ->
  wp record (pixel_tree p (lit 4 1 / zoom_level p)%sc x (y, iter))
    (fun r s' =>
       exists iter', r = Ok (uint32_add y 1, iter') /\ framing iter' (fst s') /\
         snd s' = log ++ [put_call x y (frame_color p x y)])
    (l, log).
Proof.
  intros Hx Hy (Hfree & Hsize & Hclosed). unfold pixel_tree. cbn [fst snd].
  pose proof (frame_color_ok p x y cap) as Hcolor. unfold pixel_color in Hcolor.
  rewrite <- Hfree in Hcolor.
  destruct (select_iter _ iter _) as [iter'|] eqn:Hiter; [|done].
  change (dispatch (fractal_type p) (max_iter p) iter
            (pixel_point (lit 4 1 / zoom_level p)%sc x y)) with
    (select_iter (globals_of p (mlx_new_image 0 0)) iter
       (pixel_point (plane_range (globals_of p (mlx_new_image 0 0))) x y)).
  rewrite Hiter. wp_pure_step. cbn in Hcolor. rewrite Hcolor. wp_pure_step.
  apply wp_rbind, wp_record_call_result.
  assert (in_grid (display_image l) x y) as Hgrid.
  { injection Hsize as Hw Hh. unfold in_grid. by rewrite Hw, Hh. }
  rewrite put_answer by done. apply wp_pure. exists iter'.
  split; [done|]. split; [|done].
  split_and!; cbn [fst]; [by eapply select_iter_free|
    by rewrite image_kept|by rewrite closed_kept].
Qed.

(** One column. *)
Lemma column_tree_calls x iter l log :
  0 <= x < w -> framing iter l ->
  wp record (column_tree p (lit 4 1 / zoom_level p)%sc (x, iter))
    (fun r s' =>
       exists iter', r = Ok (uint32_add x 1, iter') /\ framing iter' (fst s') /\
         snd s' = log ++ column_calls p h x)
    (l, log).
Proof.
  intros Hx Hl. unfold column_tree. cbn [fst snd]. apply wp_rbind.
  eapply wp_weaken.
  { apply (counted_tree_calls Image_height h
             (fun y => [put_call x y (frame_color p x y)]) log _ framing);
      [done| | |done].
    - intros it l1 Hl1. apply framing_read; [exact I|exact I| |done].
      intros [= _ <-]. apply height_answer.
    - intros y it l1 log1 Hy Hl1. by apply pixel_tree_calls. }
  intros [[y it]|] [l1 log1] (st & ? & Hl1 & Hlog); simplify_eq.
  apply wp_pure. by exists it.
Qed.

End Pixels.

(** [ft_fractal] makes the calls of a frame of the image of the
    display, keeps the image and the close request, and returns. *)
Lemma ft_fractal_tree_calls p w h l log :
  0 < max_iter p <= INT_MAX -> w <= UINT32_MAX -> h <= UINT32_MAX ->
  image_size l = (w, h) ->
  wp record (ft_fractal_tree p)
    (fun r s' =>
       r = Ok tt /\ image_size (fst s') = (w, h) /\
       display_closed (fst s') = display_closed l /\
       snd s' = log ++ frame_calls p w h)
    (l, log).
Proof.
  intros Hcap Hw Hh Hsize. unfold ft_fractal_tree. apply wp_rbind.
  eapply wp_weaken.
  { apply (counted_tree_calls Image_width w (column_calls p h) log _
             (framing p w h (display_closed l))); [done| | |by split].
    - intros it l1 Hl1. apply framing_read; [exact I|exact I| |done].
      intros [= <- _]. apply width_answer.
    - intros x it l1 log1 Hx Hl1. by apply column_tree_calls. }
  intros [st|] [l1 log1] (st' & ? & (_ & ? & ?) & Hlog); simplify_eq.
  by apply wp_pure.
Qed.

End Frame.

(** ** The event loop *)

Section Loop.
Context {F : Type} `{Scalar F} {L : Type} `{DisplayLaws L}.
Variables (w h : Z).
Hypothesis width_bound : w <= UINT32_MAX.
Hypothesis height_bound : h <= UINT32_MAX.
Implicit Types (p : config F) (l : L) (log : calls) (s : L * calls) (k : keys).

(** The request to close, made when escape is down. *)
Lemma close_tree_calls (escape : bool) l log :
  wp record (if escape then call Mlx_close_window else pure (Ok tt))
    (fun r s' =>
       r = Ok tt /\ image_size (fst s') = image_size l /\
       display_closed (fst s') = display_closed l || escape /\
       snd s' = log ++ close_calls escape)
    (l, log).
Proof.
  destruct escape.
  - apply wp_record_call. destruct (snd (display_step _ Mlx_close_window l)).
    cbn [fst snd]. by rewrite image_kept, close_closes, orb_true_r.
  - apply wp_pure. by rewrite app_nil_r, orb_false_r.
Qed.

(** A key is asked about: the display keeps the image and the close
    request. *)
Lemma key_call_kept (key : key) l :
  image_size (fst (display_step _ (Mlx_is_key_down key) l)) = image_size l /\
  display_closed (fst (display_step _ (Mlx_is_key_down key) l)) = display_closed l.
Proof. by rewrite image_kept, closed_kept. Qed.

(** The frame rendered with the new zoom when an arrow key is down. *)
Lemma arrow_tree_calls (down : bool) (f : F -> F) p l log :
  0 < max_iter p <= INT_MAX -> image_size l = (w, h) ->
  wp record (if down then rezoom_tree f p else pure (Ok p))
    (fun r s' =>
       r = Ok (arrow_config down f p) /\ image_size (fst s') = (w, h) /\
       display_closed (fst s') = display_closed l /\
       snd s' = log ++ arrow_calls w h down f p)
    (l, log).
Proof.
  intros Hcap Hsize. destruct down.
  - unfold rezoom_tree. apply wp_rbind. wp_apply (ft_fractal_tree_calls _ w h).
    intros r s' (-> & ? & ? & ?). by apply wp_pure.
  - apply wp_pure. by rewrite app_nil_r.
Qed.

(** One run of [ft_hook] makes the calls of a tick with the keys that
    the display answers, and requests the close when escape is down. *)
Lemma ft_hook_tree_calls p l log :
  0 < max_iter p <= INT_MAX -> image_size l = (w, h) ->
  wp record (ft_hook_tree p)
    (fun r s' =>
       exists k,
         r = Ok (tick_config p k) /\ image_size (fst s') = (w, h) /\
         display_closed (fst s') = display_closed l || key_escape k /\
         snd s' = log ++ tick_calls w h p k)
    (l, log).
Proof.
  intros Hcap Hsize. unfold ft_hook_tree. wp_call.
  destruct (key_call_kept MLX_KEY_ESCAPE l) as [Hs0 Hc0].
  set (escape := snd (display_step _ (Mlx_is_key_down MLX_KEY_ESCAPE) l)) in *.
  apply wp_rbind. wp_apply close_tree_calls.
  intros r [l1 log1] (-> & Hs1 & Hc1 & Hl1). cbn [fst snd] in *. wp_call.
  destruct (key_call_kept MLX_KEY_UP l1) as [Hs1' Hc1'].
  set (up := snd (display_step _ (Mlx_is_key_down MLX_KEY_UP) l1)) in *.
  apply wp_rbind. eapply wp_weaken; [apply arrow_tree_calls; [done|congruence]|].
  intros r [l2 log2] (-> & Hs2 & Hc2 & Hl2). cbn [fst snd] in *. wp_call.
  destruct (key_call_kept MLX_KEY_DOWN l2) as [Hs2' Hc2'].
  set (down := snd (display_step _ (Mlx_is_key_down MLX_KEY_DOWN) l2)) in *.
  apply wp_rbind.
  eapply wp_weaken;
    [apply arrow_tree_calls; [by rewrite arrow_config_cap|congruence]|].
  intros r [l3 log3] (-> & Hs3 & Hc3 & Hl3). cbn [fst snd] in *.
  apply wp_pure. exists (mkKeys escape up down).
  split_and!; cbn [fst snd key_escape]; [done|done|congruence|].
  subst. unfold tick_calls, key_call. cbn [key_escape key_up key_down].
  by rewrite <- !app_assoc.
Qed.

(** The loop of the library makes the calls of its ticks, one after
    the other while the window is open, and the poll that ends it: no
    tick follows a tick with escape down. *)
Lemma mlx_loop_tree_calls p l log :
  0 < max_iter p <= INT_MAX -> image_size l = (w, h) ->
  display_closed l = false ->
  wp record (mlx_loop_tree ft_hook_tree p)
    (fun r s' =>
       exists input,
         r = Ok (foldl tick_config p input) /\ ticks_run input = input /\
         snd s' = log ++ loop_calls w h p input)
    (l, log).
Proof.
  intros Hcap Hsize Hopen. unfold mlx_loop_tree.
  set (idle := Forall (fun k => key_escape k = false)).
  apply (wp_while _ _ _
    (fun p' s' => exists done,
       p' = foldl tick_config p done /\ image_size (fst s') = (w, h) /\
       ticks_run done = done /\ (display_closed (fst s') = false -> idle done) /\
       snd s' = log ++ ticks_calls w h p done)
    (fun p' s' => exists done,
       p' = foldl tick_config p done /\ image_size (fst s') = (w, h) /\
       display_closed (fst s') = false /\ idle done /\
       snd s' = log ++ ticks_calls w h p done ++ [Entry bool Mlx_poll true])).
  - exists []. cbn [fst snd ticks_calls]. rewrite app_nil_r.
    split_and!; [done..|by constructor|done].
  - intros p1 [l1 log1] (done & -> & Hs & Hrun & Hidle & Hlog).
    cbn [fst snd] in *. subst log1. apply wp_record_call.
    pose proof (poll_open l1) as Hpoll.
    pose proof (closed_kept _ Mlx_poll l1 I) as Hkept.
    pose proof (image_kept _ Mlx_poll l1 I) as Hsame.
    destruct (snd (display_step _ Mlx_poll l1)); cbn [fst snd].
    + exists done. rewrite <- app_assoc, Hkept, Hpoll by done.
      split_and!; [done|congruence|done|by apply Hidle, Hpoll|done].
    + exists done. by rewrite <- app_assoc.
  - intros p1 [l1 log1] (done & -> & Hs & Hc & Hidle & Hlog).
    cbn [fst snd] in *. subst log1.
    eapply wp_weaken; [apply ft_hook_tree_calls; [|done]|].
    { clear -Hcap. induction done as [|k done IH] using rev_ind; [done|].
      by rewrite foldl_snoc, tick_config_cap. }
    intros r [l2 log2] (k & -> & Hs2 & Hc2 & Hlog). cbn [fst snd] in *.
    subst log2. exists (done ++ [k]).
    rewrite foldl_snoc, ticks_calls_app, ticks_run_snoc, <- !app_assoc by done.
    cbn [ticks_calls app]. rewrite app_nil_r.
    split_and!; [done..| |done].
    rewrite Hc2, Hc. intros Hk. apply Forall_app. split; [done|].
    by apply Forall_singleton.
Qed.

End Loop.

(** ** The program *)

Section Program.
Context {F : Type} `{Scalar F} {L : Type} `{DisplayLaws L}.
Implicit Types (l : L) (log tr : calls) (s : L * calls) (argv : list cstring).

(** The exit after a failure of the set-up. *)
Lemma setup_failure_tree_calls (close : bool) l log :
  wp record (setup_failure_tree close)
    (fun r s' =>
       r = Ok EXIT_FAILURE /\
       exists text, snd s' = log ++ close_calls close ++ error_calls text)
    (l, log).
Proof.
  unfold setup_failure_tree. apply wp_rbind.
  wp_apply close_tree_calls.
  intros r [l1 log1] (-> & _ & _ & Hl1). cbn [fst snd] in *. subst log1.
  wp_call. wp_call.
  destruct (snd (display_step _ (Write _) _)).
  apply wp_pure. split; [done|]. eexists. cbn [snd]. by rewrite <- !app_assoc.
Qed.

(** The failure of a step of the set-up: the exit gives the record
    [failure] of [start_calls]. *)
Ltac setup_fails failure :=
  wp_apply setup_failure_tree_calls; intros ? ? (-> & text & ->);
  eexists _, _; split_and!; [done| |apply (failure _ _ text)];
  by rewrite <- ?app_assoc.

(** [main] from the set-up on makes the calls of [start_calls], in
    their order, and returns their status. *)
Lemma start_tree_calls t m l log :
  0 < m <= INT_MAX -> display_closed l = false ->
  wp record (start_tree (F := F) t m)
    (fun r s' =>
       exists status tr,
         r = Ok status /\ snd s' = log ++ tr /\ start_calls (F := F) t m status tr)
    (l, log).
Proof.
  intros Hm Hopen. unfold start_tree.
  wp_call.
  pose proof (closed_kept _ (Mlx_init WIDTH HEIGHT title false) l I) as Hc1.
  destruct (snd (display_step _ (Mlx_init _ _ _ _) l)); cbn [negb].
  2: by setup_fails start_no_library.
  set (l1 := fst (display_step _ (Mlx_init _ _ _ _) l)) in *.
  wp_call.
  pose proof (closed_kept _ (Mlx_new_image WIDTH HEIGHT) l1 I) as Hc2.
  pose proof (new_image_size WIDTH HEIGHT l1) as Hs2.
  destruct (snd (display_step _ (Mlx_new_image _ _) l1)); cbn [negb].
  2: by setup_fails start_no_image.
  set (l2 := fst (display_step _ (Mlx_new_image _ _) l1)) in *.
  wp_call.
  pose proof (closed_kept _ (Mlx_image_to_window 0 0) l2 I) as Hc3.
  pose proof (image_kept _ (Mlx_image_to_window 0 0) l2 I) as Hs3.
  destruct (snd (display_step _ (Mlx_image_to_window _ _) l2)); cbn [negb].
  2: by setup_fails start_no_window.
  set (l3 := fst (display_step _ (Mlx_image_to_window _ _) l2)) in *.
  apply wp_rbind.
  eapply wp_weaken;
    [apply (ft_fractal_tree_calls _ WIDTH HEIGHT); [done..|by rewrite Hs3, Hs2]|].
  intros r [l4 log4] (-> & Hs4 & Hc4 & Hlog). cbn [fst snd] in *. subst log4.
  wp_call.
  pose proof (closed_kept _ Mlx_loop_hook l4 I) as Hc5.
  pose proof (image_kept _ Mlx_loop_hook l4 I) as Hs5.
  destruct (snd (display_step _ Mlx_loop_hook l4)).
  apply wp_rbind.
  eapply wp_weaken;
    [apply (mlx_loop_tree_calls WIDTH HEIGHT); [done..|congruence|congruence]|].
  intros r [l6 log6] (input & -> & Hrun & Hlog). cbn [fst snd] in *. subst log6.
  wp_call.
  destruct (snd (display_step _ Mlx_terminate l6)).
  apply wp_pure. eexists _, _. split_and!; [done| |apply (start_success _ _ input)].
  cbn [snd]. unfold success_calls. by rewrite Hrun, <- !app_assoc.
Qed.

(** A message and the exit with failure. *)
Lemma reject_tree_calls (format : cstring) l log :
  plain format ->
  wp record (reject_tree format)
    (fun r s' => r = Ok EXIT_FAILURE /\ snd s' = log ++ [Entry unit (Write format) tt])
    (l, log).
Proof.
  intros Hplain. unfold reject_tree. rewrite printf_plain by done.
  wp_pure_step. wp_call.
  destruct (snd (display_step _ (Write format) l)). by apply wp_pure.
Qed.

(** The tree of [main], run against a lawful display whose window was
    not asked to close, ensures the calls of [main_calls]. *)
Lemma main_tree_ensures argv l :
  display_closed l = false ->
  wp record (main_tree (F := F) argv)
    (fun r s' => main_calls (F := F) argv r (snd s')) (l, []).
Proof.
  intros Hopen. destruct messages_plain as (Hpt & Hpi & Hpm). unfold main_tree.
  destruct (Z.ltb_spec (Z.of_nat (length argv)) 3) as [Hlen|Hlen].
  { apply wp_rbind. destruct (printf usage_format _) as [usage|f] eqn:Hu;
      apply wp_pure; [|constructor; [lia|done]].
    wp_call.
    destruct (snd (display_step _ (Write usage) l)).
    wp_apply reject_tree_calls.
    intros r s' [-> ->]. constructor; [lia|done]. }
  apply wp_rbind. destruct (parse_fractal_type _) as [[t|]|f] eqn:Hp; apply wp_pure.
  - destruct (Z.leb_spec (ft_atoi (nth 2 argv [])) 0) as [Hcap|Hcap].
    + wp_apply reject_tree_calls.
      intros r s' [-> ->]. apply (main_cap_refused _ t); (done || lia).
    + pose proof (ft_atoi_in_int (nth 2 argv [])) as [_ Hmax].
      wp_apply start_tree_calls.
      intros r s' (status & tr & -> & -> & Hs). apply (main_started _ t); (done || lia).
  - wp_apply reject_tree_calls.
    intros r s' [-> ->]. apply main_type_refused; (done || lia).
  - apply main_type_fault; (done || lia).
Qed.

End Program.
