(* ===== verification/Pixels.v ===== *)
(** * Pixels: the pixels of a frame, in the order in which they are put

    The record of a frame ([frame_calls] of [Order]) read as the list
    of the pixels that [ft_fractal] puts: [puts] keeps of a record the
    calls of [mlx_put_pixel], with the position and the colour of each.
    A frame puts the pixels of the grid of the image column by column
    and each column from the top down ([grid]), every pixel once, with
    the colour of its point.  The theorem on the tree of [ft_fractal]
    holds for every lawful display. *)

From ITree Require Import ITree ITreeFacts Events.State Events.StateFacts.
From Stdlib Require Import Floats String.
From S2P Require Import Prelude MachInt Scalar Complex Escape Color.
From S2P Require Import CString Atoi Output Image Render Hook Trees Hoare Exec.
From S2P Require Import Main Calls Display Library TreeRender Order.

(** The pixel that a call puts: its position and its colour. *)
Definition put_of (c : entry mlxE) : option (Z * Z * Z) :=
  match entry_call c with
  | Mlx_put_pixel x y color => Some (x, y, color)
  | _ => None
  end.

(** The pixels that the calls of a record put, in their order. *)
Definition puts (tr : calls) : list (Z * Z * Z) := omap put_of tr.

(** The positions of an image of [w] by [h] pixels, the columns from
    the left to the right and each column from the top down. *)
Definition grid (w h : Z) : list (Z * Z) :=
  x ← seqZ 0 w; (fun y => (x, y)) <$> seqZ 0 h.

Section Grid.
Implicit Types (w h x y : Z).

Lemma elem_of_grid w h x y : (x, y) ∈ grid w h <-> 0 <= x < w /\ 0 <= y < h.
Proof.
  unfold grid. rewrite list_elem_of_bind. setoid_rewrite elem_of_seqZ.
  setoid_rewrite list_elem_of_fmap. setoid_rewrite elem_of_seqZ. split.
  - intros (x' & (y' & [= -> ->] & Hy) & Hx). lia.
  - intros [Hx Hy]. exists x. split; [exists y|]; (done || lia).
Qed.

(** No position comes twice. *)
Lemma NoDup_grid w h : NoDup (grid w h).
Proof.
  apply NoDup_bind; [| |apply NoDup_seqZ].
  - intros x1 x2 [x y] _ _ (? & [= -> _] & _)%list_elem_of_fmap
      (? & [= -> _] & _)%list_elem_of_fmap. done.
  - intros x _. apply NoDup_fmap_2; [by intros y1 y2 [=]|apply NoDup_seqZ].
Qed.

Lemma length_grid w h : length (grid w h) = (Z.to_nat w * Z.to_nat h)%nat.
Proof.
  unfold grid. generalize (seqZ 0 w) (length_seqZ 0 w). intros xs <-.
  induction xs as [|x xs IH]; [done|].
  by rewrite bind_cons, length_app, IH, length_fmap, length_seqZ.
Qed.

End Grid.

Section Puts.
Context {F : Type} `{Scalar F}.
Implicit Types (p : config F) (w h x y : Z) (tr : calls).

Lemma puts_app tr1 tr2 : puts (tr1 ++ tr2) = puts tr1 ++ puts tr2.
Proof. apply omap_app. Qed.

Lemma puts_bind {A} (f : A -> calls) (xs : list A) :
  puts (xs ≫= f) = xs ≫= fun i => puts (f i).
Proof.
  induction xs as [|i xs IH]; [done|]. by rewrite !bind_cons, puts_app, IH.
Qed.

(** The reads of the bound of a loop put no pixel. *)
Lemma puts_counted (e : mlxE Z) n (f : Z -> calls) :
  put_of (Entry Z e n) = None ->
  puts (counted_calls e n f) = seqZ 0 n ≫= fun i => puts (f i).
Proof.
  intros He. unfold counted_calls. rewrite puts_app, puts_bind.
  unfold puts at 2. cbn [omap list_omap]. rewrite He, app_nil_r.
  apply list_bind_ext; [|done]. intros i. unfold puts. cbn [omap list_omap].
  by rewrite He.
Qed.

(** The pixels of a column, from the top down. *)
Lemma column_calls_puts p h x :
  puts (column_calls p h x) = (fun y => (x, y, frame_color p x y)) <$> seqZ 0 h.
Proof.
  unfold column_calls. rewrite puts_counted by done.
  induction (seqZ 0 h) as [|y ys IH]; [done|]. by rewrite bind_cons, fmap_cons, IH.
Qed.

(** The pixels of a frame: those of the grid, in its order, each with
    the colour of its point. *)
Lemma frame_calls_puts p w h :
  puts (frame_calls p w h) =
  (fun xy => (fst xy, snd xy, frame_color p (fst xy) (snd xy))) <$> grid w h.
Proof.
  unfold frame_calls, grid. rewrite puts_counted by done.
  induction (seqZ 0 w) as [|x xs IH]; [done|].
  by rewrite !bind_cons, fmap_app, IH, column_calls_puts, <- list_fmap_compose.
Qed.

(** A frame puts every pixel of the image once. *)
Lemma frame_calls_once p w h :
  fst <$> puts (frame_calls p w h) = grid w h.
Proof.
  rewrite frame_calls_puts, <- list_fmap_compose.
  rewrite <- (list_fmap_id (grid w h)) at 2.
  apply list_fmap_ext. by intros _ [x y] _.
Qed.

Lemma frame_calls_count p w h :
  length (puts (frame_calls p w h)) = (Z.to_nat w * Z.to_nat h)%nat.
Proof. by rewrite frame_calls_puts, length_fmap, length_grid. Qed.

(** C15: for a positive cap that is an [int] and an image whose sizes
    are those of a [uint32_t], the calls of every run of [ft_fractal]
    against a lawful display are those of [frame_calls], in their
    order: the width of the image is read before every column and
    after the last, the height before every pixel of a column and
    after its last, and the pixels are put column by column from the
    left and each column from the top down, every position of the
    image once and no other, each with the colour that [get_color]
    gives to the escape count of its point.  The run returns without
    a fault and leaves the size of the image and the close request as
    they were. *)
Theorem ft_fractal_tree_record {L : Type} `{DisplayLaws L} p w h (l l' : L) tr
    (r : result unit) :
  0 < max_iter p <= INT_MAX -> w <= UINT32_MAX -> h <= UINT32_MAX ->
  image_size l = (w, h) ->
  exec (@display_step L _) (ft_fractal_tree p) l tr l' r ->
  r = Ok tt /\ tr = frame_calls p w h /\
  puts tr =
    (fun xy => (fst xy, snd xy, frame_color p (fst xy) (snd xy))) <$> grid w h /\
  NoDup (fst <$> puts tr) /\
  (forall x y,
     get_color (pixel_count (globals_of p (mlx_new_image 0 0)) x y) (max_iter p) =
     Ok (frame_color p x y)) /\
  image_size l' = (w, h) /\ display_closed l' = display_closed l.
Proof.
  intros Hcap Hw Hh Hsize Ht.
  pose proof (wp_exec _ _ _ _ _ _ _
                (ft_fractal_tree_calls p w h l [] Hcap Hw Hh Hsize) Ht)
    as (-> & Hsize' & Hclosed & Htr).
  cbn [fst snd app] in *. subst tr.
  split_and!; [done|done|apply frame_calls_puts| | |done|done].
  - rewrite frame_calls_once. apply NoDup_grid.
  - intros x y. rewrite <- frame_color_ok by done.
    symmetry. apply pixel_color_count. cbn. lia.
Qed.

End Puts.

(** ** Witnesses *)

Lemma ft_fractal_tree_record_witness :
  exists tr l',
    exec (@library_step) (ft_fractal_tree (config_of small_globals))
      (set_image (boot up_then_escape idle) (mlx_new_image 2 2)) tr l' (Ok tt) /\
    puts tr = [(0, 0, 255); (0, 1, 255); (1, 0, 255); (1, 1, 255)].
Proof.
  destruct ft_fractal_tree_runs_witness as (g' & _ & [tr Ht]%handle_exec).
  eexists tr, _. split; [exact Ht|].
  edestruct (ft_fractal_tree_record (config_of small_globals) 2 2
               (set_image (boot up_then_escape idle) (mlx_new_image 2 2)))
    as (_ & _ & Hputs & _); [simpl; int_range|done|done|done|exact Ht|].
  rewrite Hputs. by vm_compute.
Defined.
