(* ===== verification/Protocol.v ===== *)
(** * Protocol: the program calls the library as the library requires

    The library is used through handles: [mlx_init] gives the handle of
    the library, [mlx_new_image] that of the image, [mlx_terminate]
    frees both.  A call is allowed when the handles it takes exist:
    the life of the library ([phase]) and the calls allowed in each
    phase ([protocol_step]) are modelled from the interface; a pixel is
    put inside the image.  The theorems say that the record of every
    run of [main] that ends is the one that [main_calls] describes,
    against every lawful display; that the calls made so far by a run
    against the library, whether it ends or not, begin such a record
    and follow the protocol, on every command line and every session;
    and that a run leaves the library terminated exactly when [main]
    returns [EXIT_SUCCESS]. *)

From ITree Require Import ITree ITreeFacts Events.State Events.StateFacts.
From Stdlib Require Import Floats String.
From S2P Require Import Prelude MachInt Scalar Complex Escape Color.
From S2P Require Import CString Atoi Output Image Render Hook Trees Hoare Exec.
From S2P Require Import Main Calls Display Library TreeRender TreeLoop Interaction.
From S2P Require Import Order.

(** ** The protocol of the library *)

(** The life of the library: before [mlx_init] has succeeded, with the
    library and without an image, with an image, and after
    [mlx_terminate]. *)
Variant phase : Set := Down | Up | Ready | Over.

#[export] Instance phase_eq_dec : EqDecision phase.
Proof. solve_decision. Defined.

(** The library exists. *)
Definition alive (ph : phase) : bool :=
  match ph with Up | Ready => true | Down | Over => false end.

(** The phase after a call, when the call is allowed: [mlx_init] once,
    before every other call of the library; a call that takes the
    library while it exists; a call that takes the image once the
    image exists, and a pixel inside the image; [mlx_strerror] and the
    writes to standard output at any time. *)
Definition protocol_step (ph : phase) (c : entry mlxE) : option phase :=
  match entry_call c in mlxE T return T -> option phase with
  | Mlx_init _ _ _ _ => fun ok =>
      match ph with Down => Some (if ok then Up else Down) | _ => None end
  | Mlx_new_image _ _ => fun ok =>
      if alive ph then Some (if ok then Ready else ph) else None
  | Mlx_image_to_window _ _ => fun _ =>
      match ph with Ready => Some Ready | _ => None end
  | Image_width | Image_height => fun _ =>
      match ph with Ready => Some Ready | _ => None end
  | Mlx_put_pixel _ _ _ => fun r =>
      match ph, r with Ready, Ok _ => Some Ready | _, _ => None end
  | Mlx_is_key_down _ => fun _ => if alive ph then Some ph else None
  | Mlx_close_window | Mlx_loop_hook => fun _ => if alive ph then Some ph else None
  | Mlx_poll => fun _ => if alive ph then Some ph else None
  | Mlx_terminate => fun _ => if alive ph then Some Over else None
  | Mlx_strerror => fun _ => Some ph
  | Write _ => fun _ => Some ph
  end (entry_answer c).

(** The phase after the calls of a record, when each is allowed. *)
Fixpoint protocol_run (ph : phase) (tr : calls) : option phase :=
  match tr with
  | [] => Some ph
  | c :: tr =>
      match protocol_step ph c with
      | Some ph' => protocol_run ph' tr
      | None => None
      end
  end.

(** The record follows the protocol from the start of the program. *)
Definition conforms (tr : calls) : Prop := is_Some (protocol_run Down tr).

#[export] Instance conforms_dec tr : Decision (conforms tr).
Proof. unfold conforms. apply _. Defined.

Section Protocol.
Context {F : Type} `{Scalar F}.
Implicit Types (ph : phase) (tr : calls) (p : config F) (k : keys).

Lemma protocol_run_app ph tr1 tr2 :
  protocol_run ph (tr1 ++ tr2) =
    match protocol_run ph tr1 with
    | Some ph' => protocol_run ph' tr2
    | None => None
    end.
Proof.
  revert ph. induction tr1 as [|e tr1 IH]; intros ph; [done|]. cbn.
  by destruct (protocol_step ph e).
Qed.

(** A record that follows the protocol does so up to each of its
    calls. *)
Lemma conforms_prefix tr1 tr2 : conforms (tr1 ++ tr2) -> conforms tr1.
Proof.
  unfold conforms. rewrite protocol_run_app.
  destruct (protocol_run Down tr1); [by eexists|by intros [? ?]].
Qed.

(** Calls that the library allows with an image and that keep the
    image: records of such calls keep the phase [Ready]. *)
Definition keeps_ready (e : entry mlxE) : Prop :=
  protocol_step Ready e = Some Ready.

Lemma protocol_run_ready tr :
  Forall keeps_ready tr -> protocol_run Ready tr = Some Ready.
Proof. induction 1 as [|e tr He _ IH]; [done|]. cbn. by rewrite He. Qed.

Lemma frame_call_ready (e : entry mlxE) : frame_call e -> keeps_ready e.
Proof. by destruct e as [T [] a]; try destruct a. Qed.

Lemma frame_calls_ready p w h : Forall keeps_ready (frame_calls p w h).
Proof. apply frame_calls_Forall, frame_call_ready. Qed.

Lemma arrow_calls_ready w h (down : bool) (f : F -> F) p :
  Forall keeps_ready (arrow_calls w h down f p).
Proof. destruct down; [apply frame_calls_ready|constructor]. Qed.

Lemma tick_calls_ready w h p k : Forall keeps_ready (tick_calls w h p k).
Proof.
  unfold tick_calls.
  repeat first [apply Forall_cons; split; [done|]|apply Forall_app; split];
    [by destruct (key_escape k); repeat constructor|apply arrow_calls_ready..].
Qed.

Lemma ticks_calls_ready w h p input :
  Forall keeps_ready (ticks_calls w h p input).
Proof.
  revert p. induction input as [|k input IH]; intros p; [constructor|].
  apply Forall_cons. split; [done|]. apply Forall_app.
  split; [apply tick_calls_ready|apply IH].
Qed.

Lemma loop_calls_ready w h p input :
  Forall keeps_ready (loop_calls w h p input).
Proof.
  apply Forall_app. split; [apply ticks_calls_ready|by apply Forall_singleton].
Qed.

(** A set-up that succeeds, a frame, the hook, a loop and the
    termination follow the protocol. *)
Lemma success_run (fr lp : calls) :
  Forall keeps_ready fr -> Forall keeps_ready lp ->
  protocol_run Down
    (init_call true :: new_image_call true :: to_window_call true ::
     fr ++ Entry unit Mlx_loop_hook tt :: lp ++ [Entry unit Mlx_terminate tt]) =
  Some Over.
Proof.
  intros Hfr Hlp. cbn. rewrite protocol_run_app, protocol_run_ready by done.
  cbn. by rewrite protocol_run_app, protocol_run_ready.
Qed.

(** The calls of [main] from the set-up on follow the protocol, and
    leave the library terminated exactly when the status is
    [EXIT_SUCCESS]. *)
Lemma start_calls_conform t m status tr :
  start_calls (F := F) t m status tr ->
  exists ph, protocol_run Down tr = Some ph /\
    (ph = Over <-> status = EXIT_SUCCESS).
Proof.
  destruct 1 as [| | |input];
    [eexists; (split; [reflexivity|]); by split..|].
  exists Over. split; [|done]. unfold success_calls.
  apply success_run; [apply frame_calls_ready|apply loop_calls_ready].
Qed.

Lemma main_calls_conform argv r tr :
  main_calls (F := F) argv r tr ->
  exists ph, protocol_run Down tr = Some ph /\
    (ph = Over <-> r = Ok EXIT_SUCCESS).
Proof.
  destruct 1 as [| | | | |t status tr _ _ _ (ph & Hrun & Hiff)%start_calls_conform];
    [exists Down; by split..|].
  exists ph. split; [done|]. rewrite Hiff. split; [by intros ->|by intros [= ->]].
Qed.

End Protocol.

(** ** The runs of the program *)

(** ** Sessions that end later

    What a program has done after a number of calls does not depend on
    the ticks of the session from that number on: the library answers
    the next [k] calls alike in a session and in the session that the
    user ends at a tick [n], when [k] ticks from the current one come
    before [n]. *)
Definition within (n k : nat) (l1 l2 : library) : Prop :=
  l2 = set_session l1 (cut n (lib_ticks l1)) /\ (lib_now l1 + k <= n)%nat.

Lemma library_step_within n k T (e : mlxE T) l1 l2 :
  within n (S k) l1 l2 ->
  snd (library_step e l1) = snd (library_step e l2) /\
  within n k (fst (library_step e l1)) (fst (library_step e l2)).
Proof.
  intros [-> Hnow]. unfold within.
  destruct e; cbn [library_step set_session lib_answers lib_image lib_keys];
    try (split_and!; [done..|cbn; lia]).
  - by destruct (new_image_ok _); (split_and!; [done..|cbn; lia]).
  - by destruct (mlx_put_pixel _ _ _ _); (split_and!; [done..|cbn; lia]).
  - unfold poll, cut. cbn [set_session lib_closed lib_ticks lib_now].
    rewrite (proj2 (Nat.ltb_lt _ _)) by lia.
    by destruct (lib_closed l1), (lib_ticks l1 (lib_now l1));
      (split_and!; [done..|cbn; lia]).
Qed.

Section Runs.
Context {F : Type} `{Scalar F}.
Implicit Types (c : collaborator) (s : session) (l : library) (tr : calls).

(** The record of a run against a lawful display is one of
    [main_calls]. *)
Lemma display_record {L : Type} `{DisplayLaws L} argv (l l' : L) tr (r : result Z) :
  display_closed l = false ->
  exec (@display_step L _) (main_tree (F := F) argv) l tr l' r ->
  main_calls (F := F) argv r tr.
Proof.
  intros Hopen Ht.
  exact (wp_exec _ _ (fun r st => main_calls (F := F) argv r (snd st)) _ _ _ _
           (main_tree_ensures argv l Hopen) Ht).
Qed.

(** A run against the library has a record, which is one of
    [main_calls] and follows the protocol. *)
Lemma runs_record argv c s l (r : result Z) :
  runs handle (main_tree (F := F) argv) (boot c s) l r ->
  exists tr,
    exec (@library_step) (main_tree (F := F) argv) (boot c s) tr l r /\
    main_calls (F := F) argv r tr /\ conforms tr.
Proof.
  intros [tr Ht]%handle_exec. exists tr.
  pose proof (display_record argv (boot c s) l tr r eq_refl Ht) as Hcalls.
  split_and!; [done..|].
  destruct (main_calls_conform argv r tr Hcalls) as (ph & Hph & _). by exists ph.
Qed.

(** In a session that has an end the run and its record exist. *)
Lemma main_tree_record argv c s :
  has_end s ->
  exists tr l r,
    exec (@library_step) (main_tree (F := F) argv) (boot c s) tr l r /\
    main_calls (F := F) argv r tr /\ conforms tr.
Proof.
  intros [input Hs]%has_end_covers.
  assert (exists l r, runs handle (main_tree (F := F) argv) (boot c s) l r)
    as (l & r & Hr).
  { destruct (main (F := F) argv (with_ticks c input)) as [r|f] eqn:Hm.
    - destruct (main_tree_runs argv c s input r Hs Hm) as (l & Hr & _). by eexists _, _.
    - eexists _, _. exact (main_tree_faults argv _ (boot c s) f Hm). }
  destruct (runs_record argv c s l r Hr) as (tr & ?). by exists tr, l, r.
Qed.

(** The run of a command line of well-formed arguments, with its
    status. *)
Lemma main_tree_status_record argv c s :
  argv <> [] -> Forall valid_arg argv -> covers s (ticks c) ->
  exists tr l status,
    exec (@library_step) (main_tree (F := F) argv) (boot c s) tr l (Ok status) /\
    (status = EXIT_SUCCESS <->
     (3 <= length argv)%nat /\
     (exists t, parse_fractal_type (nth 1 argv []) = Ok (Some t)) /\
     0 < ft_atoi (nth 2 argv []) /\ setup_ok c = true).
Proof.
  intros Hne Hargs Hs.
  destruct (main_total (F := F) argv c Hne Hargs) as (r & Hr & Hiff).
  destruct (main_tree_runs_ticks argv c s r Hs Hr) as (l & [tr Ht]%handle_exec & _).
  by exists tr, l, (exit_status r).
Qed.

(** What a run has done so far, in any session, is the start of the
    run in the session that the user ends after as many ticks as calls
    were made. *)
Lemma main_tree_so_far argv c s tr l :
  reach (@library_step) (main_tree (F := F) argv) (boot c s) tr l ->
  exists tr' r,
    tr `prefix_of` tr' /\ main_calls (F := F) argv r tr' /\ conforms tr'.
Proof.
  intros Hr.
  destruct (reach_simulation (@library_step) (@library_step) (within (length tr))
              (library_step_within (length tr)) _ _ _ _ Hr
              (boot c (cut (length tr) s))) as [l2 Hr2];
    [split; [done|cbn; lia]|].
  destruct (main_tree_record argv c (cut (length tr) s) (cut_has_end _ _))
    as (tr' & l' & r & Ht & Hcalls & Hconf).
  exists tr', r. split_and!; [|done..]. by eapply reach_exec_prefix.
Qed.

(** C13: the calls of every run of [main] against a lawful display
    whose window was not asked to close, for every command line, are
    those that [main_calls] describes, with their answers and in their
    order: a command line that is refused writes its messages and
    makes no call to the library; a fault comes before every call; a
    set-up that fails makes the calls of the set-up up to the failure,
    requests the close when the library exists, and writes the error
    that [mlx_strerror] answers; a run that succeeds sets the library,
    the image and the window up, renders the first frame, registers
    the hook, runs the loop tick by tick (the three keys in the order
    escape, up, down, a whole frame with the new zoom after each arrow
    key found down, no tick after a tick with escape down) and
    terminates the library last.  A frame is the 512 by 512 pixels of
    the image, the columns from the left to the right and each column
    from the top down, each pixel put once with the colour of its
    point, the width read before every column and the height before
    every pixel.  Against the library of [Library], the calls that a
    run has made so far, in a session with or without an end, are the
    first calls of such a record. *)
Theorem main_tree_calls argv :
  (forall (L : Type) (D : Display L) (DL : DisplayLaws L) (l l' : L) tr
          (r : result Z),
     display_closed l = false ->
     exec (@display_step L D) (main_tree (F := F) argv) l tr l' r ->
     main_calls (F := F) argv r tr) /\
  (forall c s tr l,
     reach (@library_step) (main_tree (F := F) argv) (boot c s) tr l ->
     exists tr' r, tr `prefix_of` tr' /\ main_calls (F := F) argv r tr').
Proof.
  split.
  - intros L D DL l l' tr r Hopen Ht.
    exact (display_record argv l l' tr r Hopen Ht).
  - intros c s tr l Hr.
    destruct (main_tree_so_far argv c s tr l Hr) as (tr' & r & ? & ? & _).
    by exists tr', r.
Qed.

(** C16: [main] calls the library as its protocol requires, on every
    command line, whatever the library answers and in every session,
    with or without an end: at every point of a run the calls made so
    far follow the protocol.  [mlx_init] comes first, the image is
    used only once [mlx_new_image] has succeeded, every pixel is put
    inside the image, and nothing is called after [mlx_terminate].
    When the run ends, the library is terminated exactly when [main]
    returns [EXIT_SUCCESS]: a set-up that fails after [mlx_init] has
    succeeded leaves the library up. *)
Theorem main_tree_conforms argv c s :
  (forall tr l,
     reach (@library_step) (main_tree (F := F) argv) (boot c s) tr l ->
     conforms tr) /\
  (forall tr l (r : result Z),
     exec (@library_step) (main_tree (F := F) argv) (boot c s) tr l r ->
     exists ph, protocol_run Down tr = Some ph /\
       (ph = Over <-> r = Ok EXIT_SUCCESS)).
Proof.
  split.
  - intros tr l Hr.
    destruct (main_tree_so_far argv c s tr l Hr) as (tr' & r & [rest ->] & _ & Hc).
    by eapply conforms_prefix.
  - intros tr l r Ht. apply (main_calls_conform argv).
    exact (display_record argv (boot c s) l tr r eq_refl Ht).
Qed.

End Runs.

(** ** Witnesses *)

Lemma main_tree_calls_witness :
  exists tr l,
    exec (@library_step) (main_tree (F := float) mandelbrot_50)
      (boot up_then_escape escape_at_1) tr l (Ok EXIT_SUCCESS) /\
    main_calls (F := float) mandelbrot_50 (Ok EXIT_SUCCESS) tr.
Proof.
  destruct (main_tree_status_record (F := float) mandelbrot_50 up_then_escape
              escape_at_1) as (tr & l & status & Ht & Hiff);
    [done|solve_valid_args|apply escape_at_1_covers|].
  assert (status = EXIT_SUCCESS) as ->.
  { apply Hiff. destruct mandelbrot_50_accepted as (? & _ & ? & -> & ?).
    split_and!; [done|by eexists|done..]. }
  exists tr, l. split; [done|].
  exact (proj1 (main_tree_calls (F := float) mandelbrot_50) library _ _
           (boot up_then_escape escape_at_1) l tr (Ok EXIT_SUCCESS) eq_refl Ht).
Defined.

Lemma main_tree_conforms_witness :
  exists l,
    reach (@library_step) (main_tree (F := float) mandelbrot_50)
      (boot up_then_escape idle)
      [init_call true; new_image_call true; to_window_call true] l /\
    conforms [init_call true; new_image_call true; to_window_call true].
Proof.
  assert (exists l,
    reach (@library_step) (main_tree (F := float) mandelbrot_50)
      (boot up_then_escape idle)
      [init_call true; new_image_call true; to_window_call true] l) as [l Hr].
  { destruct mandelbrot_50_accepted as (_ & _ & Hp & Hcap & _).
    eexists. unfold main_tree. rewrite Hp, Hcap. cbn [Z.ltb Z.leb Z.compare length
      Z.of_nat Pos.of_succ_nat Pos.succ Pos.compare Pos.compare_cont].
    eapply (reach_rbind _ _ _ _ []); [apply exec_pure|].
    unfold start_tree.
    do 3 (eapply (reach_rbind _ _ _ _ [_]); [apply exec_call|cbn]).
    apply reach_here. }
  exists l. split; [done|]. exact (proj1 (main_tree_conforms _ _ _) _ _ Hr).
Defined.
