(* ===== verification/Session.v ===== *)
(** * Session: the record of a run is that of the ticks of its session

    Against the library of [Library] the keys that the program is
    answered are those of the session.  The record of a run that
    succeeds is therefore a function of the command line and of the
    ticks of the session up to the first with escape down:
    [success_calls] of [Order] at these ticks.  The proof reads the
    record without the tree, by [answered] of [Exec]: the calls other
    than the poll and the request to close leave the session, the
    number of the next tick, the keys and the close request of the
    library as they are. *)

From ITree Require Import ITree ITreeFacts Events.State Events.StateFacts.
From Stdlib Require Import Floats String.
From S2P Require Import Prelude MachInt Scalar Complex Escape Color.
From S2P Require Import CString Atoi Output Image Render Hook Trees Hoare Exec.
From S2P Require Import Main Calls Display Library TreeRender TreeLoop Interaction.
From S2P Require Import Order Protocol.

(** The calls that are not the poll of the loop and not the request to
    close. *)
Definition quiet (c : entry mlxE) : Prop :=
  match entry_call c with
  | Mlx_poll | Mlx_close_window => False
  | _ => True
  end.

(** From [l] to [l'] the library has not moved in its session: the
    session, the number of the next tick, the keys and the close
    request are the same. *)
Record waits (l l' : library) : Prop := {
  waits_ticks : lib_ticks l' = lib_ticks l;
  waits_now : lib_now l' = lib_now l;
  waits_keys : lib_keys l' = lib_keys l;
  waits_closed : lib_closed l' = lib_closed l;
}.

#[export] Instance waits_preorder : PreOrder waits.
Proof.
  split; [by split|]. intros l1 l2 l3 [] []. split; congruence.
Qed.

(** ** Sessions *)

Section Sessions.
Implicit Types (s : session) (k : keys) (input : list keys).

Lemma ticks_run_idem input : ticks_run (ticks_run input) = ticks_run input.
Proof.
  induction input as [|k input IH]; [done|]. cbn.
  destruct (key_escape k) eqn:He; cbn; by rewrite He, ?IH.
Qed.

Lemma covers_proper s s' input : s = s' -> covers s input -> covers s' input.
Proof. by intros ->. Qed.

(** The run of a session is unique: lists that cover a session have
    the same ticks up to the first with escape down. *)
Lemma covers_ticks_run s input input' :
  covers s input -> covers s input' -> ticks_run input' = input' ->
  ticks_run input = input'.
Proof.
  revert s input. induction input' as [|k' input' IH]; intros s input.
  - intros [Hpre _] [_ [?|Hend]] _; [done|]. destruct input as [|k input]; [done|].
    specialize (Hpre 0%nat k eq_refl). cbn in *. congruence.
  - intros [Hpre Hend] [Hpre' Hend'] Hrun.
    pose proof (Hpre' 0%nat k' eq_refl) as Hk'.
    destruct input as [|k input]; [destruct Hend; cbn in *; congruence|].
    pose proof (Hpre 0%nat k eq_refl) as Hk. assert (k = k') as -> by congruence.
    cbn in *. destruct (key_escape k') eqn:He; [done|]. f_equal.
    apply (IH (s ∘ S)); [split|split|congruence].
    + intros i k. apply (Hpre (S i)).
    + done.
    + intros i k. apply (Hpre' (S i)).
    + done.
Qed.

End Sessions.

(** ** The answers of the library *)

Section Answers.
Context {F : Type} `{Scalar F}.
Implicit Types (l : library) (p : config F) (k : keys) (input : list keys)
  (tr : calls).

Lemma quiet_waits (c : entry mlxE) l :
  quiet c -> waits l (fst (library_step (entry_call c) l)).
Proof.
  destruct c as [T [] a]; try done; cbn; intros _; try done.
  - by destruct (new_image_ok _).
  - by destruct (mlx_put_pixel _ _ _ _).
Qed.

(** Quiet calls leave the library where it is in its session. *)
Lemma quiet_answered l tr l' :
  Forall quiet tr -> answered (@library_step) l tr l' -> waits l l'.
Proof.
  intros Htr Ha. apply (answered_kept (@library_step) (waits l) l tr l');
    [|done..].
  eapply Forall_impl; [exact Htr|]. intros c Hc l1 Hl1.
  etrans; [exact Hl1|by apply quiet_waits].
Qed.

Lemma frame_calls_quiet p w h : Forall quiet (frame_calls p w h).
Proof. apply frame_calls_Forall. by intros [T [] a]. Qed.

Lemma arrow_calls_quiet w h (down : bool) (f : F -> F) p :
  Forall quiet (arrow_calls w h down f p).
Proof. destruct down; [apply frame_calls_quiet|constructor]. Qed.

(** The request to close, when it is made, closes the window and
    changes nothing else of the session. *)
Lemma close_answered (escape : bool) l l' :
  answered (@library_step) l (close_calls escape) l' ->
  lib_ticks l' = lib_ticks l /\ lib_now l' = lib_now l /\
  lib_keys l' = lib_keys l /\ lib_closed l' = lib_closed l || escape.
Proof.
  destruct escape; cbn; [intros [_ ->]|intros ->]; cbn;
    by rewrite ?orb_true_r, ?orb_false_r.
Qed.

(** The keys of a tick are those that the library holds. *)
Lemma tick_answered w h p k l l' :
  answered (@library_step) l (tick_calls w h p k) l' ->
  k = lib_keys l /\ lib_ticks l' = lib_ticks l /\ lib_now l' = lib_now l /\
  lib_closed l' = lib_closed l || key_escape k.
Proof.
  unfold tick_calls, key_call. intros [He Ha]%answered_cons.
  apply answered_app in Ha as (l1 & (Ht1 & Hn1 & Hk1 & Hc1)%close_answered & Ha).
  apply answered_cons in Ha as [Hu Ha].
  apply answered_app in Ha as (l2 & Hw2 & Ha).
  apply quiet_answered in Hw2 as [Ht2 Hn2 Hk2 Hc2]; [|apply arrow_calls_quiet].
  apply answered_cons in Ha as [Hd Ha].
  apply quiet_answered in Ha as [Ht3 Hn3 Hk3 Hc3]; [|apply arrow_calls_quiet].
  cbn [entry_type entry_call entry_answer library_step fst snd key_state] in *.
  split_and!; [|congruence..].
  rewrite Hk2, Hk1 in Hd. rewrite Hk1 in Hu.
  destruct k, (lib_keys l). cbn in *. congruence.
Qed.

(** A poll that goes on takes the next tick of the session. *)
Lemma poll_true l :
  snd (poll l) = true ->
  exists k, lib_ticks l (lib_now l) = Some k /\ lib_closed l = false /\
    fst (poll l) = set_tick l k (S (lib_now l)).
Proof.
  unfold poll. destruct (lib_closed l); [done|].
  destruct (lib_ticks l (lib_now l)) as [k|]; [|done]. by exists k.
Qed.

(** A poll that ends the loop finds the window closed or the session
    over. *)
Lemma poll_false l :
  snd (poll l) = false ->
  lib_closed l = true \/ lib_ticks l (lib_now l) = None.
Proof.
  unfold poll. destruct (lib_closed l); [by left|].
  destruct (lib_ticks l (lib_now l)) as [k|]; [done|by right].
Qed.

(** The ticks of the loop are those of the session from the current
    one on. *)
Lemma ticks_answered w h input : forall p l l',
  answered (@library_step) l (ticks_calls w h p input) l' ->
  lib_closed l = false -> ticks_run input = input ->
  (forall i k, input !! i = Some k ->
     lib_ticks l (lib_now l + i)%nat = Some k) /\
  lib_ticks l' = lib_ticks l /\ lib_now l' = (lib_now l + length input)%nat /\
  lib_closed l' = existsb key_escape input.
Proof.
  induction input as [|k input IH]; intros p l l'.
  { cbn. intros -> Hc _. by rewrite Nat.add_0_r. }
  cbn [ticks_calls]. intros [Hpoll Ha]%answered_cons Hopen Hrun.
  cbn [entry_type entry_call entry_answer library_step] in Hpoll, Ha.
  destruct (poll_true l) as (k0 & Hk0 & _ & Hl0); [done|]. rewrite Hl0 in Ha.
  apply answered_app in Ha as (l1 & (-> & Ht1 & Hn1 & Hc1)%tick_answered & Ha).
  cbn in Ht1, Hn1, Hc1. rewrite Hopen in Hc1. cbn in Hrun, Hc1 |- *.
  destruct (key_escape k0) eqn:He.
  - injection Hrun as <-. cbn in Ha. subst l'. rewrite Ht1, Hn1, Hc1.
    split_and!; [|done|cbn; lia|done].
    intros [|i] k; [|done]. intros [= <-]. by rewrite Nat.add_0_r.
  - injection Hrun as Hrun.
    destruct (IH _ _ _ Ha Hc1 Hrun) as (Hpre & Ht & Hn & Hc).
    rewrite Ht, Hn, Hc, Ht1, Hn1. split_and!; [|done|cbn; lia|done].
    intros [|i] k; [intros [= <-]; by rewrite Nat.add_0_r|].
    intros Hi%Hpre. rewrite <- Hi, Ht1, Hn1. f_equal. lia.
Qed.

(** The ticks of the loop of a library at its first tick are a run of
    its session. *)
Lemma loop_answered w h p input l l' :
  answered (@library_step) l (loop_calls w h p input) l' ->
  lib_closed l = false -> lib_now l = 0%nat -> ticks_run input = input ->
  covers (lib_ticks l) input.
Proof.
  unfold loop_calls.
  intros (l1 & Ha & [Hpoll _]%answered_cons)%answered_app Hopen Hnow Hrun.
  destruct (ticks_answered _ _ _ _ _ _ Ha Hopen Hrun) as (Hpre & Ht & Hn & Hc).
  rewrite Hnow in *. split; [done|].
  cbn [entry_type entry_call entry_answer library_step] in Hpoll.
  destruct (poll_false l1) as [Hclosed|Hend]; [done|left; congruence|right].
  by rewrite Ht, Hn in Hend.
Qed.

(** The loop of a run that succeeds starts at the first tick of the
    session, with the window open. *)
Lemma success_answered c s (fr lp : calls) l' :
  Forall quiet fr ->
  answered (@library_step) (boot c s)
    (init_call true :: new_image_call true :: to_window_call true ::
     fr ++ Entry unit Mlx_loop_hook tt :: lp ++ [Entry unit Mlx_terminate tt]) l' ->
  exists l1 l2, waits (boot c s) l1 /\ answered (@library_step) l1 lp l2.
Proof.
  intros Hfr.
  replace (init_call true :: new_image_call true :: to_window_call true ::
           fr ++ Entry unit Mlx_loop_hook tt :: lp ++ [Entry unit Mlx_terminate tt])
    with (([init_call true; new_image_call true; to_window_call true] ++ fr ++
           [Entry unit Mlx_loop_hook tt]) ++ lp ++ [Entry unit Mlx_terminate tt])
    by (by rewrite <- !app_assoc).
  intros (l1 & Hw & (l2 & Ha & _)%answered_app)%answered_app.
  exists l1, l2. split; [|done]. revert Hw. apply quiet_answered.
  repeat first [apply Forall_app; split|apply Forall_cons; split]; done.
Qed.

(** C14: against the library, the calls of a run of [main] that returns
    [EXIT_SUCCESS] are those of [success_calls] for the fractal type
    and the cap of the command line and the ticks of the session up to
    the first with escape down, whichever list of ticks covers the
    session: the set-up, the first frame at zoom 1, the registration
    of the hook, for each tick of the session the poll, the three keys
    with the answers of the tick, the close request when escape is
    down and a frame with the new zoom after each arrow key that is
    down, then the poll that ends the loop and [mlx_terminate].  The
    keys that the program is answered are those of the session, and
    the record of the run is determined by the command line and the
    session. *)
Theorem main_tree_session argv c s input tr l :
  covers s input ->
  exec (@library_step) (main_tree (F := F) argv) (boot c s) tr l
    (Ok EXIT_SUCCESS) ->
  exists t,
    parse_fractal_type (nth 1 argv []) = Ok (Some t) /\
    0 < ft_atoi (nth 2 argv []) /\
    tr = success_calls (F := F) t (ft_atoi (nth 2 argv [])) (ticks_run input).
Proof.
  intros Hs Ht.
  pose proof (display_record argv (boot c s) l tr _ eq_refl Ht) as Hcalls.
  inversion Hcalls as [| | | | |t status tr' _ Hp Hcap Hstart]; subst.
  exists t. split_and!; [done..|].
  inversion Hstart as [| | |input0 Hstatus Htr]; subst.
  enough (ticks_run input = ticks_run input0) as -> by reflexivity.
  apply exec_answered in Ht. unfold success_calls in Ht.
  apply success_answered in Ht as (l1 & l2 & [Ht1 Hn1 _ Hc1] & Ha);
    [|apply frame_calls_quiet].
  apply (covers_ticks_run s); [done| |apply ticks_run_idem].
  apply (covers_proper (lib_ticks l1)); [by rewrite Ht1|].
  apply (loop_answered _ _ _ _ l1 l2 Ha);
    [exact Hc1|exact Hn1|apply ticks_run_idem].
Qed.

End Answers.

(** ** Witnesses *)

Lemma main_tree_session_witness :
  exists tr l,
    exec (@library_step) (main_tree (F := float) mandelbrot_50)
      (boot up_then_escape escape_at_1) tr l (Ok EXIT_SUCCESS) /\
    tr = success_calls (F := float) 0 50
           [mkKeys false true false; mkKeys true false false].
Proof.
  destruct (main_tree_status_record (F := float) mandelbrot_50 up_then_escape
              escape_at_1) as (tr & l & status & Ht & Hiff);
    [done|solve_valid_args|apply escape_at_1_covers|].
  destruct mandelbrot_50_accepted as (Hlen & _ & Hp & Hcap & Hok).
  assert (status = EXIT_SUCCESS) as ->.
  { apply Hiff. rewrite Hcap. split_and!; [done|by eexists|done..]. }
  exists tr, l. split; [done|].
  destruct (main_tree_session mandelbrot_50 up_then_escape escape_at_1
              (ticks up_then_escape) tr l escape_at_1_covers Ht)
    as (t & Hp' & _ & Htr).
  rewrite Hcap in Htr. assert (t = 0) as -> by congruence. exact Htr.
Defined.
